(* ===== verification/_CoqProject ===== *)
-Q . S2P
Prelude.v
JsLib.v
Base64.v
Text.v
Json.v
Crypto.v
Uri.v
Timers.v
KeyRotator.v
Mime.v
MediaSend.v
MediaAssembler.v
MediaTransfer.v
Queue.v
Manager.v
Worker.v
WorkerServer.v
Lifecycle.v
Client.v
Rooms.v
Typing.v
RtcConfig.v
WebRTC.v
MeshHook.v
View.v
CallManager.v
Dom.v
JoinView.v
ChatView.v
Visualizer.v
AppState.v
App.v
AppFacts.v
AppDelivery.v
AppKeys.v
AppSafety.v
AppPage.v
AppUpload.v
AppUi.v
UiFacts.v
GoLib.v
Storage.v
Gateway.v
GatewayFacts.v
GatewayRuns.v
GatewayHttp.v
Conversation.v
Meeting.v
