(* ===== verification/Prelude.v ===== *)
(** * TrapChat: a verification development

    TrapChat is an end-to-end encrypted chat. The browser application
    (apps/trapchat/src) encrypts, keeps rooms and talks to a gateway over a
    WebSocket, and to other browsers over WebRTC; a worker
    (services/worker/src) takes jobs over HTTP, and cleans up idle rooms and
    forwards media through the gateway. This library models the JavaScript of
    application and worker and the Go of the gateway (services/gateway,
    pkgs/go), file by file, as pure functions over explicit states, and proves
    what makes each part, and the parts together, correct.

    ** The language and the platform

    - Prelude.v: thrown errors as a sum, tactics, hint databases, list lemmas.
    - JsLib.v: strings as lists of 16-bit units, [Map] and [Set] in insertion
      order. Json.v: values, [JSON.parse] and [JSON.stringify] with their
      round trip. Text.v: UTF-16 and UTF-8. Base64.v: [btoa], [atob]. Uri.v:
      [trim], [split], the URI codec. Timers.v: a clock with pending timers,
      which may fire at any moment once they are due.
    - WebCrypto is the class [WebCrypto] of Crypto.v, its documented
      behaviour the class [WebCryptoLaws]; a toy instance satisfies both and
      serves every witness. The URL and date parsers, [randomUUID], hashes and
      random numbers are parameters.

    A function that awaits is cut into the segments between its awaits, and
    the state holds the calls that are suspended, so that a run is any
    interleaving of segments, timers, network events and user actions. Objects
    that several calls share live in heaps. A React callback reads the state of
    the last render, and a handler that was registered once goes on reading
    the render it was made in.

    ** The worker

    - Queue.v: queue.js. Manager.v: manager.js, the poll loop as a coroutine,
      several at once if [stop] and [start] overlap. Theorems: no job is lost
      or duplicated, at most three tries, the back-off, the loop stays alive.
    - Worker.v: worker.js, [processJob] as a program over the requests it
      makes. Theorems: requests stay under the validated gateway URL; a room
      is cleaned only on evidence that it is over.
    - WorkerServer.v: index.js over queue and manager. Theorems: job status,
      authentication, callbacks, the rate limit. Lifecycle.v: the process,
      logger.js, signals and the shutdown: what a signal stops, and when the
      process may and must end.

    ** The application

    - Crypto.v and KeyRotator.v: lib/crypto.js. Round trips of messages and
      media, key derivation; both keys work for the grace period, then one.
    - Mime.v, MediaSend.v, MediaAssembler.v, MediaTransfer.v: lib/media.js.
      A file arrives in any order of its chunks, duplicated, and under any
      interleaving of the calls that handle them; memory is bounded.
    - Client.v: socket/client.js. Offline messages go out in order, one socket
      at a time, the schedule of reconnections.
    - Rooms.v: hooks/useRoomManager.js. Messages and blob URLs are conserved,
      appending is a sliding window (equivalence), share links, the key of a
      room on every branch.
    - Typing.v: hooks/useTypingIndicator.js, bisimilar to a table of deadlines
      (the refinement theorem, in both directions) for every name but one.
    - WebRTC.v: lib/webrtc.js. ICE candidates are conserved, a flush ends,
      meshes do not leak. MeshHook.v: hooks/useWebRTCMesh.js, one initiator.
    - CallManager.v: hooks/useCallManager.js, what [endCall] does, and what the
      local video element plays.
    - RtcConfig.v: the ICE servers of lib/webrtc.js.
    - AppState.v: hooks/useKeyRotation.js and hooks/useMediaTransfer.js over
      the state of all the hooks. App.v: the handlers of App.jsx, and
      [app_exec], every event the application can meet. AppFacts.v: chat from
      one user's input to another's screen, re-keying, leaving. AppDelivery.v:
      over any run, every chat message that reaches the handlers is in one place
      at a time, up to its decryption. AppKeys.v: one passphrase, one key,
      whichever salt is announced. AppUpload.v: a file is sent as [sendMedia]
      sends it, whatever happens between its chunks (a refinement).

    ** The page

    - View.v: room names, notifications, countdown and canvas.
    - Dom.v: elements, handlers, bubbling, submitting: what a user's event on
      a document calls. JoinView.v and ChatView.v: the documents of JoinView.jsx
      and ChatView.jsx, and that their events make the calls they are for, all
      of them and no others. Visualizer.v: AudioVisualizer.jsx, its audio
      contexts and frames.
    - AppUi.v: [App] as React renders it: the props of the views from the state
      of the last render, what each call does, the effects of a commit, and
      [ui_exec], every event of an open page. The page can always be shown and
      loads nothing a peer chose (AppSafety.v has the invariant of the rooms).
      UiFacts.v: an element that shows a message reports it as read once
      (AppPage.v: what the steps leave alone).

    ** The gateway

    - GoLib.v: what it uses of Go's library: strings, JSON in and out of
      structs, base64, on the same strings as the JavaScript.
    - Storage.v: pkgs/go/storage, the rooms. Gateway.v: main.go, protocol.go
      and the signatures of crypto.go. A goroutine is a program of critical
      sections, a run any interleaving of the goroutines' sections, the write
      pumps, the network and time.
    - GatewayFacts.v: what holds in every interleaving, by rely and guarantee:
      every section keeps the invariant, and the facts a goroutine relies on
      are stable under the others. Theorems: bounds of queues, rooms and
      limiters; what is written to a connection comes from the member it names.
    - GatewayRuns.v: what an uninterrupted handler does, as equations; the
      limiters' bounds, and what they refuse of a file sent at the client's own
      pace; what a signature covers.
    - GatewayHttp.v: the endpoints that list rooms, tell of one, clean it up or
      broadcast in it, with the bearer token and their paths. Theorems: the
      worker's cleanup against them only concerns rooms that are over or gone;
      where a token is set it cleans nothing, for it sends none.
    - Conversation.v: the programs together. From one user's input over the
      sender's application, its socket, the gateway and the receiver's queue to
      the other user's screen.
    - Meeting.v: two members join a room by passphrase through the gateway, and
      end with one key: from the join messages over the salt the gateway keeps
      to the announcements the applications read.

    Each file ends with a module of examples: the witnesses of its theorems
    and closed runs, among them the ones that show the program going wrong
    (a rotation that reaches nobody, a received file that is not shown, a third
    member who misses a message, a call that never stops ending, a peer who
    takes the page down, a gateway that ends when a room's time is up).

    ** Bounds and fuel

    Recursion is structural, with five exceptions. The fuel of the printer of
    numbers is their count of binary digits; of the parser of JSON, twice the
    length of its input and one, enough for what is printed
    ([JSON_parse_stringify]); of the eviction of dead letters and of the split
    of a payload, the length of the list; of [setup_run], the second [await] of
    [setupRoomKey], after which there is none. Each is proved enough where it is
    used. The limits of the program (500 messages, 5 rooms, 200 waiting
    messages, 20 reconnections, 1000 dead letters, 25 MB) are the program's
    constants. Numbers are integers, none of which leaves the 53 bits, but for
    the lengths of Visualizer.v, which are rationals.

    ** What the model merges

    A render and its passive effects are one step: [commit] moves the refs of
    useRoomManager.js together with what the page shows, where React runs the
    effects a moment after it has painted. Between a change of the state and the
    next commit the refs do lag, as in the code; between the paint and the
    effects nothing comes in. An [await] of a promise that a function of the
    program returns is not a suspension of its own, beyond those inside that
    function. What a candidate's constructor refuses in webrtc.js is handed to
    the platform and refused by it. JSON numbers are whole: where a peer could
    send others, the theorem says which messages it is about
    ([protocol_message] of MediaAssembler.v).

    ** Not modelled

    Styles, labels for assistive technology, scrolling, the streams that the
    remote video elements play, and the pixels of the canvas the user draws on; main.jsx,
    which mounts [App]. The QR code's picture, the clock's text and object URLs
    are the platform's. Of the gateway: health, metrics and the
    origins, dialing relays, jobs for the worker, pings and the shutdown. The relay is a third program, in Rust; what it sends is
    any text. Inside the application a media chunk that is received runs
    without interruption; MediaTransfer.v has the interleavings. *)

From stdpp Require Export prelude gmap strings list fin_maps.
From Stdlib Require Export ZArith Lia.

(** ** Automation *)

(** The hint database of the facts every component shares, and the rewrite
    database of the equations that normalise the models. *)
Create HintDb trapchat.
Create Rewrite HintDb trapchat.

(** [break] analyses every [match], [if] and [decide] of the goal and the
    hypotheses and closes the contradictory branches. *)
Ltac break :=
  simplify_eq/=;
  repeat (first [case_decide | case_bool_decide | case_match]; simplify_eq/=);
  try done.


(** [decided] proves a closed decidable proposition by computing it. *)
Ltac decided :=
  match goal with |- ?P => apply (bool_decide_unpack P); vm_compute; exact I end.

(** [vm_refl] proves a closed equation by the virtual machine, without reading
    the values back. *)
Ltac vm_refl := match goal with |- ?x = _ => vm_cast_no_check (eq_refl x) end.

(** [zdivs]: linear arithmetic with divisions by constants. *)
Ltac zdivs := Z.div_mod_to_equations; lia.

(** ** JavaScript results: a value, or a thrown error *)

(** A JavaScript string is the list of its 16-bit code units, a byte buffer
    ([Uint8Array], [Buffer]) the list of its bytes. *)
Abbreviation jsstr := (list Z).
Abbreviation bytes := (list Z).

Inductive result (A : Type) : Type :=
  | Ok (a : A)
  | Throw (message : jsstr).
Arguments Ok {A} a.
Arguments Throw {A} message.

Global Instance result_ret : MRet result := @Ok.
Global Instance result_bind : MBind result := λ A B k m,
  match m with Ok a => k a | Throw e => Throw e end.
Global Instance result_fmap : FMap result := λ A B f m,
  match m with Ok a => Ok (f a) | Throw e => Throw e end.

(** A promise that rejects where [o] is [None], with message [e]. *)
Definition of_option {A} (e : jsstr) (o : option A) : result A :=
  match o with Some a => Ok a | None => Throw e end.

(** [try { a } catch { b }]: the error is dropped. *)
Definition try_catch {A B} (m : result A) (k : A → B) (h : B) : B :=
  match m with Ok a => k a | Throw _ => h end.

Definition is_ok {A} (m : result A) : bool :=
  match m with Ok _ => true | Throw _ => false end.

Lemma bind_Ok {A B} (k : A → result B) (m : result A) (b : B) :
  m ≫= k = Ok b ↔ ∃ a, m = Ok a ∧ k a = Ok b.
Proof. destruct m; cbn; naive_solver. Qed.

Lemma of_option_Ok {A} e (o : option A) a : of_option e o = Ok a ↔ o = Some a.
Proof. destruct o; cbn; naive_solver. Qed.

(** ** Byte buffers and integers *)

Definition is_byte (z : Z) : Prop := (0 ≤ z < 256)%Z.
Definition is_unit (z : Z) : Prop := (0 ≤ z < 65536)%Z.
Global Instance is_byte_dec z : Decision (is_byte z).
Proof. unfold is_byte; apply _. Defined.
Global Instance is_unit_dec z : Decision (is_unit z).
Proof. unfold is_unit; apply _. Defined.

Lemma is_byte_unit z : is_byte z → is_unit z.
Proof. unfold is_byte, is_unit; lia. Qed.

Lemma bytes_units (l : list Z) : Forall is_byte l → Forall is_unit l.
Proof. intros H; eapply Forall_impl; [exact H | apply is_byte_unit]. Qed.

#[export] Hint Resolve is_byte_unit bytes_units : trapchat.

(** ** Lists *)

(** [list.slice(a, b)] for non-negative bounds. *)
Definition slice {A} (a b : nat) (l : list A) : list A := take (b - a) (drop a l).

Lemma length_slice_le {A} a b (l : list A) : length (slice a b l) ≤ b - a.
Proof. unfold slice. rewrite length_take. lia. Qed.

Lemma slice_all {A} b (l : list A) : length l ≤ b → slice 0 b l = l.
Proof. intros H. unfold slice. rewrite drop_0, take_ge; [done | lia]. Qed.

Lemma NoDup_snoc {A} (l : list A) x : NoDup l → x ∉ l → NoDup (l ++ [x]).
Proof.
  intros Hl Hx. apply NoDup_app; split_and!; [done | | apply NoDup_singleton].
  intros y Hy ->%list_elem_of_singleton. done.
Qed.

Lemma Forall_snoc {A} (P : A → Prop) l x : Forall P l → P x → Forall P (l ++ [x]).
Proof. intros Hl Hx. apply Forall_app; auto. Qed.

Lemma filter_none {A} (P : A → Prop) `{∀ x, Decision (P x)} l :
  Forall (λ x, ¬ P x) l → filter P l = [].
Proof. induction 1 as [|x l Hx _ IH]; [done|]. by rewrite filter_cons, decide_False. Qed.

(** A list that keeps the last [max] elements goes on doing so. *)
Lemma window_snoc {A} max (l keep : list A) x :
  keep = drop (length l - max) l →
  drop (S (length keep) - max) (keep ++ [x]) = drop (length (l ++ [x]) - max) (l ++ [x]).
Proof.
  intros ->. rewrite length_drop, length_app. cbn [length].
  destruct (decide (length l < max)).
  - replace (length l - max) with 0 by lia. replace (S (length l - 0) - max) with 0 by lia.
    by replace (length l + 1 - max) with 0 by lia.
  - rewrite <- drop_app_le by lia. rewrite drop_drop. f_equal. lia.
Qed.

(** What is cut from the front, and what stays, when the list grows by one. *)
Lemma cut_snoc {A} max (l : list A) x :
  let n := length l - max in let k := S (length (drop n l)) - max in
  take n l ++ take k (drop n l ++ [x]) = take (S (length l) - max) (l ++ [x]) ∧
  drop k (drop n l ++ [x]) = drop (S (length l) - max) (l ++ [x]).
Proof.
  intros n k. assert (S (length l) - max = n + k) as -> by (unfold n, k; rewrite length_drop; lia).
  assert (n ≤ length l) as Hn by (unfold n; lia).
  rewrite <- (drop_app_le l [x]) by done. split.
  - rewrite <- (take_app_le l [x]) by done. by rewrite take_take_drop.
  - apply drop_drop.
Qed.

(** What is collected from a list, when one element changes. *)
Lemma bind_insert_Permutation {A B} (f : A → list B) (l : list A) i x y :
  l !! i = Some x → (<[i := y]> l ≫= f) ++ f x ≡ₚ (l ≫= f) ++ f y.
Proof.
  revert i. induction l as [|u l IH]; intros [|i] Hi; cbn in *; try done.
  - injection Hi as ->. solve_Permutation.
  - rewrite <- !app_assoc, IH by done. done.
Qed.

Lemma elem_of_drop_sub {A} n (l : list A) x : x ∈ drop n l → x ∈ l.
Proof. intros Hx. rewrite <- (take_drop n l). apply elem_of_app. by right. Qed.

#[export] Hint Resolve NoDup_snoc Forall_snoc : trapchat.
