(* ===== verification/JsLib.v ===== *)
(** * The JavaScript values the program is written with

    Strings are lists of code units ([lit] writes a literal), [Map] and [Set]
    are insertion-ordered association lists: [Map.set] on a present key keeps
    its position and [keys().next()] is the oldest entry, which is what the
    eviction code of the worker relies on. *)

From S2P Require Import Prelude.

Local Open Scope Z_scope.

(** ** Strings *)

Definition lit (s : string) : jsstr :=
  (λ c, Z.of_N (Ascii.N_of_ascii c)) <$> String.list_ascii_of_string s.
Arguments lit _%_string_scope.

(** The falsy test of a string: [!s]. *)
Definition str_empty (s : jsstr) : bool := match s with [] => true | _ => false end.

(** [s || d]. *)
Definition str_or (s d : jsstr) : jsstr := match s with [] => d | _ => s end.

Fixpoint starts_with (pre s : jsstr) : bool :=
  match pre, s with
  | [], _ => true
  | c :: pre', d :: s' => bool_decide (c = d) && starts_with pre' s'
  | _ :: _, [] => false
  end.

(** [o !== undefined]. *)
Definition is_some {A} (o : option A) : bool := match o with Some _ => true | None => false end.

(** [arr.includes(s)] on an array of strings. *)
Definition includes (arr : list jsstr) (s : jsstr) : bool := existsb (λ x, bool_decide (x = s)) arr.

Lemma starts_with_spec pre s : starts_with pre s = true ↔ ∃ t, s = pre ++ t.
Proof.
  revert s; induction pre as [|c pre IH]; intros [|d s]; cbn.
  - naive_solver.
  - naive_solver.
  - split; [done | intros [? [=]]].
  - rewrite andb_true_iff, bool_decide_eq_true, IH.
    split; [intros [-> [t ->]]; by exists t | intros [t [= -> ->]]; eauto].
Qed.

Lemma includes_spec arr s : includes arr s = true ↔ s ∈ arr.
Proof.
  unfold includes. rewrite existsb_exists. setoid_rewrite <- list_elem_of_In.
  setoid_rewrite bool_decide_eq_true. naive_solver.
Qed.

(** ** [Map]: insertion-ordered association lists *)

Section Map.
Context {K V : Type} `{EqDecision K}.
Implicit Types (m : list (K * V)) (k : K) (v : V).

Fixpoint map_get m k : option V :=
  match m with
  | [] => None
  | (k', v) :: m' => if decide (k = k') then Some v else map_get m' k
  end.

Fixpoint map_set m k v : list (K * V) :=
  match m with
  | [] => [(k, v)]
  | (k', v') :: m' => if decide (k = k') then (k', v) :: m' else (k', v') :: map_set m' k v
  end.

Fixpoint map_delete m k : list (K * V) :=
  match m with
  | [] => []
  | (k', v') :: m' => if decide (k = k') then m' else (k', v') :: map_delete m' k
  end.

Definition map_has m k : bool := match map_get m k with Some _ => true | None => false end.
Definition map_keys m : list K := m.*1.
Definition map_values m : list V := m.*2.

(** [m.keys().next().value]: the key inserted first. *)
Definition map_first_key m : option K := head (map_keys m).

(** Keys are unique: every map a program builds from [new Map()] is so. *)
Definition map_wf m : Prop := NoDup (map_keys m).

Lemma map_get_None m k : map_get m k = None ↔ k ∉ map_keys m.
Proof. induction m as [|[k' v'] m IH]; cbn; [set_solver|]. break; set_solver. Qed.

Lemma map_get_Some_elem m k v : map_get m k = Some v → (k, v) ∈ m.
Proof. induction m as [|[k' v'] m IH]; cbn; [done|]. break; set_solver. Qed.

Lemma map_elem_get m k v : map_wf m → (k, v) ∈ m → map_get m k = Some v.
Proof.
  unfold map_wf. induction m as [|[k' v'] m IH]; cbn; [set_solver|].
  intros [Hk Hnd]%NoDup_cons [[= -> ->]|H]%elem_of_cons; break; try done; [|auto].
  destruct Hk. apply list_elem_of_fmap. by exists (k', v).
Qed.

Lemma map_has_true m k : map_has m k = true ↔ k ∈ map_keys m.
Proof.
  unfold map_has. destruct (map_get m k) eqn:E.
  - split; [intros _ | done]. apply map_get_Some_elem in E.
    apply list_elem_of_fmap. by exists (k, v).
  - apply map_get_None in E. naive_solver.
Qed.

Lemma map_has_false m k : map_has m k = false ↔ k ∉ map_keys m.
Proof. rewrite <- map_has_true. by destruct (map_has m k); naive_solver. Qed.

Lemma map_get_set_eq m k v : map_get (map_set m k v) k = Some v.
Proof. induction m as [|[k' v'] m IH]; cbn; break; done. Qed.

Lemma map_get_set_ne m k k' v : k ≠ k' → map_get (map_set m k v) k' = map_get m k'.
Proof. intros Hne. induction m as [|[k1 v1] m IH]; cbn; break; done. Qed.

Lemma map_get_delete_ne m k k' : k ≠ k' → map_get (map_delete m k) k' = map_get m k'.
Proof. intros Hne. induction m as [|[k1 v1] m IH]; cbn; break; done. Qed.

Lemma map_keys_set m k v :
  map_keys (map_set m k v) = if map_has m k then map_keys m else map_keys m ++ [k].
Proof.
  unfold map_has. induction m as [|[k' v'] m IH]; cbn; [done|].
  destruct (decide (k = k')); cbn; [done|]. unfold map_keys in *; cbn. rewrite IH.
  by destruct (map_get m k).
Qed.

Lemma map_keys_delete m k : map_keys (map_delete m k) ⊆ map_keys m.
Proof. induction m as [|[k' v'] m IH]; cbn; [done|]. break; cbn; set_solver. Qed.

Lemma map_keys_delete_sublist m k : map_keys (map_delete m k) `sublist_of` map_keys m.
Proof.
  induction m as [|[k' v'] m IH]; cbn; [constructor|].
  break; cbn; by constructor.
Qed.

Lemma map_delete_not_in m k : k ∉ map_keys m → map_delete m k = m.
Proof.
  induction m as [|[k' v'] m IH]; cbn; [done|]. intros [Hk Hm]%not_elem_of_cons.
  rewrite decide_False by done. by rewrite IH.
Qed.

Lemma map_get_delete_eq m k : map_wf m → map_get (map_delete m k) k = None.
Proof.
  unfold map_wf. induction m as [|[k' v'] m IH]; cbn; [done|]. intros [Hk Hnd]%NoDup_cons.
  destruct (decide (k = k')); simplify_eq/=; [by apply map_get_None|].
  rewrite decide_False by done. auto.
Qed.

Lemma map_length_set m k v :
  length (map_set m k v) = if map_has m k then length m else S (length m).
Proof.
  assert (∀ l : list (K * V), length l = length (map_keys l)) as E
    by (intros l; unfold map_keys; by rewrite length_fmap).
  rewrite !E, map_keys_set. destruct (map_has m k); [done|].
  rewrite length_app; cbn; lia.
Qed.

Lemma map_length_delete m k :
  length (map_delete m k) = if map_has m k then pred (length m) else length m.
Proof.
  unfold map_has. induction m as [|[k' v'] m IH]; cbn; [done|].
  destruct (decide (k = k')); cbn; [done|]. rewrite IH.
  destruct (map_get m k) eqn:E; [|done].
  destruct m; cbn in *; [done | lia].
Qed.

Lemma map_wf_nil : map_wf [].
Proof. constructor. Qed.

Lemma map_wf_set m k v : map_wf m → map_wf (map_set m k v).
Proof.
  unfold map_wf. intros H. rewrite map_keys_set.
  destruct (map_has m k) eqn:E; [done|]. apply map_has_false in E. by apply NoDup_snoc.
Qed.

Lemma map_wf_delete m k : map_wf m → map_wf (map_delete m k).
Proof. unfold map_wf. intros H. eapply sublist_NoDup; [exact H | apply map_keys_delete_sublist]. Qed.

Lemma map_has_get m k : map_has m k = true ↔ is_Some (map_get m k).
Proof. unfold map_has. by destruct (map_get m k); split; try done; intros []. Qed.

Lemma map_has_set m k v k' : map_has (map_set m k v) k' = true ↔ k' = k ∨ map_has m k' = true.
Proof.
  rewrite !map_has_get. destruct (decide (k = k')) as [->|Hne].
  - rewrite map_get_set_eq. naive_solver.
  - rewrite map_get_set_ne by done. naive_solver.
Qed.

Lemma map_has_delete m k k' :
  map_wf m → map_has (map_delete m k) k' = true ↔ k' ≠ k ∧ map_has m k' = true.
Proof.
  intros Hw. rewrite !map_has_get. destruct (decide (k = k')) as [->|Hne].
  - rewrite map_get_delete_eq by done. split; [by intros []|naive_solver].
  - rewrite map_get_delete_ne by done. naive_solver.
Qed.

Lemma map_first_key_delete m k v m' :
  m = (k, v) :: m' → map_delete m k = m'.
Proof. intros ->; cbn. by rewrite decide_True. Qed.

Lemma map_set_get_id m k v : map_get m k = Some v → map_set m k v = m.
Proof. induction m as [|[k' v'] m IH]; cbn; [done|]. intros H. break; f_equal; auto. Qed.

Lemma map_set_set m k v v' : map_set (map_set m k v) k v' = map_set m k v'.
Proof.
  induction m as [|[k0 v0] m IH]; cbn; [by rewrite decide_True|].
  destruct (decide (k = k0)) as [E|E]; cbn.
  - by rewrite decide_True.
  - rewrite decide_False by done. by rewrite IH.
Qed.

(** [Map.set] then the whole map read back, in order. *)
Lemma map_set_fresh m k v : k ∉ map_keys m → map_set m k v = m ++ [(k, v)].
Proof.
  induction m as [|[k' v'] m IH]; cbn; [done|]. intros [Hk Hm]%not_elem_of_cons.
  rewrite decide_False by done. by rewrite IH.
Qed.

Lemma map_get_snoc m k v : k ∉ map_keys m → map_get (m ++ [(k, v)]) k = Some v.
Proof. intros H. rewrite <- (map_set_fresh m k v) by done. apply map_get_set_eq. Qed.

Lemma map_delete_snoc m k v : k ∉ map_keys m → map_delete (m ++ [(k, v)]) k = m.
Proof.
  induction m as [|[k' v'] m IH]; intros H.
  - cbn. by rewrite decide_True.
  - cbn [map_keys fmap list_fmap] in H. apply not_elem_of_cons in H as [Hk Hm].
    cbn. rewrite decide_False by done. by rewrite IH.
Qed.
End Map.

(** Two maps with the same keys in the same order keep them so. *)
Lemma map_keys_delete_eq {K V W} `{EqDecision K} (m : list (K * V)) (m' : list (K * W)) k :
  map_keys m = map_keys m' → map_keys (map_delete m k) = map_keys (map_delete m' k).
Proof.
  revert m'. induction m as [|[x v] m IH]; intros [|[x' v'] m'] H; try done.
  cbn in H. injection H as <- H. cbn. case_decide; [done|]. cbn. f_equal. by apply IH.
Qed.

(** What is collected from the values of a map, when one of them changes. *)
Section MapCollect.
Context {K V B : Type} `{EqDecision K} (f : V → list B).
Implicit Types (m : list (K * V)).

Definition map_collect m : list B := m ≫= λ x, f x.2.

Lemma map_collect_set_Some m k v v' :
  map_get m k = Some v → map_collect (map_set m k v') ++ f v ≡ₚ map_collect m ++ f v'.
Proof.
  unfold map_collect. induction m as [|[r x] m IH]; cbn; [done|]. case_decide as Hd.
  - intros [= ->]. cbn. solve_Permutation.
  - intros Hs. cbn. rewrite <- !app_assoc, IH by done. done.
Qed.

Lemma map_collect_set_None m k v' :
  map_get m k = None → map_collect (map_set m k v') = map_collect m ++ f v'.
Proof.
  intros Hn. apply map_get_None in Hn. rewrite map_set_fresh by done. unfold map_collect. rewrite bind_app. cbn.
  by rewrite app_nil_r.
Qed.

Lemma map_collect_delete m k v :
  map_get m k = Some v → f v ++ map_collect (map_delete m k) ≡ₚ map_collect m.
Proof.
  unfold map_collect. induction m as [|[r x] m IH]; cbn; [done|]. case_decide as Hd.
  - by intros [= ->].
  - intros Hs. cbn. rewrite <- (IH Hs). solve_Permutation.
Qed.
End MapCollect.

Lemma Forall_map_set {K V} `{EqDecision K} (P : K * V → Prop) (m : list (K * V)) k v :
  Forall P m → P (k, v) → (∀ k' v', P (k', v') ↔ P (k, v')) → Forall P (map_set m k v).
Proof.
  intros Hr Hs Hk. induction Hr as [|[k' v'] m Hkv Hr IH]; cbn; [by repeat constructor|].
  case_decide; constructor; try done. by apply Hk.
Qed.

Lemma Forall_map_delete {K V} `{EqDecision K} (P : K * V → Prop) (m : list (K * V)) k :
  Forall P m → Forall P (map_delete m k).
Proof. induction 1 as [|[k' v'] m Hkv Hr IH]; cbn; [constructor|]. case_decide; [done|by constructor]. Qed.

#[export] Hint Resolve map_wf_nil map_wf_set map_wf_delete : trapchat.
#[export] Hint Rewrite @map_get_set_eq : trapchat.
#[export] Hint Rewrite @map_get_set_ne @map_get_delete_ne using done : trapchat.

(** ** [Set]: insertion-ordered lists without duplicates *)

Section JsSet.
Context {K : Type} `{EqDecision K}.
Implicit Types (s : list K) (k : K).

Definition set_has s k : bool := bool_decide (k ∈ s).
Definition set_add s k : list K := if set_has s k then s else s ++ [k].
Fixpoint set_delete s k : list K :=
  match s with
  | [] => []
  | x :: s' => if decide (k = x) then s' else x :: set_delete s' k
  end.

Lemma set_has_true s k : set_has s k = true ↔ k ∈ s.
Proof. unfold set_has. apply bool_decide_eq_true. Qed.

Lemma set_add_elem s k x : x ∈ set_add s k ↔ x = k ∨ x ∈ s.
Proof. unfold set_add. destruct (set_has s k) eqn:E; [apply set_has_true in E|]; set_solver. Qed.

Lemma set_add_NoDup s k : NoDup s → NoDup (set_add s k).
Proof.
  unfold set_add, set_has. intros H. case_bool_decide; [done|]. by apply NoDup_snoc.
Qed.

Lemma set_delete_sublist s k : set_delete s k `sublist_of` s.
Proof. induction s as [|x s IH]; cbn; [constructor|]. break; by constructor. Qed.

Lemma set_delete_NoDup s k : NoDup s → NoDup (set_delete s k).
Proof. intros H. eapply sublist_NoDup; [exact H | apply set_delete_sublist]. Qed.

Lemma set_delete_elem s k x : NoDup s → x ∈ set_delete s k ↔ x ∈ s ∧ x ≠ k.
Proof.
  induction s as [|y s IH]; cbn; [set_solver|]. intros [Hy Hs]%NoDup_cons.
  specialize (IH Hs). break; set_solver.
Qed.
End JsSet.

#[export] Hint Resolve set_add_NoDup set_delete_NoDup : trapchat.
