(* ===== verification/Base64.v ===== *)
(** * Base64: [btoa]/[atob], the helpers of lib/crypto.js and Node's [Buffer]

    [btoa], [atob] (forgiving-base64 of the WHATWG specification) and Node's
    lenient [Buffer.from(s, 'base64')] are the platform's; [uint8ToBase64] and
    [base64ToUint8] are the program's, with their loops. *)

From S2P Require Import Prelude JsLib.

Local Open Scope Z_scope.

(** ** The alphabet *)

Definition b64_char (v : Z) : Z :=
  if v <? 26 then 65 + v else if v <? 52 then 71 + v else if v <? 62 then v - 4
  else if v =? 62 then 43 else 47.

Definition b64_val (c : Z) : option Z :=
  if (65 <=? c) && (c <=? 90) then Some (c - 65)
  else if (97 <=? c) && (c <=? 122) then Some (c - 71)
  else if (48 <=? c) && (c <=? 57) then Some (c + 4)
  else if c =? 43 then Some 62 else if c =? 47 then Some 63 else None.

Definition is_sextet (v : Z) : Prop := 0 ≤ v < 64.

Lemma b64_val_char v : is_sextet v → b64_val (b64_char v) = Some v.
Proof.
  intros Hv. unfold is_sextet in Hv.
  assert (Forall (λ z, b64_val (b64_char z) = Some z) (Z.of_nat <$> seq 0 64)) as H
    by (repeat constructor).
  rewrite Forall_forall in H. apply H.
  apply list_elem_of_fmap. exists (Z.to_nat v). split; [lia|]. apply elem_of_seq. lia.
Qed.

Lemma b64_val_pad : b64_val 61 = None.
Proof. done. Qed.

(** ** Encoding: three bytes make four sextets *)

Fixpoint sextets (l : bytes) : list Z :=
  match l with
  | a :: b :: c :: r =>
      a / 4 :: (a mod 4) * 16 + b / 16 :: (b mod 16) * 4 + c / 64 :: c mod 64 :: sextets r
  | [a; b] => [a / 4; (a mod 4) * 16 + b / 16; (b mod 16) * 4]
  | [a] => [a / 4; (a mod 4) * 16]
  | [] => []
  end.

Fixpoint b64_pad {A} (l : list A) : jsstr :=
  match l with
  | _ :: _ :: _ :: r => b64_pad r
  | [_; _] => [61]
  | [_] => [61; 61]
  | [] => []
  end.

Definition b64_encode (l : bytes) : jsstr := (b64_char <$> sextets l) ++ b64_pad l.

(** ** Decoding: four sextets make three bytes, leftover bits are dropped *)

Fixpoint unsextets (vs : list Z) : bytes :=
  match vs with
  | v1 :: v2 :: v3 :: v4 :: r =>
      v1 * 4 + v2 / 16 :: (v2 mod 16) * 16 + v3 / 4 :: (v3 mod 4) * 64 + v4 :: unsextets r
  | [v1; v2; v3] => [v1 * 4 + v2 / 16; (v2 mod 16) * 16 + v3 / 4]
  | [v1; v2] => [v1 * 4 + v2 / 16]
  | _ => []
  end.

(** Induction three elements at a time. *)
Lemma list_ind3 {A} (P : list A → Prop) :
  P [] → (∀ a, P [a]) → (∀ a b, P [a; b]) → (∀ a b c l, P l → P (a :: b :: c :: l)) → ∀ l, P l.
Proof.
  intros H0 H1 H2 H3. fix IH 1.
  intros [|a [|b [|c l]]]; [apply H0 | apply H1 | apply H2 | apply H3, IH].
Qed.

Lemma sextets_range l : Forall is_byte l → Forall is_sextet (sextets l).
Proof.
  induction l as [|a|a b|a b c l IH] using list_ind3; cbn; intros H; decompose_Forall_hyps;
    repeat constructor; auto; unfold is_byte in *; (try apply Z.div_pos; try lia);
    try (Z.div_mod_to_equations; lia).
Qed.

Lemma unsextets_sextets l : Forall is_byte l → unsextets (sextets l) = l.
Proof.
  induction l as [|a|a b|a b c l IH] using list_ind3; cbn; intros H; decompose_Forall_hyps;
    unfold is_byte in *; rewrite ?IH by done; repeat f_equal; Z.div_mod_to_equations; lia.
Qed.

Lemma b64_val_sextets l :
  Forall is_byte l → mapM b64_val (b64_char <$> sextets l) = Some (sextets l).
Proof.
  intros H. apply mapM_Some. pose proof (sextets_range l H) as Hr. clear H.
  induction Hr; cbn; constructor; auto. by apply b64_val_char.
Qed.

Lemma length_b64 (l : bytes) :
  ((length (sextets l) + length (b64_pad l)) mod 4 = 0 ∧ length (sextets l) mod 4 ≠ 1)%nat.
Proof.
  induction l as [|a|a b|a b c l IH] using list_ind3; cbn [sextets b64_pad length]; [done..|].
  destruct IH as [IH1 IH2]. split.
  - replace (S (S (S (S (length (sextets l))))) + length (b64_pad l))%nat
      with (length (sextets l) + length (b64_pad l) + 1 * 4)%nat by lia.
    by rewrite Nat.Div0.mod_add.
  - replace (S (S (S (S (length (sextets l))))))%nat with (length (sextets l) + 1 * 4)%nat by lia.
    by rewrite Nat.Div0.mod_add.
Qed.

(** ** [btoa] and [atob] *)

Definition btoa (binary : jsstr) : result jsstr :=
  if forallb (λ c, bool_decide (is_byte c)) binary then Ok (b64_encode binary)
  else Throw (lit "InvalidCharacterError").

Definition ascii_ws (c : Z) : bool :=
  (c =? 9) || (c =? 10) || (c =? 12) || (c =? 13) || (c =? 32).

Definition strip1 (r : jsstr) : jsstr :=
  match r with c :: r' => if c =? 61 then r' else r | [] => [] end.

(** Remove one or two trailing ['=']. *)
Definition strip_pad (s : jsstr) : jsstr := reverse (strip1 (strip1 (reverse s))).

Definition atob (s : jsstr) : result jsstr :=
  let s := List.filter (λ c, negb (ascii_ws c)) s in
  let s := if Nat.eqb (length s mod 4)%nat 0 then strip_pad s else s in
  if Nat.eqb (length s mod 4)%nat 1 then Throw (lit "InvalidCharacterError")
  else match mapM b64_val s with
       | Some vs => Ok (unsextets vs)
       | None => Throw (lit "InvalidCharacterError")
       end.

Lemma b64_core_chars l :
  Forall is_byte l → Forall (λ c, is_Some (b64_val c)) (b64_char <$> sextets l).
Proof.
  intros H. pose proof (sextets_range l H) as Hr. clear H.
  induction Hr; cbn; constructor; auto. rewrite b64_val_char; eauto.
Qed.

Lemma b64_val_not_ws c : is_Some (b64_val c) → ascii_ws c = false ∧ c ≠ 61.
Proof.
  intros [v Hv]. unfold b64_val, ascii_ws in *. split; [|by intros ->].
  destruct (c =? 9) eqn:?; [by assert (c = 9) as -> by lia|].
  destruct (c =? 10) eqn:?; [by assert (c = 10) as -> by lia|].
  destruct (c =? 12) eqn:?; [by assert (c = 12) as -> by lia|].
  destruct (c =? 13) eqn:?; [by assert (c = 13) as -> by lia|].
  destruct (c =? 32) eqn:?; [by assert (c = 32) as -> by lia|]. done.
Qed.

Lemma b64_pad_cases {A} (l : list A) : b64_pad l = [] ∨ b64_pad l = [61] ∨ b64_pad l = [61; 61].
Proof. induction l as [|a|a b|a b c l IH] using list_ind3; cbn; auto. Qed.

Lemma filter_true_id {A} (f : A → bool) l : Forall (λ x, f x = true) l → List.filter f l = l.
Proof. induction 1 as [|x l Hx Hl IH]; cbn; [done|]. by rewrite Hx, IH. Qed.

Lemma strip1_ne r : Forall (λ c, c ≠ 61) r → strip1 r = r.
Proof. destruct 1 as [|c r Hc Hr]; cbn; [done|]. by apply Z.eqb_neq in Hc as ->. Qed.

Lemma strip_pad_app core p :
  Forall (λ c, c ≠ 61) core → p = [] ∨ p = [61] ∨ p = [61; 61] → strip_pad (core ++ p) = core.
Proof.
  intros Hc Hp. unfold strip_pad. rewrite reverse_app.
  assert (Forall (λ c, c ≠ 61) (reverse core)) as Hr by (by apply Forall_reverse).
  destruct Hp as [->|[->| ->]]; [change (reverse []) with (@nil Z) | change (reverse [61]) with [61]
    | change (reverse [61; 61]) with [61; 61]]; cbn; rewrite ?(strip1_ne (reverse core)) by done;
    apply reverse_involutive.
Qed.

Lemma atob_encode l : Forall is_byte l → atob (b64_encode l) = Ok l.
Proof.
  intros H. unfold atob. pose proof (b64_core_chars l H) as Hc.
  destruct (length_b64 l) as [Hl4 Hl1].
  rewrite filter_true_id.
  2:{ unfold b64_encode. apply Forall_app; split.
      - eapply Forall_impl; [exact Hc|]. intros c Hcc. by apply b64_val_not_ws in Hcc as [-> _].
      - destruct (b64_pad_cases l) as [->|[->| ->]]; repeat constructor. }
  assert ((length (b64_encode l) mod 4 =? 0)%nat = true) as ->
    by (unfold b64_encode; by rewrite length_app, length_fmap, Hl4).
  assert (strip_pad (b64_encode l) = b64_char <$> sextets l) as ->.
  { apply strip_pad_app; [|apply b64_pad_cases]. eapply Forall_impl; [exact Hc|].
    intros c Hcc. by apply b64_val_not_ws in Hcc as [_ ?]. }
  rewrite length_fmap. apply Nat.eqb_neq in Hl1. rewrite Hl1.
  by rewrite b64_val_sextets, unsextets_sextets.
Qed.

Lemma btoa_bytes l : Forall is_byte l → btoa l = Ok (b64_encode l).
Proof.
  intros H. unfold btoa.
  assert (forallb (λ c, bool_decide (is_byte c)) l = true) as ->; [|done].
  apply forallb_forall. intros x Hx. apply bool_decide_eq_true. rewrite Forall_forall in H.
  apply H. by apply list_elem_of_In.
Qed.

(** ** lib/crypto.js: [uint8ToBase64] and [base64ToUint8] *)

(** The loop [binary += String.fromCharCode(bytes[i])]. *)
Definition uint8_binary (b : bytes) : jsstr :=
  fold_left (λ binary x, binary ++ [x mod 65536]) b [].

Definition uint8ToBase64 (b : bytes) : result jsstr := btoa (uint8_binary b).

(** The loop [bytes[i] = binary.charCodeAt(i)] over a fresh [Uint8Array]. *)
Definition charcodes_to_uint8 (binary : jsstr) : bytes :=
  fold_left (λ buf i, <[i := (binary !!! i) mod 256]> buf)
            (seq 0 (length binary)) (replicate (length binary) 0).

Definition base64ToUint8 (base64 : jsstr) : result bytes :=
  binary ← atob base64;
  mret (charcodes_to_uint8 binary).

Lemma uint8_binary_spec b : uint8_binary b = (λ x, x mod 65536) <$> b.
Proof.
  unfold uint8_binary.
  enough (∀ acc, fold_left (λ binary x, binary ++ [x mod 65536]) b acc
                 = acc ++ ((λ x, x mod 65536) <$> b)) as H by apply H.
  induction b as [|x b IH]; intros acc; cbn; [by rewrite app_nil_r|].
  by rewrite IH, <- app_assoc.
Qed.

Lemma charcodes_to_uint8_spec s : charcodes_to_uint8 s = (λ c, c mod 256) <$> s.
Proof.
  unfold charcodes_to_uint8.
  assert (∀ n buf, length buf = length s → (n ≤ length s)%nat →
    fold_left (λ buf i, <[i := (s !!! i) mod 256]> buf) (seq 0 n) buf
    = ((λ c, c mod 256) <$> take n s) ++ drop n buf) as H.
  { induction n as [|n IH]; intros buf Hb Hn.
    - cbn. by rewrite drop_0.
    - rewrite seq_S, fold_left_app, IH by lia. cbn.
      destruct (lookup_lt_is_Some_2 s n) as [c Hc]; [lia|].
      rewrite (list_lookup_total_correct _ _ _ Hc).
      rewrite (take_S_r _ _ _ Hc), fmap_app, <- app_assoc. cbn.
      destruct (lookup_lt_is_Some_2 buf n) as [d Hd]; [lia|].
      rewrite (drop_S _ _ _ Hd). rewrite insert_app_r_alt
        by (rewrite length_fmap, length_take; lia).
      rewrite length_fmap, length_take, Nat.min_l, Nat.sub_diag by lia. done. }
  rewrite H by (rewrite ?length_replicate; lia).
  rewrite take_ge, drop_ge by (rewrite ?length_replicate; lia). by rewrite app_nil_r.
Qed.

Lemma mod_id_Forall n l : Forall (λ x, 0 ≤ x < n) l → (λ x, x mod n) <$> l = l.
Proof. induction 1 as [|x l Hx Hl IH]; cbn; [done|]. rewrite IH, Z.mod_small; done. Qed.

Lemma uint8ToBase64_bytes b : Forall is_byte b → uint8ToBase64 b = Ok (b64_encode b).
Proof.
  intros H. unfold uint8ToBase64. rewrite uint8_binary_spec, mod_id_Forall.
  - by apply btoa_bytes.
  - eapply Forall_impl; [exact H|]. unfold is_byte. lia.
Qed.

Lemma base64ToUint8_encode b : Forall is_byte b → base64ToUint8 (b64_encode b) = Ok b.
Proof.
  intros H. unfold base64ToUint8. rewrite atob_encode by done. cbn.
  by rewrite charcodes_to_uint8_spec, mod_id_Forall.
Qed.

#[export] Hint Rewrite uint8ToBase64_bytes base64ToUint8_encode using assumption : trapchat.

(** The buffer a decode returns holds bytes, whatever the text was. *)
Lemma base64ToUint8_range s b : base64ToUint8 s = Ok b → Forall is_byte b.
Proof.
  unfold base64ToUint8. intros (x & _ & [= <-])%bind_Ok. rewrite charcodes_to_uint8_spec.
  apply Forall_fmap, Forall_true. intros c. by apply Z.mod_pos_bound.
Qed.

(** ** Node's [Buffer.from(s, 'base64')] and [toString('base64')]: the decoder
    ignores characters outside both alphabets and stops at the padding. *)

Definition node_val (c : Z) : option Z :=
  if c =? 45 then Some 62 else if c =? 95 then Some 63 else b64_val c.

Fixpoint until_pad (s : jsstr) : jsstr :=
  match s with [] => [] | c :: s' => if c =? 61 then [] else c :: until_pad s' end.

Definition buffer_from_base64 (s : jsstr) : bytes := unsextets (omap node_val (until_pad s)).
Definition buffer_to_base64 (b : bytes) : jsstr := b64_encode b.

Lemma buffer_from_to_base64 b : Forall is_byte b → buffer_from_base64 (buffer_to_base64 b) = b.
Proof.
  intros H. unfold buffer_from_base64, buffer_to_base64, b64_encode.
  assert (∀ l p, Forall is_sextet l → p = [] ∨ p = [61] ∨ p = [61; 61] →
    omap node_val (until_pad ((b64_char <$> l) ++ p)) = l) as E.
  { intros l p Hl Hp. induction Hl as [|v l Hv Hl IH]; cbn.
    - by destruct Hp as [->|[->| ->]].
    - pose proof (b64_val_char v Hv) as Hval.
      destruct (b64_val_not_ws (b64_char v)) as [_ Hne]; [eauto|].
      apply Z.eqb_neq in Hne. rewrite Hne. cbn.
      assert (node_val (b64_char v) = Some v) as ->; [|by rewrite IH].
      unfold node_val. destruct (b64_char v =? 45) eqn:E1.
      { assert (b64_char v = 45) as E by lia. by rewrite E in Hval. }
      destruct (b64_char v =? 95) eqn:E2; [|done].
      assert (b64_char v = 95) as E by lia. by rewrite E in Hval. }
  rewrite E by (auto using sextets_range, b64_pad_cases). by apply unsextets_sextets.
Qed.

Lemma node_val_sextet c v : node_val c = Some v → is_sextet v.
Proof.
  unfold node_val, b64_val, is_sextet. repeat case_match; intros [= <-];
    repeat match goal with H : _ && _ = true |- _ => apply andb_true_iff in H as [? ?] end; lia.
Qed.

(** Induction four elements at a time. *)
Lemma list_ind4 {A} (P : list A → Prop) :
  P [] → (∀ a, P [a]) → (∀ a b, P [a; b]) → (∀ a b c, P [a; b; c]) →
  (∀ a b c d l, P l → P (a :: b :: c :: d :: l)) → ∀ l, P l.
Proof.
  intros H0 H1 H2 H3 H4. fix IH 1. intros [|a [|b [|c [|d l]]]]; [apply H0|apply H1|apply H2|apply H3|].
  apply H4, IH.
Qed.

Lemma unsextets_bytes l : Forall is_sextet l → Forall is_byte (unsextets l).
Proof.
  unfold is_sextet, is_byte.
  induction l as [|a|a b|a b c|a b c d l IH] using list_ind4; cbn [unsextets];
    rewrite ?Forall_cons; intros H; decompose [and] H; try constructor.
  - zdivs.
  - constructor.
  - zdivs.
  - constructor; [zdivs|constructor].
  - zdivs.
  - constructor; [zdivs|]. constructor; [zdivs|]. by apply IH.
Qed.

Lemma buffer_from_base64_bytes s : Forall is_byte (buffer_from_base64 s).
Proof.
  apply unsextets_bytes, Forall_forall. intros v (c & _ & Hc)%list_elem_of_omap. by eapply node_val_sextet.
Qed.

(** ** Properties *)

(** Base64 loses nothing: every byte array encodes, decoding gives it back,
    and whatever text [base64ToUint8] accepts it returns bytes. *)
Theorem base64_roundtrip (b : bytes) :
  Forall is_byte b →
  (∃ s, uint8ToBase64 b = Ok s ∧ base64ToUint8 s = Ok b) ∧
  (∀ s b', base64ToUint8 s = Ok b' → Forall is_byte b').
Proof.
  intros Hb. split; [|intros s b' E; by eapply base64ToUint8_range].
  exists (b64_encode b). by autorewrite with trapchat.
Qed.

Lemma base64_roundtrip_witness :
  (∃ s, uint8ToBase64 [0; 255; 16; 77] = Ok s ∧ base64ToUint8 s = Ok [0; 255; 16; 77]) ∧
  (∀ s b', base64ToUint8 s = Ok b' → Forall is_byte b').
Proof. apply (base64_roundtrip [0; 255; 16; 77]). decided. Defined.
