(* ===== verification/Text.v ===== *)
(** * Text: UTF-16 strings and the platform's [TextEncoder] / [TextDecoder]

    [TextEncoder.encode] turns a string (code units, lone surrogates replaced
    by U+FFFD) into UTF-8; [TextDecoder.decode] is the WHATWG decoder, a state
    machine over bytes that replaces malformed sequences by U+FFFD and drops
    one leading byte-order mark. *)

From S2P Require Import Prelude JsLib.

Local Open Scope Z_scope.

(** ** UTF-16 *)

Definition is_high (c : Z) : bool := (0xD800 <=? c) && (c <? 0xDC00).
Definition is_low (c : Z) : bool := (0xDC00 <=? c) && (c <? 0xE000).
Definition replacement : Z := 0xFFFD.

(** Conversion to scalar values (a [USVString]). *)
Fixpoint usv (s : jsstr) : list Z :=
  match s with
  | [] => []
  | c :: s' =>
      if is_high c then
        match s' with
        | d :: s'' =>
            if is_low d then 0x10000 + (c - 0xD800) * 0x400 + (d - 0xDC00) :: usv s''
            else replacement :: usv s'
        | [] => [replacement]
        end
      else if is_low c then replacement :: usv s' else c :: usv s'
  end.

Definition utf16 (cp : Z) : jsstr :=
  if cp <? 0x10000 then [cp]
  else [0xD800 + (cp - 0x10000) / 0x400; 0xDC00 + (cp - 0x10000) mod 0x400].

Definition utf16s (cps : list Z) : jsstr := flat_map utf16 cps.

(** [String.prototype.isWellFormed]: no lone surrogate. *)
Fixpoint isWellFormed (s : jsstr) : bool :=
  match s with
  | [] => true
  | c :: s' =>
      if is_high c then
        match s' with d :: s'' => is_low d && isWellFormed s'' | [] => false end
      else negb (is_low c) && isWellFormed s'
  end.

(** A Unicode scalar value. *)
Definition is_scalar (cp : Z) : Prop := 0 ≤ cp < 0xD800 ∨ 0xE000 ≤ cp < 0x110000.

(** Induction one or two elements at a time. *)
Lemma list_ind2 {A} (P : list A → Prop) :
  P [] → (∀ a, P [a]) → (∀ a b l, P (b :: l) → P l → P (a :: b :: l)) → ∀ l, P l.
Proof.
  intros H0 H1 H2 l.
  enough (P l ∧ ∀ a, P (a :: l)) as [? _] by done.
  induction l as [|b l [IH1 IH2]]; split; auto.
Qed.

Ltac surr := unfold is_high, is_low, is_unit in *.

Lemma usv_scalar s : Forall is_unit s → isWellFormed s = true → Forall is_scalar (usv s).
Proof.
  induction s as [|c|c d s IH1 IH2] using list_ind2; intros Hu Hw; cbn in *.
  - constructor.
  - decompose_Forall_hyps. surr. break; apply Forall_singleton; unfold is_scalar; lia.
  - decompose_Forall_hyps. destruct (is_high c) eqn:Hc.
    + destruct (is_low d) eqn:Hd; [|done]. constructor; [|auto].
      surr. unfold is_scalar. lia.
    + destruct (is_low c) eqn:Hl; [done|]. constructor; [|auto]. surr. unfold is_scalar. lia.
Qed.

Lemma utf16_usv s : Forall is_unit s → isWellFormed s = true → utf16s (usv s) = s.
Proof.
  unfold utf16s.
  induction s as [|c|c d s IH1 IH2] using list_ind2; intros Hu Hw; cbn in Hw |- *.
  - done.
  - decompose_Forall_hyps. destruct (is_high c) eqn:Hc, (is_low c) eqn:Hl; try done.
    unfold utf16; cbn. surr. by replace (c <? 65536) with true by lia.
  - decompose_Forall_hyps. destruct (is_high c) eqn:Hc.
    + destruct (is_low d) eqn:Hd; [|done]. cbn. rewrite IH2 by done.
      unfold utf16. surr. replace (_ <? 65536) with false by lia. cbn.
      do 2 f_equal; Z.div_mod_to_equations; lia.
    + destruct (is_low c) eqn:Hl; [done|]. cbn. cbn in IH1. rewrite IH1 by auto.
      unfold utf16. surr. by replace (c <? 65536) with true by lia.
Qed.

(** ** UTF-8 *)

Definition utf8 (cp : Z) : bytes :=
  if cp <? 0x80 then [cp]
  else if cp <? 0x800 then [0xC0 + cp / 64; 0x80 + cp mod 64]
  else if cp <? 0x10000 then [0xE0 + cp / 4096; 0x80 + (cp / 64) mod 64; 0x80 + cp mod 64]
  else [0xF0 + cp / 262144; 0x80 + (cp / 4096) mod 64; 0x80 + (cp / 64) mod 64; 0x80 + cp mod 64].

(** [new TextEncoder().encode(s)]. *)
Definition TextEncoder_encode (s : jsstr) : bytes := flat_map utf8 (usv s).

(** The decoder's registers: bytes needed, code point so far, bounds of the
    next byte. *)
Record ustate := UState { u_needed : nat; u_cp : Z; u_lower : Z; u_upper : Z }.

Definition u_init : ustate := UState 0 0 0x80 0xBF.

Inductive lead := LEmit (cp : Z) | LError | LGo (st : ustate).

Definition utf8_lead (b : Z) : lead :=
  if b <? 0x80 then LEmit b
  else if (0xC2 <=? b) && (b <=? 0xDF) then LGo (UState 1 (b - 0xC0) 0x80 0xBF)
  else if (0xE0 <=? b) && (b <=? 0xEF) then
    LGo (UState 2 (b - 0xE0) (if b =? 0xE0 then 0xA0 else 0x80) (if b =? 0xED then 0x9F else 0xBF))
  else if (0xF0 <=? b) && (b <=? 0xF4) then
    LGo (UState 3 (b - 0xF0) (if b =? 0xF0 then 0x90 else 0x80) (if b =? 0xF4 then 0x8F else 0xBF))
  else LError.

Fixpoint utf8_decode (st : ustate) (l : bytes) : list Z :=
  match l with
  | [] => match u_needed st with O => [] | _ => [replacement] end
  | b :: l' =>
      let start := match utf8_lead b with
                   | LEmit cp => cp :: utf8_decode u_init l'
                   | LError => replacement :: utf8_decode u_init l'
                   | LGo st' => utf8_decode st' l'
                   end in
      match u_needed st with
      | O => start
      | S n =>
          if (u_lower st <=? b) && (b <=? u_upper st) then
            let cp := u_cp st * 64 + (b - 0x80) in
            match n with
            | O => cp :: utf8_decode u_init l'
            | _ => utf8_decode (UState n cp 0x80 0xBF) l'
            end
          else replacement :: start
      end
  end.

Definition drop_bom (cps : list Z) : list Z :=
  match cps with c :: r => if c =? 0xFEFF then r else cps | [] => [] end.

(** [new TextDecoder().decode(bytes)]. *)
Definition TextDecoder_decode (l : bytes) : jsstr := utf16s (drop_bom (utf8_decode u_init l)).

Ltac bool_lia := repeat match goal with
  | |- context [if ?b then _ else _] =>
      first [replace b with true by lia | replace b with false by lia]
  end.


Lemma utf8_byte cp : is_scalar cp → Forall is_byte (utf8 cp).
Proof.
  unfold is_scalar, utf8, is_byte. intros H.
  repeat case_match; repeat constructor; try lia; zdivs.
Qed.

Lemma utf8_decode_scalar cp l :
  is_scalar cp → utf8_decode u_init (utf8 cp ++ l) = cp :: utf8_decode u_init l.
Proof.
  intros H. unfold is_scalar in H. unfold utf8.
  destruct (cp <? 0x80) eqn:E1; [|destruct (cp <? 0x800) eqn:E2; [|destruct (cp <? 0x10000) eqn:E3]];
    cbn [app utf8_decode u_needed u_init]; unfold utf8_lead at 1.
  - by rewrite E1.
  - assert (2 ≤ cp / 64 < 32) by zdivs. bool_lia. cbn -[Z.mul Z.add Z.sub Z.div Z.modulo].
    assert (0 ≤ cp mod 64 < 64) by zdivs. bool_lia. f_equal. zdivs.
  - replace (cp / 4096) with (cp / 64 / 64) by (by rewrite Z.div_div).
    set (a := cp / 64 / 64). set (b := (cp / 64) mod 64). set (c := cp mod 64).
    assert (0 ≤ a < 16 ∧ 0 ≤ b < 64 ∧ 0 ≤ c < 64 ∧ cp = a * 4096 + b * 64 + c) by (subst a b c; zdivs).
    clearbody a b c. bool_lia. cbn -[Z.mul Z.add Z.sub].
    destruct (Z.eqb_spec (0xE0 + a) 0xE0), (Z.eqb_spec (0xE0 + a) 0xED);
      bool_lia; cbn -[Z.mul Z.add Z.sub]; bool_lia; f_equal; lia.
  - replace (cp / 262144) with (cp / 64 / 64 / 64) by (by rewrite !Z.div_div).
    replace (cp / 4096) with (cp / 64 / 64) by (by rewrite Z.div_div).
    set (a := cp / 64 / 64 / 64). set (b := (cp / 64 / 64) mod 64). set (c := (cp / 64) mod 64).
    set (d := cp mod 64).
    assert (0 ≤ a < 5 ∧ 0 ≤ b < 64 ∧ 0 ≤ c < 64 ∧ 0 ≤ d < 64
            ∧ cp = a * 262144 + b * 4096 + c * 64 + d) by (subst a b c d; zdivs).
    clearbody a b c d. bool_lia. cbn -[Z.mul Z.add Z.sub].
    destruct (Z.eqb_spec (0xF0 + a) 0xF0), (Z.eqb_spec (0xF0 + a) 0xF4);
      bool_lia; cbn -[Z.mul Z.add Z.sub]; bool_lia; cbn -[Z.mul Z.add Z.sub]; bool_lia; f_equal; lia.
Qed.

Lemma utf8_roundtrip cps : Forall is_scalar cps → utf8_decode u_init (flat_map utf8 cps) = cps.
Proof.
  induction 1 as [|cp cps Hcp _ IH]; [done|]. cbn [flat_map].
  by rewrite utf8_decode_scalar, IH.
Qed.

(** What a chat text survives: the encoder and decoder are inverse on
    well-formed strings that do not start with a byte-order mark. *)
Definition plain_text (s : jsstr) : Prop :=
  Forall is_unit s ∧ isWellFormed s = true ∧ head s ≠ Some 0xFEFF.

Global Instance plain_text_dec s : Decision (plain_text s).
Proof. unfold plain_text; apply _. Defined.

Lemma usv_head s : Forall is_unit s → head (usv s) = Some 0xFEFF → head s = Some 0xFEFF.
Proof.
  destruct s as [|c s]; cbn; [done|]. intros Hu. decompose_Forall_hyps. surr.
  repeat case_match; cbn; unfold replacement; intros [=]; subst; try done; decompose_Forall_hyps; lia.
Qed.

Lemma TextDecoder_encode s : plain_text s → TextDecoder_decode (TextEncoder_encode s) = s.
Proof.
  intros (Hu & Hw & Hb). unfold TextDecoder_decode, TextEncoder_encode.
  rewrite utf8_roundtrip by (by apply usv_scalar).
  assert (drop_bom (usv s) = usv s) as ->; [|by apply utf16_usv].
  destruct (usv s) as [|c r] eqn:E; cbn; [done|].
  destruct (Z.eqb_spec c 0xFEFF) as [->|]; [|done]. destruct Hb. apply usv_head; [done|by rewrite E].
Qed.

Lemma usv_scalar_any s : Forall is_unit s → Forall is_scalar (usv s).
Proof.
  induction s as [|c|c d s IH1 IH2] using list_ind2; intros Hu; cbn in *.
  - constructor.
  - decompose_Forall_hyps. surr. repeat case_match; apply Forall_singleton; unfold is_scalar, replacement; lia.
  - decompose_Forall_hyps. repeat case_match; constructor; auto; surr; unfold is_scalar, replacement; lia.
Qed.

Lemma TextEncoder_bytes s : Forall is_unit s → Forall is_byte (TextEncoder_encode s).
Proof.
  intros H. unfold TextEncoder_encode. apply usv_scalar_any in H.
  induction H as [|cp cps Hcp _ IH]; cbn; [constructor|].
  apply Forall_app; split; [by apply utf8_byte | done].
Qed.

(** ASCII text is plain, whatever it says: every JSON text and every base64
    text the program exchanges is of this kind. *)
Definition is_ascii (c : Z) : Prop := 0 ≤ c < 128.

Global Instance is_ascii_dec c : Decision (is_ascii c).
Proof. unfold is_ascii; apply _. Defined.

Lemma ascii_plain s : Forall is_ascii s → plain_text s.
Proof.
  unfold plain_text, is_ascii. intros H. split_and!.
  - eapply Forall_impl; [exact H|]. unfold is_unit; lia.
  - induction H as [|c s Hc _ IH]; cbn; [done|]. rewrite IH. surr.
    by replace ((55296 <=? c) && (c <? 56320)) with false by lia;
       replace ((56320 <=? c) && (c <? 57344)) with false by lia.
  - destruct H as [|c s Hc _]; cbn; [done|]. intros [=]; lia.
Qed.

#[export] Hint Resolve TextEncoder_bytes ascii_plain : trapchat.
#[export] Hint Rewrite TextDecoder_encode using assumption : trapchat.
