(* ===== verification/Json.v ===== *)
(** * JSON: values, [JSON.stringify] and [JSON.parse]

    Numbers are integers: every number the program puts on the wire (sequence
    numbers, sizes, timestamps, counts) is one; a literal with a fraction or
    an exponent is outside the model ([JSON_parse] refuses it). Strings are
    arbitrary UTF-16 strings, lone surrogates included (they are escaped). *)

From S2P Require Import Prelude JsLib Text.

Local Open Scope Z_scope.

Inductive json : Type :=
  | JNull
  | JBool (b : bool)
  | JNum (n : Z)
  | JStr (s : jsstr)
  | JArr (l : list json)
  | JObj (fs : list (jsstr * json)).

(** Induction through the arrays and objects. *)
Lemma json_ind' (P : json → Prop) :
  P JNull → (∀ b, P (JBool b)) → (∀ n, P (JNum n)) → (∀ s, P (JStr s)) →
  (∀ l, Forall P l → P (JArr l)) → (∀ fs, Forall (λ f, P f.2) fs → P (JObj fs)) →
  ∀ v, P v.
Proof.
  intros H1 H2 H3 H4 H5 H6. fix IH 1.
  intros [|b|n|s|l|fs]; [exact H1 | apply H2 | apply H3 | apply H4 | apply H5 | apply H6].
  - induction l as [|v l IHl]; constructor; [apply IH | apply IHl].
  - induction fs as [|[k v] fs IHl]; constructor; [apply IH | apply IHl].
Qed.

(** What a JavaScript value that came out of [JSON.parse] satisfies: strings
    are code units, the keys of an object are unique. *)
Fixpoint json_wf (v : json) : bool :=
  match v with
  | JStr s => bool_decide (Forall is_unit s)
  | JArr l => forallb json_wf l
  | JObj fs => bool_decide (NoDup fs.*1) &&
               forallb (λ f, bool_decide (Forall is_unit f.1) && json_wf f.2) fs
  | _ => true
  end.

(** [v.k]: [None] is [undefined]. *)
Definition json_get (v : json) (k : jsstr) : option json :=
  match v with JObj fs => map_get fs k | _ => None end.

Definition as_str (o : option json) : option jsstr :=
  match o with Some (JStr s) => Some s | _ => None end.
Definition as_num (o : option json) : option Z :=
  match o with Some (JNum n) => Some n | _ => None end.
Definition as_bool (o : option json) : option bool :=
  match o with Some (JBool b) => Some b | _ => None end.

Definition is_null (v : json) : bool := match v with JNull => true | _ => false end.

(** [v === s], for a string [s]. *)
Definition is_str (v : option json) (s : jsstr) : bool :=
  match v with Some (JStr t) => bool_decide (t = s) | _ => false end.

(** Truthiness of a JSON value ([None] is [undefined]). *)
Definition truthy (v : option json) : bool :=
  match v with
  | None | Some JNull => false
  | Some (JBool b) => b
  | Some (JNum n) => negb (n =? 0)
  | Some (JStr s) => negb (str_empty s)
  | Some (JArr _) | Some (JObj _) => true
  end.

Lemma is_str_true v s : is_str v s = true ↔ v = Some (JStr s).
Proof. unfold is_str. destruct v as [[]|]; try naive_solver. rewrite bool_decide_eq_true. naive_solver. Qed.

(** An object literal: properties that are [undefined] are dropped, as
    [JSON.stringify] does. *)
Definition obj (fs : list (jsstr * option json)) : json :=
  JObj (omap (λ f, (λ v, (f.1, v)) <$> f.2) fs).

(** ** [JSON.stringify] *)

Fixpoint dec_loop (fuel : nat) (n : Z) (acc : jsstr) : jsstr :=
  match fuel with
  | O => acc
  | S f => if n <? 10 then 48 + n :: acc else dec_loop f (n / 10) (48 + n mod 10 :: acc)
  end.

(** The decimal digits of a natural number: a number below 2^f has at most
    [f] of them, so the fuel [1 + log2 n] is enough. *)
Definition dec_nat (n : Z) : jsstr := dec_loop (S (Z.to_nat (Z.log2 n))) n [].

Definition dec_int (n : Z) : jsstr := if n <? 0 then 45 :: dec_nat (- n) else dec_nat n.

(** [(n / d).toFixed(1)], for a [d] that is a power of two: to the
    nearest tenth, halves up. *)
Definition toFixed1 (n d : Z) : jsstr :=
  let tenths := (20 * Z.abs n + d) / (2 * d) in
  (if n <? 0 then [45] else []) ++ dec_nat (tenths / 10) ++ [46] ++ dec_nat (tenths mod 10).

(** [String(v)]. An object that hides [toString] cannot be converted; what an
    array holds of [null] is empty. *)
Fixpoint js_String (v : json) : result jsstr :=
  match v with
  | JNull => Ok (lit "null")
  | JBool b => Ok (lit (if b then "true" else "false"))
  | JNum n => Ok (dec_int n)
  | JStr s => Ok s
  | JArr l =>
      let fix join (l : list json) : result jsstr :=
        match l with
        | [] => Ok []
        | x :: l =>
            s ← (if is_null x then Ok [] else js_String x);
            match l with [] => Ok s | _ => r ← join l; Ok (s ++ [44] ++ r) end
        end in
      join l
  | JObj fs => if map_has fs (lit "toString") then Throw (lit "TypeError") else Ok (lit "[object Object]")
  end.

Definition hex_digit (v : Z) : Z := if v <? 10 then 48 + v else 87 + v.

Definition esc_u (c : Z) : jsstr :=
  [92; 117; hex_digit (c / 4096); hex_digit ((c / 256) mod 16); hex_digit ((c / 16) mod 16);
   hex_digit (c mod 16)].

Definition quote_char (c : Z) : jsstr :=
  if c =? 34 then [92; 34] else if c =? 92 then [92; 92]
  else if c =? 8 then [92; 98] else if c =? 12 then [92; 102] else if c =? 10 then [92; 110]
  else if c =? 13 then [92; 114] else if c =? 9 then [92; 116]
  else if c <? 32 then esc_u c else [c].

Fixpoint quote_body (s : jsstr) : jsstr :=
  match s with
  | [] => []
  | c :: s' =>
      if is_high c then
        match s' with
        | d :: s'' => if is_low d then c :: d :: quote_body s'' else esc_u c ++ quote_body s'
        | [] => esc_u c
        end
      else if is_low c then esc_u c ++ quote_body s' else quote_char c ++ quote_body s'
  end.

Fixpoint join (sep : Z) (l : list jsstr) : jsstr :=
  match l with [] => [] | [x] => x | x :: l' => x ++ sep :: join sep l' end.

(** The printer, over what it makes of the units of a string: printers of
    other languages escape more of them. *)
Section Printer.
Variable body : jsstr → jsstr.

Definition quote_with (s : jsstr) : jsstr := 34 :: body s ++ [34].

Fixpoint print_with (v : json) : jsstr :=
  match v with
  | JNull => lit "null"
  | JBool b => if b then lit "true" else lit "false"
  | JNum n => dec_int n
  | JStr s => quote_with s
  | JArr l => 91 :: join 44 (map print_with l) ++ [93]
  | JObj fs => 123 :: join 44 (map (λ f, quote_with f.1 ++ 58 :: print_with f.2) fs) ++ [125]
  end.
End Printer.

Abbreviation quote := (quote_with quote_body).
Abbreviation JSON_stringify := (print_with quote_body).

(** ** [JSON.parse] *)

Definition json_ws (c : Z) : bool := (c =? 32) || (c =? 9) || (c =? 10) || (c =? 13).

Fixpoint skip_ws (s : jsstr) : jsstr :=
  match s with c :: s' => if json_ws c then skip_ws s' else s | [] => [] end.

Definition eat (c : Z) (s : jsstr) : option jsstr :=
  match s with d :: s' => if d =? c then Some s' else None | [] => None end.

Definition eat_word (w s : jsstr) : option jsstr :=
  if starts_with w s then Some (drop (length w) s) else None.

Definition is_digit (c : Z) : bool := (48 <=? c) && (c <=? 57).

Fixpoint digits_val (v : Z) (s : jsstr) : Z * jsstr :=
  match s with
  | c :: s' => if is_digit c then digits_val (v * 10 + (c - 48)) s' else (v, s)
  | [] => (v, [])
  end.

(** [0], or a non-zero digit and more digits. *)
Definition parse_nat (s : jsstr) : option (Z * jsstr) :=
  match s with
  | c :: s' => if c =? 48 then Some (0, s') else if is_digit c then Some (digits_val 0 s) else None
  | [] => None
  end.

Definition hex_val (c : Z) : option Z :=
  if (48 <=? c) && (c <=? 57) then Some (c - 48)
  else if (97 <=? c) && (c <=? 102) then Some (c - 87)
  else if (65 <=? c) && (c <=? 70) then Some (c - 55) else None.

Definition simple_escape (e : Z) : option Z :=
  if e =? 34 then Some 34 else if e =? 92 then Some 92 else if e =? 47 then Some 47
  else if e =? 98 then Some 8 else if e =? 102 then Some 12 else if e =? 110 then Some 10
  else if e =? 114 then Some 13 else if e =? 116 then Some 9 else None.

Fixpoint parse_string (s : jsstr) : option (jsstr * jsstr) :=
  match s with
  | [] => None
  | c :: s' =>
      if c =? 34 then Some ([], s')
      else if c =? 92 then
        match s' with
        | e :: s'' =>
            match simple_escape e with
            | Some u => '(t, r) ← parse_string s''; Some (u :: t, r)
            | None =>
                if e =? 117 then
                  match s'' with
                  | h1 :: h2 :: h3 :: h4 :: s3 =>
                      v1 ← hex_val h1; v2 ← hex_val h2; v3 ← hex_val h3; v4 ← hex_val h4;
                      '(t, r) ← parse_string s3;
                      Some (v1 * 4096 + v2 * 256 + v3 * 16 + v4 :: t, r)
                  | _ => None
                  end
                else None
            end
        | [] => None
        end
      else if c <? 32 then None
      else '(t, r) ← parse_string s'; Some (c :: t, r)
  end.

(** A repeated key keeps its place and takes the last value. *)
Definition obj_of_members (ms : list (jsstr * json)) : json :=
  JObj (fold_left (λ fs m, map_set fs m.1 m.2) ms []).

Fixpoint parse_value (fuel : nat) (s : jsstr) : option (json * jsstr) :=
  match fuel with
  | O => None
  | S n =>
      match skip_ws s with
      | [] => None
      | c :: s' =>
          if c =? 34 then '(t, r) ← parse_string s'; Some (JStr t, r)
          else if c =? 91 then
            match eat 93 (skip_ws s') with
            | Some r => Some (JArr [], r)
            | None => '(l, r) ← parse_elems n s'; Some (JArr l, r)
            end
          else if c =? 123 then
            match eat 125 (skip_ws s') with
            | Some r => Some (JObj [], r)
            | None => '(ms, r) ← parse_members n s'; Some (obj_of_members ms, r)
            end
          else if c =? 110 then (λ r, (JNull, r)) <$> eat_word (lit "ull") s'
          else if c =? 116 then (λ r, (JBool true, r)) <$> eat_word (lit "rue") s'
          else if c =? 102 then (λ r, (JBool false, r)) <$> eat_word (lit "alse") s'
          else if c =? 45 then '(v, r) ← parse_nat s'; Some (JNum (- v), r)
          else '(v, r) ← parse_nat (c :: s'); Some (JNum v, r)
      end
  end
with parse_elems (fuel : nat) (s : jsstr) : option (list json * jsstr) :=
  match fuel with
  | O => None
  | S n =>
      '(v, r) ← parse_value n s;
      match eat 44 (skip_ws r) with
      | Some r' => '(l, r'') ← parse_elems n r'; Some (v :: l, r'')
      | None => r' ← eat 93 (skip_ws r); Some ([v], r')
      end
  end
with parse_members (fuel : nat) (s : jsstr) : option (list (jsstr * json) * jsstr) :=
  match fuel with
  | O => None
  | S n =>
      s1 ← eat 34 (skip_ws s);
      '(k, s2) ← parse_string s1;
      s3 ← eat 58 (skip_ws s2);
      '(v, r) ← parse_value n s3;
      match eat 44 (skip_ws r) with
      | Some r' => '(ms, r'') ← parse_members n r'; Some ((k, v) :: ms, r'')
      | None => r' ← eat 125 (skip_ws r); Some ([(k, v)], r')
      end
  end.

(** Every call that recurses consumes a character or goes from an element to
    its value, so twice the length is enough fuel. *)
Definition JSON_parse (s : jsstr) : result json :=
  match parse_value (S (2 * length s)) s with
  | Some (v, r) => match skip_ws r with [] => Ok v | _ => Throw (lit "SyntaxError") end
  | None => Throw (lit "SyntaxError")
  end.

(** A JSON text written with single quotes. *)
Definition jtext (s : string) : jsstr := (λ c, if c =? 39 then 34 else c) <$> lit s.
Arguments jtext _%_string_scope.

Example JSON_parse_example :
  JSON_parse (jtext " {'a' : [1, -20,true] , 'b':'x\u0041\n' }")
  = Ok (JObj [(lit "a", JArr [JNum 1; JNum (-20); JBool true]); (lit "b", JStr (lit "xA" ++ [10]))]).
Proof. vm_compute. reflexivity. Qed.

(** ** The round trip, token by token *)

(** What follows a printed value: not a digit. *)
Definition no_digit (r : jsstr) : Prop := match r with c :: _ => is_digit c = false | [] => True end.

Lemma digits_val_stop v r : no_digit r → digits_val v r = (v, r).
Proof. destruct r as [|c r]; cbn; [done|]. by intros ->. Qed.

Lemma digits_val_loop f n acc r :
  0 ≤ n < 2 ^ Z.of_nat f → digits_val 0 (dec_loop f n acc ++ r) = digits_val n (acc ++ r).
Proof.
  revert n acc. induction f as [|f IH]; intros n acc Hn; [cbn in *; f_equal; lia|].
  cbn [dec_loop]. destruct (n <? 10) eqn:E.
  - cbn. unfold is_digit. replace ((48 <=? 48 + n) && (48 + n <=? 57)) with true by lia.
    f_equal; lia.
  - rewrite IH.
    + cbn. unfold is_digit.
      replace ((48 <=? 48 + n mod 10) && (48 + n mod 10 <=? 57)) with true by zdivs.
      f_equal. zdivs.
    + rewrite Nat2Z.inj_succ, Z.pow_succ_r in Hn by lia. zdivs.
Qed.

Lemma dec_loop_head f n acc :
  0 < n < 2 ^ Z.of_nat f → ∃ c t, dec_loop f n acc = c :: t ∧ 49 ≤ c ≤ 57.
Proof.
  revert n acc. induction f as [|f IH]; intros n acc Hn; [cbn in *; lia|]. cbn [dec_loop].
  destruct (n <? 10) eqn:E; [eexists _, _; split; [done|lia]|].
  apply IH. rewrite Nat2Z.inj_succ, Z.pow_succ_r in Hn by lia. zdivs.
Qed.

Lemma dec_nat_fuel n : 0 ≤ n → n < 2 ^ Z.of_nat (S (Z.to_nat (Z.log2 n))).
Proof.
  intros Hn. rewrite Nat2Z.inj_succ, Z2Nat.id by apply Z.log2_nonneg.
  destruct (decide (n = 0)) as [->|]; [done|]. apply Z.log2_spec. lia.
Qed.

Lemma dec_nat_head n : 0 ≤ n → ∃ c t, dec_nat n = c :: t ∧ is_digit c = true.
Proof.
  intros Hn. destruct (decide (n = 0)) as [->|]; [by exists 48, []|].
  destruct (dec_loop_head (S (Z.to_nat (Z.log2 n))) n []) as (c & t & E & Hc).
  { split; [lia | by apply dec_nat_fuel]. }
  exists c, t. split; [done|]. unfold is_digit. lia.
Qed.

Lemma parse_nat_dec n r : 0 ≤ n → no_digit r → parse_nat (dec_nat n ++ r) = Some (n, r).
Proof.
  intros Hn Hr. pose proof (dec_nat_fuel n Hn) as Hf.
  destruct (decide (n = 0)) as [->|]; [done|].
  pose proof (digits_val_loop _ n [] r (conj Hn Hf)) as Hd. cbn [app] in Hd.
  rewrite (digits_val_stop n r Hr) in Hd.
  destruct (dec_loop_head (S (Z.to_nat (Z.log2 n))) n []) as (c & t & E & Hc); [lia|].
  unfold dec_nat. rewrite E in *. cbn [app] in *. unfold parse_nat.
  replace (c =? 48) with false by lia. unfold is_digit at 1.
  replace ((48 <=? c) && (c <=? 57)) with true by lia. by rewrite Hd.
Qed.

Lemma hex_val_digit v : 0 ≤ v < 16 → hex_val (hex_digit v) = Some v.
Proof. intros H. unfold hex_val, hex_digit. destruct (v <? 10) eqn:E; bool_lia; f_equal; lia. Qed.

Lemma parse_string_esc_u c s :
  is_unit c → parse_string (esc_u c ++ s) = '(t, r) ← parse_string s; Some (c :: t, r).
Proof.
  intros Hc. unfold is_unit in Hc. cbn -[hex_digit Z.div Z.modulo Z.mul Z.add].
  rewrite !hex_val_digit by zdivs. cbn -[Z.div Z.modulo Z.mul Z.add].
  destruct (parse_string s) as [[t r]|]; cbn -[Z.div Z.modulo Z.mul Z.add]; [|done].
  do 2 f_equal. f_equal.
  replace (c / 4096) with (c / 16 / 16 / 16) by (by rewrite !Z.div_div).
  replace (c / 256) with (c / 16 / 16) by (by rewrite !Z.div_div). zdivs.
Qed.

Lemma parse_string_plain c s :
  c ≠ 34 → c ≠ 92 → 32 ≤ c →
  parse_string (c :: s) = '(t, r) ← parse_string s; Some (c :: t, r).
Proof. intros. cbn. by bool_lia. Qed.

Lemma parse_string_quote_char c s :
  is_unit c → parse_string (quote_char c ++ s) = '(t, r) ← parse_string s; Some (c :: t, r).
Proof.
  intros Hc. unfold quote_char.
  repeat match goal with
  | |- context [if c =? ?k then _ else _] =>
      destruct (Z.eqb_spec c k) as [->|]; [reflexivity|]
  end.
  destruct (c <? 32) eqn:E; [by apply parse_string_esc_u|].
  apply parse_string_plain; lia.
Qed.

Lemma parse_string_body s r :
  Forall is_unit s → parse_string (quote_body s ++ 34 :: r) = Some (s, r).
Proof.
  induction s as [|c|c d s IH1 IH2] using list_ind2; intros Hs.
  - done.
  - inversion Hs as [|? ? Hc _]; subst. cbn [quote_body].
    destruct (is_high c); [|destruct (is_low c); rewrite app_nil_r].
    + by rewrite parse_string_esc_u.
    + by rewrite parse_string_esc_u.
    + by rewrite parse_string_quote_char.
  - inversion Hs as [|? ? Hc Hds]; subst. inversion Hds as [|? ? Hd Hs']; subst.
    assert (parse_string (quote_body (d :: s) ++ 34 :: r) = Some (d :: s, r)) as E1 by auto.
    assert (parse_string (quote_body s ++ 34 :: r) = Some (s, r)) as E2 by auto. clear IH1 IH2.
    change (quote_body (c :: d :: s)) with
      (if is_high c then if is_low d then c :: d :: quote_body s else esc_u c ++ quote_body (d :: s)
       else if is_low c then esc_u c ++ quote_body (d :: s) else quote_char c ++ quote_body (d :: s)).
    destruct (is_high c) eqn:Hh; [destruct (is_low d) eqn:Hl|destruct (is_low c) eqn:Hl].
    + surr. cbn [app]. rewrite !parse_string_plain by lia. by rewrite E2.
    + by rewrite <- app_assoc, parse_string_esc_u, E1.
    + by rewrite <- app_assoc, parse_string_esc_u, E1.
    + by rewrite <- app_assoc, parse_string_quote_char, E1.
Qed.

(** ** The round trip of values *)

(** The fuel a printed value needs. *)
Fixpoint json_size (v : json) : nat :=
  match v with
  | JArr l => S (list_sum (map (λ x, S (json_size x)) l))
  | JObj fs => S (list_sum (map (λ f, S (json_size f.2)) fs))
  | _ => 1
  end.

Section Printed.
Variable body : jsstr → jsstr.
Hypothesis Hbody : ∀ s r, Forall is_unit s → parse_string (body s ++ 34 :: r) = Some (s, r).

Definition parses (v : json) : Prop := ∀ n r,
  (json_size v ≤ n)%nat → no_digit r → parse_value n ((print_with body) v ++ r) = Some (v, r).

Lemma stringify_head v :
  ∃ c t, (print_with body) v = c :: t ∧ json_ws c = false ∧ c ≠ 93 ∧ c ≠ 125.
Proof.
  destruct v as [|[]|z|s|l|fs]; cbn; try (eexists _, _; split; [reflexivity | done]).
  assert (∀ n, 0 ≤ n → ∃ c t, dec_nat n = c :: t ∧ json_ws c = false ∧ c ≠ 93 ∧ c ≠ 125) as H.
  { intros n Hn. destruct (dec_nat_head n Hn) as (c & t & -> & Hc).
    exists c, t. unfold is_digit, json_ws in *. split_and!; [done|lia..]. }
  unfold dec_int. destruct (z <? 0) eqn:E; [|apply H; lia].
  eexists _, _; split; [reflexivity | done].
Qed.

Lemma skip_ws_stringify v s : skip_ws ((print_with body) v ++ s) = (print_with body) v ++ s.
Proof. destruct (stringify_head v) as (c & t & -> & Hc & _). cbn. by rewrite Hc. Qed.

Lemma parse_value_num n k r : no_digit r → parse_value (S n) (dec_int k ++ r) = Some (JNum k, r).
Proof.
  intros Hr. unfold dec_int. destruct (k <? 0) eqn:E.
  - cbn [app]. cbn -[parse_nat dec_nat]. rewrite parse_nat_dec by (done || lia). cbn.
    do 2 f_equal. f_equal. lia.
  - pose proof (parse_nat_dec k r ltac:(lia) Hr) as Hp.
    destruct (dec_nat_head k ltac:(lia)) as (c & t & Hd & Hc). rewrite Hd in *.
    cbn [app] in *. cbn [parse_value skip_ws]. unfold is_digit in Hc.
    replace (json_ws c) with false by (unfold json_ws; lia). bool_lia.
    cbn -[parse_nat]. by rewrite Hp.
Qed.

Lemma parse_value_str n s r :
  Forall is_unit s → parse_value (S n) (quote_with body s ++ r) = Some (JStr s, r).
Proof.
  intros Hs. unfold quote_with. cbn [app parse_value skip_ws]. cbn -[parse_string].
  rewrite <- app_assoc. cbn [app]. by rewrite Hbody.
Qed.

(** The element lists of arrays and objects. *)
Lemma parse_elems_join l n r :
  l ≠ [] → Forall parses l → (list_sum (map (λ x, S (json_size x)) l) ≤ n)%nat →
  parse_elems n (join 44 (map (print_with body) l) ++ 93 :: r) = Some (l, r).
Proof.
  intros Hne Hl. revert n. induction Hl as [|v l Hv Hl IH]; intros n Hn; [done|].
  destruct n as [|n]; [cbn in Hn; lia|]. cbn [map list_sum foldr] in Hn.
  destruct l as [|w l].
  - cbn [map join parse_elems]. rewrite Hv by (done || cbn in Hn; lia). done.
  - change (join 44 (map (print_with body) (v :: w :: l))) with
      ((print_with body) v ++ 44 :: join 44 (map (print_with body) (w :: l))).
    rewrite <- app_assoc. cbn [app parse_elems].
    rewrite Hv by (done || cbn in Hn; lia). cbn [mbind option_bind].
    change (eat 44 (skip_ws (44 :: ?x))) with (Some x). cbv iota.
    rewrite IH; [done | done |]. cbn in Hn |- *. lia.
Qed.

Definition print_member (f : jsstr * json) : jsstr := quote_with body f.1 ++ 58 :: (print_with body) f.2.

Lemma parse_members_join fs n r :
  fs ≠ [] → Forall (λ f, Forall is_unit f.1 ∧ parses f.2) fs →
  (list_sum (map (λ f, S (json_size f.2)) fs) ≤ n)%nat →
  parse_members n (join 44 (map print_member fs) ++ 125 :: r) = Some (fs, r).
Proof.
  intros Hne Hl. revert n. induction Hl as [|[k v] fs [Hk Hv] Hl IH]; intros n Hn; [done|].
  destruct n as [|n]; [cbn in Hn; lia|]. cbn in Hk, Hv.
  assert (∀ x, parse_members (S n) (print_member (k, v) ++ x)
               = '(w, r) ← parse_value n ((print_with body) v ++ x);
                 match eat 44 (skip_ws r) with
                 | Some r' => '(ms, r'') ← parse_members n r'; Some ((k, w) :: ms, r'')
                 | None => r' ← eat 125 (skip_ws r); Some ([(k, w)], r')
                 end) as E.
  { intros x. unfold print_member, quote_with; cbn [fst snd app]. rewrite <- !app_assoc.
    cbn [app parse_members]. cbn -[parse_string parse_value parse_members eat skip_ws].
    change (eat 34 (skip_ws (34 :: ?x))) with (Some x). cbn -[parse_string parse_value parse_members eat skip_ws].
    rewrite Hbody by done. done. }
  destruct fs as [|f fs].
  - cbn [map join]. rewrite E, Hv by (done || cbn in Hn; lia). done.
  - change (join 44 (map print_member ((k, v) :: f :: fs))) with
      (print_member (k, v) ++ 44 :: join 44 (map print_member (f :: fs))).
    rewrite <- app_assoc, E. cbn [app].
    rewrite Hv by (done || cbn in Hn; lia). cbn [mbind option_bind].
    change (eat 44 (skip_ws (44 :: ?x))) with (Some x). cbv iota.
    rewrite IH; [done | done |]. cbn in Hn |- *. lia.
Qed.

Lemma obj_of_members_nodup ms : NoDup ms.*1 → obj_of_members ms = JObj ms.
Proof.
  intros Hnd. unfold obj_of_members. f_equal.
  enough (∀ acc, NoDup (acc.*1 ++ ms.*1) →
    fold_left (λ fs m, map_set fs m.1 m.2) ms acc = acc ++ ms) as H by (by apply (H [])).
  clear Hnd. induction ms as [|[k v] ms IH]; intros acc Hnd; cbn; [by rewrite app_nil_r|].
  assert (k ∉ map_keys acc) as Hk.
  { apply NoDup_app in Hnd as (_ & Hd & _). intros Hin. by apply (Hd k Hin); left. }
  rewrite map_set_fresh by done. rewrite IH; [by rewrite <- app_assoc|].
  by rewrite fmap_app, <- app_assoc.
Qed.

Lemma parses_wf v : json_wf v = true → parses v.
Proof.
  induction v as [|b|k|s|l IH|fs IH] using json_ind'; intros Hwf [|n] r Hn Hr; cbn in Hn; try lia.
  - done.
  - by destruct b.
  - by apply parse_value_num.
  - apply parse_value_str. by apply bool_decide_eq_true in Hwf.
  - destruct l as [|w l]; [done|]. cbn [print_with app parse_value skip_ws].
    assert (Forall parses (w :: l)) as Hl.
    { apply Forall_forall. intros x Hx. rewrite Forall_forall in IH. apply IH; [done|].
      apply (proj1 (forallb_forall json_wf (w :: l)) Hwf). by apply list_elem_of_In. }
    rewrite <- app_assoc. cbn [app].
    assert (eat 93 (skip_ws (join 44 (map (print_with body) (w :: l)) ++ 93 :: r)) = None) as Heat.
    { destruct (stringify_head w) as (c & t & E & Hc & Hc1 & _).
      destruct l; cbn; rewrite E; cbn; rewrite Hc; cbn; by rewrite (proj2 (Z.eqb_neq _ _) Hc1). }
    cbn -[parse_elems join map eat skip_ws]. rewrite Heat, parse_elems_join by (done || cbn in *; lia). done.
  - destruct fs as [|f fs]; [done|]. cbn [json_wf] in Hwf.
    apply andb_true_iff in Hwf as [Hnd%bool_decide_eq_true Hwf].
    assert (Forall (λ g, Forall is_unit g.1 ∧ parses g.2) (f :: fs)) as Hl.
    { apply Forall_forall. intros x Hx. rewrite Forall_forall in IH.
      pose proof (proj1 (forallb_forall _ (f :: fs)) Hwf x) as Hx'.
      specialize (Hx' ltac:(by apply list_elem_of_In)). apply andb_true_iff in Hx' as [?%bool_decide_eq_true ?]. auto. }
    change ((print_with body) (JObj (f :: fs))) with
      (123 :: join 44 (map print_member (f :: fs)) ++ [125]).
    cbn [app parse_value skip_ws]. rewrite <- app_assoc. cbn [app].
    assert (eat 125 (skip_ws (join 44 (map print_member (f :: fs)) ++ 125 :: r)) = None) as Heat
      by (destruct fs; done).
    cbn -[parse_members join map eat skip_ws]. rewrite Heat.
    rewrite parse_members_join by (done || cbn in *; lia). cbn.
    by rewrite obj_of_members_nodup.
Qed.

Lemma length_join_sum l :
  (list_sum (map length l) ≤ length (join 44 l) ∧
   (l ≠ [] → list_sum (map length l) + length l ≤ S (length (join 44 l))))%nat.
Proof.
  induction l as [|x l [IH1 IH2]]; [done|]. destruct l as [|y l]; [split; intros; cbn; lia|].
  specialize (IH2 ltac:(done)).
  change (join 44 (x :: y :: l)) with (x ++ 44 :: join 44 (y :: l)).
  remember (y :: l) as m. rewrite length_app. unfold list_sum in *.
  split; intros; cbn; lia.
Qed.

Lemma list_sum_le {A} (f g : A → nat) l :
  Forall (λ x, f x ≤ g x)%nat l → (list_sum (map f l) ≤ list_sum (map g l))%nat.
Proof. unfold list_sum. induction 1; cbn; lia. Qed.

Lemma list_sum_S {A} (f : A → nat) l :
  list_sum (map (λ x, S (f x)) l) = (length l + list_sum (map f l))%nat.
Proof. unfold list_sum. induction l; cbn; lia. Qed.

Lemma list_sum_double {A} (f : A → nat) l :
  list_sum (map (λ x, 2 * f x)%nat l) = (2 * list_sum (map f l))%nat.
Proof. unfold list_sum. induction l; cbn [map foldr]; lia. Qed.

Lemma json_size_length v : (json_size v ≤ 2 * length ((print_with body) v))%nat.
Proof.
  assert (∀ w, 1 ≤ length ((print_with body) w))%nat as Hpos.
  { intros w. destruct (stringify_head w) as (c & t & -> & _). cbn; lia. }
  induction v as [|b|k|s|l IH|fs IH] using json_ind'; cbn [json_size].
  - specialize (Hpos JNull). lia.
  - specialize (Hpos (JBool b)). lia.
  - specialize (Hpos (JNum k)). lia.
  - specialize (Hpos (JStr s)). lia.
  - cbn [json_size print_with]. rewrite list_sum_S. cbn [length]. rewrite length_app.
    apply list_sum_le in IH. rewrite list_sum_double in IH.
    destruct (length_join_sum (map (print_with body) l)) as [_ H].
    rewrite map_map, length_map in H. destruct l; cbn [length map app] in *; [cbn; lia|].
    specialize (H ltac:(done)). lia.
  - change ((print_with body) (JObj fs)) with (123 :: join 44 (map print_member fs) ++ [125]).
    cbn [json_size]. rewrite list_sum_S. cbn [length]. rewrite length_app.
    assert (Forall (λ f, json_size f.2 ≤ 2 * length (print_member f))%nat fs) as IH'.
    { eapply Forall_impl; [exact IH|]. intros f Hf. cbn in Hf. unfold print_member.
      rewrite length_app. cbn. lia. }
    apply list_sum_le in IH'. rewrite list_sum_double in IH'.
    destruct (length_join_sum (map print_member fs)) as [_ H].
    rewrite map_map, length_map in H. destruct fs; cbn [length map app] in *; [cbn; lia|].
    specialize (H ltac:(done)). lia.
Qed.

Lemma parse_print v : json_wf v = true → JSON_parse (print_with body v) = Ok v.
Proof.
  intros Hwf. unfold JSON_parse. pose proof (json_size_length v) as Hs.
  rewrite <- (app_nil_r (print_with body v)) at 2.
  rewrite (parses_wf v Hwf); [done | lia | done].
Qed.
End Printed.

(** [JSON.parse] inverts [JSON.stringify]. *)
Lemma JSON_parse_stringify v : json_wf v = true → JSON_parse (JSON_stringify v) = Ok v.
Proof. apply parse_print, parse_string_body. Qed.

#[export] Hint Rewrite JSON_parse_stringify using (by trivial) : trapchat.

(** ** JSON texts are plain text

    [JSON.stringify] escapes lone surrogates, so its output is well-formed
    UTF-16 whatever the value holds, and it starts with a visible character:
    encoding it as UTF-8 loses nothing. *)

Lemma isWellFormed_app s t : isWellFormed s = true → isWellFormed t = true → isWellFormed (s ++ t) = true.
Proof.
  intros Hs Ht. induction s as [|c|c d s IH1 IH2] using list_ind2; [done| |].
  - cbn in *. destruct (is_high c); [done|]. by destruct (is_low c).
  - cbn in Hs |- *. destruct (is_high c); [destruct (is_low d); auto|].
    destruct (is_low c); [done|]. apply IH1. apply Hs.
Qed.

(** Units that can be sent: what every printed text is made of. *)
Definition text_ok (s : jsstr) : Prop := Forall is_unit s ∧ isWellFormed s = true.

Lemma text_ok_app s t : text_ok s → text_ok t → text_ok (s ++ t).
Proof. intros [??] [??]. split; [by apply Forall_app | by apply isWellFormed_app]. Qed.

Lemma text_ok_ascii s : Forall is_ascii s → text_ok s.
Proof. intros H. apply ascii_plain in H as (? & ? & _). done. Qed.

Lemma text_ok_cons c s : is_ascii c → text_ok s → text_ok (c :: s).
Proof. intros Hc Hs. apply (text_ok_app [c] s); [apply text_ok_ascii; auto | done]. Qed.

Lemma text_ok_hex v : 0 ≤ v < 16 → is_ascii (hex_digit v).
Proof. intros H. unfold hex_digit, is_ascii. destruct (v <? 10) eqn:E; lia. Qed.

Lemma text_ok_esc_u c : is_unit c → text_ok (esc_u c).
Proof.
  unfold is_unit. intros H. apply text_ok_ascii. unfold esc_u.
  repeat (apply Forall_cons; split); try apply Forall_nil;
    first [unfold is_ascii; lia | apply text_ok_hex; zdivs].
Qed.

Lemma text_ok_quote_char c :
  is_unit c → is_high c = false → is_low c = false → text_ok (quote_char c).
Proof.
  intros Hc Hh Hl. unfold quote_char.
  repeat match goal with |- context [if c =? ?k then _ else _] => destruct (c =? k) end;
    try (apply text_ok_ascii; repeat (apply Forall_cons; split); try apply Forall_nil; unfold is_ascii; cbn; lia).
  destruct (c <? 32); [by apply text_ok_esc_u|].
  split; [by apply Forall_singleton|]. cbn. by rewrite Hh, Hl.
Qed.

Lemma text_ok_quote_body s : Forall is_unit s → text_ok (quote_body s).
Proof.
  induction s as [|c|c d s IH1 IH2] using list_ind2; intros Hs.
  - apply text_ok_ascii. decided.
  - inversion Hs; subst. cbn [quote_body].
    destruct (is_high c) eqn:Hh; [by apply text_ok_esc_u|].
    destruct (is_low c) eqn:Hl; rewrite app_nil_r;
      [by apply text_ok_esc_u | by apply text_ok_quote_char].
  - inversion Hs as [|? ? Hc Hds]; subst. inversion Hds as [|? ? Hd Hs']; subst.
    change (quote_body (c :: d :: s)) with
      (if is_high c then if is_low d then c :: d :: quote_body s else esc_u c ++ quote_body (d :: s)
       else if is_low c then esc_u c ++ quote_body (d :: s) else quote_char c ++ quote_body (d :: s)).
    destruct (is_high c) eqn:Hh; [destruct (is_low d) eqn:Hl|destruct (is_low c) eqn:Hl].
    + destruct (IH2 Hs') as [Hu Hw]. split; [do 2 (constructor; [done|]); done|]. cbn. by rewrite Hh, Hl.
    + apply text_ok_app; [by apply text_ok_esc_u | by apply IH1].
    + apply text_ok_app; [by apply text_ok_esc_u | by apply IH1].
    + apply text_ok_app; [by apply text_ok_quote_char | by apply IH1].
Qed.

Lemma dec_loop_ascii f n acc : 0 ≤ n → Forall is_ascii acc → Forall is_ascii (dec_loop f n acc).
Proof.
  revert n acc. induction f as [|f IH]; intros n acc Hn Ha; cbn; [done|].
  destruct (n <? 10) eqn:E.
  - constructor; [unfold is_ascii; lia | done].
  - apply IH; [zdivs|]. constructor; [|done]. unfold is_ascii. zdivs.
Qed.

Lemma dec_int_ascii n : Forall is_ascii (dec_int n).
Proof.
  unfold dec_int, dec_nat. destruct (n <? 0) eqn:E; [constructor; [decided|]|]; apply dec_loop_ascii; (lia || constructor).
Qed.

Lemma text_ok_dec_int n : text_ok (dec_int n).
Proof. apply text_ok_ascii, dec_int_ascii. Qed.

(** What holds of ASCII texts and of every string that is printed, and of a
    text when it holds of its parts, holds of a printed value. *)
Section PrintedText.
Context (body : jsstr → jsstr) (P : jsstr → Prop).
Context (P_ascii : ∀ s, Forall is_ascii s → P s) (P_app : ∀ s t, P s → P t → P (s ++ t)).
Context (P_body : ∀ s, Forall is_unit s → P (body s)).

Lemma text_char c s : is_ascii c → P s → P (c :: s).
Proof using P_ascii P_app. intros Hc Hs. apply (P_app [c] s); [apply P_ascii; auto | done]. Qed.

Lemma text_join l : Forall P l → P (join 44 l).
Proof using P_ascii P_app.
  induction 1 as [|x l Hx Hl IH]; [apply P_ascii; decided|]. destruct l as [|y l]; [done|].
  change (join 44 (x :: y :: l)) with (x ++ 44 :: join 44 (y :: l)).
  apply P_app; [done|]. apply text_char; [decided|done].
Qed.

Lemma text_quote s : Forall is_unit s → P (quote_with body s).
Proof using P_ascii P_app P_body.
  intros Hs. unfold quote_with. apply text_char; [decided|]. apply P_app; [by apply P_body | apply P_ascii; decided].
Qed.

Lemma text_print v : json_wf v = true → P (print_with body v).
Proof using P_ascii P_app P_body.
  assert (∀ c, is_ascii c → P [c]) as H1 by (intros; apply P_ascii; auto).
  induction v as [|b|k|s|l IH|fs IH] using json_ind'; intros Hwf; cbn [print_with].
  - apply P_ascii. decided.
  - apply P_ascii. destruct b; decided.
  - apply P_ascii, dec_int_ascii.
  - apply text_quote. by apply bool_decide_eq_true in Hwf.
  - apply text_char; [decided|]. apply P_app; [|apply H1; decided]. apply text_join.
    apply Forall_forall. intros x (v & -> & Hv)%list_elem_of_fmap. rewrite Forall_forall in IH.
    apply IH; [done|]. apply (proj1 (forallb_forall json_wf l) Hwf). by apply list_elem_of_In.
  - apply text_char; [decided|]. apply P_app; [|apply H1; decided]. apply text_join.
    apply Forall_forall. intros x (f & -> & Hf)%list_elem_of_fmap. rewrite Forall_forall in IH.
    cbn in Hwf. apply andb_true_iff in Hwf as [_ Hwf].
    pose proof (proj1 (forallb_forall _ fs) Hwf f ltac:(by apply list_elem_of_In)) as Hx.
    apply andb_true_iff in Hx as [Hu%bool_decide_eq_true Hv].
    apply P_app; [by apply text_quote|]. apply text_char; [decided|]. by apply IH.
Qed.
End PrintedText.

Lemma text_ok_stringify v : json_wf v = true → text_ok (JSON_stringify v).
Proof. apply text_print; [apply text_ok_ascii|apply text_ok_app|apply text_ok_quote_body]. Qed.

Lemma plain_stringify v : json_wf v = true → plain_text (JSON_stringify v).
Proof.
  intros Hwf. destruct (text_ok_stringify v Hwf) as [Hu Hw]. split_and!; [done|done|].
  destruct v as [|[]|n|s|l|fs]; cbn; try done.
  unfold dec_int. destruct (n <? 0) eqn:E; [done|].
  destruct (dec_nat_head n ltac:(lia)) as (c & t & -> & Hc). cbn. unfold is_digit in Hc.
  intros [=]. lia.
Qed.

#[export] Hint Resolve plain_stringify : trapchat.

(** ** Object literals *)

Lemma omap_keys_sublist (fs : list (jsstr * option json)) :
  (omap (λ f, (λ v, (f.1, v)) <$> f.2) fs).*1 `sublist_of` fs.*1.
Proof.
  induction fs as [|[k [v|]] fs IH]; [done| |].
  - exact (sublist_skip k _ _ IH).
  - exact (sublist_cons k _ _ IH).
Qed.

Lemma obj_wf fs :
  NoDup fs.*1 → Forall (λ f : jsstr * option json, Forall is_unit f.1 ∧ ∀ v, f.2 = Some v → json_wf v = true) fs →
  json_wf (obj fs) = true.
Proof.
  intros Hnd Hfs. cbn [obj json_wf]. apply andb_true_iff. split.
  - apply bool_decide_eq_true. eapply sublist_NoDup; [exact Hnd|apply omap_keys_sublist].
  - apply forallb_forall. intros [k v] Hin%list_elem_of_In.
    apply list_elem_of_omap in Hin as ([k' o] & Hin & E). destruct o as [v'|]; [|done]. injection E as <- <-.
    rewrite Forall_forall in Hfs. destruct (Hfs _ Hin) as [Hk Hv]. cbn in *.
    by rewrite bool_decide_true, Hv.
Qed.

(** Reading a property of a literal back. *)
Lemma json_get_obj fs k : NoDup fs.*1 → json_get (obj fs) k = map_get fs k ≫= id.
Proof.
  cbn [obj json_get]. induction fs as [|[k' o] fs IH]; [done|]. intros [Hk Hnd]%NoDup_cons.
  specialize (IH Hnd). change (omap ?f ((k', o) :: fs)) with
    (match (λ v, (k', v)) <$> o with Some y => y :: omap f fs | None => omap f fs end).
  destruct o as [v|]; cbn [fmap option_fmap option_map map_get]; destruct (decide (k = k')) as [->|Hne]; try done.
  rewrite IH. cbn [fmap list_fmap fst] in Hk. rewrite (proj2 (map_get_None fs k')); done.
Qed.

Lemma json_get_wf v k w : json_wf v = true → json_get v k = Some w → json_wf w = true.
Proof.
  destruct v as [| | | | |fs]; try done. cbn. intros [_ Hall]%andb_true_iff Hg.
  apply map_get_Some_elem in Hg. rewrite forallb_forall in Hall.
  apply list_elem_of_In in Hg. apply Hall in Hg. by apply andb_true_iff in Hg as [_ ?].
Qed.

Lemma stringify_wf v : json_wf v = true → json_wf (JStr (JSON_stringify v)) = true.
Proof. intros Hv. cbn. apply bool_decide_eq_true. by apply plain_stringify. Qed.
