(* ===== verification/Crypto.v ===== *)
(** * lib/crypto.js: the wire formats of keys, messages and media envelopes

    WebCrypto is the platform's: [WebCrypto] is the interface the program
    calls and [WebCryptoLaws] what it relies on (AES-GCM opens what it sealed,
    raw export and import are inverse, a SHA-256 digest has 32 bytes). The
    random bytes of [crypto.getRandomValues] are an argument, [iv]. *)

From S2P Require Import Prelude JsLib Base64 Text Json.

Local Open Scope Z_scope.

Class WebCrypto := {
  CryptoKey : Type;
  aes_seal : CryptoKey → bytes → bytes → bytes;
  aes_open : CryptoKey → bytes → bytes → option bytes;
  raw_export : CryptoKey → bytes;
  raw_import : bytes → option CryptoKey;
  pbkdf2 : bytes → bytes → Z → CryptoKey;
  sha256 : bytes → bytes
}.

Definition IV_LENGTH : nat := 12.
Definition PBKDF2_ITERATIONS : Z := 600000.
Definition KDF_CONTEXT : jsstr := lit "trapchat:pbkdf2:v1".

Class WebCryptoLaws `{WebCrypto} : Prop := {
  aes_open_seal k iv p : length iv = IV_LENGTH → aes_open k iv (aes_seal k iv p) = Some p;
  aes_seal_bytes k iv p : Forall is_byte p → Forall is_byte (aes_seal k iv p);
  raw_import_export k : raw_import (raw_export k) = Some k;
  raw_export_bytes k : Forall is_byte (raw_export k);
  sha256_length m : length (sha256 m) = 32%nat
}.

(** A random IV, as [crypto.getRandomValues(new Uint8Array(IV_LENGTH))] fills it. *)
Definition iv_ok (iv : bytes) : Prop := length iv = IV_LENGTH ∧ Forall is_byte iv.
Global Instance iv_ok_dec iv : Decision (iv_ok iv).
Proof. unfold iv_ok; apply _. Defined.

(** ** Typed arrays *)

Definition new_uint8 (n : nat) : bytes := replicate n 0.

(** [buf.set(src, off)]: a [RangeError] when it does not fit. *)
Definition uint8_set (buf src : bytes) (off : nat) : result bytes :=
  if decide (off + length src ≤ length buf)%nat
  then Ok (take off buf ++ src ++ drop (off + length src) buf)
  else Throw (lit "RangeError").

Lemma uint8_set_at a r src :
  (length src ≤ length r)%nat →
  uint8_set (a ++ r) src (length a) = Ok (a ++ src ++ drop (length src) r).
Proof.
  intros H. unfold uint8_set. rewrite decide_True by (rewrite length_app; lia).
  rewrite take_app_length, <- drop_drop, drop_app_length. done.
Qed.

(** Two writes into a fresh array of the right size concatenate. *)
Lemma uint8_set_concat a b :
  (buf ← uint8_set (new_uint8 (length a + length b)) a 0; uint8_set buf b (length a)) = Ok (a ++ b).
Proof.
  pose proof (uint8_set_at [] (new_uint8 (length a + length b)) a) as E. cbn [app length] in E.
  unfold new_uint8 in *. rewrite length_replicate in E. rewrite E by lia. cbn [mbind result_bind].
  rewrite drop_replicate. replace (length a + length b - length a)%nat with (length b) by lia.
  rewrite uint8_set_at by (rewrite length_replicate; lia).
  rewrite drop_replicate, Nat.sub_diag. cbn. by rewrite app_nil_r.
Qed.

Section Crypto.
Context `{WebCrypto}.

(** A reference that may hold [null] where a key is expected; the platform
    throws a [TypeError] on it. *)
Definition subtle_encrypt (key : option CryptoKey) (iv data : bytes) : result bytes :=
  match key with Some k => Ok (aes_seal k iv data) | None => Throw (lit "TypeError") end.

Definition subtle_decrypt (key : option CryptoKey) (iv data : bytes) : result bytes :=
  match key with
  | Some k => of_option (lit "OperationError") (aes_open k iv data)
  | None => Throw (lit "TypeError")
  end.

(** ** Messages *)

Definition encryptBytes (key : option CryptoKey) (iv b : bytes) : result jsstr :=
  ciphertext ← subtle_encrypt key iv b;
  res ← uint8_set (new_uint8 (length iv + length ciphertext)) iv 0;
  res ← uint8_set res ciphertext (length iv);
  uint8ToBase64 res.

Definition decryptBytes (key : option CryptoKey) (encoded : jsstr) : result bytes :=
  data ← base64ToUint8 encoded;
  subtle_decrypt key (take IV_LENGTH data) (drop IV_LENGTH data).

Definition encrypt (key : option CryptoKey) (iv : bytes) (plaintext : jsstr) : result jsstr :=
  ciphertext ← subtle_encrypt key iv (TextEncoder_encode plaintext);
  res ← uint8_set (new_uint8 (length iv + length ciphertext)) iv 0;
  res ← uint8_set res ciphertext (length iv);
  uint8ToBase64 res.

Definition decrypt (key : option CryptoKey) (encoded : jsstr) : result jsstr :=
  data ← base64ToUint8 encoded;
  plaintext ← subtle_decrypt key (take IV_LENGTH data) (drop IV_LENGTH data);
  mret (TextDecoder_decode plaintext).

(** ** Media envelopes: the metadata object with the chunk under ["data"] *)

Definition encryptMediaEnvelope (key : option CryptoKey) (iv chunkData : bytes)
    (metadata : list (jsstr * json)) : result jsstr :=
  data ← uint8ToBase64 chunkData;
  encrypt key iv (JSON_stringify (JObj (map_set metadata (lit "data") (JStr data)))).

Definition bad_envelope : jsstr := lit "decryptMediaEnvelope: missing or invalid data field".

Definition decryptMediaEnvelope (key : option CryptoKey) (ciphertext : jsstr)
    : result (bytes * list (jsstr * json)) :=
  text ← decrypt key ciphertext;
  parsed ← JSON_parse text;
  match parsed with
  | JNull => Throw (lit "TypeError")
  | JObj fs =>
      match map_get fs (lit "data") with
      | Some (JStr data) =>
          chunkData ← base64ToUint8 data;
          mret (chunkData, map_delete fs (lit "data"))
      | _ => Throw bad_envelope
      end
  | _ => Throw bad_envelope
  end.

(** ** Keys *)

Definition exportKey (key : option CryptoKey) : result jsstr :=
  match key with
  | Some k => uint8ToBase64 (raw_export k)
  | None => Throw (lit "TypeError")
  end.

Definition importKey (base64 : jsstr) : result CryptoKey :=
  raw ← base64ToUint8 base64;
  of_option (lit "DataError") (raw_import raw).

(** [salt] is [None] when the argument is not a [Uint8Array]. *)
Definition deriveRoomKey (roomName passphrase : jsstr) (salt : option bytes) : result CryptoKey :=
  if str_empty passphrase then
    Throw (lit "deriveRoomKey requires a passphrase " ++ [8212] ++ lit " room name alone is not secret")
  else match salt with
  | None => Throw (lit "deriveRoomKey requires a 32-byte Uint8Array salt")
  | Some salt =>
      if negb (Nat.eqb (length salt) 32) then
        Throw (lit "deriveRoomKey requires a 32-byte Uint8Array salt")
      else
        let material := roomName ++ lit ":" ++ passphrase in
        let saltInput := TextEncoder_encode (KDF_CONTEXT ++ lit ":" ++ roomName) in
        let roomHash := sha256 saltInput in
        combinedSalt ← uint8_set (new_uint8 64) salt 0;
        combinedSalt ← uint8_set combinedSalt roomHash 32;
        mret (pbkdf2 (TextEncoder_encode material) combinedSalt PBKDF2_ITERATIONS)
  end.

(** ** What the formats promise *)

Context `{!WebCryptoLaws}.

(** The message format: base64 of the IV followed by the sealed bytes. *)
Lemma encryptBytes_format k iv b :
  iv_ok iv → Forall is_byte b →
  encryptBytes (Some k) iv b = Ok (b64_encode (iv ++ aes_seal k iv b)).
Proof.
  intros [_ Hiv] Hb. unfold encryptBytes. cbn [subtle_encrypt mbind result_bind].
  pose proof (uint8_set_concat iv (aes_seal k iv b)) as E.
  apply bind_Ok in E as (buf & -> & E). cbn [mbind result_bind]. rewrite E.
  apply uint8ToBase64_bytes, Forall_app; auto using aes_seal_bytes.
Qed.

Lemma decryptBytes_format k iv ct :
  iv_ok iv → Forall is_byte ct →
  decryptBytes (Some k) (b64_encode (iv ++ ct)) = of_option (lit "OperationError") (aes_open k iv ct).
Proof.
  intros [Hl Hiv] Hct. unfold decryptBytes.
  rewrite base64ToUint8_encode by (by apply Forall_app). cbn [mbind result_bind subtle_decrypt].
  by rewrite <- Hl, take_app_length, drop_app_length.
Qed.

(** [encrypt] and [decrypt] are the byte versions around the text codec. *)
Lemma encrypt_bytes key iv s : encrypt key iv s = encryptBytes key iv (TextEncoder_encode s).
Proof. done. Qed.

Lemma decrypt_bytes key c : decrypt key c = TextDecoder_decode <$> decryptBytes key c.
Proof.
  unfold decrypt, decryptBytes. destruct (base64ToUint8 c); [|done].
  cbn [mbind result_bind]. by destruct (subtle_decrypt key _ _).
Qed.

Lemma decryptBytes_encryptBytes k iv b :
  iv_ok iv → Forall is_byte b →
  ∃ c, encryptBytes (Some k) iv b = Ok c ∧ decryptBytes (Some k) c = Ok b.
Proof.
  intros Hiv Hb. eexists. split; [by apply encryptBytes_format|].
  rewrite decryptBytes_format by auto using aes_seal_bytes.
  by rewrite aes_open_seal by apply Hiv.
Qed.

Lemma decrypt_encrypt k iv s :
  iv_ok iv → plain_text s →
  ∃ c, encrypt (Some k) iv s = Ok c ∧ decrypt (Some k) c = Ok s.
Proof.
  intros Hiv Hs. destruct (decryptBytes_encryptBytes k iv (TextEncoder_encode s) Hiv)
    as (c & Hc & Hd); [apply TextEncoder_bytes, Hs|].
  exists c. rewrite encrypt_bytes, decrypt_bytes, Hd. split; [done|]. cbn.
  by rewrite TextDecoder_encode.
Qed.

Lemma decrypt_null c : is_ok (decrypt None c) = false.
Proof. unfold decrypt. by destruct (base64ToUint8 c). Qed.

(** An envelope is a message whose text is the JSON of the chunk. *)
Definition envelope_json (chunkData : bytes) (metadata : list (jsstr * json)) : json :=
  JObj (map_set metadata (lit "data") (JStr (b64_encode chunkData))).

Lemma b64_units b : Forall is_byte b → Forall is_unit (b64_encode b).
Proof.
  intros Hb. unfold b64_encode. apply Forall_app; split.
  - pose proof (sextets_range b Hb) as Hr. clear Hb.
    induction Hr as [|v l Hv _ IH]; cbn; constructor; [|done].
    unfold is_sextet, is_unit, b64_char in *.
    repeat match goal with |- context [if ?x then _ else _] => destruct x eqn:? end; lia.
  - destruct (b64_pad_cases b) as [->|[->| ->]]; decided.
Qed.

Lemma forallb_map_set (f : jsstr * json → bool) m k v :
  (∀ k', f (k', v) = f (k, v) ∨ k' ≠ k) →
  forallb f m = true → f (k, v) = true → forallb f (map_set m k v) = true.
Proof.
  intros Hf. induction m as [|[k' v'] m IH]; cbn; intros Hm Hk; [by rewrite Hk|].
  apply andb_true_iff in Hm as [Hm1 Hm2]. destruct (decide (k = k')) as [->|]; cbn.
  - by rewrite Hk, Hm2.
  - by rewrite Hm1, IH.
Qed.

(** What [encrypt] returns is base64 of the IV and more: never empty, and
    ASCII. *)
Lemma encrypt_shape k iv s c :
  iv_ok iv → Forall is_unit s → encrypt (Some k) iv s = Ok c → c ≠ [] ∧ Forall is_unit c.
Proof.
  intros Hiv Hs E. rewrite encrypt_bytes, encryptBytes_format in E
    by (done || by apply TextEncoder_bytes).
  injection E as <-. split.
  - intros Hc. destruct Hiv as [Hl _]. unfold IV_LENGTH in Hl. apply (f_equal length) in Hc.
    unfold b64_encode in Hc. rewrite length_app, length_fmap in Hc.
    destruct iv as [|? [|? [|? iv]]]; cbn in Hl, Hc; lia.
  - apply b64_units, Forall_app. split; [apply Hiv | by apply aes_seal_bytes, TextEncoder_bytes].
Qed.

Lemma envelope_json_wf b md :
  Forall is_byte b → json_wf (JObj md) = true → json_wf (envelope_json b md) = true.
Proof.
  intros Hb Hmd. unfold envelope_json. cbn [json_wf] in *.
  apply andb_true_iff in Hmd as [Hnd%bool_decide_eq_true Hmd].
  apply andb_true_iff; split.
  - apply bool_decide_eq_true. by apply (map_wf_set md).
  - apply forallb_map_set; [|done|].
    + intros k'. destruct (decide (k' = lit "data")) as [->|]; auto.
    + cbn [fst snd json_wf]. rewrite !bool_decide_true; [done | by apply b64_units | decided].
Qed.

Lemma decryptMediaEnvelope_encrypt k iv b md :
  iv_ok iv → Forall is_byte b → json_wf (JObj md) = true → lit "data" ∉ map_keys md →
  ∃ c, encryptMediaEnvelope (Some k) iv b md = Ok c ∧
       decrypt (Some k) c = Ok (JSON_stringify (envelope_json b md)) ∧
       decryptMediaEnvelope (Some k) c = Ok (b, md).
Proof.
  intros Hiv Hb Hmd Hdata. unfold encryptMediaEnvelope.
  rewrite uint8ToBase64_bytes by done. cbn [mbind result_bind].
  pose proof (envelope_json_wf b md Hb Hmd) as Hwf. fold (envelope_json b md).
  destruct (decrypt_encrypt k iv (JSON_stringify (envelope_json b md)) Hiv) as (c & Hc & Hd).
  { by apply plain_stringify. }
  exists c. split_and!; [done|done|]. unfold decryptMediaEnvelope. rewrite Hd.
  cbn [mbind result_bind]. rewrite JSON_parse_stringify by done.
  unfold envelope_json. cbn [mbind result_bind]. rewrite map_get_set_eq.
  rewrite base64ToUint8_encode by done. cbn [mbind result_bind]. unfold mret, result_ret.
  by rewrite map_set_fresh, map_delete_snoc by done.
Qed.

Lemma importKey_exportKey k : ∃ s, exportKey (Some k) = Ok s ∧ importKey s = Ok k.
Proof.
  unfold exportKey, importKey. pose proof (raw_export_bytes k) as Hb.
  rewrite uint8ToBase64_bytes by done. eexists; split; [done|].
  rewrite base64ToUint8_encode by done. cbn. by rewrite raw_import_export.
Qed.

(** The key of a passphrase room: PBKDF2 over the room and the passphrase,
    salted with the 32 random bytes followed by the hash of the room. *)
Lemma deriveRoomKey_Ok room pp salt :
  pp ≠ [] → length salt = 32%nat →
  deriveRoomKey room pp (Some salt)
  = Ok (pbkdf2 (TextEncoder_encode (room ++ lit ":" ++ pp))
               (salt ++ sha256 (TextEncoder_encode (KDF_CONTEXT ++ lit ":" ++ room)))
               PBKDF2_ITERATIONS).
Proof.
  intros Hpp Hs. unfold deriveRoomKey. destruct pp as [|c pp]; [done|]. cbn [str_empty].
  rewrite Hs. cbn [Nat.eqb negb].
  set (h := sha256 _). assert (length h = 32%nat) as Hh by apply sha256_length. clearbody h.
  pose proof (uint8_set_concat salt h) as E. rewrite Hs, Hh in E. cbn [Nat.add] in E.
  apply bind_Ok in E as (buf & -> & E). cbn [mbind result_bind]. by rewrite E.
Qed.

Lemma deriveRoomKey_Throw room pp salt :
  pp = [] ∨ salt = None ∨ (∃ s, salt = Some s ∧ length s ≠ 32%nat) →
  is_ok (deriveRoomKey room pp salt) = false.
Proof.
  intros [->|[->|(s & -> & Hs)]]; [done| by destruct pp|].
  unfold deriveRoomKey. destruct (str_empty pp); [done|].
  apply Nat.eqb_neq in Hs. by rewrite Hs.
Qed.
End Crypto.

(** ** A toy instance

    It meets the laws the development assumes of WebCrypto: the seal is a tag
    naming the key, followed by the plaintext, and a derived key is the first
    byte of the salt. *)

Module Toy.
Definition key_byte (k : Byte.byte) : Z := Z.of_N (Byte.to_N k).

Global Instance toy : WebCrypto := {|
  CryptoKey := Byte.byte;
  aes_seal k iv p := key_byte k :: p;
  aes_open k iv c :=
    match c with t :: p => if t =? key_byte k then Some p else None | [] => None end;
  raw_export k := [key_byte k];
  raw_import b := match b with [x] => Byte.of_N (Z.to_N x) | _ => None end;
  pbkdf2 pw salt n := match salt with s :: _ => default Byte.x00 (Byte.of_N (Z.to_N s)) | [] => Byte.x00 end;
  sha256 m := replicate 32 (Z.of_nat (length m) mod 256)
|}.

Lemma key_byte_range k : is_byte (key_byte k).
Proof. unfold is_byte, key_byte. pose proof (Byte.to_N_bounded k). lia. Qed.

Global Instance toy_laws : WebCryptoLaws.
Proof.
  constructor; cbn.
  - intros k iv p _. by rewrite Z.eqb_refl.
  - intros k iv p Hp. constructor; [apply key_byte_range | done].
  - intros k. unfold key_byte. by rewrite N2Z.id, Byte.of_to_N.
  - intros k. constructor; [apply key_byte_range | constructor].
  - done.
Qed.

Definition toy_key (b : Byte.byte) : @CryptoKey toy := b.
Definition toy_iv : bytes := [1; 2; 3; 4; 5; 6; 7; 8; 9; 10; 11; 12].
End Toy.

(** ** Properties *)

Section CryptoProperties.
Context `{!WebCrypto} `{!WebCryptoLaws}.

(** What a peer encrypts under the room key, a peer with that key reads:
    texts ([encrypt]/[decrypt]) and byte arrays ([encryptBytes]/
    [decryptBytes]); with no key both reject. *)
Theorem message_roundtrip k iv s b :
  iv_ok iv → plain_text s → Forall is_byte b →
  (∃ c, encrypt (Some k) iv s = Ok c ∧ decrypt (Some k) c = Ok s) ∧
  (∃ c, encryptBytes (Some k) iv b = Ok c ∧ decryptBytes (Some k) c = Ok b) ∧
  is_ok (encrypt None iv s) = false ∧ (∀ c, is_ok (decrypt None c) = false).
Proof.
  intros Hiv Hs Hb. split_and!.
  - by apply decrypt_encrypt.
  - by apply decryptBytes_encryptBytes.
  - done.
  - apply decrypt_null.
Qed.

(** A media envelope carries its chunk and its metadata unchanged,
    whatever characters the file name holds. *)
Theorem media_envelope_roundtrip k iv b md :
  iv_ok iv → Forall is_byte b → json_wf (JObj md) = true → lit "data" ∉ map_keys md →
  ∃ c, encryptMediaEnvelope (Some k) iv b md = Ok c ∧
       decryptMediaEnvelope (Some k) c = Ok (b, md).
Proof.
  intros Hiv Hb Hmd Hd.
  destruct (decryptMediaEnvelope_encrypt k iv b md Hiv Hb Hmd Hd) as (c & ? & _ & ?). eauto.
Qed.

(** C40: [deriveRoomKey] throws without a passphrase or a 32-byte salt, and
    otherwise runs PBKDF2 over room and passphrase with the 64-byte salt
    made of the random salt and the hash of the room. *)
Theorem deriveRoomKey_spec room pp salt :
  match salt with
  | Some s =>
      if decide (pp ≠ [] ∧ length s = 32%nat) then
        ∃ combined,
          deriveRoomKey room pp salt
          = Ok (pbkdf2 (TextEncoder_encode (room ++ lit ":" ++ pp)) combined PBKDF2_ITERATIONS) ∧
          length combined = 64%nat ∧ take 32 combined = s ∧
          drop 32 combined = sha256 (TextEncoder_encode (KDF_CONTEXT ++ lit ":" ++ room))
      else is_ok (deriveRoomKey room pp salt) = false
  | None => is_ok (deriveRoomKey room pp salt) = false
  end.
Proof.
  destruct salt as [s|]; [|apply deriveRoomKey_Throw; auto]. case_decide as Hd.
  - destruct Hd as [Hpp Hs]. eexists. split; [by apply deriveRoomKey_Ok|].
    rewrite length_app, sha256_length, <- Hs, take_app_length, drop_app_length. split_and!; done || lia.
  - apply deriveRoomKey_Throw. destruct (decide (pp = [])) as [|Hpp]; [auto|].
    right; right. exists s. split; [done|]. tauto.
Qed.

(** The key in a share link is the room key: importing what [exportKey]
    wrote gives the same key. *)
Theorem share_key_roundtrip k :
  ∃ s, exportKey (Some k) = Ok s ∧ importKey s = Ok k.
Proof. apply importKey_exportKey. Qed.
End CryptoProperties.

Module CryptoExamples.
Import Toy.

Lemma message_roundtrip_witness :
  let k := toy_key Byte.x07 in let s := [0xD83D; 0xDE00; 104; 233] in
  (∃ c, encrypt (Some k) toy_iv s = Ok c ∧ decrypt (Some k) c = Ok s) ∧
  (∃ c, encryptBytes (Some k) toy_iv [1; 2; 250] = Ok c ∧ decryptBytes (Some k) c = Ok [1; 2; 250]) ∧
  is_ok (encrypt None toy_iv s) = false ∧ (∀ c, is_ok (decrypt None c) = false).
Proof. apply (message_roundtrip (toy_key Byte.x07) toy_iv); decided. Defined.

Lemma media_envelope_roundtrip_witness :
  let md := [(lit "mimeType", JStr (lit "image/png")); (lit "fileSize", JNum 3)] in
  ∃ c, encryptMediaEnvelope (Some (toy_key Byte.x07)) toy_iv [1; 2; 250] md = Ok c ∧
       decryptMediaEnvelope (Some (toy_key Byte.x07)) c = Ok ([1; 2; 250], md).
Proof.
  apply (media_envelope_roundtrip (toy_key Byte.x07) toy_iv); decided.
Defined.

Lemma share_key_roundtrip_witness :
  ∃ s, exportKey (Some (toy_key Byte.x2b)) = Ok s ∧ importKey s = Ok (toy_key Byte.x2b).
Proof. apply (share_key_roundtrip (toy_key Byte.x2b)). Defined.

Lemma deriveRoomKey_spec_witness :
  ∃ combined,
    deriveRoomKey (lit "r") (lit "pw") (Some (replicate 32 9))
    = Ok (pbkdf2 (TextEncoder_encode (lit "r:pw")) combined PBKDF2_ITERATIONS) ∧
    length combined = 64%nat ∧ take 32 combined = replicate 32 9 ∧
    drop 32 combined = sha256 (TextEncoder_encode (KDF_CONTEXT ++ lit ":" ++ lit "r")).
Proof. exact (deriveRoomKey_spec (lit "r") (lit "pw") (Some (replicate 32 9))). Defined.
End CryptoExamples.
