(* ===== verification/Uri.v ===== *)
(** * Strings of the language: trimming, splitting, and the URI codec

    [String.prototype.trim] and [split] as the program uses them,
    [encodeURIComponent] and [decodeURIComponent]; a component that was encoded
    is one segment of a path or of a fragment, and decodes to what it was. *)

From S2P Require Import Prelude JsLib Text Json.

Local Open Scope Z_scope.

(** Whitespace and line terminators of the language. *)
Definition js_space (c : Z) : bool :=
  ((9 <=? c) && (c <=? 13)) || ((0x2000 <=? c) && (c <=? 0x200A)) ||
  existsb (Z.eqb c) [32; 0xA0; 0x1680; 0x2028; 0x2029; 0x202F; 0x205F; 0x3000; 0xFEFF].

Fixpoint trim_start (s : jsstr) : jsstr :=
  match s with c :: s' => if js_space c then trim_start s' else s | [] => [] end.

Definition trim (s : jsstr) : jsstr := rev (trim_start (rev (trim_start s))).

(** [s.split(c)] on one character. *)
Fixpoint split_char (c : Z) (s : jsstr) : list jsstr :=
  match s with
  | [] => [[]]
  | d :: s' =>
      if d =? c then [] :: split_char c s'
      else match split_char c s' with x :: xs => (d :: x) :: xs | [] => [[d]] end
  end.

(** The characters [encodeURIComponent] keeps. *)
Definition uri_unreserved (b : Z) : bool :=
  ((65 <=? b) && (b <=? 90)) || ((97 <=? b) && (b <=? 122)) || ((48 <=? b) && (b <=? 57)) ||
  existsb (Z.eqb b) [45; 95; 46; 33; 126; 42; 39; 40; 41].

Definition upper_hex (v : Z) : Z := if v <? 10 then 48 + v else 55 + v.

Definition percent (b : Z) : jsstr := [37; upper_hex (b / 16); upper_hex (b mod 16)].

Definition encodeURIComponent (s : jsstr) : result jsstr :=
  if isWellFormed s then
    Ok (flat_map (λ b, if uri_unreserved b then [b] else percent b) (TextEncoder_encode s))
  else Throw (lit "URIError").

(** Strict UTF-8: what lenient decoding gives, when it encodes to the same bytes. *)
Definition strict_utf8 (b : bytes) : option jsstr :=
  let cps := utf8_decode u_init b in
  if decide (flat_map utf8 cps = b) then Some (utf16s cps) else None.

(** [run] is the run of percent-encoded bytes just read. *)
Fixpoint decode_uri (run : bytes) (s : jsstr) : option jsstr :=
  match s with
  | [] => strict_utf8 run
  | c :: s1 =>
      if c =? 37 then
        match s1 with
        | a :: b :: s2 => h ← hex_val a; l ← hex_val b; decode_uri (run ++ [16 * h + l]) s2
        | _ => None
        end
      else pre ← strict_utf8 run; rest ← decode_uri [] s1; Some (pre ++ c :: rest)
  end.

Definition decodeURIComponent (s : jsstr) : result jsstr := of_option (lit "URIError") (decode_uri [] s).

(** ** Encoded components *)

(** One path segment: no slash, backslash, query, fragment or user part. *)
Definition one_segment (s : jsstr) : Prop := Forall (λ c, c ∉ [47; 92; 63; 35; 64]) s.

Lemma encodeURIComponent_segment s e : Forall is_unit s → encodeURIComponent s = Ok e → one_segment e.
Proof.
  unfold encodeURIComponent, one_segment. intros Hs. destruct (isWellFormed s); [|done]. intros [= <-].
  pose proof (TextEncoder_bytes s Hs) as Hb. induction Hb as [|b l Hb _ IH]; cbn [flat_map]; [constructor|].
  apply Forall_app. split; [|done].
  assert (Forall (λ b, Forall (λ c, c ∉ [47; 92; 63; 35; 64])
    (if uri_unreserved b then [b] else percent b)) (Z.of_nat <$> seq 0 256)) as Hall by decided.
  rewrite Forall_forall in Hall. apply Hall. apply list_elem_of_fmap. exists (Z.to_nat b).
  unfold is_byte in Hb. split; [lia|]. apply elem_of_seq. lia.
Qed.

Definition encode_byte (b : Z) : jsstr := if uri_unreserved b then [b] else percent b.

Lemma strict_utf8_encode cps : Forall is_scalar cps → strict_utf8 (flat_map utf8 cps) = Some (utf16s cps).
Proof. intros H. unfold strict_utf8. rewrite utf8_roundtrip by done. by rewrite decide_True. Qed.

Lemma hex_val_upper v : 0 ≤ v < 16 → hex_val (upper_hex v) = Some v.
Proof.
  intros H. assert (Forall (λ v, hex_val (upper_hex v) = Some v) (Z.of_nat <$> seq 0 16)) as Hall by decided.
  rewrite Forall_forall in Hall. apply Hall, list_elem_of_fmap. exists (Z.to_nat v).
  split; [lia|]. apply elem_of_seq. lia.
Qed.

Lemma decode_uri_percent run b s : is_byte b → decode_uri run (percent b ++ s) = decode_uri (run ++ [b]) s.
Proof.
  unfold is_byte. intros Hb. cbn. rewrite !hex_val_upper by zdivs. cbn.
  by replace (16 * (b / 16) + b mod 16) with b by zdivs.
Qed.

Lemma decode_uri_percents run bs s :
  Forall is_byte bs → Forall (λ b, uri_unreserved b = false) bs →
  decode_uri run (flat_map encode_byte bs ++ s) = decode_uri (run ++ bs) s.
Proof.
  intros Hb. revert run. induction Hb as [|b bs Hb _ IH]; intros run Hr; cbn [flat_map]; [by rewrite app_nil_r|].
  apply Forall_cons in Hr as [Hb' Hr]. unfold encode_byte at 1. rewrite Hb', <- app_assoc, decode_uri_percent by done.
  rewrite IH by done. by rewrite <- app_assoc.
Qed.

Lemma utf8_reserved cp : is_scalar cp → 0x80 ≤ cp → Forall (λ b, uri_unreserved b = false) (utf8 cp).
Proof.
  intros Hs Hc. assert (Forall (λ b, 0x80 ≤ b) (utf8 cp)) as H.
  { unfold utf8. replace (cp <? 0x80) with false by lia.
    repeat case_match; repeat (apply Forall_cons; split); try apply Forall_nil; try done; zdivs. }
  eapply Forall_impl; [exact H|]. intros b Hb. cbn beta in Hb. unfold uri_unreserved. cbn [existsb]. lia.
Qed.

Lemma decode_uri_encode cps prev :
  Forall is_scalar prev → Forall is_scalar cps →
  decode_uri (flat_map utf8 prev) (flat_map encode_byte (flat_map utf8 cps)) = Some (utf16s (prev ++ cps)).
Proof.
  intros Hp Hc. revert prev Hp. induction Hc as [|cp cps Hcp Hcs IH]; intros prev Hp.
  - cbn. rewrite app_nil_r. by apply strict_utf8_encode.
  - assert (Forall is_scalar (prev ++ [cp])) as Hp' by (by apply Forall_snoc).
    assert (prev ++ cp :: cps = (prev ++ [cp]) ++ cps) as -> by (by rewrite <- app_assoc).
    cbn [flat_map]. rewrite flat_map_app.
    destruct (uri_unreserved cp) eqn:Eu; [|destruct (decide (cp < 0x80))].
    + assert (0 ≤ cp < 0x80) as Hr by (unfold uri_unreserved in Eu; cbn [existsb] in Eu; lia).
      assert (utf8 cp = [cp]) as -> by (unfold utf8; by replace (cp <? 0x80) with true by lia).
      cbn [flat_map]. unfold encode_byte at 1. rewrite Eu, app_nil_r. cbn [app decode_uri].
      assert ((cp =? 37) = false) as -> by (unfold uri_unreserved in Eu; cbn [existsb] in Eu; lia).
      rewrite strict_utf8_encode by done. specialize (IH [] (Forall_nil_2 _)). cbn [flat_map app] in IH.
      cbn [mbind option_bind]. rewrite IH. cbn. unfold utf16s. rewrite !flat_map_app, <- app_assoc. cbn.
      unfold utf16. by replace (cp <? 0x10000) with true by lia.
    + assert (0 ≤ cp) as H0 by (unfold is_scalar in Hcp; lia).
      assert (utf8 cp = [cp]) as E by (unfold utf8; by replace (cp <? 0x80) with true by lia).
      rewrite decode_uri_percents; [|by apply utf8_byte|rewrite E; by repeat constructor].
      rewrite <- IH by done. by rewrite flat_map_app; cbn [flat_map]; rewrite app_nil_r.
    + rewrite decode_uri_percents; [|by apply utf8_byte|apply utf8_reserved; [done|lia]].
      rewrite <- IH by done. by rewrite flat_map_app; cbn [flat_map]; rewrite app_nil_r.
Qed.

Lemma decodeURIComponent_encode s e :
  Forall is_unit s → encodeURIComponent s = Ok e → decodeURIComponent e = Ok s.
Proof.
  unfold encodeURIComponent. intros Hs. destruct (isWellFormed s) eqn:Hw; [|done]. intros [= <-].
  unfold decodeURIComponent, TextEncoder_encode. change (flat_map _ (flat_map utf8 (usv s)))
    with (flat_map encode_byte (flat_map utf8 (usv s))).
  pose proof (decode_uri_encode (usv s) [] (Forall_nil_2 _) (usv_scalar s Hs Hw)) as E.
  cbn [flat_map app] in E. rewrite E. cbn. by rewrite utf16_usv.
Qed.

Example decode_euro : decodeURIComponent (lit "a%20%E2%82%ACb") = Ok [97; 32; 0x20AC; 98].
Proof. reflexivity. Qed.
