(* ===== verification/Timers.v ===== *)
(** * The platform's clock and timers

    [setTimeout], [setInterval], [clearTimeout] and [Date.now] as a pure data
    structure: the pending timers with the time each is due and the callback
    it runs, named by a value of type [A]. A timer can fire once the clock has
    reached its due time; nothing says how soon after. *)

From S2P Require Import Prelude JsLib.

Local Open Scope Z_scope.

Record timers (A : Type) := Timers {
  t_now : Z;
  t_next : nat;
  t_pending : list (nat * (Z * A))
}.
Arguments Timers {A} _ _ _.
Arguments t_now {A} _.
Arguments t_next {A} _.
Arguments t_pending {A} _.

Section Timers.
Context {A : Type}.
Implicit Types (c : timers A) (a : A) (id : nat).

Definition timers_init (now : Z) : timers A := Timers now 0 [].

(** The new timer's handle and the clock that holds it. Handles are never
    reused. *)
Definition setTimeout c (a : A) (delay : Z) : nat * timers A :=
  (t_next c, Timers (t_now c) (S (t_next c)) (map_set (t_pending c) (t_next c) (t_now c + delay, a))).

Definition clearTimeout c id : timers A :=
  Timers (t_now c) (t_next c) (map_delete (t_pending c) id).

(** [if (h) clearTimeout(h)]. *)
Definition clear_opt c (h : option nat) : timers A :=
  match h with Some id => clearTimeout c id | None => c end.

(** Time passes. *)
Definition advance c (d : Z) : timers A := Timers (t_now c + d) (t_next c) (t_pending c).

(** The callback of [id], when it is pending and due. *)
Definition due c id : option A :=
  match map_get (t_pending c) id with
  | Some (t, a) => if bool_decide (t ≤ t_now c) then Some a else None
  | None => None
  end.

(** Re-arm an interval timer that has just fired. *)
Definition rearm c id a (delay : Z) : timers A :=
  Timers (t_now c) (t_next c) (map_set (t_pending c) id (t_now c + delay, a)).

Definition timers_wf c : Prop :=
  map_wf (t_pending c) ∧ Forall (λ id, id < t_next c)%nat (map_keys (t_pending c)).

Lemma timers_wf_init now : timers_wf (timers_init now).
Proof. split; constructor. Qed.

Lemma timers_wf_set c a d : timers_wf c → timers_wf (setTimeout c a d).2.
Proof.
  intros [Hw Hn]. split; cbn [setTimeout snd t_pending t_next]; [by apply map_wf_set|].
  rewrite map_keys_set.
  assert (Forall (λ id, id < S (t_next c))%nat (map_keys (t_pending c))) as Hn'
    by (eapply Forall_impl; [exact Hn | intros; cbn in *; lia]).
  case_match; [done|]. apply Forall_snoc; [done | lia].
Qed.

Lemma timers_wf_clear c id : timers_wf c → timers_wf (clearTimeout c id).
Proof.
  intros [Hw Hn]. split; cbn [clearTimeout t_pending t_next]; [by apply map_wf_delete|].
  rewrite Forall_forall in Hn |- *. intros x Hx. apply Hn. by eapply map_keys_delete.
Qed.

Lemma timers_wf_clear_opt c h : timers_wf c → timers_wf (clear_opt c h).
Proof. destruct h; [apply timers_wf_clear | done]. Qed.

Lemma timers_wf_advance c d : timers_wf c → timers_wf (advance c d).
Proof. done. Qed.

(** The handle a timer gets is new. *)
Lemma setTimeout_fresh c : timers_wf c → t_next c ∉ map_keys (t_pending c).
Proof. intros [_ Hn] Hin. rewrite Forall_forall in Hn. specialize (Hn _ Hin). lia. Qed.

Lemma setTimeout_pending c a d :
  timers_wf c → t_pending (setTimeout c a d).2 = t_pending c ++ [(t_next c, (t_now c + d, a))].
Proof. intros H. cbn. by apply map_set_fresh, setTimeout_fresh. Qed.

(** A due callback belongs to a pending timer whose time has come. *)
Lemma due_Some c id a :
  due c id = Some a → ∃ t, map_get (t_pending c) id = Some (t, a) ∧ t ≤ t_now c.
Proof. unfold due. destruct (map_get _ id) as [[t b]|]; [|done].
  case_bool_decide; [|done]. intros [= ->]. eauto. Qed.

(** Where a pending timer of a changed clock comes from. *)
Lemma pending_setTimeout c a d id p :
  map_get (t_pending (setTimeout c a d).2) id = Some p ↔
    (id = t_next c ∧ p = (t_now c + d, a)) ∨ (id ≠ t_next c ∧ map_get (t_pending c) id = Some p).
Proof.
  cbn. destruct (decide (id = t_next c)) as [->|Hne].
  - rewrite map_get_set_eq. naive_solver.
  - rewrite map_get_set_ne by done. naive_solver.
Qed.

Lemma pending_rearm c id0 a d id p :
  map_get (t_pending (rearm c id0 a d)) id = Some p ↔
    (id = id0 ∧ p = (t_now c + d, a)) ∨ (id ≠ id0 ∧ map_get (t_pending c) id = Some p).
Proof.
  cbn. destruct (decide (id = id0)) as [->|Hne].
  - rewrite map_get_set_eq. naive_solver.
  - rewrite map_get_set_ne by done. naive_solver.
Qed.

Lemma pending_clear c id0 id p :
  timers_wf c →
  map_get (t_pending (clearTimeout c id0)) id = Some p ↔ id ≠ id0 ∧ map_get (t_pending c) id = Some p.
Proof.
  intros [Hw _]. cbn. destruct (decide (id = id0)) as [->|Hne].
  - rewrite map_get_delete_eq by done. naive_solver.
  - rewrite map_get_delete_ne by done. naive_solver.
Qed.

Lemma pending_clear_opt c h id p :
  timers_wf c →
  map_get (t_pending (clear_opt c h)) id = Some p ↔ h ≠ Some id ∧ map_get (t_pending c) id = Some p.
Proof. intros Hw. destruct h; cbn [clear_opt]; [rewrite pending_clear by done|]; naive_solver. Qed.

(** [for (const h of hs) clearTimeout(h)]. *)
Lemma timers_wf_clear_all c ids : timers_wf c → timers_wf (fold_left clearTimeout ids c).
Proof. revert c. induction ids as [|id ids IH]; intros c H; cbn; [done|]. by apply IH, timers_wf_clear. Qed.

Lemma pending_clear_all c ids id p :
  timers_wf c →
  map_get (t_pending (fold_left clearTimeout ids c)) id = Some p ↔
    id ∉ ids ∧ map_get (t_pending c) id = Some p.
Proof.
  revert c. induction ids as [|i ids IH]; intros c H; cbn [fold_left]; [set_solver|].
  rewrite IH, pending_clear by (done || by apply timers_wf_clear). set_solver.
Qed.

Lemma clear_all_now c ids : t_now (fold_left clearTimeout ids c) = t_now c.
Proof. revert c. induction ids as [|i ids IH]; intros c; cbn; [done|]. by rewrite IH. Qed.

Lemma timers_wf_rearm c id a d p :
  timers_wf c → map_get (t_pending c) id = Some p → timers_wf (rearm c id a d).
Proof.
  intros [Hw Hn] Hid. split; cbn [rearm t_pending t_next]; [by apply map_wf_set|].
  rewrite map_keys_set. unfold map_has. by rewrite Hid.
Qed.
End Timers.

#[export] Hint Resolve timers_wf_init timers_wf_set timers_wf_clear timers_wf_clear_opt
  timers_wf_advance : trapchat.
