(* ===== verification/KeyRotator.v ===== *)
(** * lib/crypto.js: [KeyRotator]

    The rotator is a small state machine driven by its interval timer, by the
    keys peers broadcast and by the completion of its own asynchronous
    rotation. [#rotate] awaits twice, so it is three segments: [rotate_begin],
    [rotate_generated] and [rotate_exported]; [rotations] holds the rotations
    that are between two segments. *)

From S2P Require Import Prelude JsLib Base64 Text Json Crypto Timers.

Local Open Scope Z_scope.

Definition GRACE_MS : Z := 30000.
Definition DEFAULT_INTERVAL : Z := 30 * 60 * 1000.

Section KeyRotator.
Context `{WebCrypto}.

(** The callbacks of the rotator's timers. *)
Inductive rot_timer := RotInterval | RotGrace.

(** A rotation that awaits [generateRoomKey()], or the export of the key it
    generated. *)
Inductive rotation :=
  | AwaitKey (oldKey : option CryptoKey)
  | AwaitExport (oldKey : option CryptoKey) (generated : CryptoKey).

Record rotator := Rotator {
  currentKey : option CryptoKey;
  previousKey : option CryptoKey;
  timer : option nat;
  graceTimer : option nat;
  interval : Z;
  hasOnRotate : bool;
  clock : timers rot_timer;
  rotations : list rotation
}.

(** A call of [onRotate(newKey, exportedKey, oldKey)]. *)
Record rotate_call := RotateCall {
  rc_new : option CryptoKey;
  rc_exported : result jsstr;
  rc_old : option CryptoKey
}.

(** [new KeyRotator({interval, onRotate})]; a missing or zero interval is the default. *)
Definition new_rotator (opt_interval : option Z) (onRotate : bool) (now : Z) : rotator :=
  Rotator None None None None
    match opt_interval with
    | Some i => if i =? 0 then DEFAULT_INTERVAL else i
    | None => DEFAULT_INTERVAL
    end onRotate (timers_init now) [].

Definition stop (r : rotator) : rotator :=
  Rotator (currentKey r) (previousKey r) None None (interval r) (hasOnRotate r)
    (clear_opt (clear_opt (clock r) (timer r)) (graceTimer r)) (rotations r).

Definition start (key : option CryptoKey) (r : rotator) : rotator :=
  let r := stop r in
  let h := setTimeout (clock r) RotInterval (interval r) in
  Rotator key (previousKey r) (Some h.1) (graceTimer r) (interval r) (hasOnRotate r) h.2 (rotations r).

(** Clear the grace timer, if any, and start a new one. *)
Definition arm_grace (r : rotator) : rotator :=
  let h := setTimeout (clear_opt (clock r) (graceTimer r)) RotGrace GRACE_MS in
  Rotator (currentKey r) (previousKey r) (timer r) (Some h.1) (interval r) (hasOnRotate r) h.2
          (rotations r).

Definition acceptKey (key : CryptoKey) (r : rotator) : rotator :=
  arm_grace (Rotator (Some key) (currentKey r) (timer r) (graceTimer r) (interval r) (hasOnRotate r) (clock r)
                     (rotations r)).

(** The interval timer fires: [#rotate] up to its first [await]. *)
Definition rotate_begin (id : nat) (r : rotator) : rotator :=
  Rotator (currentKey r) (currentKey r) (timer r) (graceTimer r) (interval r) (hasOnRotate r)
    (rearm (clock r) id RotInterval (interval r)) (rotations r ++ [AwaitKey (currentKey r)]).

(** [this.#currentKey = await generateRoomKey()], up to the next [await]. *)
Definition rotate_generated (i : nat) (key : CryptoKey) (r : rotator) : option rotator :=
  match rotations r !! i with
  | Some (AwaitKey old) =>
      Some (Rotator (Some key) (previousKey r) (timer r) (graceTimer r) (interval r) (hasOnRotate r) (clock r)
                    (<[i := AwaitExport old key]> (rotations r)))
  | _ => None
  end.

(** The export is there: call [onRotate] with the current key, the exported
    key and the old key, then arm the grace timer. *)
Definition rotate_exported (i : nat) (r : rotator) : option (rotator * option rotate_call) :=
  match rotations r !! i with
  | Some (AwaitExport old key) =>
      Some (arm_grace (Rotator (currentKey r) (previousKey r) (timer r) (graceTimer r)
                               (interval r) (hasOnRotate r) (clock r) (delete i (rotations r))),
            if hasOnRotate r then Some (RotateCall (currentKey r) (exportKey (Some key)) old) else None)
  | _ => None
  end.

(** The grace timer's callback. *)
Definition grace_expired (id : nat) (r : rotator) : rotator :=
  Rotator (currentKey r) None (timer r) None (interval r) (hasOnRotate r) (clearTimeout (clock r) id)
          (rotations r).

(** [decrypt] and [decryptBytes]: the current key, then the previous one. *)
Definition decryption_failed : jsstr := lit "decryption failed".

Definition fallback {A} (f : option CryptoKey → result A) (r : rotator) : result A :=
  match f (currentKey r) with
  | Ok a => Ok a
  | Throw _ =>
      match previousKey r with
      | Some k => match f (Some k) with Ok a => Ok a | Throw _ => Throw decryption_failed end
      | None => Throw decryption_failed
      end
  end.

Definition rotator_decrypt (ciphertext : jsstr) (r : rotator) : result jsstr :=
  fallback (λ k, decrypt k ciphertext) r.
Definition rotator_decryptBytes (ciphertext : jsstr) (r : rotator) : result bytes :=
  fallback (λ k, decryptBytes k ciphertext) r.

(** ** The step relation *)

Inductive rot_label :=
  | LStart (key : option CryptoKey)
  | LStop
  | LAccept (key : CryptoKey)
  | LInterval (id : nat)
  | LGenerated (i : nat) (key : CryptoKey)
  | LExported (i : nat) (call : option rotate_call)
  | LGrace (id : nat)
  | LWait (d : Z).

Inductive rot_step : rotator → rot_label → rotator → Prop :=
  | step_start key r : rot_step r (LStart key) (start key r)
  | step_stop r : rot_step r LStop (stop r)
  | step_accept key r : rot_step r (LAccept key) (acceptKey key r)
  | step_interval id r :
      due (clock r) id = Some RotInterval → rot_step r (LInterval id) (rotate_begin id r)
  | step_generated i key r r' :
      rotate_generated i key r = Some r' → rot_step r (LGenerated i key) r'
  | step_exported i r r' call :
      rotate_exported i r = Some (r', call) → rot_step r (LExported i call) r'
  | step_grace id r :
      due (clock r) id = Some RotGrace → rot_step r (LGrace id) (grace_expired id r)
  | step_wait d r :
      0 ≤ d →
      rot_step r (LWait d) (Rotator (currentKey r) (previousKey r) (timer r) (graceTimer r)
                                    (interval r) (hasOnRotate r) (advance (clock r) d) (rotations r)).

Inductive rot_steps : rotator → list rot_label → rotator → Prop :=
  | rot_nil r : rot_steps r [] r
  | rot_cons r1 l r2 ls r3 : rot_step r1 l r2 → rot_steps r2 ls r3 → rot_steps r1 (l :: ls) r3.
End KeyRotator.

Ltac rot_simpl := cbn [currentKey previousKey timer graceTimer interval hasOnRotate clock rotations
  arm_grace stop start acceptKey rotate_begin grace_expired new_rotator] in *.

Section RotatorFacts.
Context `{WebCrypto}.
Implicit Types (r : rotator).

(** No timer leaks: a pending timer is the one the rotator has the handle of. *)
Definition rot_inv r : Prop :=
  timers_wf (clock r) ∧
  ∀ id t a, map_get (t_pending (clock r)) id = Some (t, a) →
    match a with RotInterval => timer r = Some id | RotGrace => graceTimer r = Some id end.

Lemma rot_inv_new opt f now : rot_inv (new_rotator opt f now).
Proof. split; [apply timers_wf_init | done]. Qed.

Lemma rot_inv_stop r : rot_inv r → rot_inv (stop r) ∧ t_pending (clock (stop r)) = [].
Proof.
  intros [Hwf Hp]. assert (timers_wf (clock (stop r))) as Hwf' by (rot_simpl; auto with trapchat).
  assert (∀ id p, map_get (t_pending (clock (stop r))) id ≠ Some p) as Hnone.
  { intros id [t a] E. rot_simpl. apply pending_clear_opt in E as [Hg E]; [|by auto with trapchat].
    apply pending_clear_opt in E as [Ht E]; [|done].
    specialize (Hp _ _ _ E). by destruct a. }
  split; [split; [done|]|].
  - intros id t a E. by apply Hnone in E.
  - destruct (t_pending (clock (stop r))) as [|[id p] l] eqn:E; [done|].
    exfalso. apply (Hnone id p). cbn. by rewrite decide_True.
Qed.

Lemma rot_inv_arm r : rot_inv r → rot_inv (arm_grace r).
Proof.
  intros [Hwf Hp]. split; [rot_simpl; auto with trapchat|].
  intros id t a E. rot_simpl.
  apply pending_setTimeout in E as [[-> [= -> ->]]|[Hne E]]; [done|].
  apply pending_clear_opt in E as [Hg E]; [|done]. specialize (Hp _ _ _ E).
  destruct a; [done|]. by destruct Hg.
Qed.

Lemma rot_inv_step r l r' : rot_inv r → rot_step r l r' → rot_inv r'.
Proof.
  intros Hr. destruct 1 as [key r|r|key r|id r Hd|i key r r' E|i r r' call E|id r Hd|d r Hd].
  - destruct (rot_inv_stop r Hr) as [[Hwf Hp] _]. split; [rot_simpl; auto with trapchat|].
    intros id t a E. rot_simpl.
    apply pending_setTimeout in E as [[-> [= -> ->]]|[Hne E]]; [done|].
    specialize (Hp _ _ _ E). by destruct a.
  - by apply rot_inv_stop.
  - by apply rot_inv_arm.
  - apply due_Some in Hd as (t0 & Hd & _). destruct Hr as [Hwf Hp].
    split; [by eapply timers_wf_rearm|].
    intros id' t a E. rot_simpl. apply pending_rearm in E as [[-> [= -> ->]]|[Hne E]]; [by apply Hp in Hd | by apply Hp in E].
  - unfold rotate_generated in E. by repeat case_match; simplify_eq/=.
  - unfold rotate_exported in E. destruct (rotations r !! i) as [[|old key]|]; [done| |done].
    injection E as <- <-. by apply rot_inv_arm.
  - destruct Hr as [Hwf Hp]. split; [rot_simpl; auto with trapchat|].
    apply due_Some in Hd as (t0 & Hd & _). apply Hp in Hd.
    intros id' t a E. rot_simpl. apply pending_clear in E as [Hne E]; [|done]. specialize (Hp _ _ _ E).
    destruct a; [done|]. cbn in *. congruence.
  - done.
Qed.

Lemma rot_inv_steps r ls r' : rot_inv r → rot_steps r ls r' → rot_inv r'.
Proof. intros Hr. induction 1; eauto using rot_inv_step. Qed.

(** ** The grace period *)

(** Labels that leave both keys to the timers: time passing, timers firing,
    an older rotation finishing, [stop]. *)
Definition quiet (l : rot_label) : bool :=
  match l with LWait _ | LGrace _ | LExported _ _ | LStop => true | _ => false end.

Definition elapsed (ls : list rot_label) : Z :=
  foldr (λ l acc, match l with LWait d => d + acc | _ => acc end) 0 ls.

(** No grace timer is due before [T]. *)
Definition grace_from (T : Z) r : Prop :=
  T - GRACE_MS ≤ t_now (clock r) ∧
  ∀ id t, map_get (t_pending (clock r)) id = Some (t, RotGrace) → T ≤ t.

Lemma grace_from_arm T r :
  timers_wf (clock r) → T - GRACE_MS ≤ t_now (clock r) → grace_from T r → grace_from T (arm_grace r).
Proof.
  intros Hwf Hn [_ Hp]. assert (t_now (clock (arm_grace r)) = t_now (clock r)) as En
    by (cbn; by destruct (graceTimer r)).
  split; [by rewrite En|].
  intros id t E. rot_simpl. apply pending_setTimeout in E as [[-> [= ->]]|[_ E]].
  - unfold GRACE_MS in *. destruct (graceTimer r); cbn; lia.
  - apply pending_clear_opt in E as [_ E]; [|done]. by eapply Hp.
Qed.

Lemma quiet_step T r l r' :
  rot_inv r → quiet l = true → rot_step r l r' → grace_from T r → t_now (clock r) < T →
  currentKey r' = currentKey r ∧ previousKey r' = previousKey r ∧ grace_from T r' ∧
  t_now (clock r') = t_now (clock r) + elapsed [l].
Proof.
  intros [Hwf Hp] Hq Hs [Hn Hg] HT. destruct Hs as [|r| |id r Hd| |i r r' call E|id r Hd|d r Hd];
    try done; cbn [elapsed foldr].
  - split_and!; [done|done| |cbn; by destruct (timer r), (graceTimer r); cbn; lia].
    split; [cbn; by destruct (timer r), (graceTimer r)|].
    intros id t E. rot_simpl. apply pending_clear_opt in E as [_ E]; [|by auto with trapchat].
    apply pending_clear_opt in E as [_ E]; [|done]. by eapply Hg.
  - unfold rotate_exported in E. destruct (rotations r !! i) as [[|old key]|]; [done| |done].
    injection E as <- <-. split_and!; [done|done|by apply grace_from_arm|].
    destruct (graceTimer r); cbn; lia.
  - apply due_Some in Hd as (t & Hd & Ht). specialize (Hg _ _ Hd). exfalso; lia.
  - split_and!; [done|done| |cbn; lia]. split; [cbn; lia | done].
Qed.

Lemma elapsed_nonneg r ls r' : rot_steps r ls r' → 0 ≤ elapsed ls.
Proof. unfold elapsed. induction 1 as [|r1 l r2 ls r3 Hs _ IH]; cbn; [done|]. destruct Hs; lia. Qed.

Lemma quiet_steps T r ls r' :
  rot_steps r ls r' → rot_inv r → forallb quiet ls = true → grace_from T r →
  t_now (clock r) + elapsed ls < T →
  currentKey r' = currentKey r ∧ previousKey r' = previousKey r.
Proof.
  induction 1 as [|r1 l r2 ls r3 Hs Hss IH]; intros Hr Hq Hg Hlt; [done|].
  cbn in Hq. apply andb_true_iff in Hq as [Hq Hqs].
  pose proof (elapsed_nonneg _ _ _ Hss) as Hpos.
  assert (elapsed (l :: ls) = elapsed [l] + elapsed ls) as El by (unfold elapsed; cbn; destruct l; lia).
  assert (0 ≤ elapsed [l]) as Hl by (destruct Hs; cbn; lia).
  destruct (quiet_step T r1 l r2 Hr Hq Hs Hg ltac:(lia)) as (Hc & Hpk & Hg' & Hn).
  destruct IH as [Hc' Hp']; [by eapply rot_inv_step | done | done | lia |].
  split; congruence.
Qed.
End RotatorFacts.

(** ** Properties *)

Section RotatorProperties.
Context `{WebCrypto}.

Lemma pending_handles (r : rotator) :
  rot_inv r → map_keys (t_pending (clock r)) ⊆ option_list (timer r) ++ option_list (graceTimer r).
Proof.
  intros [Hwf Hp] id Hid. apply map_has_true in Hid. unfold map_has in Hid.
  destruct (map_get (t_pending (clock r)) id) as [[t a]|] eqn:E; [|done].
  specialize (Hp _ _ _ E). apply elem_of_app. destruct a; rewrite Hp; cbn; set_solver.
Qed.

Lemma fallback_current {A} (f : option CryptoKey → result A) (r : rotator) a :
  f (currentKey r) = Ok a → fallback f r = Ok a.
Proof. unfold fallback. by intros ->. Qed.

(** In every state a rotator reaches, at most its two timers are pending
    and it holds the handles of both; [stop] leaves none pending. *)
Theorem rotator_no_timer_leak opt f now ls (r : rotator) :
  rot_steps (new_rotator opt f now) ls r →
  map_keys (t_pending (clock r)) ⊆ option_list (timer r) ++ option_list (graceTimer r) ∧
  (length (t_pending (clock r)) ≤ 2)%nat ∧
  t_pending (clock (stop r)) = [].
Proof.
  intros Hs. apply rot_inv_steps in Hs as Hr; [|apply rot_inv_new].
  pose proof (pending_handles r Hr) as Hsub. split_and!; [done| |by apply rot_inv_stop].
  destruct Hr as [[Hnd _] _].
  assert (length (map_keys (t_pending (clock r)))
          ≤ length (option_list (timer r) ++ option_list (graceTimer r)))%nat as Hlen.
  { apply NoDup_incl_length; [by apply NoDup_ListNoDup|]. intros x Hx.
    apply list_elem_of_In, Hsub. by apply list_elem_of_In. }
  unfold map_keys in Hlen. rewrite length_fmap, length_app in Hlen.
  destruct (timer r), (graceTimer r); cbn in Hlen; lia.
Qed.

Context `{!WebCryptoLaws}.

(** C21: for 30 seconds after a peer's key is accepted, as long as no further key
    comes in (no rotation of our own begins or gets its key, no other key is
    accepted, the rotator is not started again), messages under the new key
    and messages still in flight under the old key are both read, whatever
    timers fire, rotations end, and if the rotator is stopped. *)
Theorem rotator_grace_period opt f now ls0 (r : rotator) key old ls r' iv s :
  rot_steps (new_rotator opt f now) ls0 r → currentKey r = Some old →
  rot_steps (acceptKey key r) ls r' → forallb quiet ls = true → elapsed ls < GRACE_MS →
  iv_ok iv → plain_text s →
  (∃ c, encrypt (Some key) iv s = Ok c ∧ rotator_decrypt c r' = Ok s) ∧
  (∃ c, encrypt (Some old) iv s = Ok c ∧
        rotator_decrypt c r' = match decrypt (Some key) c with Ok t => Ok t | Throw _ => Ok s end).
Proof.
  intros Hs0 Hold Hs Hq Hlt Hiv Hpt.
  apply rot_inv_steps in Hs0; [|apply rot_inv_new].
  pose proof (rot_inv_arm _ Hs0) as _. assert (rot_inv (acceptKey key r)) as Hra by (by apply rot_inv_arm).
  assert (t_now (clock (acceptKey key r)) = t_now (clock r)) as Hn
    by (cbn; by destruct (graceTimer r)).
  assert (grace_from (t_now (clock r) + GRACE_MS) (acceptKey key r)) as Hg.
  { split; [rewrite Hn; lia|]. intros id t E. rot_simpl.
    apply pending_setTimeout in E as [[_ [= ->]]|[_ E]]; [destruct (graceTimer r); cbn; lia|].
    apply pending_clear_opt in E as [Hne E]; [|apply Hs0]. by apply Hs0 in E. }
  destruct (quiet_steps _ _ _ _ Hs Hra Hq Hg ltac:(lia)) as [Hc Hp].
  cbn in Hc, Hp. rewrite Hold in Hp. split.
  - destruct (decrypt_encrypt key iv s Hiv Hpt) as (c & He & Hd).
    exists c. split; [done|]. apply fallback_current. by rewrite Hc.
  - destruct (decrypt_encrypt old iv s Hiv Hpt) as (c & He & Hd).
    exists c. split; [done|]. unfold rotator_decrypt, fallback. rewrite Hc, Hp, Hd.
    by destruct (decrypt (Some key) c).
Qed.

(** Once the 30 seconds are over the grace timer can fire, and then only
    the accepted key opens messages; everything else is the one error. *)
Theorem rotator_grace_end opt f now ls0 (r : rotator) key d c :
  rot_steps (new_rotator opt f now) ls0 r → GRACE_MS ≤ d →
  ∃ id r1 r2,
    rot_step (acceptKey key r) (LWait d) r1 ∧ rot_step r1 (LGrace id) r2 ∧
    graceTimer r2 = None ∧
    rotator_decrypt c r2 = match decrypt (Some key) c with
                           | Ok t => Ok t
                           | Throw _ => Throw decryption_failed
                           end.
Proof.
  intros Hs Hd. apply rot_inv_steps in Hs as [Hwf _]; [|apply rot_inv_new].
  set (id := t_next (clear_opt (clock r) (graceTimer r))).
  eexists id, _, _. split; [apply step_wait; unfold GRACE_MS in Hd; lia|].
  split; [apply step_grace|].
  - unfold due. cbn [clock advance t_pending t_now acceptKey arm_grace].
    assert (map_get (t_pending (setTimeout (clear_opt (clock r) (graceTimer r)) RotGrace GRACE_MS).2) id
            = Some (t_now (clock r) + GRACE_MS, RotGrace)) as E.
    { apply pending_setTimeout. left. split; [done|]. by destruct (graceTimer r). }
    rot_simpl. rewrite E. rewrite bool_decide_true; [done|].
    destruct (graceTimer r); cbn; lia.
  - split; [done|]. unfold rotator_decrypt, fallback. cbn. by destruct (decrypt (Some key) c).
Qed.
End RotatorProperties.

(** Concrete runs over the toy cipher. *)
Module RotatorExamples.
Import Toy.
Definition k0 : CryptoKey := Byte.x10.
Definition k1 : CryptoKey := Byte.x11.
Definition k2 : CryptoKey := Byte.x12.

Definition fresh : rotator := new_rotator None true 0.
Definition started : rotator := start (Some k0) fresh.

Lemma started_steps : rot_steps fresh [LStart (Some k0)] started.
Proof. repeat econstructor. Qed.

Lemma rotator_no_timer_leak_witness :
  map_keys (t_pending (clock started)) ⊆ [0%nat] ∧
  (length (t_pending (clock started)) ≤ 2)%nat ∧ t_pending (clock (stop started)) = [].
Proof. exact (rotator_no_timer_leak None true 0 [LStart (Some k0)] started started_steps). Defined.

Lemma rotator_grace_period_witness :
  let r' := Rotator (Some k1) (Some k0) (Some 0%nat) (Some 1%nat) DEFAULT_INTERVAL true
              (advance (clock (acceptKey k1 started)) 29999) [] in
  (∃ c, encrypt (Some k1) toy_iv (lit "hi") = Ok c ∧ rotator_decrypt c r' = Ok (lit "hi")) ∧
  (∃ c, encrypt (Some k0) toy_iv (lit "hi") = Ok c ∧
        rotator_decrypt c r' = match decrypt (Some k1) c with
                               | Ok t => Ok t | Throw _ => Ok (lit "hi") end).
Proof.
  apply (rotator_grace_period None true 0 [LStart (Some k0)] started k1 k0 [LWait 29999]).
  - exact started_steps.
  - reflexivity.
  - eapply rot_cons; [apply (step_wait 29999); lia | apply rot_nil].
  - reflexivity.
  - unfold GRACE_MS; cbn; lia.
  - decided.
  - decided.
Defined.

Lemma rotator_grace_end_witness :
  ∃ id r1 r2,
    rot_step (acceptKey k1 started) (LWait 30000) r1 ∧ rot_step r1 (LGrace id) r2 ∧
    graceTimer r2 = None ∧
    rotator_decrypt (lit "x") r2 = match decrypt (Some k1) (lit "x") with
                                   | Ok t => Ok t | Throw _ => Throw decryption_failed end.
Proof.
  apply (rotator_grace_end None true 0 [LStart (Some k0)] started k1 30000 (lit "x")
           started_steps).
  unfold GRACE_MS; lia.
Defined.

(** A rotation of our own that begins within the 30 seconds takes the old key
    away at once: it makes the accepted key the previous one. *)
Example rotation_ends_grace :
  ∃ r c,
    rot_steps fresh [LStart (Some k0); LWait (DEFAULT_INTERVAL - 1000); LAccept k1; LWait 1000; LInterval 0] r ∧
    encrypt (Some k0) toy_iv (lit "hi") = Ok c ∧ previousKey r = Some k1 ∧ rotator_decrypt c r = Throw decryption_failed.
Proof.
  eexists _, _. split_and!.
  - eapply rot_cons; [apply step_start|].
    eapply rot_cons; [apply step_wait; unfold DEFAULT_INTERVAL; lia|].
    eapply rot_cons; [apply step_accept|].
    eapply rot_cons; [apply step_wait; lia|].
    eapply rot_cons; [apply step_interval; vm_compute; reflexivity|].
    apply rot_nil.
  - vm_compute; reflexivity.
  - vm_compute; reflexivity.
  - vm_compute; reflexivity.
Qed.

(** The grace period of a rotation is not always 30 seconds. [#rotate]
    keeps the grace timer of an earlier accepted key running while it awaits
    the new key: here that timer fires one millisecond after the rotation
    began, and a message under the key that was current until then is lost. *)
Theorem rotation_grace_cut_short :
  ∃ r c,
    rot_steps fresh
      [LStart (Some k0); LWait (DEFAULT_INTERVAL - 29999); LAccept k1; LWait 29999;
       LInterval 0; LWait 1; LGrace 1; LGenerated 0 k2] r ∧
    encrypt (Some k1) toy_iv (lit "hi") = Ok c ∧
    currentKey r = Some k2 ∧ previousKey r = None ∧
    rotator_decrypt c r = Throw decryption_failed.
Proof.
  eexists _, _. split_and!.
  - eapply rot_cons; [apply step_start|].
    eapply rot_cons; [apply step_wait; unfold DEFAULT_INTERVAL; lia|].
    eapply rot_cons; [apply step_accept|].
    eapply rot_cons; [apply step_wait; lia|].
    eapply rot_cons; [apply step_interval; vm_compute; reflexivity|].
    eapply rot_cons; [apply step_wait; lia|].
    eapply rot_cons; [apply step_grace; vm_compute; reflexivity|].
    eapply rot_cons; [apply step_generated; reflexivity | apply rot_nil].
  - vm_compute; reflexivity.
  - reflexivity.
  - reflexivity.
  - vm_compute; reflexivity.
Qed.
End RotatorExamples.
