(* ===== verification/Mime.v ===== *)
(** * lib/media.js: file names and MIME types

    [sanitizeFileName], [detectMimeType] (the sender's guess) and
    [validateMimeType] (the receiver's check of a claimed type against the
    bytes that arrived). Values that come out of a decrypted envelope are JSON
    values of any kind, so the receiver's functions take [json]. *)

From S2P Require Import Prelude JsLib Text Json.

Local Open Scope Z_scope.

(** ** File names *)

(** [name.replace(/\.\./g, '')]. *)
Fixpoint remove_dotdot (s : jsstr) : jsstr :=
  match s with
  | c :: s' =>
      match s' with
      | d :: s'' => if (c =? 46) && (d =? 46) then remove_dotdot s'' else c :: remove_dotdot s'
      | [] => [c]
      end
  | [] => []
  end.

(** The class [/[/\\:\0]/]. *)
Definition is_separator (c : Z) : bool := (c =? 47) || (c =? 92) || (c =? 58) || (c =? 0).

Definition replace_separators (s : jsstr) : jsstr := (λ c, if is_separator c then 95 else c) <$> s.

Definition sanitizeFileName (name : option json) : jsstr :=
  match name with
  | Some (JStr (c :: s)) =>
      str_or (take 255 (replace_separators (remove_dotdot (c :: s)))) (lit "file")
  | _ => lit "file"
  end.

(** ** Magic bytes *)

Definition MAGIC_BYTES : list (jsstr * option bytes) :=
  [ (lit "image/png", Some [0x89; 0x50; 0x4E; 0x47]);
    (lit "image/jpeg", Some [0xFF; 0xD8; 0xFF]);
    (lit "image/gif", Some [0x47; 0x49; 0x46]);
    (lit "image/webp", Some [0x52; 0x49; 0x46; 0x46]);
    (lit "video/mp4", None);
    (lit "application/pdf", Some [0x25; 0x50; 0x44; 0x46]) ].

(** The loop over [Object.entries(MAGIC_BYTES)]: the first type whose
    signature the bytes start with. *)
Fixpoint magic_match (entries : list (jsstr * option bytes)) (b : bytes) : option jsstr :=
  match entries with
  | [] => None
  | (mime, Some sig) :: entries' => if starts_with sig b then Some mime else magic_match entries' b
  | (_, None) :: entries' => magic_match entries' b
  end.

(** ['ftyp'] at offset 4; a byte past the end is [undefined], equal to none. *)
Definition is_ftyp (b : bytes) : bool := starts_with [0x66; 0x74; 0x79; 0x70] (drop 4 b).

Definition octet_stream : jsstr := lit "application/octet-stream".

Definition detectMimeType (file_type : jsstr) (b : bytes) : jsstr :=
  match file_type with
  | _ :: _ => file_type
  | [] =>
      match magic_match MAGIC_BYTES b with
      | Some mime => mime
      | None => if Nat.leb 8 (length b) && is_ftyp b then lit "video/mp4" else octet_stream
      end
  end.

Definition SAFE_NO_MAGIC : list jsstr :=
  [ lit "text/"; lit "application/json"; lit "application/xml"; lit "image/svg+xml";
    lit "application/javascript"; lit "application/x-yaml"; lit "application/toml" ].

(** [claimedMime.startsWith] exists on strings only: on another truthy value
    the call is a [TypeError]. *)
Definition validateMimeType (claimed : json) (b : bytes) : result jsstr :=
  if negb (truthy (Some claimed)) || Nat.ltb (length b) 8 then Ok octet_stream
  else match magic_match MAGIC_BYTES b with
  | Some mime =>
      Ok match claimed with JStr s => if decide (s = mime) then s else mime | _ => mime end
  | None =>
      if is_ftyp b then Ok (lit "video/mp4")
      else match claimed with
      | JStr s => Ok (if existsb (λ pre, starts_with pre s) SAFE_NO_MAGIC then s else octet_stream)
      | _ => Throw (lit "TypeError")
      end
  end.

(** ** Facts *)

(** No two adjacent dots. *)
Fixpoint no_dotdot (s : jsstr) : bool :=
  match s with
  | c :: s' => match s' with d :: _ => negb ((c =? 46) && (d =? 46)) | [] => true end && no_dotdot s'
  | [] => true
  end.

Lemma no_dotdot_spec s : no_dotdot s = true → ∀ a b, s ≠ a ++ lit ".." ++ b.
Proof.
  intros Hs a b. revert s Hs. induction a as [|x a IH]; intros s Hs ->.
  - done.
  - change (no_dotdot ((x :: a) ++ lit ".." ++ b)) with
      (match a ++ lit ".." ++ b with d :: _ => negb ((x =? 46) && (d =? 46)) | [] => true end
       && no_dotdot (a ++ lit ".." ++ b)) in Hs.
    apply andb_true_iff in Hs as [_ Hs]. by apply (IH _ Hs).
Qed.

(** A text that holds no [".."] keeps its characters. *)
Lemma remove_dotdot_id s : no_dotdot s = true → remove_dotdot s = s.
Proof.
  induction s as [|c|c d s IH1 IH2] using list_ind2; intros H; [done|done|].
  cbn [no_dotdot] in H. apply andb_true_iff in H as [H1 H2].
  change (remove_dotdot (c :: d :: s)) with
    (if (c =? 46) && (d =? 46) then remove_dotdot s else c :: remove_dotdot (d :: s)).
  destruct ((c =? 46) && (d =? 46)); [done|]. by rewrite IH1.
Qed.

Lemma no_dotdot_remove s : no_dotdot (remove_dotdot s) = true.
Proof.
  induction s as [|c|c d s IH1 IH2] using list_ind2; [done|done|].
  change (remove_dotdot (c :: d :: s)) with
    (if (c =? 46) && (d =? 46) then remove_dotdot s else c :: remove_dotdot (d :: s)).
  destruct ((c =? 46) && (d =? 46)) eqn:E; [done|].
  cbn [no_dotdot]. rewrite IH1, andb_true_r.
  destruct (remove_dotdot (d :: s)) as [|e r] eqn:Er; [done|].
  apply negb_true_iff, andb_false_iff.
  destruct (c =? 46) eqn:Ec; [right|by left]. cbn in E.
  destruct s as [|f s]; cbn [remove_dotdot] in Er; [by simplify_eq|].
  rewrite E in Er. cbn [andb] in Er. by injection Er as <- _.
Qed.

Lemma no_dotdot_take n s : no_dotdot s = true → no_dotdot (take n s) = true.
Proof.
  revert n. induction s as [|c s IH]; intros [|n] H; try done.
  cbn [take no_dotdot] in *. apply andb_true_iff in H as [H1 H2].
  rewrite IH, andb_true_r by done. by destruct s, n.
Qed.

Lemma no_dotdot_replace s : no_dotdot s = true → no_dotdot (replace_separators s) = true.
Proof.
  induction s as [|c s IH]; [done|]. cbn. intros [H1 H2]%andb_true_iff.
  unfold replace_separators in IH. rewrite IH, andb_true_r by done.
  destruct s as [|d s]; [done|]. cbn.
  destruct (is_separator c) eqn:Ec; [done|]. by destruct (is_separator d); [destruct (c =? 46)|].
Qed.

Lemma replace_separators_none s : Forall (λ c, is_separator c = false) (replace_separators s).
Proof.
  apply Forall_fmap, Forall_true. intros c. cbn. by destruct (is_separator c) eqn:E.
Qed.

Lemma replace_separators_id s :
  Forall (λ c, is_separator c = false) s → replace_separators s = s.
Proof. induction 1 as [|c s Hc _ IH]; cbn; [done|]. unfold replace_separators in IH. by rewrite Hc, IH. Qed.

(** What a sanitised name is. *)
Definition safe_name (s : jsstr) : Prop :=
  s ≠ [] ∧ (length s ≤ 255)%nat ∧ Forall (λ c, is_separator c = false) s ∧ no_dotdot s = true.
Global Instance safe_name_dec s : Decision (safe_name s).
Proof. unfold safe_name; apply _. Defined.

Lemma sanitize_safe name : safe_name (sanitizeFileName name).
Proof.
  assert (safe_name (lit "file")) as Hf by decided.
  unfold sanitizeFileName. destruct name as [[| | |[|c s]| |]|]; try done.
  destruct (take 255 (replace_separators (remove_dotdot (c :: s)))) as [|d r] eqn:E; [done|].
  cbn [str_or]. rewrite <- E. split_and!.
  - by rewrite E.
  - rewrite length_take. lia.
  - apply Forall_take, replace_separators_none.
  - apply no_dotdot_take, no_dotdot_replace, no_dotdot_remove.
Qed.

Lemma sanitize_id s : safe_name s → sanitizeFileName (Some (JStr s)) = s.
Proof.
  intros (Hne & Hl & Hs & Hd). destruct s as [|c s]; [done|]. unfold sanitizeFileName.
  by rewrite remove_dotdot_id, replace_separators_id, take_ge by done.
Qed.

Lemma detectMimeType_nonempty t b : str_empty (detectMimeType t b) = false.
Proof.
  unfold detectMimeType. destruct t; [|done].
  assert (∀ m, magic_match MAGIC_BYTES b = Some m → str_empty m = false) as H.
  { intros m. cbn. repeat case_match; by intros [= <-]. }
  destruct (magic_match MAGIC_BYTES b) as [m|] eqn:E; [by apply H|]. by case_match.
Qed.

Lemma magic_match_spec entries b mime :
  magic_match entries b = Some mime → ∃ sig, (mime, Some sig) ∈ entries ∧ starts_with sig b = true.
Proof.
  induction entries as [|[m [sig|]] es IH]; cbn; [done| |].
  - destruct (starts_with sig b) eqn:E; [intros [= ->]; eexists; split; [by left|done]|].
    intros (s & Hs & ?)%IH. eexists; split; [by right|done].
  - intros (s & Hs & ?)%IH. eexists; split; [by right|done].
Qed.

Lemma validateMimeType_str s b : is_ok (validateMimeType (JStr s) b) = true.
Proof. unfold validateMimeType. by repeat case_match. Qed.

(** ** Properties *)

(** A received file name never names a path: not empty, at most 255
    characters, no separator, drive colon or NUL, no [".."]; a name that is
    already so is kept. *)
Theorem sanitizeFileName_safe (name : option json) :
  let r := sanitizeFileName name in
  r ≠ [] ∧ (length r ≤ 255)%nat ∧
  (∀ c, c ∈ r → c ≠ 47 ∧ c ≠ 92 ∧ c ≠ 58 ∧ c ≠ 0) ∧
  (∀ a b, r ≠ a ++ lit ".." ++ b) ∧
  sanitizeFileName (Some (JStr r)) = r.
Proof.
  intros r. destruct (sanitize_safe name) as (H1 & H2 & H3 & H4). fold r in H1, H2, H3, H4.
  split_and!; [done|done| |by apply no_dotdot_spec|by apply sanitize_id].
  intros c Hc. rewrite Forall_forall in H3. specialize (H3 c Hc). unfold is_separator in H3. lia.
Qed.

(** The receiver labels a file with a type it recognises by magic bytes
    only when the bytes carry them: a result in the table means the signature
    is there, ["video/mp4"] means ['ftyp'] is, and every other result is
    either a claimed text-like type or [application/octet-stream]. *)
Theorem validateMimeType_sound claimed b r :
  validateMimeType claimed b = Ok r →
  (∃ sig, (r, Some sig) ∈ MAGIC_BYTES ∧ starts_with sig b = true) ∨
  (r = lit "video/mp4" ∧ is_ftyp b = true) ∨
  (claimed = JStr r ∧ ∃ pre, pre ∈ SAFE_NO_MAGIC ∧ starts_with pre r = true) ∨
  r = octet_stream.
Proof.
  unfold validateMimeType. destruct (_ || _); [intros [= <-]; auto|].
  destruct (magic_match MAGIC_BYTES b) as [m|] eqn:Em.
  - apply magic_match_spec in Em. intros [= <-]. left.
    destruct claimed; try done. by case_decide; subst.
  - destruct (is_ftyp b); [intros [= <-]; auto|].
    destruct claimed as [| | |s| |]; try done.
    destruct (existsb _ SAFE_NO_MAGIC) eqn:Ex; intros [= <-]; [|auto].
    right; right; left. split; [done|]. apply existsb_exists in Ex as (pre & Hin & Hs).
    exists pre. split; [by apply list_elem_of_In | done].
Qed.

Lemma validateMimeType_sound_witness :
  let png := [0x89; 0x50; 0x4E; 0x47; 13; 10; 26; 10] in
  (∃ sig, (lit "image/png", Some sig) ∈ MAGIC_BYTES ∧ starts_with sig png = true) ∨
  (lit "image/png" = lit "video/mp4" ∧ is_ftyp png = true) ∨
  (JStr (lit "text/html") = JStr (lit "image/png") ∧
   ∃ pre, pre ∈ SAFE_NO_MAGIC ∧ starts_with pre (lit "image/png") = true) ∨
  lit "image/png" = octet_stream.
Proof. apply (validateMimeType_sound (JStr (lit "text/html"))). vm_compute. reflexivity. Defined.
