(* ===== verification/MediaSend.v ===== *)
(** * lib/media.js: [sendMedia]

    A file is cut in chunks of [CHUNK_SIZE] bytes; every chunk is sealed in an
    envelope of its own and sent as a ["media"] message whose payload names
    the transfer, the position and the number of chunks. The pause between
    chunks only delays the sends; AppState.v has it, where other steps of the
    application come in between. *)

From S2P Require Import Prelude JsLib Base64 Text Json Crypto Mime.

Local Open Scope Z_scope.

Definition CHUNK_SIZE : Z := 512 * 1024.
Definition MAX_FILE_SIZE : Z := 25 * 1024 * 1024.
Definition SEND_THROTTLE_MS : Z := 50.
Definition MAX_CHUNKS : Z := 100.
Definition MAX_CONCURRENT_TRANSFERS : nat := 10.
Definition STALE_TIMEOUT : Z := 30000.

(** A [File]: what [sendMedia] reads of it. *)
Record file := File {
  file_name : jsstr;
  file_type : jsstr;
  file_size : Z;
  file_bytes : bytes
}.

(** The messages [client.send(type, room, payload)] got, in order. *)
Record sent := Sent { sent_type : jsstr; sent_room : jsstr; sent_payload : jsstr }.

Record media_summary := MediaSummary {
  ms_transferId : jsstr;
  ms_total : Z;
  ms_mimeType : jsstr;
  ms_fileName : jsstr
}.

(** The outer payload. *)
Definition chunk_json (transferId : jsstr) (seq total : Z) (chunk : jsstr) : json :=
  JObj [(lit "transferId", JStr transferId); (lit "seq", JNum seq);
        (lit "total", JNum total); (lit "chunk", JStr chunk)].

(** The error of a file over the limit. *)
Definition too_large (f : file) : jsstr :=
  lit "File too large (" ++ toFixed1 (file_size f) (1024 * 1024) ++ lit "MB). Max is 25MB.".

Section SendMedia.
Context `{WebCrypto}.

(** [Math.ceil(bytes.length / size)]. *)
Definition chunk_count (size len : Z) : Z := (len + size - 1) / size.

(** [bytes.slice(start, end)] with [end = min(start + size, length)]. *)
Definition chunk_at (size : Z) (b : bytes) (seq : Z) : bytes :=
  let start := seq * size in
  let stop := Z.min (start + size) (Z.of_nat (length b)) in
  slice (Z.to_nat start) (Z.to_nat stop) b.

Definition chunk_metadata (f : file) (mimeType : jsstr) (seq : Z) : list (jsstr * json) :=
  if seq =? 0 then
    [(lit "mimeType", JStr mimeType); (lit "fileName", JStr (file_name f));
     (lit "fileSize", JNum (file_size f))]
  else [].

(** One turn of the loop: the payload it sends. *)
Definition chunk_payload (size : Z) (key : option CryptoKey) (f : file) (mimeType transferId : jsstr)
    (total : Z) (ivs : Z → bytes) (seq : Z) : result jsstr :=
  chunk ← encryptMediaEnvelope key (ivs seq) (chunk_at size (file_bytes f) seq)
                               (chunk_metadata f mimeType seq);
  mret (JSON_stringify (chunk_json transferId seq total chunk)).

(** The loop from [seq], [n] turns left: what was sent, the progress calls,
    and whether it got to the end. *)
Fixpoint send_loop (room : jsstr) (payload : Z → result jsstr) (total seq : Z) (n : nat)
    : list sent * list (Z * Z) * result unit :=
  match n with
  | O => ([], [], Ok tt)
  | S n' =>
      match payload seq with
      | Throw e => ([], [], Throw e)
      | Ok p =>
          let '(sends, progress, r) := send_loop room payload total (seq + 1) n' in
          (Sent (lit "media") room p :: sends, (seq + 1, total) :: progress, r)
      end
  end.

(** [sendMedia(client, key, room, file, onProgress)]; [transferId] is the
    random UUID, [ivs seq] the IV drawn for chunk [seq]. *)
Definition sendMedia (key : option CryptoKey) (room : jsstr) (f : file)
    (transferId : jsstr) (ivs : Z → bytes) : list sent * list (Z * Z) * result media_summary :=
  if file_size f >? MAX_FILE_SIZE then ([], [], Throw (too_large f))
  else
    let mimeType := detectMimeType (file_type f) (file_bytes f) in
    let total := chunk_count CHUNK_SIZE (Z.of_nat (length (file_bytes f))) in
    let '(sends, progress, r) :=
      send_loop room (chunk_payload CHUNK_SIZE key f mimeType transferId total ivs)
                total 0 (Z.to_nat total) in
    (sends, progress, _ ← r; mret (MediaSummary transferId total mimeType (file_name f))).

(** [sendCanvas]: the PNG blob the canvas gave, as a file named after the clock. *)
Definition sendCanvas (key : option CryptoKey) (room : jsstr) (blob : option bytes) (now : Z)
    (transferId : jsstr) (ivs : Z → bytes) : list sent * list (Z * Z) * result media_summary :=
  match blob with
  | None => ([], [], Throw (lit "canvas toBlob failed"))
  | Some b =>
      sendMedia key room
        (File (lit "canvas-" ++ dec_int now ++ lit ".png") (lit "image/png") (Z.of_nat (length b)) b)
        transferId ivs
  end.
End SendMedia.

(** ** Cutting *)

Lemma chunk_count_bounds size len :
  0 < size → 0 ≤ len →
  0 ≤ chunk_count size len ∧ len ≤ chunk_count size len * size ∧
  (0 < len → (chunk_count size len - 1) * size < len) ∧ (0 < len → 0 < chunk_count size len).
Proof.
  intros Hs Hl. unfold chunk_count. set (q := (len + size - 1) / size).
  assert (q * size ≤ len + size - 1 < (q + 1) * size) as Hq.
  { pose proof (Z.div_mod (len + size - 1) size ltac:(lia)).
    pose proof (Z.mod_pos_bound (len + size - 1) size ltac:(lia)). subst q. nia. }
  clearbody q. split_and!; nia.
Qed.

Lemma chunk_count_max len :
  0 ≤ len ≤ MAX_FILE_SIZE → 0 ≤ chunk_count CHUNK_SIZE len ≤ 50.
Proof. unfold chunk_count, MAX_FILE_SIZE, CHUNK_SIZE. intros H. zdivs. Qed.

Lemma chunk_at_bytes size b seq : Forall is_byte b → Forall is_byte (chunk_at size b seq).
Proof. intros H. unfold chunk_at, slice. by apply Forall_take, Forall_drop. Qed.

(** The first [n] chunks are the first [n * size] bytes. *)
Lemma chunks_prefix size b n :
  0 < size →
  concat (map (λ i, chunk_at size b (Z.of_nat i)) (seq 0 n)) = take (n * Z.to_nat size) b.
Proof.
  intros Hs. induction n as [|n IH]; [done|].
  rewrite seq_S, map_app, concat_app, IH. cbn [map concat]. rewrite app_nil_r.
  unfold chunk_at, slice. cbn [Nat.add].
  replace (Z.to_nat (Z.of_nat n * size)) with (n * Z.to_nat size)%nat by lia.
  set (k := (n * Z.to_nat size)%nat). set (w := Z.to_nat size).
  replace (S n * w)%nat with (k + w)%nat by lia.
  destruct (decide (k + w ≤ length b)%nat) as [Hle|Hgt].
  - replace (_ - k)%nat with w by lia. apply take_take_drop.
  - rewrite (take_ge (drop k b)) by (rewrite length_drop; lia).
    rewrite take_drop. by rewrite take_ge by lia.
Qed.

Lemma chunks_concat size b :
  0 < size →
  concat (map (λ i, chunk_at size b (Z.of_nat i))
              (seq 0 (Z.to_nat (chunk_count size (Z.of_nat (length b)))))) = b.
Proof.
  intros Hs. rewrite chunks_prefix by done. apply take_ge.
  destruct (chunk_count_bounds size (Z.of_nat (length b))) as (H0 & H1 & _); [lia..|]. nia.
Qed.

(** ** The loop *)

Lemma send_loop_Ok room payload total seq n (out : Z → jsstr) :
  (∀ i, (i < n)%nat → payload (seq + Z.of_nat i) = Ok (out (seq + Z.of_nat i))) →
  send_loop room payload total seq n =
    (map (λ i, Sent (lit "media") room (out (seq + Z.of_nat i))) (List.seq 0 n),
     map (λ i, (seq + Z.of_nat i + 1, total)) (List.seq 0 n), Ok tt).
Proof.
  revert seq. induction n as [|n IH]; intros s Hp; [done|]. cbn [send_loop].
  pose proof (Hp 0%nat ltac:(lia)) as H0. rewrite Z.add_0_r in H0. rewrite H0.
  rewrite IH.
  - cbn [List.seq map]. rewrite <- !seq_shift, !map_map.
    replace (s + Z.of_nat 0) with s by lia. f_equal. f_equal.
    + f_equal. apply map_ext. intros i. do 2 f_equal. lia.
    + f_equal. apply map_ext. intros i. f_equal. lia.
  - intros i Hi. replace (s + 1 + Z.of_nat i) with (s + Z.of_nat (S i)) by lia. apply Hp. lia.
Qed.

(** ** Properties *)

(** An empty file is lost in silence: [sendMedia] resolves as if it had
    been sent, and no message goes out. *)
Theorem sendMedia_empty_file_lost `{WebCrypto} key room name mime tid ivs :
  ∃ summary, sendMedia key room (File name mime 0 []) tid ivs = ([], [], Ok summary).
Proof. eexists. reflexivity. Qed.
