(* ===== verification/MediaAssembler.v ===== *)
(** * lib/media.js: [MediaAssembler]

    [handleChunk] awaits two decryptions, so it is three segments of
    synchronous code, [chunk_accept], [chunk_register] and [chunk_store]; the
    step relation lets the segments of different calls, the stale timers and
    [destroy] interleave. A transfer object is shared between the map of
    transfers and the calls in progress: it lives in a store ([objs]) and both
    hold a reference to it, so a call that resumes after the transfer was
    dropped writes to an object nobody else sees. *)

From S2P Require Import Prelude JsLib Base64 Text Json Crypto Timers Mime MediaSend.

Local Open Scope Z_scope.

Record transfer := Transfer {
  tr_chunks : list (option bytes);   (** [None] is a hole of the array *)
  tr_received : Z;
  tr_total : Z;
  tr_mimeType : json;
  tr_fileName : json;
  tr_fileSize : option json
}.

Definition new_transfer (total : Z) : transfer :=
  Transfer (replicate (Z.to_nat total) None) 0 total JNull JNull (Some JNull).

(** [chunks[i] = c]: writing past the end extends the array with holes. *)
Definition array_set (l : list (option bytes)) (i : nat) (c : bytes) : list (option bytes) :=
  if decide (i < length l)%nat then <[i := Some c]> l
  else l ++ replicate (i - length l) None ++ [Some c].

Record assembler := Assembler {
  transfers : list (jsstr * nat);
  timer_ids : list (jsstr * nat);
  objs : list transfer;
  asm_clock : timers jsstr;
  hasOnProgress : bool;
  progress_calls : list (jsstr * Z * Z)
}.

Definition new_assembler (onProgress : bool) (now : Z) : assembler :=
  Assembler [] [] [] (timers_init now) onProgress [].

(** What [handleChunk] resolves to. *)
Inductive chunk_result :=
  | RNull
  | RError (transferId message : jsstr)
  | RProgress (transferId : jsstr) (received total : Z)
  | RComplete (transferId mimeType : jsstr) (fileName : json) (fileSize : option json) (blob : bytes).

Definition key_mismatch : jsstr := lit "[encrypted media " ++ [8212] ++ lit " key mismatch]".
Definition media_rejected : jsstr := lit "[media rejected " ++ [8212] ++ lit " exceeds 25MB limit]".

(** ** The outer message *)

Record chunk_msg := ChunkMsg { cm_transferId : jsstr; cm_seq : Z; cm_total : Z; cm_chunk : jsstr }.

(** [data.payload] is a JSON text or an object already. *)
Inductive payload := PText (s : jsstr) | PValue (v : json).

Definition parse_payload (p : payload) : result json :=
  match p with PText s => JSON_parse s | PValue v => Ok v end.

(** Destructuring [null] throws; a missing or falsy field makes the call
    return [null]. A message whose [seq] or [total] is not a whole number or
    whose [transferId] or [chunk] is not a string is outside the model: the
    code goes on with it (a [seq] of [0.5] becomes a property of the array),
    the model does not follow ([protocol_message] says which messages it
    does). *)
Definition read_meta (meta : json) : result (option chunk_msg) :=
  match meta with
  | JNull => Throw (lit "TypeError")
  | _ =>
      let transferId := json_get meta (lit "transferId") in
      let seq := json_get meta (lit "seq") in
      let total := json_get meta (lit "total") in
      let chunk := json_get meta (lit "chunk") in
      if negb (truthy transferId) || negb (is_some seq) || negb (truthy total)
         || negb (truthy chunk) then Ok None
      else match transferId, seq, total, chunk with
      | Some (JStr t), Some (JNum s), Some (JNum n), Some (JStr c) => Ok (Some (ChunkMsg t s n c))
      | _, _, _, _ => Throw (lit "not a protocol message")
      end
  end.

(** No number of the text has a fraction or an exponent: outside the string
    literals no digit is followed by a point or an [e]. [q] is set inside a
    string literal, [d] after a digit. *)
Fixpoint whole_numbers (q d : bool) (s : jsstr) : bool :=
  match s with
  | [] => true
  | 92 :: _ :: s' => whole_numbers q false s'
  | c :: s' =>
      if c =? 34 then whole_numbers (negb q) false s'
      else if negb q && d && bool_decide (c ∈ [46; 69; 101]) then false
      else whole_numbers q (is_digit c) s'
  end.

(** The messages the model follows as the code does: the fields [handleChunk]
    compares and stores have the types the sender gives them. *)
Definition protocol_message (p : payload) : bool :=
  match p with PText s => whole_numbers false false s | PValue _ => true end &&
  match parse_payload p with
  | Ok meta => match meta, read_meta meta with JNull, _ | _, Ok _ => true | _, Throw _ => false end
  | Throw _ => true
  end.

Definition in_bounds (m : chunk_msg) : bool :=
  negb ((cm_total m >? MAX_CHUNKS) || (cm_total m <=? 0)) &&
  negb ((cm_seq m <? 0) || (cm_seq m >=? cm_total m)).

(** First segment: parse and check. [inr] goes on to the first decryption. *)
Definition chunk_accept (p : payload) : result (chunk_result + chunk_msg) :=
  match parse_payload p with
  | Throw _ => Ok (inl RNull)
  | Ok meta =>
      om ← read_meta meta;
      match om with
      | None => Ok (inl RNull)
      | Some m => Ok (if in_bounds m then inr m else inl RNull)
      end
  end.

(** ** Second segment: [inner] is the JSON of the decrypted envelope *)

Definition set_metadata (t : transfer) (v : json) : transfer :=
  Transfer (tr_chunks t) (tr_received t) (tr_total t)
    (default JNull (json_get v (lit "mimeType")))
    (JStr (sanitizeFileName (json_get v (lit "fileName"))))
    (json_get v (lit "fileSize")).

Definition upd_obj (st : assembler) (ref : nat) (f : transfer → transfer) : assembler :=
  Assembler (transfers st) (timer_ids st) (alter f ref (objs st)) (asm_clock st)
            (hasOnProgress st) (progress_calls st).

(** Find or create the transfer; [None] is the refusal of an eleventh one,
    [Throw] the access to a property of [null]. *)
Definition find_or_create (m : chunk_msg) (inner : json) (st : assembler)
    : result (option assembler) :=
  match map_get (transfers st) (cm_transferId m) with
  | None =>
      if Nat.leb MAX_CONCURRENT_TRANSFERS (length (transfers st)) then Ok None
      else Ok (Some (Assembler (map_set (transfers st) (cm_transferId m) (length (objs st)))
                     (timer_ids st) (objs st ++ [new_transfer (cm_total m)]) (asm_clock st)
                     (hasOnProgress st) (progress_calls st)))
  | Some ref =>
      if cm_seq m =? 0 then
        match inner with
        | JNull => Throw (lit "TypeError")
        | _ =>
            if truthy (json_get inner (lit "mimeType"))
            then Ok (Some (upd_obj st ref (λ t, set_metadata t inner)))
            else Ok (Some st)
        end
      else Ok (Some st)
  end.

(** Restart the stale timer of the transfer. *)
Definition reset_stale (tid : jsstr) (st : assembler) : assembler :=
  let h := setTimeout (clear_opt (asm_clock st) (map_get (timer_ids st) tid)) tid STALE_TIMEOUT in
  Assembler (transfers st) (map_set (timer_ids st) tid h.1) (objs st) h.2
            (hasOnProgress st) (progress_calls st).

Definition chunk_present (t : transfer) (seq : Z) : bool :=
  match tr_chunks t !! Z.to_nat seq with Some (Some _) => true | _ => false end.

(** [inr ref] goes on to the second decryption. *)
Definition chunk_register (m : chunk_msg) (inner : json) (st : assembler)
    : assembler * result (chunk_result + nat) :=
  match find_or_create m inner st with
  | Throw e => (st, Throw e)
  | Ok None => (st, Ok (inl RNull))
  | Ok (Some st) =>
      let st := reset_stale (cm_transferId m) st in
      match map_get (transfers st) (cm_transferId m) with
      | None => (st, Throw (lit "TypeError"))
      | Some ref =>
          if chunk_present (default (new_transfer 0) (objs st !! ref)) (cm_seq m)
          then (st, Ok (inl RNull))
          else (st, Ok (inr ref))
      end
  end.

(** ** Third segment: store the chunk, and finish when it was the last *)

(** Forget the transfer and its timer. *)
Definition cleanup (tid : jsstr) (st : assembler) : assembler :=
  Assembler (map_delete (transfers st) tid) (map_delete (timer_ids st) tid) (objs st)
            (clear_opt (asm_clock st) (map_get (timer_ids st) tid))
            (hasOnProgress st) (progress_calls st).

Definition total_size (l : list (option bytes)) : Z :=
  fold_left (λ sum c, match c with Some c => sum + Z.of_nat (length c) | None => sum end) l 0.

(** The loop [assembled.set(c, offset)] over every index: on a hole [c] is
    [undefined] and [set] throws. *)
Fixpoint assemble (l : list (option bytes)) (buf : bytes) (offset : nat) : result bytes :=
  match l with
  | [] => Ok buf
  | None :: _ => Throw (lit "TypeError")
  | Some c :: l' => buf ← uint8_set buf c offset; assemble l' buf (offset + length c)
  end.

Definition finish (m : chunk_msg) (t : transfer) (st : assembler)
    : assembler * result chunk_result :=
  let tid := cm_transferId m in
  if total_size (tr_chunks t) >? MAX_FILE_SIZE then (cleanup tid st, Ok (RError tid media_rejected))
  else
    match assemble (tr_chunks t) (new_uint8 (Z.to_nat (total_size (tr_chunks t)))) 0 with
    | Throw e => (st, Throw e)
    | Ok assembled =>
        (cleanup tid st,
         mime ← validateMimeType (tr_mimeType t) assembled;
         Ok (RComplete tid mime (tr_fileName t) (tr_fileSize t) assembled))
    end.

(** The transfer object once the chunk and, if it has none yet, the metadata
    are in. *)
Definition store_chunk (m : chunk_msg) (data : bytes) (meta : json) (t : transfer) : transfer :=
  let t := if is_null (tr_mimeType t) && truthy (json_get meta (lit "mimeType"))
           then set_metadata t meta else t in
  Transfer (array_set (tr_chunks t) (Z.to_nat (cm_seq m)) data) (tr_received t + 1) (tr_total t)
           (tr_mimeType t) (tr_fileName t) (tr_fileSize t).

Definition chunk_store (m : chunk_msg) (ref : nat)
    (envelope : result (bytes * list (jsstr * json))) (st : assembler)
    : assembler * result chunk_result :=
  match envelope with
  | Throw _ => (st, Ok (RError (cm_transferId m) key_mismatch))
  | Ok (decrypted, chunkMeta) =>
      let t := store_chunk m decrypted (JObj chunkMeta) (default (new_transfer 0) (objs st !! ref)) in
      let st := Assembler (transfers st) (timer_ids st) (<[ref := t]> (objs st)) (asm_clock st)
                  (hasOnProgress st)
                  (progress_calls st ++
                   if hasOnProgress st then [(cm_transferId m, tr_received t, tr_total t)] else []) in
      if tr_received t =? tr_total t then finish m t st
      else (st, Ok (RProgress (cm_transferId m) (tr_received t) (tr_total t)))
  end.

(** ** The other operations *)

(** The stale timer of [tid] fires. *)
Definition stale_expired (id : nat) (tid : jsstr) (st : assembler) : assembler :=
  Assembler (map_delete (transfers st) tid) (map_delete (timer_ids st) tid) (objs st)
            (clearTimeout (asm_clock st) id) (hasOnProgress st) (progress_calls st).

Definition destroy (st : assembler) : assembler :=
  Assembler [] [] (objs st) (fold_left clearTimeout (map_values (timer_ids st)) (asm_clock st))
            (hasOnProgress st) (progress_calls st).

Section HandleChunk.
Context `{WebCrypto}.

(** The first decryption: the envelope's JSON, or the mismatch. *)
Definition decrypt_inner (key : option CryptoKey) (chunk : jsstr) : result json :=
  text ← decrypt key chunk; JSON_parse text.

(** [handleChunk(data, key)] when nothing else runs during its awaits. *)
Definition handleChunk (p : payload) (key : option CryptoKey) (st : assembler)
    : assembler * result chunk_result :=
  match chunk_accept p with
  | Throw e => (st, Throw e)
  | Ok (inl r) => (st, Ok r)
  | Ok (inr m) =>
      match decrypt_inner key (cm_chunk m) with
      | Throw _ => (st, Ok (RError (cm_transferId m) key_mismatch))
      | Ok inner =>
          match chunk_register m inner st with
          | (st, Throw e) => (st, Throw e)
          | (st, Ok (inl r)) => (st, Ok r)
          | (st, Ok (inr ref)) => chunk_store m ref (decryptMediaEnvelope key (cm_chunk m)) st
          end
      end
  end.

(** ** Interleaving: calls in progress *)

Inductive call :=
  | CallInner (m : chunk_msg) (key : option CryptoKey)
  | CallEnvelope (m : chunk_msg) (ref : nat) (key : option CryptoKey).

Record world := World { w_asm : assembler; w_calls : list call }.

(** How a call ends, or that it has not ended. *)
Inductive asm_label :=
  | AReceive (p : payload) (key : option CryptoKey) (out : option (result chunk_result))
  | AInner (i : nat) (out : option (result chunk_result))
  | AEnvelope (i : nat) (out : result chunk_result)
  | AStale (id : nat)
  | ADestroy
  | AWait (d : Z).

Inductive asm_step : world → asm_label → world → Prop :=
  | asm_receive_end st cs p key r :
      chunk_accept p = Ok (inl r) →
      asm_step (World st cs) (AReceive p key (Some (Ok r))) (World st cs)
  | asm_receive_throw st cs p key e :
      chunk_accept p = Throw e →
      asm_step (World st cs) (AReceive p key (Some (Throw e))) (World st cs)
  | asm_receive st cs p key m :
      chunk_accept p = Ok (inr m) →
      asm_step (World st cs) (AReceive p key None) (World st (cs ++ [CallInner m key]))
  | asm_inner_fail st cs i m key e :
      cs !! i = Some (CallInner m key) → decrypt_inner key (cm_chunk m) = Throw e →
      asm_step (World st cs) (AInner i (Some (Ok (RError (cm_transferId m) key_mismatch))))
               (World st (delete i cs))
  | asm_inner_throw st cs i m key inner st' e :
      cs !! i = Some (CallInner m key) → decrypt_inner key (cm_chunk m) = Ok inner →
      chunk_register m inner st = (st', Throw e) →
      asm_step (World st cs) (AInner i (Some (Throw e))) (World st' (delete i cs))
  | asm_inner_end st cs i m key inner st' r :
      cs !! i = Some (CallInner m key) → decrypt_inner key (cm_chunk m) = Ok inner →
      chunk_register m inner st = (st', Ok (inl r)) →
      asm_step (World st cs) (AInner i (Some (Ok r))) (World st' (delete i cs))
  | asm_inner st cs i m key inner st' ref :
      cs !! i = Some (CallInner m key) → decrypt_inner key (cm_chunk m) = Ok inner →
      chunk_register m inner st = (st', Ok (inr ref)) →
      asm_step (World st cs) (AInner i None) (World st' (<[i := CallEnvelope m ref key]> cs))
  | asm_envelope st cs i m ref key st' r :
      cs !! i = Some (CallEnvelope m ref key) →
      chunk_store m ref (decryptMediaEnvelope key (cm_chunk m)) st = (st', r) →
      asm_step (World st cs) (AEnvelope i r) (World st' (delete i cs))
  | asm_stale st cs id tid :
      due (asm_clock st) id = Some tid →
      asm_step (World st cs) (AStale id) (World (stale_expired id tid st) cs)
  | asm_destroy st cs : asm_step (World st cs) ADestroy (World (destroy st) cs)
  | asm_wait st cs d :
      0 ≤ d →
      asm_step (World st cs) (AWait d)
        (World (Assembler (transfers st) (timer_ids st) (objs st) (advance (asm_clock st) d)
                          (hasOnProgress st) (progress_calls st)) cs).

Inductive asm_steps : world → list asm_label → world → Prop :=
  | asm_nil w : asm_steps w [] w
  | asm_cons w1 l w2 ls w3 : asm_step w1 l w2 → asm_steps w2 ls w3 → asm_steps w1 (l :: ls) w3.

(** The message a label takes in, the result of the call it ends. *)
Definition label_in (l : asm_label) : option (payload * option CryptoKey) :=
  match l with AReceive p key _ => Some (p, key) | _ => None end.
Definition label_out (l : asm_label) : option (result chunk_result) :=
  match l with AReceive _ _ o | AInner _ o => o | AEnvelope _ r => Some r | _ => None end.

(** Neither a stale timer nor [destroy]. *)
Definition undisturbed (l : asm_label) : bool :=
  match l with AStale _ | ADestroy => false | _ => true end.
End HandleChunk.

(** ** Reassembly *)

Lemma total_size_full cs : total_size (map Some cs) = Z.of_nat (length (concat cs)).
Proof.
  unfold total_size. enough (∀ z, fold_left (λ sum c, match c with Some c => sum + Z.of_nat (length c)
    | None => sum end) (map Some cs) z = z + Z.of_nat (length (concat cs))) as -> by lia.
  induction cs as [|c cs IH]; intros z; cbn; [lia|]. rewrite IH, length_app. lia.
Qed.

Lemma assemble_full cs pre r :
  length r = length (concat cs) →
  assemble (map Some cs) (pre ++ r) (length pre) = Ok (pre ++ concat cs).
Proof.
  revert pre r. induction cs as [|c cs IH]; intros pre r Hr; cbn [map assemble concat] in *.
  - apply nil_length_inv in Hr. by rewrite Hr.
  - rewrite length_app in Hr. rewrite uint8_set_at by lia. cbn [mbind result_bind].
    rewrite (app_assoc pre c), <- length_app, IH by (rewrite length_drop; lia).
    by rewrite <- app_assoc.
Qed.

(** A hole makes it throw, whatever the buffer. *)
Lemma assemble_hole l buf off : None ∈ l → is_ok (assemble l buf off) = false.
Proof.
  revert buf off. induction l as [|[c|] l IH]; intros buf off Hin; [set_solver| |done].
  cbn. destruct (uint8_set buf c off); cbn; [|done]. apply IH. set_solver.
Qed.

(** ** Invariant: the two maps, the timers and the arrays *)

(** Every handle of [timer_ids] is the pending stale timer of its transfer,
    due within [STALE_TIMEOUT], and no other timer is pending. *)
Definition timers_ok (ids : list (jsstr * nat)) (c : timers jsstr) : Prop :=
  timers_wf c ∧ map_wf ids ∧
  (∀ tid id, map_get ids tid = Some id ↔ ∃ t, map_get (t_pending c) id = Some (t, tid)) ∧
  (∀ id t tid, map_get (t_pending c) id = Some (t, tid) → t ≤ t_now c + STALE_TIMEOUT).

Definition asm_ok (st : assembler) : Prop :=
  timers_ok (timer_ids st) (asm_clock st) ∧ map_wf (transfers st) ∧
  map_keys (timer_ids st) = map_keys (transfers st) ∧
  (length (transfers st) ≤ MAX_CONCURRENT_TRANSFERS)%nat ∧
  Forall (λ t, Z.of_nat (length (tr_chunks t)) ≤ MAX_CHUNKS) (objs st).

Lemma timers_ok_forget ids c tid h :
  timers_ok ids c → map_get ids tid = h → timers_ok (map_delete ids tid) (clear_opt c h).
Proof.
  intros (Hw & Hi & Hb & Hd) Hh. split_and!; [by apply timers_wf_clear_opt|by apply map_wf_delete| |].
  - intros tid' id. setoid_rewrite pending_clear_opt; [|done].
    destruct (decide (tid = tid')) as [<-|Hne].
    + rewrite map_get_delete_eq by done. split; [done|]. intros (t & Hne & Ht).
      destruct Hne. rewrite <- Hh. apply Hb. eauto.
    + rewrite map_get_delete_ne, Hb by done. split; [|naive_solver].
      intros (t & Ht). exists t. split; [|done]. intros ->.
      apply Hb in Hh as (t' & Ht'). congruence.
  - intros id t tid' Ht. apply pending_clear_opt in Ht as [_ Ht]; [|done].
    assert (t_now (clear_opt c h) = t_now c) as -> by (by destruct h). eauto.
Qed.

Lemma timers_ok_set ids c tid :
  timers_ok ids c →
  timers_ok (map_set ids tid (setTimeout (clear_opt c (map_get ids tid)) tid STALE_TIMEOUT).1)
            (setTimeout (clear_opt c (map_get ids tid)) tid STALE_TIMEOUT).2.
Proof.
  intros H. pose proof (timers_ok_forget ids c tid _ H eq_refl) as (Hw & _ & Hb & Hd).
  destruct H as (_ & Hi & _). set (c' := clear_opt _ _) in *. clearbody c'.
  split_and!; [by apply timers_wf_set|by apply map_wf_set| |].
  - intros tid' id. setoid_rewrite pending_setTimeout. cbn [setTimeout fst].
    assert (∀ t tid, map_get (t_pending c') (t_next c') ≠ Some (t, tid)) as Hfresh.
    { intros t x Hx. pose proof (setTimeout_fresh c' Hw) as Hf. apply Hf, map_has_true.
      unfold map_has. by rewrite Hx. }
    destruct (decide (tid = tid')) as [<-|Hne].
    + rewrite map_get_set_eq. specialize (Hb tid id). rewrite map_get_delete_eq in Hb by done.
      split; [intros [= <-]; eauto|]. intros (t & [[-> _]|[_ Ht]]); [done|].
      destruct Hb as [_ Hb]. discriminate Hb. eauto.
    + rewrite map_get_set_ne by done. specialize (Hb tid' id). rewrite map_get_delete_ne in Hb by done.
      rewrite Hb. split.
      * intros (t & Ht). exists t. right. split; [|done]. intros ->. by eapply Hfresh.
      * intros (t & [[_ [= _ <-]]|[_ Ht]]); [done|eauto].
  - intros id t tid' Ht. apply pending_setTimeout in Ht as [[_ [= -> _]]|[_ Ht]]; cbn; [done|eauto].
Qed.

Lemma asm_ok_cleanup tid st : asm_ok st → asm_ok (cleanup tid st).
Proof.
  intros (Ht & Hw & Hk & Hl & Ho). split_and!; cbn [cleanup timer_ids asm_clock transfers objs]; [| | | |done].
  - by apply timers_ok_forget.
  - by apply map_wf_delete.
  - by apply map_keys_delete_eq.
  - rewrite map_length_delete. case_match; lia.
Qed.

Lemma asm_ok_stale id tid st :
  asm_ok st → due (asm_clock st) id = Some tid → asm_ok (stale_expired id tid st).
Proof.
  intros H (t & Hp & _)%due_Some. pose proof H as ((_ & _ & Hb & _) & _).
  assert (map_get (timer_ids st) tid = Some id) as E by (apply Hb; eauto).
  pose proof (asm_ok_cleanup tid st H) as Hc. unfold cleanup in Hc. rewrite E in Hc. exact Hc.
Qed.

Lemma asm_ok_destroy st : asm_ok st → asm_ok (destroy st) ∧ ∀ id, map_get (t_pending (asm_clock (destroy st))) id = None.
Proof.
  intros ((Hw & Hi & Hb & Hd) & _ & _ & _ & Ho).
  assert (∀ id p, map_get (t_pending (asm_clock (destroy st))) id ≠ Some p) as Hnone.
  { intros id [t tid] Hp. apply pending_clear_all in Hp as [Hn Hp]; [|done].
    apply Hn. assert (map_get (timer_ids st) tid = Some id) as Hin by (apply Hb; eauto).
    apply map_get_Some_elem in Hin. apply list_elem_of_fmap. by exists (tid, id). }
  split.
  - split_and!; try done; cbn [destroy transfers timer_ids asm_clock]; [|constructor|cbn; lia].
    split_and!; [by apply timers_wf_clear_all|constructor| |].
    + intros tid id. split; [done|]. intros (t & Ht). by apply Hnone in Ht.
    + intros id t tid Ht. by apply Hnone in Ht.
  - intros id. destruct (map_get _ id) eqn:E; [|done]. by apply Hnone in E.
Qed.

Lemma asm_ok_advance st d :
  0 ≤ d → asm_ok st →
  asm_ok (Assembler (transfers st) (timer_ids st) (objs st) (advance (asm_clock st) d)
                    (hasOnProgress st) (progress_calls st)).
Proof.
  intros Hd ((Hw & Hi & Hb & Hp) & H). split; [|done]. split_and!; try done.
  intros id t tid Ht. cbn in *. apply Hp in Ht. lia.
Qed.

Lemma asm_ok_objs st os ps :
  asm_ok st → Forall (λ t, Z.of_nat (length (tr_chunks t)) ≤ MAX_CHUNKS) os →
  asm_ok (Assembler (transfers st) (timer_ids st) os (asm_clock st) (hasOnProgress st) ps).
Proof. intros (? & ? & ? & ? & ?) Ho. by split_and!. Qed.

Lemma chunk_register_ok m inner st :
  in_bounds m = true → asm_ok st → asm_ok (chunk_register m inner st).1.
Proof.
  intros Hm H. unfold chunk_register. destruct (find_or_create m inner st) as [[st1|]|] eqn:E; [|done..].
  assert (asm_ok (reset_stale (cm_transferId m) st1)) as H1.
  2:{ repeat case_match; done. }
  destruct H as (Ht & Hw & Hk & Hl & Ho). unfold find_or_create in E.
  destruct (map_get (transfers st) (cm_transferId m)) as [ref|] eqn:Eg.
  - assert (transfers st1 = transfers st ∧ timer_ids st1 = timer_ids st ∧ asm_clock st1 = asm_clock st ∧
      Forall (λ t, Z.of_nat (length (tr_chunks t)) ≤ MAX_CHUNKS) (objs st1)) as (E1 & E2 & E3 & Ho1).
    { destruct (cm_seq m =? 0); [|by simplify_eq].
      assert (Some (upd_obj st ref (λ t, set_metadata t inner)) = Some st1 ∨ st1 = st) as Eu
        by (destruct inner; cbn in E; repeat case_match; simplify_eq; auto).
      destruct Eu as [Eu|Eu]; [|by subst].
      injection Eu as <-. cbn [upd_obj transfers timer_ids asm_clock objs]. split_and!; try done.
      apply Forall_alter; [done|]. intros t _ Hx. done. }
    split_and!; cbn [reset_stale transfers timer_ids asm_clock objs]; rewrite ?E1, ?E2, ?E3; try done.
    + by apply timers_ok_set.
    + rewrite map_keys_set. replace (map_has (timer_ids st) (cm_transferId m)) with true; [done|].
      symmetry. apply map_has_true. rewrite Hk. apply map_has_true. unfold map_has. by rewrite Eg.
  - destruct (Nat.leb MAX_CONCURRENT_TRANSFERS (length (transfers st))) eqn:El; [done|].
    injection E as <-. apply Nat.leb_gt in El. apply map_get_None in Eg.
    split_and!; cbn [reset_stale transfers timer_ids asm_clock objs].
    + by apply timers_ok_set.
    + by apply map_wf_set.
    + rewrite !map_keys_set, !(proj2 (map_has_false _ _)) by (done || by rewrite Hk). by rewrite Hk.
    + rewrite map_length_set, (proj2 (map_has_false _ _)) by done. lia.
    + apply Forall_snoc; [done|]. cbn. rewrite length_replicate. unfold in_bounds, MAX_CHUNKS in *. lia.
Qed.

Lemma length_array_set l i c : length (array_set l i c) = Nat.max (length l) (S i).
Proof.
  unfold array_set. case_decide; [rewrite length_insert; lia|].
  rewrite !length_app, length_replicate. cbn. lia.
Qed.

Lemma chunk_store_ok m ref env st :
  in_bounds m = true → asm_ok st → asm_ok (chunk_store m ref env st).1.
Proof.
  intros Hm H. unfold chunk_store. destruct env as [[d md]|]; [|done].
  set (t := store_chunk m d (JObj md) _).
  assert (Forall (λ t, Z.of_nat (length (tr_chunks t)) ≤ MAX_CHUNKS) (<[ref := t]> (objs st))) as Ho.
  { pose proof H as (_ & _ & _ & _ & Ho). apply Forall_insert; [done|].
    assert (Z.of_nat (length (tr_chunks (default (new_transfer 0) (objs st !! ref)))) ≤ MAX_CHUNKS) as Hd.
    { destruct (objs st !! ref) as [t0|] eqn:E; [|done]. by eapply Forall_lookup_1 in E; [|exact Ho]. }
    subst t. unfold store_chunk. set (t1 := if is_null _ && _ then _ else _).
    assert (tr_chunks t1 = tr_chunks (default (new_transfer 0) (objs st !! ref))) as E
      by (subst t1; by case_match).
    cbn [tr_chunks]. rewrite length_array_set, E. unfold in_bounds, MAX_CHUNKS in *. lia. }
  case_match; [|by apply asm_ok_objs]. unfold finish.
  case_match; [by apply asm_ok_cleanup, asm_ok_objs|].
  case_match; [by apply asm_ok_cleanup, asm_ok_objs | by apply asm_ok_objs].
Qed.

Lemma pending_none_nil {A} (c : timers A) : (∀ id, map_get (t_pending c) id = None) → t_pending c = [].
Proof.
  intros H. destruct (t_pending c) as [|[id p] l] eqn:E; [done|].
  specialize (H id). cbn in H. by rewrite decide_True in H.
Qed.

Section AssemblerProperties.
Context `{WebCrypto}.

Definition call_msg (c : call) : chunk_msg :=
  match c with CallInner m _ | CallEnvelope m _ _ => m end.

(** The calls in progress passed the bounds checks. *)
Definition world_ok (w : world) : Prop :=
  asm_ok (w_asm w) ∧ Forall (λ c, in_bounds (call_msg c) = true) (w_calls w).

Lemma world_ok_new onp now : world_ok (World (new_assembler onp now) []).
Proof.
  split; [|constructor]. split_and!; try done; cbn; [|constructor|lia].
  split_and!; [apply timers_wf_init|constructor|cbn; naive_solver|done].
Qed.

Lemma world_ok_step w l w' : world_ok w → asm_step w l w' → world_ok w'.
Proof.
  intros [Ha Hc] Hs.
  assert (∀ i c, w_calls w !! i = Some c → in_bounds (call_msg c) = true) as Hb
    by (intros i c Hi; exact (Forall_lookup_1 _ _ _ _ Hc Hi)).
  destruct Hs as [st cs p k r E|st cs p k e E|st cs p k m E|st cs k m key' e Hk E
    |st cs k m key' inner st' e Hk E E2|st cs k m key' inner st' r Hk E E2
    |st cs k m key' inner st' ref Hk E E2|st cs k m ref key' st' r Hk E|st cs id tid' E|st cs|st cs d Hd];
    cbn [w_asm w_calls] in *; split; cbn [w_asm w_calls]; try done;
    try (by apply Forall_delete);
    try (specialize (Hb _ _ Hk); cbn [call_msg] in Hb).
  - apply Forall_snoc; [done|]. cbn. unfold chunk_accept in E.
    destruct (parse_payload p); [|done]. destruct (read_meta a) as [[m'|]|]; cbn in E; [|done..].
    destruct (in_bounds m') eqn:Eb; congruence.
  - pose proof (chunk_register_ok m inner st Hb Ha) as Hr. by rewrite E2 in Hr.
  - pose proof (chunk_register_ok m inner st Hb Ha) as Hr. by rewrite E2 in Hr.
  - pose proof (chunk_register_ok m inner st Hb Ha) as Hr. by rewrite E2 in Hr.
  - by apply Forall_insert.
  - pose proof (chunk_store_ok m ref (decryptMediaEnvelope key' (cm_chunk m)) st Hb Ha) as Hr.
    by rewrite E in Hr.
  - by apply asm_ok_stale.
  - by apply asm_ok_destroy.
  - by apply asm_ok_advance.
Qed.

Lemma world_ok_steps w ls w' : world_ok w → asm_steps w ls w' → world_ok w'.
Proof. intros Hw. induction 1; eauto using world_ok_step. Qed.

(** C23: memory stays bounded as long as the messages are of the protocol
    (whole-number [seq] and [total], string [transferId] and [chunk]), in
    whatever order they arrive, whatever else is in them and however the calls
    overlap: at most ten transfers, each of at most 100 chunks. A transfer is in the
    table exactly when its stale timer is pending, that timer is due within
    30 seconds and drops it, and [destroy] leaves no transfer and no timer. *)
Theorem assembler_bounded onp now ls w :
  Forall (λ p, protocol_message p = true) (map fst (omap label_in ls)) →
  asm_steps (World (new_assembler onp now) []) ls w →
  let st := w_asm w in
  (length (transfers st) ≤ MAX_CONCURRENT_TRANSFERS)%nat ∧
  Forall (λ t, Z.of_nat (length (tr_chunks t)) ≤ MAX_CHUNKS) (objs st) ∧
  (∀ tid, tid ∈ map_keys (transfers st) ↔ ∃ id t, map_get (t_pending (asm_clock st)) id = Some (t, tid)) ∧
  (∀ tid, tid ∈ map_keys (transfers st) →
     ∃ id, due (advance (asm_clock st) STALE_TIMEOUT) id = Some tid) ∧
  (∀ id tid, due (asm_clock st) id = Some tid → tid ∉ map_keys (transfers (stale_expired id tid st))) ∧
  transfers (destroy st) = [] ∧ t_pending (asm_clock (destroy st)) = [].
Proof.
  intros _ Hs. destruct (world_ok_steps _ _ _ (world_ok_new onp now) Hs) as [Ha _]. cbn zeta.
  pose proof Ha as ((Hwf & Hi & Hb & Hd) & Hw & Hk & Hl & Ho).
  assert (∀ tid, tid ∈ map_keys (transfers (w_asm w)) → ∃ id, map_get (timer_ids (w_asm w)) tid = Some id) as Hid.
  { intros tid Hin. rewrite <- Hk in Hin. apply map_has_true in Hin. unfold map_has in Hin.
    destruct (map_get _ tid) eqn:E; eauto. done. }
  split_and!; try done.
  - intros tid. split.
    + intros Hin. destruct (Hid tid Hin) as (id & E). exists id. by apply Hb.
    + intros (id & t & E). rewrite <- Hk. apply map_has_true. unfold map_has.
      by rewrite (proj2 (Hb tid id)) by eauto.
  - intros tid Hin. destruct (Hid tid Hin) as (id & E). apply Hb in E as (t & E).
    exists id. unfold due. cbn [advance t_pending t_now]. rewrite E, bool_decide_true; eauto.
  - intros id tid _. cbn. apply map_get_None. by apply map_get_delete_eq.
  - apply pending_none_nil. by apply asm_ok_destroy.
Qed.
End AssemblerProperties.

Module AssemblerExamples.
Import Toy.

Definition junk_payload : payload :=
  match encryptMediaEnvelope (Some (toy_key Byte.x07)) toy_iv [1; 2] [] with
  | Ok c => PText (JSON_stringify (chunk_json (lit "t9") 3 4 c))
  | Throw _ => PValue JNull
  end.

Definition junk_labels : list asm_label :=
  let k := Some (toy_key Byte.x07) in
  [AReceive junk_payload k None; AInner 0 None; ADestroy; AReceive junk_payload k None; AInner 1 None].

(** Digits and letters of a base64 text are not numbers; a fractional [seq],
    with which a chunk would become a property of the array, is outside. *)
Example protocol_messages :
  map (λ s, protocol_message (PText (jtext s)))
    ["{'transferId':'t1','seq':0,'total':2,'chunk':'A1e5'}"; "{'transferId':'t1','seq':0.5,'total':2,'chunk':'AA'}";
     "{'transferId':'t1','seq':'0','total':2,'chunk':'AA'}"; "null"; "not JSON"]%string
  = [true; false; false; true; true].
Proof. vm_compute. reflexivity. Qed.

(** A chunk of a transfer that never completes: its timer is armed. *)
Lemma assembler_bounded_witness :
  ∃ ls w, asm_steps (World (new_assembler false 1000) []) ls w ∧
    map_keys (transfers (w_asm w)) = [lit "t9"] ∧
    ∃ id, due (advance (asm_clock (w_asm w)) STALE_TIMEOUT) id = Some (lit "t9").
Proof.
  eassert (asm_steps (World (new_assembler false 1000) [])
    junk_labels _) as Hs.
  { eapply asm_cons; [eapply asm_receive; vm_compute; reflexivity|].
    eapply asm_cons; [eapply asm_inner; [reflexivity|vm_compute; reflexivity..]|].
    eapply asm_cons; [eapply asm_destroy|].
    eapply asm_cons; [eapply asm_receive; vm_compute; reflexivity|].
    eapply asm_cons; [eapply asm_inner; [reflexivity|vm_compute; reflexivity..]|].
    apply asm_nil. }
  eexists _, _. split; [exact Hs|]. split; [reflexivity|].
  destruct (assembler_bounded false 1000 junk_labels _ ltac:(decided) Hs) as (_ & _ & _ & Hd & _). apply Hd. decided.
Defined.
End AssemblerExamples.
