(* ===== verification/MediaTransfer.v ===== *)
(** * A file through the relay: [sendMedia] against [MediaAssembler]

    The messages [sendMedia] sends, handed to [handleChunk] in any order and
    any number of times, give the receiver the file: the theorems that join
    the two halves of lib/media.js. *)

From S2P Require Import Prelude JsLib Base64 Text Json Crypto Timers Mime MediaSend MediaAssembler.

Local Open Scope Z_scope.

(** [handleChunk] on one message after the other, and what each call gave. *)
Fixpoint handleChunks `{WebCrypto} (ps : list payload) (key : option CryptoKey) (st : assembler)
    : assembler * list (result chunk_result) :=
  match ps with
  | [] => (st, [])
  | p :: ps' =>
      let '(st1, r) := handleChunk p key st in
      let '(st2, rs) := handleChunks ps' key st1 in (st2, r :: rs)
  end.

Section Receive.
Context `{WebCrypto}.
Context (key : option CryptoKey) (tid : jsstr) (n : nat) (mime name : jsstr) (size : Z).
Context (chunk : nat → bytes) (ct : nat → jsstr).

(** The metadata chunk [i] carries. *)
Definition md (i : nat) : list (jsstr * json) :=
  if Z.of_nat i =? 0 then
    [(lit "mimeType", JStr mime); (lit "fileName", JStr name); (lit "fileSize", JNum size)]
  else [].

(** The payload of chunk [i] is a protocol message whose cipher text opens
    to the chunk and its metadata. *)
Definition sealed (i : nat) : Prop :=
  ct i ≠ [] ∧ Forall is_unit (ct i) ∧
  decrypt_inner key (ct i) = Ok (envelope_json (chunk i) (md i)) ∧
  decryptMediaEnvelope key (ct i) = Ok (chunk i, md i).

Definition outer (i : nat) : payload :=
  PText (JSON_stringify (chunk_json tid (Z.of_nat i) (Z.of_nat n) (ct i))).

Context (Htid : tid ≠ []) (Htidu : Forall is_unit tid) (Hn : (n ≤ 100)%nat).
Context (Hmime : str_empty mime = false).
Context (Hsealed : ∀ i, (i < n)%nat → sealed i).

Lemma chunk_accept_outer i :
  (i < n)%nat → chunk_accept (outer i) = Ok (inr (ChunkMsg tid (Z.of_nat i) (Z.of_nat n) (ct i))).
Proof.
  intros Hi. destruct (Hsealed i Hi) as (Hne & Hu & _). unfold chunk_accept, outer. cbn [parse_payload].
  rewrite JSON_parse_stringify.
  2:{ unfold chunk_json. cbn [json_wf]. apply andb_true_iff. split; [decided|].
      cbn [forallb json_wf fst snd]. rewrite (bool_decide_true (Forall is_unit tid)) by done.
      rewrite (bool_decide_true (Forall is_unit (ct i))) by done.
      rewrite !bool_decide_true by decided. done. }
  unfold read_meta, chunk_json. cbn [json_get].
  change (map_get _ (lit "transferId")) with (Some (JStr tid)).
  change (map_get _ (lit "seq")) with (Some (JNum (Z.of_nat i))).
  change (map_get _ (lit "total")) with (Some (JNum (Z.of_nat n))).
  change (map_get _ (lit "chunk")) with (Some (JStr (ct i))).
  cbn [truthy is_some]. destruct tid as [|c t] eqn:Et; [done|]. destruct (ct i) as [|d u] eqn:Ec; [done|].
  cbn [str_empty]. replace (Z.of_nat n =? 0) with false by lia. cbn [negb orb mbind result_bind].
  unfold in_bounds. cbn [cm_total cm_seq]. unfold MAX_CHUNKS.
  replace (Z.of_nat n >? 100) with false by lia. replace (Z.of_nat n <=? 0) with false by lia.
  replace (Z.of_nat i <? 0) with false by lia. replace (Z.of_nat i >=? Z.of_nat n) with false by lia.
  done.
Qed.

(** ** The transfer object after the chunks of [S] arrived *)

Definition obj_of (S : gset nat) (meta : bool) : transfer :=
  Transfer (map (λ i, if decide (i ∈ S) then Some (chunk i) else None) (seq 0 n))
    (Z.of_nat (base.size S)) (Z.of_nat n)
    (if meta then JStr mime else JNull)
    (if meta then JStr (sanitizeFileName (Some (JStr name))) else JNull)
    (Some (if meta then JNum size else JNull)).

(** The metadata is in once chunk 0 is, or earlier. *)
Definition is_obj (S : gset nat) (t : transfer) : Prop :=
  ∃ meta, t = obj_of S meta ∧ (0%nat ∈ S → meta = true).

Lemma is_obj_new : is_obj ∅ (new_transfer (Z.of_nat n)).
Proof.
  exists false. split; [|set_solver]. unfold obj_of, new_transfer. rewrite Nat2Z.id, size_empty.
  f_equal. apply list_eq. intros i.
  change (@map nat (option bytes)) with (@fmap list _ nat (option bytes)).
  rewrite list_lookup_fmap. destruct (decide (i < n)%nat).
  - rewrite lookup_seq_lt by done. cbn. rewrite decide_False by set_solver.
    by rewrite lookup_replicate_2.
  - rewrite lookup_seq_ge by lia. cbn. apply lookup_ge_None. rewrite length_replicate. lia.
Qed.

Lemma obj_of_lookup S b i :
  (i < n)%nat → tr_chunks (obj_of S b) !! i = Some (if decide (i ∈ S) then Some (chunk i) else None).
Proof.
  intros Hi. cbn. change (@map nat (option bytes)) with (@fmap list _ nat (option bytes)).
  rewrite list_lookup_fmap, lookup_seq_lt by done. done.
Qed.

Lemma chunk_present_obj S t i :
  (i < n)%nat → is_obj S t → chunk_present t (Z.of_nat i) = bool_decide (i ∈ S).
Proof.
  intros Hi (b & -> & _). unfold chunk_present. rewrite Nat2Z.id, obj_of_lookup by done.
  by repeat (case_decide || case_bool_decide).
Qed.

(** The metadata in the envelope, and none in the later chunks. *)
Lemma envelope_get b i k :
  k ≠ lit "data" → json_get (envelope_json b (md i)) k = json_get (JObj (md i)) k.
Proof. intros Hk. unfold envelope_json. cbn [json_get]. by rewrite map_get_set_ne. Qed.

Lemma md_mime i : truthy (json_get (JObj (md i)) (lit "mimeType")) = bool_decide (i = 0%nat).
Proof.
  unfold md. destruct (Z.of_nat i =? 0) eqn:E; rewrite bool_decide_decide.
  - rewrite decide_True by lia.
    change (negb (str_empty mime) = true). by rewrite Hmime.
  - rewrite decide_False by lia. done.
Qed.

Lemma set_metadata_obj S b v :
  json_get v (lit "mimeType") = Some (JStr mime) → json_get v (lit "fileName") = Some (JStr name) →
  json_get v (lit "fileSize") = Some (JNum size) →
  set_metadata (obj_of S b) v = obj_of S true.
Proof. unfold set_metadata. by intros -> -> ->. Qed.

Lemma is_obj_set_metadata S t b :
  is_obj S t → is_obj S (set_metadata t (envelope_json b (md 0))).
Proof.
  intros (m & -> & _). exists true. split; [|done].
  apply set_metadata_obj; by rewrite envelope_get by done.
Qed.

Lemma array_set_obj S b i :
  (i < n)%nat →
  array_set (tr_chunks (obj_of S b)) i (chunk i) = tr_chunks (obj_of ({[i]} ∪ S) b).
Proof.
  intros Hi. unfold array_set. rewrite decide_True by (cbn; rewrite length_map, length_seq; done).
  apply list_eq. intros j. destruct (decide (j < n)%nat).
  - rewrite obj_of_lookup by done. destruct (decide (i = j)) as [->|Hne].
    + rewrite list_lookup_insert_eq by (cbn; rewrite length_map, length_seq; done).
      by rewrite decide_True by set_solver.
    + rewrite list_lookup_insert_ne, obj_of_lookup by done.
      repeat case_decide; done || set_solver.
  - rewrite !lookup_ge_None_2; try done; cbn; rewrite ?length_insert, length_map, length_seq; lia.
Qed.

Notation msg i := (ChunkMsg tid (Z.of_nat i) (Z.of_nat n) (ct i)).

Lemma store_chunk_obj S i t :
  (i < n)%nat → i ∉ S → is_obj S t →
  is_obj ({[i]} ∪ S) (store_chunk (msg i) (chunk i) (JObj (md i)) t).
Proof.
  intros Hi HiS (b & -> & Hb). unfold store_chunk. cbn [cm_seq]. rewrite md_mime, Nat2Z.id.
  assert (Z.of_nat (base.size S) + 1 = Z.of_nat (base.size ({[i]} ∪ S))) as Hsz.
  { rewrite size_union, size_singleton by set_solver. lia. }
  exists (b || bool_decide (i = 0%nat)). split.
  - replace (is_null (tr_mimeType (obj_of S b))) with (negb b) by (by destruct b).
    destruct (bool_decide_reflect (i = 0%nat)) as [->|Hi0]; [destruct b|]; cbn [negb andb orb].
    + rewrite array_set_obj by done. unfold obj_of; cbn. by rewrite Hsz.
    + rewrite set_metadata_obj, array_set_obj by done. unfold obj_of; cbn. by rewrite Hsz.
    + rewrite andb_false_r, orb_false_r, array_set_obj by done. unfold obj_of; cbn. by rewrite Hsz.
  - intros [?%elem_of_singleton|?]%elem_of_union; [rewrite bool_decide_true by done; by rewrite orb_true_r|].
    by rewrite Hb.
Qed.

(** ** One message *)

Context (T0 : list (jsstr * nat)) (HT0 : tid ∉ map_keys T0) (HT0l : (length T0 < 10)%nat).

(** The transfer is live, at [ref], with the chunks of [S]; it comes after
    the transfers [T0]. *)
Definition live (S : gset nat) (ref : nat) (st : assembler) : Prop :=
  transfers st = T0 ++ [(tid, ref)] ∧ ∃ t, objs st !! ref = Some t ∧ is_obj S t.

(** No message of the transfer came, or it is live. *)
Definition tracks (S : gset nat) (st : assembler) : Prop :=
  (S = ∅ ∧ transfers st = T0) ∨ (∃ ref, live S ref st).

Lemma find_or_create_fresh st i :
  transfers st = T0 →
  ∃ st', find_or_create (msg i) (envelope_json (chunk i) (md i)) st = Ok (Some st') ∧
    live ∅ (length (objs st)) st'.
Proof.
  intros Ht. unfold find_or_create; cbn [cm_transferId cm_seq cm_total]. rewrite Ht.
  rewrite (proj2 (map_get_None T0 tid)) by done.
  unfold MAX_CONCURRENT_TRANSFERS. replace (Nat.leb 10 (length T0)) with false
    by (symmetry; apply Nat.leb_gt; lia).
  eexists. split; [done|]. split; cbn; [by rewrite map_set_fresh|].
  eexists. split; [by rewrite lookup_app_r, Nat.sub_diag by lia | apply is_obj_new].
Qed.

Lemma find_or_create_live S ref st i :
  live S ref st →
  ∃ st', find_or_create (msg i) (envelope_json (chunk i) (md i)) st = Ok (Some st') ∧ live S ref st'.
Proof.
  intros (Ht & t & Ho & Hobj). unfold find_or_create; cbn [cm_transferId cm_seq cm_total].
  rewrite Ht, map_get_snoc by done. destruct (Z.of_nat i =? 0) eqn:E0.
  - unfold envelope_json at 1. fold (envelope_json (chunk i) (md i)).
    rewrite envelope_get, md_mime, bool_decide_true by (done || lia).
    eexists. split; [done|]. split; [done|]. eexists. cbn [upd_obj objs].
    rewrite list_lookup_alter_eq, Ho. split; [done|].
    replace i with 0%nat by lia. by apply is_obj_set_metadata.
  - eexists. split; [done|]. split; eauto.
Qed.

Lemma chunk_register_found S ref st st1 i :
  (i < n)%nat → find_or_create (msg i) (envelope_json (chunk i) (md i)) st = Ok (Some st1) →
  live S ref st1 →
  ∃ st', chunk_register (msg i) (envelope_json (chunk i) (md i)) st
      = (st', Ok (if decide (i ∈ S) then inl RNull else inr ref)) ∧ live S ref st'.
Proof.
  intros Hi E (Ht & t & Ho & Hobj). unfold chunk_register. rewrite E. cbn [cm_transferId cm_seq].
  exists (reset_stale tid st1). split; [|split; eauto].
  cbn [reset_stale transfers objs]. rewrite Ht, map_get_snoc, Ho by done.
  change (default _ (Some t)) with t. rewrite (chunk_present_obj S) by done.
  by repeat (case_bool_decide || case_decide).
Qed.

Lemma chunk_register_live S ref st i :
  (i < n)%nat → live S ref st →
  ∃ st', chunk_register (msg i) (envelope_json (chunk i) (md i)) st
      = (st', Ok (if decide (i ∈ S) then inl RNull else inr ref)) ∧ live S ref st'.
Proof.
  intros Hi Hl. destruct (find_or_create_live S ref st i Hl) as (st1 & E & Hl1).
  by eapply chunk_register_found.
Qed.

Lemma chunk_register_fresh st i :
  (i < n)%nat → transfers st = T0 →
  ∃ st' ref, chunk_register (msg i) (envelope_json (chunk i) (md i)) st = (st', Ok (inr ref)) ∧
    live ∅ ref st'.
Proof.
  intros Hi Ht. destruct (find_or_create_fresh st i Ht) as (st1 & E & Hl1).
  destruct (chunk_register_found ∅ _ st st1 i Hi E Hl1) as (st' & Hr & Hl).
  rewrite decide_False in Hr by set_solver. eauto.
Qed.

(** The whole file. *)
Definition the_file : bytes := concat (map chunk (seq 0 n)).

Context (Hmax : Z.of_nat (length the_file) ≤ MAX_FILE_SIZE).

(** The result that hands the file over. *)
Definition completes (r : result chunk_result) : Prop :=
  ∃ mime', validateMimeType (JStr mime) the_file = Ok mime' ∧
    r = Ok (RComplete tid mime' (JStr (sanitizeFileName (Some (JStr name)))) (Some (JNum size)) the_file).

Lemma obj_of_full S b :
  (∀ i, (i < n)%nat → i ∈ S) → tr_chunks (obj_of S b) = map Some (map chunk (seq 0 n)).
Proof.
  intros HS. cbn. rewrite map_map. apply map_ext_in. intros i Hi%in_seq.
  by rewrite decide_True by (apply HS; lia).
Qed.

Lemma finish_full S t st i :
  (∀ i, (i < n)%nat → i ∈ S) → (0 < n)%nat → is_obj S t →
  ∃ r, finish (msg i) t st = (cleanup tid st, r) ∧ completes r.
Proof.
  intros HS Hn0 (b & -> & Hb). rewrite Hb by (by apply HS). clear Hb b.
  unfold finish. cbn [cm_transferId]. rewrite (obj_of_full S true HS), total_size_full.
  fold the_file. replace (Z.of_nat (length the_file) >? MAX_FILE_SIZE) with false by lia.
  rewrite Nat2Z.id. pose proof (assemble_full (map chunk (seq 0 n)) [] (new_uint8 (length the_file))) as E.
  cbn [app length] in E. rewrite E by (unfold new_uint8; by rewrite length_replicate).
  cbn [obj_of tr_mimeType tr_fileName tr_fileSize]. fold the_file.
  pose proof (validateMimeType_str mime the_file) as Hv.
  destruct (validateMimeType (JStr mime) the_file) as [mime'|] eqn:Ev; [|done].
  eexists. split; [done|]. exists mime'. done.
Qed.

(** Storing chunk [i]: progress while chunks are missing, the file with the
    last one. *)
Lemma chunk_store_live S ref st i :
  (i < n)%nat → i ∉ S → S ⊆ set_seq 0 n → live S ref st →
  ∃ st' r, chunk_store (msg i) ref (Ok (chunk i, md i)) st = (st', r) ∧
    if decide (base.size ({[i]} ∪ S) = n) then completes r ∧ transfers st' = T0
    else r = Ok (RProgress tid (Z.of_nat (base.size ({[i]} ∪ S))) (Z.of_nat n)) ∧
         (base.size ({[i]} ∪ S) < n)%nat ∧ live ({[i]} ∪ S) ref st'.
Proof.
  intros Hi HiS HSn (Ht & t & Ho & Hobj). unfold chunk_store. rewrite Ho.
  change (default _ (Some t)) with t. cbn [cm_transferId].
  pose proof (store_chunk_obj S i t Hi HiS Hobj) as Hobj'.
  set (t' := store_chunk _ _ _ t) in *. clearbody t'.
  assert ({[i]} ∪ S ⊆ set_seq 0 n) as HSn'.
  { intros j [->%elem_of_singleton|Hj]%elem_of_union; [apply elem_of_set_seq; lia | by apply HSn]. }
  pose proof (subseteq_size _ _ HSn') as Hle. rewrite size_set_seq in Hle.
  assert (tr_received t' = Z.of_nat (base.size ({[i]} ∪ S)) ∧ tr_total t' = Z.of_nat n) as [-> ->]
    by (by destruct Hobj' as (? & -> & _)).
  destruct (decide (base.size ({[i]} ∪ S) = n)) as [Hfull|Hpart].
  - rewrite Hfull, Z.eqb_refl.
    destruct (finish_full ({[i]} ∪ S) t' (Assembler (transfers st) (timer_ids st) (<[ref:=t']> (objs st))
      (asm_clock st) (hasOnProgress st) (progress_calls st ++
        (if hasOnProgress st then [(tid, Z.of_nat n, Z.of_nat n)] else []))) i)
      as (r & E & Hr); [intros j Hj|lia|done|].
    + assert ({[i]} ∪ S ≡ set_seq 0 n) as ->; [|apply elem_of_set_seq; lia].
      apply set_subseteq_size_equiv; [done|]. rewrite size_set_seq. lia.
    + rewrite E. eexists _, _. split; [done|]. split; [done|]. cbn. by rewrite Ht, map_delete_snoc.
  - replace (Z.of_nat (base.size ({[i]} ∪ S)) =? Z.of_nat n) with false by lia.
    eexists _, _. split; [done|]. split_and!; [done|lia|].
    split; [done|]. cbn [objs]. exists t'. split; [|done].
    apply list_lookup_insert_eq. by eapply lookup_lt_Some.
Qed.

(** What one call gives: nothing for a chunk seen before, the count while
    chunks are missing, the file with the last. *)
Lemma handleChunk_outer S st i :
  (i < n)%nat → S ⊆ set_seq 0 n → tracks S st →
  ∃ st' r, handleChunk (outer i) key st = (st', r) ∧
    if decide (i ∈ S) then r = Ok RNull ∧ tracks S st'
    else if decide (base.size ({[i]} ∪ S) = n) then completes r ∧ transfers st' = T0
    else r = Ok (RProgress tid (Z.of_nat (base.size ({[i]} ∪ S))) (Z.of_nat n)) ∧
         (base.size ({[i]} ∪ S) < n)%nat ∧ tracks ({[i]} ∪ S) st'.
Proof.
  intros Hi HSn Htr.
  assert (∃ st1 ref, chunk_register (msg i) (envelope_json (chunk i) (md i)) st
      = (st1, Ok (if decide (i ∈ S) then inl RNull else inr ref)) ∧ live S ref st1)
    as (st1 & ref & E & Hl).
  { destruct Htr as [[-> Ht]|(ref & Hl)].
    - destruct (chunk_register_fresh st i Hi Ht) as (st1 & ref & E & Hl).
      exists st1, ref. by rewrite decide_False by set_solver.
    - destruct (chunk_register_live S ref st i Hi Hl) as (st1 & E & Hl'). eauto. }
  unfold handleChunk. rewrite chunk_accept_outer by done. cbn [cm_chunk].
  destruct (Hsealed i Hi) as (_ & _ & Hd & He). rewrite Hd, E.
  destruct (decide (i ∈ S)) as [HiS|HiS].
  - eexists _, _. split; [done|]. split; [done|]. right. eauto.
  - rewrite He. destruct (chunk_store_live S ref st1 i Hi HiS HSn Hl) as (st' & r & -> & Hr).
    exists st', r. split; [done|]. case_decide; [done|].
    destruct Hr as (? & ? & ?). split_and!; [done..|]. right. eauto.
Qed.

(** ** All of them *)

Definition partial (r : result chunk_result) : Prop :=
  r = Ok RNull ∨ ∃ c, r = Ok (RProgress tid c (Z.of_nat n)) ∧ c < Z.of_nat n.

Lemma handleChunks_outer S st js last :
  tracks S st → S ⊆ set_seq 0 n → Forall (λ i, i < n)%nat (js ++ [last]) →
  last ∉ S → last ∉ js → (∀ i, (i < n)%nat → i ∈ S ∨ i ∈ js ∨ i = last) →
  ∃ st' rs r, handleChunks (map outer (js ++ [last])) key st = (st', rs ++ [r]) ∧
    Forall partial rs ∧ completes r ∧ transfers st' = T0.
Proof.
  revert S st. induction js as [|j js IH]; intros S st Htr HSn Hlt HlS Hljs Hall.
  - cbn in Hlt. assert (last < n)%nat as Hl by (by inversion Hlt). cbn [app map handleChunks].
    destruct (handleChunk_outer S st last Hl HSn Htr) as (st' & r & -> & Hr).
    rewrite decide_False in Hr by done. rewrite decide_True in Hr.
    2:{ assert ({[last]} ∪ S ≡ set_seq 0 n) as ->; [|apply size_set_seq].
        intros i. rewrite elem_of_union, elem_of_singleton, elem_of_set_seq. split.
        - intros [->|Hi]; [lia|]. apply HSn, elem_of_set_seq in Hi. done.
        - intros Hi. destruct (Hall i) as [?|[?|?]]; [lia|by right|set_solver|by left]. }
    destruct Hr as [Hr Ht]. exists st', [], r. cbn. split_and!; done || constructor.
  - cbn [app map handleChunks] in *. apply Forall_cons in Hlt as [Hj Hlt].
    destruct (handleChunk_outer S st j Hj HSn Htr) as (st1 & r & -> & Hr).
    assert (last ∉ {[j]} ∪ S) as HlS'.
    { intros [->%elem_of_singleton|?]%elem_of_union; [apply Hljs; by left | done]. }
    assert (∃ S', S' ⊆ set_seq 0 n ∧ S ⊆ S' ∧ j ∈ S' ∧ last ∉ S' ∧ (tracks S' st1 ∧ partial r))
      as (S' & HSn' & Hsub & HjS' & HlS'' & (Htr' & Hp)).
    { destruct (decide (j ∈ S)).
      - destruct Hr as [-> Ht]. exists S. split_and!; try done. by left.
      - assert ({[j]} ∪ S ⊆ set_seq 0 n) as Hs.
        { intros i [->%elem_of_singleton|Hi]%elem_of_union; [apply elem_of_set_seq; lia | by apply HSn]. }
        rewrite decide_False in Hr.
        + destruct Hr as (-> & Hsz & Ht). exists ({[j]} ∪ S). split_and!; try done.
          { apply union_subseteq_r. } { apply elem_of_union_l, elem_of_singleton. done. }
          right. eexists. split; [done|]. lia.
        + intros Hfull. assert ({[j]} ∪ S ≡ set_seq 0 n) as E.
          { apply set_subseteq_size_equiv; [done|]. rewrite size_set_seq. lia. }
          apply HlS'. rewrite E. apply elem_of_set_seq.
          apply Forall_app in Hlt as [_ Hl]. inversion Hl; subst. lia. }
    destruct (IH S' st1) as (st' & rs & r' & -> & Hps & Hv & Ht); try done.
    + intros Hin. apply Hljs. by right.
    + intros i Hi. destruct (Hall i Hi) as [?|[[->|?]%elem_of_cons|?]]; auto.
    + exists st', (r :: rs), r'. split_and!; [done|by constructor|done..].
Qed.

(** ** Calls that interleave

    [ss] are the chunks stored, [js] those of the calls in progress, [rest]
    those still to come. *)

Definition call_ok (ref : option nat) (c : call) (i : nat) : Prop :=
  c = CallInner (msg i) key ∨ ∃ r, ref = Some r ∧ c = CallEnvelope (msg i) r key.

Definition stored (ss : list nat) (ref : option nat) (st : assembler) : Prop :=
  match ref with
  | None => ss = [] ∧ transfers st = T0
  | Some r => live (list_to_set ss) r st
  end.

Definition running (ss js rest : list nat) (w : world) : Prop :=
  ss ++ js ++ rest ≡ₚ seq 0 n ∧ (length ss < n)%nat ∧
  ∃ ref, Forall2 (call_ok ref) (w_calls w) js ∧ stored ss ref (w_asm w).

Lemma running_call ss js rest w k c :
  running ss js rest w → w_calls w !! k = Some c →
  ∃ i, js !! k = Some i ∧ (i < n)%nat ∧ i ∉ (list_to_set ss : gset nat) ∧
    (c = CallInner (msg i) key ∨ ∃ r, c = CallEnvelope (msg i) r key).
Proof.
  intros (Hp & _ & ref & Hc & _) Hk. destruct (Forall2_lookup_l _ _ _ _ _ Hc Hk) as (i & Hi & Hok).
  exists i. assert (i ∈ js) as Hin by (by eapply list_elem_of_lookup_2).
  assert (i ∈ ss ++ js ++ rest) as Hall by set_solver.
  split_and!; [done| | |].
  - rewrite Hp in Hall. apply elem_of_seq in Hall. lia.
  - pose proof (NoDup_seq 0 n) as Hnd. rewrite <- Hp in Hnd.
    apply NoDup_app in Hnd as (_ & Hd & _). rewrite elem_of_list_to_set. intros Hss.
    apply (Hd i Hss). set_solver.
  - destruct Hok as [->|(r & _ & ->)]; eauto.
Qed.

(** The first decryption of a call in progress always goes on to the
    second. *)
Lemma running_register ss js rest w k i :
  running ss js rest w → w_calls w !! k = Some (CallInner (msg i) key) → js !! k = Some i →
  (i < n)%nat → i ∉ (list_to_set ss : gset nat) →
  ∃ st' ref, chunk_register (msg i) (envelope_json (chunk i) (md i)) (w_asm w) = (st', Ok (inr ref)) ∧
    running ss js rest (World st' (<[k := CallEnvelope (msg i) ref key]> (w_calls w))).
Proof.
  intros (Hp & Hl & ref & Hc & Hst) Hk Hj Hi Hss.
  assert (∃ st' r, chunk_register (msg i) (envelope_json (chunk i) (md i)) (w_asm w) = (st', Ok (inr r)) ∧
    live (list_to_set ss) r st' ∧ Forall2 (call_ok (Some r)) (w_calls w) js) as (st' & r & E & Hlive & Hc').
  { destruct ref as [r|]; cbn [stored] in Hst.
    - destruct (chunk_register_live _ _ _ i Hi Hst) as (st' & E & Hl'). rewrite decide_False in E by done.
      eauto.
    - destruct Hst as [-> Ht]. destruct (chunk_register_fresh _ i Hi Ht) as (st' & r & E & Hl').
      exists st', r. split_and!; [done|done|]. eapply Forall2_impl; [exact Hc|].
      intros c j [->|(? & ? & _)]; [by left | done]. }
  exists st', r. split; [done|]. split_and!; [done|done|]. exists (Some r). split; [|done]. cbn [w_calls].
  rewrite <- (list_insert_id js k i) by done. apply Forall2_insert; [done|]. right. eauto.
Qed.

(** The second decryption stores the chunk. *)
Lemma running_store ss js rest w k i r st' res :
  running ss js rest w → w_calls w !! k = Some (CallEnvelope (msg i) r key) → js !! k = Some i →
  (i < n)%nat → i ∉ (list_to_set ss : gset nat) →
  chunk_store (msg i) r (Ok (chunk i, md i)) (w_asm w) = (st', res) →
  (completes res ∧ transfers st' = T0 ∧ delete k (w_calls w) = [] ∧ rest = []) ∨
  (partial res ∧ running (i :: ss) (delete k js) rest (World st' (delete k (w_calls w)))).
Proof.
  intros (Hp & Hl & ref & Hc & Hst) Hk Hj Hi Hss E.
  destruct (Forall2_lookup_lr _ _ _ _ _ _ Hc Hk Hj) as [[=]|(r' & -> & [= <-])]. cbn [stored] in Hst.
  assert (i :: ss ++ delete k js ++ rest ≡ₚ seq 0 n) as Hp'.
  { rewrite <- Hp. pose proof (delete_Permutation js k i Hj) as Hd.
    transitivity (ss ++ (i :: delete k js) ++ rest); [solve_Permutation | by rewrite <- Hd]. }
  pose proof (NoDup_seq 0 n) as Hnd. rewrite <- Hp' in Hnd.
  assert (NoDup (i :: ss)) as Hnd'.
  { rewrite app_comm_cons in Hnd. by apply NoDup_app in Hnd as (? & _). }
  assert (base.size ({[i]} ∪ list_to_set ss : gset nat) = S (length ss)) as Hsz
    by (change ({[i]} ∪ list_to_set ss : gset nat) with (list_to_set (i :: ss) : gset nat);
        by rewrite size_list_to_set).
  assert (list_to_set ss ⊆ (set_seq 0 n : gset nat)) as Hsub.
  { intros x Hx%elem_of_list_to_set. apply elem_of_set_seq.
    assert (x ∈ seq 0 n) as Hx' by (rewrite <- Hp'; set_solver). apply elem_of_seq in Hx'. lia. }
  destruct (chunk_store_live _ _ _ i Hi Hss Hsub Hst) as (st'' & r' & E' & Hr).
  rewrite E in E'. simplify_eq. rewrite Hsz in Hr. pose proof (Permutation_length Hp') as Hlen.
  cbn in Hlen. rewrite !length_app, length_seq in Hlen.
  pose proof (Forall2_delete _ _ _ k Hc) as Hc'. pose proof (Forall2_length _ _ _ Hc') as Hlc.
  case_decide.
  - left. destruct Hr as [? ?]. split_and!; try done; apply length_zero_iff_nil; lia.
  - right. destruct Hr as (-> & ? & Hl'). split; [right; eexists; split; [done|lia]|].
    split_and!; [done|done|]. exists (Some r). done.
Qed.

Lemma running_receive ss js rest w i rest' :
  running ss js rest w → rest ≡ₚ i :: rest' →
  running ss (js ++ [i]) rest' (World (w_asm w) (w_calls w ++ [CallInner (msg i) key])).
Proof.
  intros (Hp & Hl & ref & Hc & Hst) Hr. split_and!; [|done|].
  - rewrite <- Hp, Hr. solve_Permutation.
  - exists ref. split; [|done]. apply Forall2_app; [done|]. constructor; [by left | constructor].
Qed.

(** With no call in progress and no message to come nothing more happens. *)
Lemma idle_steps w ls w' :
  asm_steps w ls w' → Forall (λ l, undisturbed l = true) ls → omap label_in ls = [] → w_calls w = [] →
  omap label_out ls = [] ∧ transfers (w_asm w') = transfers (w_asm w).
Proof.
  induction 1 as [w|w1 l w2 ls w3 Hs _ IH]; intros Hq Hin Hcs; [done|].
  apply Forall_cons in Hq as [Hq1 Hq]. destruct Hs; cbn in *; simplify_eq; try done.
  by apply IH.
Qed.

Lemma running_steps w ls w' :
  asm_steps w ls w' → ∀ ss js rest,
  running ss js rest w → Forall (λ l, undisturbed l = true) ls →
  omap label_in ls ≡ₚ map (λ i, (outer i, key)) rest → w_calls w' = [] →
  ∃ rs r, omap label_out ls = rs ++ [r] ∧ Forall partial rs ∧ completes r ∧ transfers (w_asm w') = T0.
Proof.
  induction 1 as [w|w1 l w2 ls w3 Hs Hss IH]; intros ss js rest Hrun Hq Hin Hend.
  { exfalso. destruct Hrun as (Hp & Hl & ref & Hc & _). rewrite Hend in Hc.
    apply Forall2_nil_inv_l in Hc as ->. cbn in Hin. apply Permutation_nil_l in Hin. symmetry in Hin. apply map_eq_nil in Hin as ->.
    apply Permutation_length in Hp. rewrite length_seq, !app_nil_r in Hp. lia. }
  apply Forall_cons in Hq as [Hq1 Hq].
  assert (∀ p k o, l = AReceive p k o → ∃ i rest', rest ≡ₚ i :: rest' ∧ p = outer i ∧ k = key ∧ (i < n)%nat ∧
    omap label_in ls ≡ₚ map (λ i, (outer i, key)) rest') as Hrecv.
  { intros p k o ->. cbn in Hin.
    assert ((p, k) ∈ map (λ i, (outer i, key)) rest) as Hpk by (rewrite <- Hin; left).
    apply list_elem_of_fmap in Hpk as (i & [= -> ->] & Hi).
    apply elem_of_Permutation in Hi as (rest' & Hr). exists i, rest'. split_and!; try done.
    - destruct Hrun as (Hp & _). assert (i ∈ seq 0 n) as Hx by (rewrite <- Hp, Hr; set_solver).
      apply elem_of_seq in Hx. lia.
    - rewrite (Permutation_map _ Hr) in Hin. by apply Permutation_cons_inv in Hin. }
  destruct Hs as [st cs p k r E|st cs p k e E|st cs p k m E|st cs k m key' e Hk E
    |st cs k m key' inner st' e Hk E E2|st cs k m key' inner st' r Hk E E2
    |st cs k m key' inner st' ref Hk E E2|st cs k m ref key' st' r Hk E|st cs id tid' E|st cs|st cs d Hd];
    try done.
  1-3: destruct (Hrecv _ _ _ eq_refl) as (i & rest' & Hr & -> & -> & Hi & Hin');
    rewrite chunk_accept_outer in E by done; simplify_eq.
  { eapply IH; [by eapply (running_receive ss js rest (World st cs))|done..]. }
  1-4: destruct (running_call _ _ _ _ _ _ Hrun Hk) as (i & Hj & Hi & Hss' & [[= -> ->]|(? & [=])]);
    destruct (Hsealed i Hi) as (_ & _ & Hd & _); cbn [cm_chunk] in E; rewrite Hd in E; simplify_eq;
    destruct (running_register _ _ _ _ _ _ Hrun Hk Hj Hi Hss') as (st2 & ref2 & E' & Hrun2);
    cbn [w_asm w_calls] in *; rewrite E' in E2; simplify_eq.
  { by eapply IH. }
  - destruct (running_call _ _ _ _ _ _ Hrun Hk) as (i & Hj & Hi & Hss' & [[=]|(? & [= -> -> ->])]).
    destruct (Hsealed i Hi) as (_ & _ & _ & Hd). cbn [cm_chunk] in E. rewrite Hd in E.
    destruct (running_store _ _ _ _ _ _ _ _ _ Hrun Hk Hj Hi Hss' E) as [(Hr & Ht & Hcs & ->)|[Hr Hrun2]];
      change (omap label_out (AEnvelope k r :: ls)) with (r :: omap label_out ls).
    + apply Permutation_nil_r in Hin.
      destruct (idle_steps _ _ _ Hss Hq Hin Hcs) as [-> ->]. exists [], r. split_and!; done || constructor.
    + destruct (IH _ _ _ Hrun2 Hq Hin Hend) as (rs & r' & E' & ? & ? & ?).
      exists (r :: rs), r'. rewrite E'. split_and!; [done|by constructor|done..].
  - eapply IH; [exact Hrun|done..].
Qed.
End Receive.

(** ** The sender *)

Definition sent_chunk (room tid : jsstr) (n : nat) (ct : nat → jsstr) (i : nat) : sent :=
  Sent (lit "media") room (JSON_stringify (chunk_json tid (Z.of_nat i) (Z.of_nat n) (ct i))).

Definition chunks_of (f : file) : nat :=
  Z.to_nat (chunk_count CHUNK_SIZE (Z.of_nat (length (file_bytes f)))).

Definition file_chunk (f : file) (i : nat) : bytes := chunk_at CHUNK_SIZE (file_bytes f) (Z.of_nat i).

(** A [File] as the browser gives it: bytes, their number, UTF-16 strings. *)
Definition file_ok (f : file) : Prop :=
  Forall is_byte (file_bytes f) ∧ file_size f = Z.of_nat (length (file_bytes f)) ∧
  Forall is_unit (file_name f) ∧ Forall is_unit (file_type f).
Global Instance file_ok_dec f : Decision (file_ok f).
Proof. unfold file_ok. apply _. Defined.

Lemma detectMimeType_units t b : Forall is_unit t → Forall is_unit (detectMimeType t b).
Proof.
  intros Ht. unfold detectMimeType. destruct t; [|done].
  destruct (magic_match MAGIC_BYTES b) as [m|] eqn:E.
  - cbn in E. repeat case_match; simplify_eq; decided.
  - case_match; decided.
Qed.

Lemma file_chunks_concat f : concat (map (file_chunk f) (seq 0 (chunks_of f))) = file_bytes f.
Proof. apply chunks_concat. done. Qed.

Section Send.
Context `{!WebCrypto} `{!WebCryptoLaws}.

Lemma sendMedia_Ok k room f tid ivs :
  (∀ i, iv_ok (ivs i)) → file_ok f → file_size f ≤ MAX_FILE_SIZE →
  ∃ ct, sendMedia (Some k) room f tid ivs =
      (map (sent_chunk room tid (chunks_of f) ct) (seq 0 (chunks_of f)),
       map (λ i, (Z.of_nat i + 1, Z.of_nat (chunks_of f))) (seq 0 (chunks_of f)),
       Ok (MediaSummary tid (Z.of_nat (chunks_of f)) (detectMimeType (file_type f) (file_bytes f))
                        (file_name f))) ∧
    (∀ i, sealed (Some k) (detectMimeType (file_type f) (file_bytes f)) (file_name f)
                 (file_size f) (file_chunk f) ct i).
Proof.
  intros Hiv (Hb & Hsz & Hnm & Hty) Hmax.
  set (mime := detectMimeType (file_type f) (file_bytes f)).
  assert (Forall is_unit mime) as Hmu by (by apply detectMimeType_units).
  assert (∀ i : nat, json_wf (JObj (md mime (file_name f) (file_size f) i)) = true) as Hwf.
  { intros i. unfold md. destruct (_ =? 0); [|done]. cbn [json_wf].
    apply andb_true_iff. split; [decided|]. cbn [forallb json_wf fst snd].
    rewrite (bool_decide_true (Forall is_unit mime)), (bool_decide_true (Forall is_unit (file_name f))) by done.
    rewrite !bool_decide_true by decided. done. }
  assert (∀ i : nat, ∃ c, encryptMediaEnvelope (Some k) (ivs (Z.of_nat i)) (file_chunk f i)
      (md mime (file_name f) (file_size f) i) = Ok c ∧ c ≠ [] ∧ Forall is_unit c ∧
      decrypt_inner (Some k) c = Ok (envelope_json (file_chunk f i) (md mime (file_name f) (file_size f) i)) ∧
      decryptMediaEnvelope (Some k) c = Ok (file_chunk f i, md mime (file_name f) (file_size f) i)) as Hch.
  { intros i. assert (Forall is_byte (file_chunk f i)) as Hcb by (by apply chunk_at_bytes).
    destruct (decryptMediaEnvelope_encrypt k (ivs (Z.of_nat i)) (file_chunk f i)
      (md mime (file_name f) (file_size f) i)) as (c & He & Hd & Hde); [done..| |].
    { unfold md. destruct (_ =? 0); decided. }
    exists c. pose proof (envelope_json_wf _ _ Hcb (Hwf i)) as Hew. split; [done|].
    assert (c ≠ [] ∧ Forall is_unit c) as [Hc1 Hc2].
    { unfold encryptMediaEnvelope in He. rewrite uint8ToBase64_bytes in He by done.
      eapply encrypt_shape; [apply Hiv| |exact He]. by apply plain_stringify. }
    split_and!; try done. unfold decrypt_inner. rewrite Hd. cbn [mbind result_bind].
    by apply JSON_parse_stringify. }
  exists (λ i, match encryptMediaEnvelope (Some k) (ivs (Z.of_nat i)) (file_chunk f i)
      (md mime (file_name f) (file_size f) i) with Ok c => c | Throw _ => [] end).
  split; [|intros i; destruct (Hch i) as (c & He & Hrest); unfold sealed; by rewrite He].
  unfold sendMedia. replace (file_size f >? MAX_FILE_SIZE) with false by lia. fold mime.
  destruct (chunk_count_max (Z.of_nat (length (file_bytes f))) ltac:(lia)) as [Hc0 Hc1].
  fold (chunks_of f). rewrite <- (Z2Nat.id (chunk_count _ _)) by done. fold (chunks_of f).
  rewrite (send_loop_Ok _ _ _ _ _ (λ s, JSON_stringify (chunk_json tid s (Z.of_nat (chunks_of f))
      (match encryptMediaEnvelope (Some k) (ivs s) (file_chunk f (Z.to_nat s))
         (md mime (file_name f) (file_size f) (Z.to_nat s)) with Ok c => c | Throw _ => [] end)))).
  - cbn [mbind result_bind]. f_equal. f_equal. apply map_ext. intros i. unfold sent_chunk.
    cbv beta. by rewrite Z.add_0_l, Nat2Z.id.
  - intros i Hi. rewrite Z.add_0_l, Nat2Z.id. destruct (Hch i) as (c & He & _).
    unfold chunk_payload. rewrite He. unfold md in He. unfold file_chunk in He.
    unfold chunk_metadata. rewrite He. done.
Qed.
End Send.

(** The payload of message [i], as the receiver's client hands it over. *)
Definition message_at (sends : list sent) (i : nat) : option payload :=
  (λ s, PText (sent_payload s)) <$> sends !! i.

Lemma messages_outer room tid n ct js :
  Forall (λ i, i < n)%nat js →
  omap (message_at (map (sent_chunk room tid n ct) (seq 0 n))) js = map (outer tid n ct) js.
Proof.
  induction 1 as [|i js Hi _ IH]; [done|].
  assert (message_at (map (sent_chunk room tid n ct) (seq 0 n)) i = Some (outer tid n ct i)) as E.
  { unfold message_at. change (map (sent_chunk room tid n ct)) with (fmap (M:=list) (sent_chunk room tid n ct)).
    by rewrite list_lookup_fmap, lookup_seq_lt by done. }
  set (g := message_at _) in *.
  change (omap g (i :: js)) with (match g i with Some y => y :: omap g js | None => omap g js end).
  by rewrite E, IH.
Qed.

Lemma length_sends room tid n ct : length (map (sent_chunk room tid n ct) (seq 0 n)) = n.
Proof. by rewrite length_map, length_seq. Qed.

(** The numbers of the protocol: a file of at most 25 MB makes at most 50
    chunks, and at least one if it is not empty. *)
Lemma chunks_of_bounds f :
  file_ok f → file_size f ≤ MAX_FILE_SIZE → (chunks_of f ≤ 50)%nat ∧ (file_bytes f ≠ [] → 0 < chunks_of f)%nat.
Proof.
  intros (_ & Hsz & _) Hmax. unfold chunks_of.
  pose proof (chunk_count_max (Z.of_nat (length (file_bytes f))) ltac:(lia)). split; [lia|].
  intros Hne. destruct (file_bytes f) as [|c b]; [done|].
  destruct (chunk_count_bounds CHUNK_SIZE (Z.of_nat (length (c :: b)))) as (_ & _ & _ & H4); [done|lia|].
  cbn [length] in *. specialize (H4 ltac:(lia)). lia.
Qed.

(** ** Properties *)

(** The result that hands the receiver the file [f]. *)
Definition delivers (f : file) (tid : jsstr) (r : result chunk_result) : Prop :=
  ∃ mime, validateMimeType (JStr (detectMimeType (file_type f) (file_bytes f))) (file_bytes f) = Ok mime ∧
    r = Ok (RComplete tid mime (JStr (sanitizeFileName (Some (JStr (file_name f)))))
              (Some (JNum (file_size f))) (file_bytes f)).

(** A result of a call that is not the last. *)
Definition waits (tid : jsstr) (n : nat) (r : result chunk_result) : Prop :=
  r = Ok RNull ∨ ∃ c, r = Ok (RProgress tid c (Z.of_nat n)) ∧ c < Z.of_nat n.

Section TransferProperties.
Context `{!WebCrypto} `{!WebCryptoLaws}.

(** What [sendMedia] sends. A file over 25 MB is refused and a missing
    key throws, both before anything is sent; otherwise there is one
    ["media"] message to the room per 512 KB, at most 50, in order, each
    sealing its chunk (and, the first one, the metadata), the chunks making
    up the file, with the progress reported after each. *)
Theorem sendMedia_spec key room f tid ivs :
  (∀ i, iv_ok (ivs i)) → file_ok f →
  match key with
  | Some k =>
      if file_size f >? MAX_FILE_SIZE
      then (sendMedia key room f tid ivs).1 = ([], []) ∧ is_ok (sendMedia key room f tid ivs).2 = false
      else ∃ ct, sendMedia key room f tid ivs =
             (map (sent_chunk room tid (chunks_of f) ct) (seq 0 (chunks_of f)),
              map (λ i, (Z.of_nat i + 1, Z.of_nat (chunks_of f))) (seq 0 (chunks_of f)),
              Ok (MediaSummary tid (Z.of_nat (chunks_of f))
                    (detectMimeType (file_type f) (file_bytes f)) (file_name f))) ∧
           (∀ i, decryptMediaEnvelope key (ct i) = Ok (file_chunk f i,
              md (detectMimeType (file_type f) (file_bytes f)) (file_name f) (file_size f) i)) ∧
           concat (map (file_chunk f) (seq 0 (chunks_of f))) = file_bytes f ∧ (chunks_of f ≤ 50)%nat
  | None =>
      file_bytes f ≠ [] →
      (sendMedia key room f tid ivs).1 = ([], []) ∧ is_ok (sendMedia key room f tid ivs).2 = false
  end.
Proof.
  intros Hiv Hf. destruct key as [k|].
  - destruct (file_size f >? MAX_FILE_SIZE) eqn:E.
    { unfold sendMedia. by rewrite E. }
    destruct (sendMedia_Ok k room f tid ivs Hiv Hf ltac:(lia)) as (ct & Hs & Hct).
    exists ct. split_and!; [done| |apply file_chunks_concat|].
    + intros i. by destruct (Hct i) as (_ & _ & _ & ?).
    + apply chunks_of_bounds; [done | lia].
  - intros Hne. unfold sendMedia. destruct (file_size f >? MAX_FILE_SIZE) eqn:E; [done|].
    destruct (chunks_of_bounds f Hf ltac:(lia)) as [_ Hpos]. specialize (Hpos Hne).
    unfold chunks_of in Hpos. destruct (Z.to_nat (chunk_count _ _)) as [|m]; [lia|]. cbn [send_loop].
    unfold chunk_payload, encryptMediaEnvelope.
    rewrite uint8ToBase64_bytes by (by apply chunk_at_bytes, Hf). done.
Qed.

(** C16: a file arrives whole. The receiver hands the messages [sendMedia]
    sent to [handleChunk] in any order, any of them more than once, starting
    with no such transfer and a free slot: every call before the last
    missing chunk reports progress or ignores a duplicate, and the call that
    brings the last one resolves to the file, with its bytes, its sanitised
    name and its size, and leaves the table of transfers as it was. *)
Theorem media_transfer_delivers k room f tid ivs :
  (∀ i, iv_ok (ivs i)) → file_ok f → file_bytes f ≠ [] → file_size f ≤ MAX_FILE_SIZE →
  tid ≠ [] → Forall is_unit tid →
  ∃ sends progress summary, sendMedia (Some k) room f tid ivs = (sends, progress, Ok summary) ∧
    length sends = chunks_of f ∧
    ∀ st js last,
      tid ∉ map_keys (transfers st) → (length (transfers st) < MAX_CONCURRENT_TRANSFERS)%nat →
      Forall (λ i, i < length sends)%nat (js ++ [last]) → last ∉ js →
      (∀ i, (i < length sends)%nat → i ∈ js ++ [last]) →
      ∃ st' rs r, handleChunks (omap (message_at sends) (js ++ [last])) (Some k) st = (st', rs ++ [r]) ∧
        Forall (waits tid (length sends)) rs ∧ delivers f tid r ∧ transfers st' = transfers st.
Proof.
  intros Hiv Hf Hne Hmax Htid Htidu.
  destruct (sendMedia_Ok k room f tid ivs Hiv Hf Hmax) as (ct & -> & Hct).
  destruct (chunks_of_bounds f Hf Hmax) as [Hn Hpos]. specialize (Hpos Hne).
  eexists _, _, _. split; [done|]. split; [apply length_sends|]. intros st js last Hst Hlen Hlt Hnew Hall.
  rewrite length_sends in Hlt, Hall. rewrite messages_outer by done. rewrite length_sends.
  destruct (handleChunks_outer (Some k) tid (chunks_of f) (detectMimeType (file_type f) (file_bytes f))
    (file_name f) (file_size f) (file_chunk f) ct Htid Htidu ltac:(lia)
    (detectMimeType_nonempty _ _) (λ i _, Hct i) (transfers st) Hst Hlen)
    with (S := ∅ : gset nat) (st := st) (js := js) (last := last) as (st' & rs & r & E & Hrs & Hr & Ht);
    try done.
  - unfold the_file. rewrite file_chunks_concat. destruct Hf as (_ & Hsz & _). lia.
  - by left.
  - intros i Hi. specialize (Hall i Hi). apply elem_of_app in Hall as [?|?%list_elem_of_singleton]; auto.
  - exists st', rs, r. split_and!; try done.
    unfold completes, the_file in Hr. by rewrite file_chunks_concat in Hr.
Qed.

(** C3: interleaving. The browser does not wait for one [handleChunk] before
    it starts the next, so the calls overlap: their synchronous segments
    run in any order the awaits allow. When every message of the transfer
    arrives once, and its stale timer does not fire, exactly one call
    resolves to the file, it is the last to end, the others report
    progress, and the transfer is gone. *)
Theorem media_transfer_concurrent k room f tid ivs :
  (∀ i, iv_ok (ivs i)) → file_ok f → file_bytes f ≠ [] → file_size f ≤ MAX_FILE_SIZE →
  tid ≠ [] → Forall is_unit tid →
  ∃ sends progress summary, sendMedia (Some k) room f tid ivs = (sends, progress, Ok summary) ∧
    length sends = chunks_of f ∧
    ∀ st labels st',
      tid ∉ map_keys (transfers st) → (length (transfers st) < MAX_CONCURRENT_TRANSFERS)%nat →
      asm_steps (World st []) labels (World st' []) →
      Forall (λ l, undisturbed l = true) labels →
      omap label_in labels ≡ₚ map (λ s, (PText (sent_payload s), Some k)) sends →
      ∃ rs r, omap label_out labels = rs ++ [r] ∧
        Forall (waits tid (length sends)) rs ∧ delivers f tid r ∧ transfers st' = transfers st.
Proof.
  intros Hiv Hf Hne Hmax Htid Htidu.
  destruct (sendMedia_Ok k room f tid ivs Hiv Hf Hmax) as (ct & -> & Hct).
  destruct (chunks_of_bounds f Hf Hmax) as [Hn Hpos]. specialize (Hpos Hne).
  eexists _, _, _. split; [done|]. split; [apply length_sends|]. intros st labels st' Hst Hlen Hsteps Hq Hin.
  rewrite length_sends. rewrite map_map in Hin.
  destruct (running_steps (Some k) tid (chunks_of f) (detectMimeType (file_type f) (file_bytes f))
    (file_name f) (file_size f) (file_chunk f) ct Htid Htidu ltac:(lia)
    (detectMimeType_nonempty _ _) (λ i _, Hct i) (transfers st) Hst Hlen)
    with (w := World st []) (ls := labels) (w' := World st' []) (ss := [] : list nat) (js := [] : list nat)
         (rest := seq 0 (chunks_of f)) as (rs & r & E & Hrs & Hr & Ht); try done.
  - unfold the_file. rewrite file_chunks_concat. destruct Hf as (_ & Hsz & _). lia.
  - split_and!; [done|done|]. exists None. split; [constructor|done].
  - exists rs, r. split_and!; try done.
    unfold completes, the_file in Hr. by rewrite file_chunks_concat in Hr.
Qed.
End TransferProperties.

Module TransferExamples.
Import Toy.

(** A two-chunk file. *)
Definition two_chunks : file :=
  File (lit "a.bin") (lit "text/plain") 600000 (replicate (Z.to_nat 600000) 65).

Lemma two_chunks_ok : file_ok two_chunks.
Proof.
  unfold file_ok, two_chunks. cbn [file_bytes file_size file_name file_type]. split_and!; [| |decided..].
  - apply Forall_replicate. unfold is_byte. lia.
  - rewrite length_replicate. lia.
Qed.

Lemma two_chunks_nonempty : file_bytes two_chunks ≠ [].
Proof. intros E. apply (f_equal length) in E. cbn [two_chunks file_bytes] in E. rewrite length_replicate in E. cbn in E. lia. Qed.

Lemma two_chunks_count : chunks_of two_chunks = 2%nat.
Proof. unfold chunks_of, two_chunks. cbn [file_bytes]. by rewrite length_replicate. Qed.

Definition small : file := File (lit "a.txt") (lit "text/plain") 3 [104; 105; 33].

Lemma sendMedia_spec_witness :
  ∃ ct, sendMedia (Some (toy_key Byte.x07)) (lit "r") small (lit "t1") (λ _, toy_iv) =
      (map (sent_chunk (lit "r") (lit "t1") (chunks_of small) ct) (seq 0 (chunks_of small)),
       map (λ i, (Z.of_nat i + 1, Z.of_nat (chunks_of small))) (seq 0 (chunks_of small)),
       Ok (MediaSummary (lit "t1") (Z.of_nat (chunks_of small))
             (detectMimeType (file_type small) (file_bytes small)) (file_name small))) ∧
    (∀ i, decryptMediaEnvelope (Some (toy_key Byte.x07)) (ct i) = Ok (file_chunk small i,
       md (detectMimeType (file_type small) (file_bytes small)) (file_name small) (file_size small) i)) ∧
    concat (map (file_chunk small) (seq 0 (chunks_of small))) = file_bytes small ∧ (chunks_of small ≤ 50)%nat.
Proof.
  apply (sendMedia_spec (Some (toy_key Byte.x07)) (lit "r") small (lit "t1") (λ _, toy_iv)).
  - intros _. decided.
  - decided.
Defined.

(** Two chunks, the second first and twice. *)
Lemma media_transfer_delivers_witness :
  ∃ sends progress summary,
    sendMedia (Some (toy_key Byte.x07)) (lit "r") two_chunks (lit "t1") (λ _, toy_iv)
      = (sends, progress, Ok summary) ∧
    ∃ st' rs r, handleChunks (omap (message_at sends) [1%nat; 1%nat; 0%nat]) (Some (toy_key Byte.x07))
        (new_assembler true 0) = (st', rs ++ [r]) ∧
      Forall (waits (lit "t1") (length sends)) rs ∧ delivers two_chunks (lit "t1") r ∧ transfers st' = [].
Proof.
  destruct (media_transfer_delivers (toy_key Byte.x07) (lit "r") two_chunks (lit "t1") (λ _, toy_iv))
    as (sends & progress & summary & E & Hlen & H);
    [intros _; decided | apply two_chunks_ok | apply two_chunks_nonempty | done | done | decided |].
  exists sends, progress, summary. split; [exact E|].
  rewrite two_chunks_count in Hlen.
  destruct (H (new_assembler true 0) [1%nat; 1%nat] 0%nat) as (st' & rs & r & E2 & Hrs & Hr & Ht);
    rewrite ?Hlen; [decided | decided | decided | decided | |].
  - intros [|[|i]] Hi; [decided|decided|lia].
  - rewrite Hlen in Hrs. exists st', rs, r. split; [exact E2|]. split; [exact Hrs|]. split; [exact Hr | exact Ht].
Defined.

Definition toy_receiver : assembler := new_assembler true 0.

Definition small_payload : payload :=
  match sendMedia (Some (toy_key Byte.x07)) (lit "r") small (lit "t1") (λ _, toy_iv) with
  | (s :: _, _, _) => PText (sent_payload s)
  | _ => PValue JNull
  end.

Definition small_done : result chunk_result :=
  Ok (RComplete (lit "t1") octet_stream (JStr (lit "a.txt")) (Some (JNum 3)) [104; 105; 33]).

Definition small_labels : list asm_label :=
  [AReceive small_payload (Some (toy_key Byte.x07)) None; AWait 50; AInner 0 None; AWait 50;
   AEnvelope 0 small_done].

Lemma small_steps : ∃ st', asm_steps (World toy_receiver []) small_labels (World st' []).
Proof.
  eexists. unfold small_labels.
  eapply asm_cons; [eapply asm_receive; vm_compute; reflexivity|].
  eapply asm_cons; [eapply asm_wait; lia|].
  eapply asm_cons; [eapply asm_inner; [reflexivity|vm_compute; reflexivity..]|].
  eapply asm_cons; [eapply asm_wait; lia|].
  eapply asm_cons; [eapply asm_envelope; [reflexivity|vm_compute; reflexivity]|].
  apply asm_nil.
Qed.

Lemma media_transfer_concurrent_witness :
  ∃ rs r, omap label_out small_labels = rs ++ [r] ∧
    Forall (waits (lit "t1") 1) rs ∧ delivers small (lit "t1") r.
Proof.
  destruct (media_transfer_concurrent (toy_key Byte.x07) (lit "r") small (lit "t1") (λ _, toy_iv))
    as (sends & progress & summary & E & Hlen & H);
    [intros _; decided | decided | done | done | done | decided |].
  destruct small_steps as (st' & Hs).
  destruct (H toy_receiver small_labels st') as (rs & r & Er & Hrs & Hr & _);
    [decided | decided | exact Hs | decided | |].
  - vm_compute in E. injection E as <- _ _. reflexivity.
  - exists rs, r. split_and!; [exact Er| |exact Hr].
    change (chunks_of small) with 1%nat in Hlen. by rewrite Hlen in Hrs.
Defined.

(** ** The duplicate check can be raced

    The chunk array is read before the second decryption and written after
    it, so two deliveries of one chunk can both pass. *)
Definition two_small (i : nat) : payload :=
  match chunk_payload 2 (Some (toy_key Byte.x07)) small (lit "text/plain") (lit "t1") 2 (λ _, toy_iv)
          (Z.of_nat i) with
  | Ok p => PText p
  | Throw _ => PValue JNull
  end.

Definition race_labels : list asm_label :=
  let k := Some (toy_key Byte.x07) in
  [AReceive (two_small 0) k None; AReceive (two_small 0) k None; AInner 0 None; AInner 1 None;
   AEnvelope 0 (Ok (RProgress (lit "t1") 1 2)); AEnvelope 0 (Throw (lit "TypeError"));
   AReceive (two_small 1) k None; AInner 0 None; AEnvelope 0 (Ok (RProgress (lit "t1") 3 2))].

(** The duplicate check of [handleChunk] does not hold across its awaits:
    when a chunk of a two-chunk transfer is delivered twice at once, both
    copies are counted, reassembly runs over the missing chunk and throws,
    and when that chunk does arrive the count is past the total, so the file
    is never handed over. *)
Theorem duplicate_race_loses_file :
  ∃ st', asm_steps (World toy_receiver []) race_labels (World st' []) ∧
    ∀ f tid r, r ∈ omap label_out race_labels → ¬ delivers f tid r.
Proof.
  eexists. split.
  - unfold race_labels.
    do 2 (eapply asm_cons; [eapply asm_receive; vm_compute; reflexivity|]).
    do 2 (eapply asm_cons; [eapply asm_inner; [reflexivity|vm_compute; reflexivity..]|]).
    do 2 (eapply asm_cons; [eapply asm_envelope; [reflexivity|vm_compute; reflexivity]|]).
    eapply asm_cons; [eapply asm_receive; vm_compute; reflexivity|].
    eapply asm_cons; [eapply asm_inner; [reflexivity|vm_compute; reflexivity..]|].
    eapply asm_cons; [eapply asm_envelope; [reflexivity|vm_compute; reflexivity]|].
    apply asm_nil.
  - intros f tid r Hr (mime & _ & ->). cbn in Hr.
    repeat (apply elem_of_cons in Hr as [Hr|Hr]; [done|]). by apply not_elem_of_nil in Hr.
Qed.
End TransferExamples.
