(* ===== verification/Queue.v ===== *)
(** * services/worker/src/queue.js: [Queue]

    Jobs are objects shared by the queue and whoever dequeued them: [requeue]
    pushes the very object the manager goes on writing to. They live in
    [q_jobs] and the queue holds references. [now] is [Date.now()]. *)

From S2P Require Import Prelude JsLib Text Json Mime.

Local Open Scope Z_scope.

Definition MAX_DEAD_LETTERS : nat := 1000.

(** The properties a job object may have; [enqueue] sets the first six. *)
Record job := Job {
  job_id : jsstr;
  job_type : jsstr;
  job_data : option json;
  createdAt : Z;
  attempts : Z;
  maxAttempts : Z;
  retryAfter : option Z;
  job_error : option json;
  lastError : option json;
  queuedAt : option json;
  scheduledAt : option json
}.

Record dead_letter := DeadLetter {
  dl_id : jsstr;
  dl_type : jsstr;
  dl_attempts : Z;
  dl_maxAttempts : Z;
  dl_queuedAt : option json;
  dl_scheduledAt : option json;
  dl_failedAt : Z;
  dl_error : option json
}.

Record queue := Queue {
  q_jobs : list job;
  q_items : list nat;
  q_deadLetters : list dead_letter
}.

Definition new_queue : queue := Queue [] [] [].

(** What a dangling reference reads; no reference dangles. *)
Definition no_job : job := Job [] [] None 0 0 0 None None None None None.
Definition deref (q : queue) (ref : nat) : job := default no_job (q_jobs q !! ref).

Definition new_job (id type : jsstr) (data : option json) (now : Z) : job :=
  Job id type data now 0 3 None None None None None.

(** [enqueue(type, data)]; [id] is the random UUID. *)
Definition enqueue (id type : jsstr) (data : option json) (now : Z) (q : queue) : jsstr * queue :=
  (id, Queue (q_jobs q ++ [new_job id type data now]) (q_items q ++ [length (q_jobs q)])
             (q_deadLetters q)).

(** [!job._retryAfter || Date.now() >= job._retryAfter]. *)
Definition eligible (now : Z) (j : job) : bool :=
  match retryAfter j with None => true | Some t => (t =? 0) || (now >=? t) end.

(** The loop: the first eligible item is spliced out. *)
Fixpoint dequeue_scan (ok : nat → bool) (items : list nat) : option (nat * list nat) :=
  match items with
  | [] => None
  | r :: items' =>
      if ok r then Some (r, items')
      else '(x, rest) ← dequeue_scan ok items'; Some (x, r :: rest)
  end.

Definition dequeue (now : Z) (q : queue) : option nat * queue :=
  match dequeue_scan (λ r, eligible now (deref q r)) (q_items q) with
  | Some (r, items) => (Some r, Queue (q_jobs q) items (q_deadLetters q))
  | None => (None, q)
  end.

Definition size (q : queue) : nat := length (q_items q).
Definition peek (q : queue) : option nat := head (q_items q).
Definition deadLetters (q : queue) : list dead_letter := q_deadLetters q.

Definition map_job (f : job → job) (ref : nat) (q : queue) : queue :=
  Queue (alter f ref (q_jobs q)) (q_items q) (q_deadLetters q).

(** [typeof e === 'object' && 'message' in e && e.message]: [None] is a falsy
    outcome. *)
Definition error_message (e : option json) : option json :=
  match e with
  | Some (JObj fs) =>
      match map_get fs (lit "message") with
      | Some m => if truthy (Some m) then Some m else None
      | None => None
      end
  | _ => None
  end.
Definition error_string (e : option json) : option json :=
  match e with Some (JStr s) => Some (JStr s) | _ => None end.

Definition errorSummary (j : job) : option json :=
  match error_message (job_error j) with
  | Some m => Some m
  | None =>
      match error_message (lastError j) with
      | Some m => Some m
      | None =>
          match job_error j with
          | Some (JStr (c :: s)) => Some (JStr (c :: s))
          | _ => error_string (lastError j)
          end
      end
  end.

(** [while (length > MAX) shift()]. *)
Fixpoint evict {A} (fuel : nat) (max : nat) (l : list A) : list A :=
  match fuel with
  | O => l
  | S f => if Nat.ltb max (length l) then evict f max (tail l) else l
  end.

Definition dead_letter_of (now : Z) (j : job) : dead_letter :=
  DeadLetter (job_id j) (job_type j) (attempts j) (maxAttempts j) (queuedAt j) (scheduledAt j) now
             (errorSummary j).

Definition failed (now : Z) (ref : nat) (q : queue) : queue :=
  let dls := q_deadLetters q ++ [dead_letter_of now (deref q ref)] in
  Queue (q_jobs q) (q_items q) (evict (length dls) MAX_DEAD_LETTERS dls).

Definition bump (j : job) : job :=
  Job (job_id j) (job_type j) (job_data j) (createdAt j) (attempts j + 1) (maxAttempts j)
      (retryAfter j) (job_error j) (lastError j) (queuedAt j) (scheduledAt j).

(** [requeue(job)]: whether it went back to the queue. *)
Definition requeue (now : Z) (ref : nat) (q : queue) : bool * queue :=
  let q := map_job bump ref q in
  if attempts (deref q ref) >=? maxAttempts (deref q ref) then (false, failed now ref q)
  else (true, Queue (q_jobs q) (q_items q ++ [ref]) (q_deadLetters q)).

Definition set_retryAfter (t : Z) (j : job) : job :=
  Job (job_id j) (job_type j) (job_data j) (createdAt j) (attempts j) (maxAttempts j)
      (Some t) (job_error j) (lastError j) (queuedAt j) (scheduledAt j).

(** ** Facts *)

Lemma dequeue_scan_Some ok items r rest :
  dequeue_scan ok items = Some (r, rest) ↔
    ∃ pre post, items = pre ++ r :: post ∧ rest = pre ++ post ∧
      Forall (λ x, ok x = false) pre ∧ ok r = true.
Proof.
  revert rest. induction items as [|x items IH]; intros rest; cbn.
  - split; [done|]. intros ([|??] & ? & [=] & _).
  - destruct (ok x) eqn:E.
    + split; [intros [= <- <-]; exists [], items; by split_and!|].
      intros ([|y pre] & post & [= <- ?] & -> & Hpre & Hr); [by subst|].
      inversion Hpre; congruence.
    + split.
      * destruct (dequeue_scan ok items) as [[y rest']|]; [|done]. intros [= <- <-].
        destruct (proj1 (IH _) eq_refl) as (pre & post & -> & -> & Hpre & Hr).
        exists (x :: pre), post. split_and!; [done..|by constructor|done].
      * intros ([|y pre] & post & [= <- ->] & -> & Hpre & Hr); [congruence|].
        inversion Hpre; subst. rewrite (proj2 (IH (pre ++ post))); [done|]. exists pre, post. by split_and!.
Qed.

Lemma dequeue_scan_None ok items :
  dequeue_scan ok items = None ↔ Forall (λ x, ok x = false) items.
Proof.
  induction items as [|x items IH]; cbn; [done|]. rewrite Forall_cons.
  destruct (ok x); [naive_solver|]. destruct (dequeue_scan ok items) as [[]|]; naive_solver.
Qed.

Lemma evict_spec {A} fuel max (l : list A) :
  (length l ≤ max + fuel)%nat → evict fuel max l = drop (length l - max) l.
Proof.
  revert l. induction fuel as [|fuel IH]; intros l Hl; cbn [evict].
  - by replace (length l - max)%nat with 0%nat by lia.
  - destruct (Nat.ltb max (length l)) eqn:E.
    + apply Nat.ltb_lt in E. destruct l as [|x l]; [cbn in E; lia|]. cbn [tail length] in *.
      rewrite IH by lia. by replace (S (length l) - max)%nat with (S (length l - max)) by lia.
    + apply Nat.ltb_ge in E. by replace (length l - max)%nat with 0%nat by lia.
Qed.

Lemma failed_letters now ref q :
  q_deadLetters (failed now ref q) =
    drop (S (length (q_deadLetters q)) - MAX_DEAD_LETTERS)
         (q_deadLetters q ++ [dead_letter_of now (deref q ref)]).
Proof.
  cbn [failed q_deadLetters]. rewrite evict_spec by lia. rewrite length_app. cbn [length].
  by rewrite Nat.add_1_r.
Qed.

Lemma deref_map_job f ref q j :
  q_jobs q !! ref = Some j → deref (map_job f ref q) ref = f j.
Proof. intros H. unfold deref. cbn. by rewrite list_lookup_alter_eq, H. Qed.

(** ** Properties *)

(** [dequeue] is first-in first-out over the eligible jobs: it takes the
    first job whose backoff is over, leaves the others in their order, and
    returns [null], changing nothing, when every job is still backing off. *)
Theorem dequeue_fifo now q :
  match dequeue now q with
  | (Some r, q') =>
      ∃ pre post, q_items q = pre ++ r :: post ∧ q_items q' = pre ++ post ∧
        Forall (λ x, eligible now (deref q x) = false) pre ∧ eligible now (deref q r) = true ∧
        q_jobs q' = q_jobs q ∧ q_deadLetters q' = q_deadLetters q
  | (None, q') => q' = q ∧ Forall (λ x, eligible now (deref q x) = false) (q_items q)
  end.
Proof.
  unfold dequeue. destruct (dequeue_scan _ (q_items q)) as [[r rest]|] eqn:E.
  - apply dequeue_scan_Some in E as (pre & post & Hi & -> & Hpre & Hr). exists pre, post. by split_and!.
  - split; [done|]. by apply dequeue_scan_None.
Qed.

(** [requeue] counts the attempt; below the maximum the job goes to the
    back of the queue, otherwise it leaves one dead letter, with its id and
    its count, and the list of dead letters keeps at most the last thousand. *)
Theorem requeue_spec now ref q j :
  q_jobs q !! ref = Some j → (length (q_deadLetters q) ≤ MAX_DEAD_LETTERS)%nat →
  let '(again, q') := requeue now ref q in
  q_jobs q' !! ref = Some (bump j) ∧
  again = (attempts j + 1 <? maxAttempts j) ∧
  (if again then q_items q' = q_items q ++ [ref] ∧ q_deadLetters q' = q_deadLetters q
   else q_items q' = q_items q ∧ (length (q_deadLetters q') ≤ MAX_DEAD_LETTERS)%nat ∧
        ∃ evicted, q_deadLetters q ++ [dead_letter_of now (bump j)] = evicted ++ q_deadLetters q' ∧
          (length (q_deadLetters q) < MAX_DEAD_LETTERS → evicted = [])%nat).
Proof.
  intros Hj Hlen. unfold requeue. rewrite (deref_map_job _ _ _ _ Hj). cbn [bump attempts maxAttempts].
  assert (q_jobs (map_job bump ref q) !! ref = Some (bump j)) as Hb
    by (cbn; by rewrite list_lookup_alter_eq, Hj).
  destruct (attempts j + 1 >=? maxAttempts j) eqn:E.
  - split_and!; [done|lia|done|..].
    + rewrite failed_letters. rewrite length_drop, length_app. cbn [map_job q_deadLetters length]. lia.
    + rewrite failed_letters, (deref_map_job _ _ _ _ Hj). cbn [map_job q_deadLetters].
      exists (take (S (length (q_deadLetters q)) - MAX_DEAD_LETTERS)
                   (q_deadLetters q ++ [dead_letter_of now (bump j)])).
      split; [by rewrite take_drop|]. intros Hlt.
      by replace (S (length (q_deadLetters q)) - MAX_DEAD_LETTERS)%nat with 0%nat by lia.
  - split_and!; [done|lia|done|done].
Qed.

Module QueueExamples.
Definition one_job : queue := (enqueue (lit "j1") (lit "room:cleanup") None 5 new_queue).2.

Lemma requeue_spec_witness :
  let '(again, q') := requeue 7 0 one_job in
  q_jobs q' !! 0%nat = Some (bump (new_job (lit "j1") (lit "room:cleanup") None 5)) ∧
  again = true ∧ q_items q' = [0; 0]%nat.
Proof.
  destruct (requeue_spec 7 0 one_job (new_job (lit "j1") (lit "room:cleanup") None 5))
    as (H1 & H2 & H3); [reflexivity | decided |].
  split; [exact H1|]. split; [exact H2 | exact (proj1 H3)].
Defined.
End QueueExamples.
