(* ===== verification/Manager.v ===== *)
(** * services/worker/src/manager.js: [WorkerManager]

    [#poll] is a coroutine: it suspends while [processJob] runs and while it
    sleeps between polls. Every call of [start] on a stopped manager starts
    one more, so the state holds a list of them. A step is what runs between
    two suspensions, or an operation the rest of the worker calls. What
    [processJob] settles to is an argument of the step ([outcome]); Worker.v
    models [processJob] itself. *)

From S2P Require Import Prelude JsLib Text Json Timers Queue.

Local Open Scope Z_scope.

Definition POLL_INTERVAL : Z := 500.

(** Where a poll loop is: in [processJob] of a job, asleep on a timer, or
    over. *)
Inductive poller :=
  | Busy (ref : nat)
  | Asleep (id : nat)
  | Ended.

Record manager := Manager {
  m_queue : queue;
  m_running : bool;
  m_timer : option nat;
  m_clock : timers nat;            (** a timer wakes the loop it names *)
  m_pollers : list poller;
  m_hasOnResult : bool;
  m_delivered : list (nat * json)  (** the calls of [onResult] *)
}.

Definition new_manager (hasOnResult : bool) (now : Z) : manager :=
  Manager new_queue false None (timers_init now) [] hasOnResult [].

Definition m_now (s : manager) : Z := t_now (m_clock s).

Definition set_queue (q : queue) (s : manager) : manager :=
  Manager q (m_running s) (m_timer s) (m_clock s) (m_pollers s) (m_hasOnResult s) (m_delivered s).
Definition set_poller (i : nat) (p : poller) (s : manager) : manager :=
  Manager (m_queue s) (m_running s) (m_timer s) (m_clock s) (<[i := p]> (m_pollers s))
          (m_hasOnResult s) (m_delivered s).

(** The inner loop of loop [i], up to its next suspension: start the next
    eligible job, or arm the timer of the next poll. *)
Definition drain (i : nat) (s : manager) : manager :=
  match dequeue (m_now s) (m_queue s) with
  | (Some ref, q) => set_poller i (Busy ref) (set_queue q s)
  | (None, _) =>
      let h := setTimeout (m_clock s) i POLL_INTERVAL in
      set_poller i (Asleep h.1)
        (Manager (m_queue s) (m_running s) (Some h.1) h.2 (m_pollers s) (m_hasOnResult s) (m_delivered s))
  end.

(** [while (this.#running) ...] from the top. *)
Definition poll_top (i : nat) (s : manager) : manager :=
  if m_running s then drain i s else set_poller i Ended s.

Definition start (s : manager) : manager :=
  if m_running s then s
  else poll_top (length (m_pollers s))
         (Manager (m_queue s) true (m_timer s) (m_clock s) (m_pollers s ++ [Ended])
                  (m_hasOnResult s) (m_delivered s)).

Definition stop (s : manager) : manager :=
  Manager (m_queue s) false None (clear_opt (m_clock s) (m_timer s)) (m_pollers s)
          (m_hasOnResult s) (m_delivered s).

(** [Math.min(1000 * Math.pow(2, job.attempts - 1), 30000)]. *)
Definition backoff (attempts : Z) : Z := Z.min (1000 * 2 ^ (attempts - 1)) 30000.

(** How [await processJob(job)] went; an [onResult] that throws is a
    rejection too. *)
Inductive outcome :=
  | Processed (result : json)
  | Rejected (message : jsstr).

(** What became of the job. *)
Inductive verdict := Completed | Requeued | Dead.

(** The [try]/[catch] around [processJob]. *)
Definition settle (ref : nat) (out : outcome) (s : manager) : verdict * manager :=
  match out with
  | Processed r =>
      (Completed,
       Manager (m_queue s) (m_running s) (m_timer s) (m_clock s) (m_pollers s) (m_hasOnResult s)
               (m_delivered s ++ if m_hasOnResult s then [(ref, r)] else []))
  | Rejected _ =>
      let '(requeued, q) := requeue (m_now s) ref (m_queue s) in
      if requeued then
        (Requeued, set_queue (map_job (set_retryAfter (m_now s + backoff (attempts (deref q ref)))) ref q) s)
      else (Dead, set_queue q s)
  end.

Inductive mgr_label :=
  | MStart
  | MStop
  | MEnqueue (id type : jsstr) (data : option json)
  | MSettle (i ref : nat) (out : outcome) (v : verdict)
  | MWake (id : nat)
  | MWait (d : Z).

Inductive mgr_step : manager → mgr_label → manager → Prop :=
  | mgr_start s : mgr_step s MStart (start s)
  | mgr_stop s : mgr_step s MStop (stop s)
  | mgr_enqueue s id type data :
      mgr_step s (MEnqueue id type data) (set_queue (enqueue id type data (m_now s) (m_queue s)).2 s)
  | mgr_settle s i ref out v s' :
      m_pollers s !! i = Some (Busy ref) → settle ref out s = (v, s') →
      mgr_step s (MSettle i ref out v) (drain i s')
  | mgr_wake s id i :
      due (m_clock s) id = Some i →
      mgr_step s (MWake id)
        (poll_top i (Manager (m_queue s) (m_running s) (m_timer s) (clearTimeout (m_clock s) id)
                             (m_pollers s) (m_hasOnResult s) (m_delivered s)))
  | mgr_wait s d :
      0 ≤ d →
      mgr_step s (MWait d)
        (Manager (m_queue s) (m_running s) (m_timer s) (advance (m_clock s) d) (m_pollers s)
                 (m_hasOnResult s) (m_delivered s)).

(** Labels are kept oldest first. *)
Inductive mgr_steps (s : manager) : list mgr_label → manager → Prop :=
  | mgr_nil : mgr_steps s [] s
  | mgr_snoc ls s1 l s2 : mgr_steps s ls s1 → mgr_step s1 l s2 → mgr_steps s (ls ++ [l]) s2.

Global Instance verdict_eq_dec : EqDecision verdict.
Proof. solve_decision. Defined.

(** The steps, executed: [None] when the label is not enabled. *)
Definition mgr_exec (s : manager) (l : mgr_label) : option manager :=
  match l with
  | MStart => Some (start s)
  | MStop => Some (stop s)
  | MEnqueue id type data => Some (set_queue (enqueue id type data (m_now s) (m_queue s)).2 s)
  | MSettle i ref out v =>
      match m_pollers s !! i with
      | Some (Busy ref') =>
          if decide (ref' = ref ∧ (settle ref out s).1 = v) then Some (drain i (settle ref out s).2) else None
      | _ => None
      end
  | MWake id =>
      i ← due (m_clock s) id;
      Some (poll_top i (Manager (m_queue s) (m_running s) (m_timer s) (clearTimeout (m_clock s) id)
                                (m_pollers s) (m_hasOnResult s) (m_delivered s)))
  | MWait d =>
      if decide (0 ≤ d) then
        Some (Manager (m_queue s) (m_running s) (m_timer s) (advance (m_clock s) d) (m_pollers s)
                      (m_hasOnResult s) (m_delivered s))
      else None
  end.

Lemma mgr_exec_step s l s' : mgr_exec s l = Some s' ↔ mgr_step s l s'.
Proof.
  split.
  - destruct l as [| |id type data|i ref out v|id|d]; cbn; intros E; simplify_eq; try by constructor.
    + destruct (m_pollers s !! i) as [[|ref'|]|] eqn:Ei; try done. case_decide as Hd; [|done]. simplify_eq.
      destruct Hd as [-> <-]. eapply mgr_settle; [done|apply surjective_pairing].
    + destruct (due (m_clock s) id) as [i|] eqn:Ei; [|done]. cbn in E. simplify_eq. by constructor.
    + case_decide; [|done]. simplify_eq. by constructor.
  - intros [| | |? ? ? ? ? ? Hi E|? ? ? E|]; cbn; try done.
    + rewrite Hi, E. cbn. by rewrite decide_True.
    + by rewrite E.
    + by rewrite decide_True.
Qed.

(** ** What a run did to the jobs *)

Definition settled (l : mgr_label) : option (nat * verdict) :=
  match l with MSettle _ ref _ v => Some (ref, v) | _ => None end.

Definition with_verdict (v : verdict) (ls : list mgr_label) : list nat :=
  (filter (λ x, x.2 = v) (omap settled ls)).*1.

Definition completed (ls : list mgr_label) : list nat := with_verdict Completed ls.
Definition dead (ls : list mgr_label) : list nat := with_verdict Dead ls.

(** How often the processing of [ref] ended, and how often it failed. *)
Definition tries (ref : nat) (ls : list mgr_label) : Z :=
  Z.of_nat (length (filter (λ x : nat * verdict, x.1 = ref) (omap settled ls))).
Definition failures (ref : nat) (ls : list mgr_label) : Z :=
  Z.of_nat (length (filter (λ x : nat * verdict, x.1 = ref ∧ x.2 ≠ Completed) (omap settled ls))).

(** The jobs being processed. *)
Definition busy (p : poller) : list nat := match p with Busy ref => [ref] | _ => [] end.
Definition in_flight (s : manager) : list nat := m_pollers s ≫= busy.

(** ** Invariant *)

Definition job_ok (ls : list mgr_label) (ref : nat) (j : job) : Prop :=
  maxAttempts j = 3 ∧ job_error j = None ∧ lastError j = None ∧ queuedAt j = None ∧ scheduledAt j = None ∧
  attempts j = failures ref ls ∧ (if decide (ref ∈ dead ls) then attempts j = 3 else attempts j < 3) ∧
  (attempts j = 0 → retryAfter j = None).

Record mgr_inv (ls : list mgr_label) (s : manager) : Prop := {
  inv_clock : timers_wf (m_clock s);
  inv_wake : ∀ id t i, map_get (t_pending (m_clock s)) id = Some (t, i) → m_pollers s !! i = Some (Asleep id);
  inv_seen : Forall (λ x, x.1 < length (q_jobs (m_queue s)))%nat (omap settled ls);
  inv_refs : q_items (m_queue s) ++ in_flight s ++ completed ls ++ dead ls
             ≡ₚ seq 0 (length (q_jobs (m_queue s)));
  inv_jobs : ∀ ref j, q_jobs (m_queue s) !! ref = Some j → job_ok ls ref j;
  inv_letters : (length (q_deadLetters (m_queue s)) ≤ MAX_DEAD_LETTERS)%nat;
  inv_dead : map dl_id (q_deadLetters (m_queue s)) =
             drop (length (dead ls) - MAX_DEAD_LETTERS) (map (λ r, job_id (deref (m_queue s) r)) (dead ls));
  inv_letter : Forall (λ d, dl_attempts d = 3 ∧ dl_error d = None ∧ dl_queuedAt d = None ∧ dl_scheduledAt d = None) (q_deadLetters (m_queue s))
}.

Lemma with_verdict_snoc v ls l :
  with_verdict v (ls ++ [l]) =
    with_verdict v ls ++ match settled l with Some (r, w) => if decide (w = v) then [r] else [] | None => [] end.
Proof.
  unfold with_verdict. rewrite omap_app, filter_app, fmap_app. f_equal. cbn.
  destruct (settled l) as [[r w]|]; [|done]. rewrite filter_cons. cbn. by case_decide.
Qed.

Lemma failures_snoc ref ls l :
  failures ref (ls ++ [l]) = failures ref ls +
    match settled l with Some (r, w) => if decide (r = ref ∧ w ≠ Completed) then 1 else 0 | None => 0 end.
Proof.
  unfold failures. rewrite omap_app, filter_app, length_app, Nat2Z.inj_add. f_equal. cbn.
  destruct (settled l) as [[r w]|]; [|done]. rewrite filter_cons. cbn. by case_decide.
Qed.

Lemma tries_snoc ref ls l :
  tries ref (ls ++ [l]) = tries ref ls +
    match settled l with Some (r, w) => if decide (r = ref) then 1 else 0 | None => 0 end.
Proof.
  unfold tries. rewrite omap_app, filter_app, length_app, Nat2Z.inj_add. f_equal. cbn.
  destruct (settled l) as [[r w]|]; [|done]. rewrite filter_cons. cbn. by case_decide.
Qed.

Lemma busy_insert ps i p p0 :
  ps !! i = Some p0 → (<[i := p]> ps ≫= busy) ++ busy p0 ≡ₚ (ps ≫= busy) ++ busy p.
Proof.
  intros Hi. rewrite <- (take_drop_middle ps i p0) by done.
  rewrite insert_app_r_alt by (rewrite length_take; lia).
  rewrite length_take, Nat.min_l by (apply lookup_lt_Some in Hi; lia).
  rewrite Nat.sub_diag. cbn. rewrite !bind_app. cbn. solve_Permutation.
Qed.

Lemma failures_seen ref ls n :
  Forall (λ x, x.1 < n)%nat (omap settled ls) → (n ≤ ref)%nat → failures ref ls = 0.
Proof.
  intros H Hn. unfold failures. rewrite filter_none; [done|].
  eapply Forall_impl; [exact H|]. intros [r v] Hr [E _]. cbn in *. lia.
Qed.

Lemma dead_lt ls s r : mgr_inv ls s → r ∈ dead ls → (r < length (q_jobs (m_queue s)))%nat.
Proof.
  intros Hi Hr. assert (r ∈ seq 0 (length (q_jobs (m_queue s)))) as H
    by (rewrite <- (inv_refs _ _ Hi); set_solver).
  apply elem_of_seq in H. lia.
Qed.

Lemma mgr_inv_new f now : mgr_inv [] (new_manager f now).
Proof. split; cbn; auto using timers_wf_init; done || lia || constructor. Qed.

(** ** One step keeps the invariant *)

(** Steps that do not touch the queue nor end a job. *)
Lemma mgr_inv_frame ls l s s' :
  settled l = None → mgr_inv ls s → m_queue s' = m_queue s → in_flight s' ≡ₚ in_flight s →
  timers_wf (m_clock s') →
  (∀ id t i, map_get (t_pending (m_clock s')) id = Some (t, i) → m_pollers s' !! i = Some (Asleep id)) →
  mgr_inv (ls ++ [l]) s'.
Proof.
  intros Hl [Hc Hw Hs Hr Hj Hd1 Hd2 Hd3] Hq Hf Hc' Hw'.
  assert (completed (ls ++ [l]) = completed ls) as Ec
    by (unfold completed; by rewrite with_verdict_snoc, Hl, app_nil_r).
  assert (dead (ls ++ [l]) = dead ls) as Ed
    by (unfold dead; by rewrite with_verdict_snoc, Hl, app_nil_r).
  split; rewrite ?Ec, ?Ed, ?Hq, ?Hf; try done.
  - rewrite omap_app. cbn. by rewrite Hl, app_nil_r.
  - intros ref j E. specialize (Hj ref j E). unfold job_ok in *. by rewrite Ed, failures_snoc, Hl, Z.add_0_r.
Qed.

Lemma drain_set_poller i p s : drain i (set_poller i p s) = drain i s.
Proof.
  unfold drain, m_now, set_poller, set_queue. cbn. destruct (dequeue _ _) as [[r|] q]; cbn;
    by rewrite list_insert_insert_eq.
Qed.

(** [drain] from a loop that is at no suspension. *)
Lemma mgr_inv_drain ls i s :
  m_pollers s !! i = Some Ended → mgr_inv ls s → mgr_inv ls (drain i s).
Proof.
  intros Hi [Hc Hw Hs Hr Hj Hd1 Hd2 Hd3]. unfold drain.
  pose proof (dequeue_fifo (m_now s) (m_queue s)) as Hdq.
  destruct (dequeue (m_now s) (m_queue s)) as [[ref|] q].
  - destruct Hdq as (pre & post & E1 & E2 & _ & _ & Eq & El).
    split; cbn [set_poller set_queue m_clock m_queue m_pollers]; try done.
    + intros id t i' Ht. destruct (decide (i = i')) as [<-|Hne]; [apply Hw in Ht; congruence|].
      rewrite list_lookup_insert_ne by done. eauto.
    + by rewrite Eq.
    + rewrite Eq, E2, <- Hr, E1. unfold in_flight. cbn.
      pose proof (busy_insert (m_pollers s) i (Busy ref) Ended Hi) as Hb. cbn in Hb.
      rewrite app_nil_r in Hb. rewrite Hb. solve_Permutation.
    + by rewrite Eq.
    + by rewrite El.
    + rewrite El, Hd2. unfold deref. by rewrite Eq.
    + by rewrite El.
  - split; cbn [set_poller m_clock m_queue m_pollers]; try done.
    + by apply timers_wf_set.
    + intros id t i' Ht. apply pending_setTimeout in Ht as [[-> [= -> ->]]|[_ Ht]].
      * rewrite list_lookup_insert_eq; [done|]. by eapply lookup_lt_Some.
      * destruct (decide (i = i')) as [<-|Hne]; [apply Hw in Ht; congruence|].
        rewrite list_lookup_insert_ne by done. eauto.
    + rewrite <- Hr. unfold in_flight. cbn.
      pose proof (busy_insert (m_pollers s) i (Asleep (t_next (m_clock s))) Ended Hi) as Hb. cbn in Hb.
      rewrite !app_nil_r in Hb. by rewrite Hb.
Qed.

Lemma poll_top_eq i s p : (i < length (m_pollers s))%nat → poll_top i (set_poller i p s) = poll_top i s.
Proof.
  intros Hi. unfold poll_top. cbn [set_poller m_running]. destruct (m_running s).
  - by rewrite drain_set_poller.
  - unfold set_poller. cbn. by rewrite list_insert_insert_eq.
Qed.

Lemma mgr_inv_poll_top ls i s :
  m_pollers s !! i = Some Ended → mgr_inv ls s → mgr_inv ls (poll_top i s).
Proof.
  intros Hi Hinv. unfold poll_top. destruct (m_running s); [by apply mgr_inv_drain|].
  unfold set_poller. rewrite list_insert_id by done. by destruct s.
Qed.

Lemma map_job_ids f ref q r : (∀ j, job_id (f j) = job_id j) → job_id (deref (map_job f ref q) r) = job_id (deref q r).
Proof.
  intros Hf. unfold deref. cbn. destruct (decide (ref = r)) as [<-|Hne].
  - rewrite list_lookup_alter_eq. destruct (q_jobs q !! ref); cbn; auto.
  - by rewrite list_lookup_alter_ne.
Qed.

(** The job of a loop in [processJob]. *)
Lemma in_flight_job ls s i ref :
  mgr_inv ls s → m_pollers s !! i = Some (Busy ref) →
  ∃ j, q_jobs (m_queue s) !! ref = Some j ∧ job_ok ls ref j ∧ attempts j < 3 ∧
       ref ∉ dead ls ∧ ref ∉ completed ls ∧
       q_items (m_queue s) ++ in_flight (set_poller i Ended s) ++ ref :: completed ls ++ dead ls
       ≡ₚ seq 0 (length (q_jobs (m_queue s))).
Proof.
  intros Hinv Hi.
  assert (q_items (m_queue s) ++ in_flight (set_poller i Ended s) ++ ref :: completed ls ++ dead ls
       ≡ₚ seq 0 (length (q_jobs (m_queue s)))) as Hp.
  { rewrite <- (inv_refs _ _ Hinv). unfold in_flight.
    pose proof (busy_insert (m_pollers s) i Ended (Busy ref) Hi) as Hb. cbn in Hb. rewrite app_nil_r in Hb.
    rewrite <- Hb. cbn [set_poller m_pollers]. solve_Permutation. }
  assert (ref ∈ seq 0 (length (q_jobs (m_queue s)))) as Hlt by (rewrite <- Hp; set_solver).
  apply elem_of_seq in Hlt. destruct (lookup_lt_is_Some_2 (q_jobs (m_queue s)) ref ltac:(lia)) as [j Hj].
  pose proof (inv_jobs _ _ Hinv ref j Hj) as Hok.
  pose proof (NoDup_seq 0 (length (q_jobs (m_queue s)))) as Hnd. rewrite <- Hp in Hnd.
  apply NoDup_app in Hnd as (_ & _ & Hnd). apply NoDup_app in Hnd as (_ & _ & Hnd).
  apply NoDup_cons in Hnd as [Hnd _]. rewrite elem_of_app in Hnd.
  assert (ref ∉ dead ls) as Hd by tauto.
  exists j. split_and!; try done; [|tauto].
  destruct Hok as (_ & _ & _ & _ & _ & _ & Ha & _). by rewrite decide_False in Ha by done.
Qed.

Lemma requeue_jobs now ref q : q_jobs (requeue now ref q).2 = alter bump ref (q_jobs q).
Proof. unfold requeue. by destruct (_ >=? _). Qed.

Lemma requeue_letters now ref q j :
  q_jobs q !! ref = Some j → (requeue now ref q).1 = false →
  q_deadLetters (requeue now ref q).2 =
    drop (S (length (q_deadLetters q)) - MAX_DEAD_LETTERS)
         (q_deadLetters q ++ [dead_letter_of now (bump j)]).
Proof.
  intros Hj. unfold requeue. destruct (_ >=? _); [|done]. intros _. cbn [snd].
  by rewrite failed_letters, (deref_map_job _ _ _ _ Hj).
Qed.

Lemma letters_drop {A B} (f : A → B) (letters : list A) (d : A) (ids : list B) (x : B) :
  f d = x → (length letters ≤ MAX_DEAD_LETTERS)%nat →
  map f letters = drop (length ids - MAX_DEAD_LETTERS) ids →
  map f (drop (S (length letters) - MAX_DEAD_LETTERS) (letters ++ [d])) =
  drop (length (ids ++ [x]) - MAX_DEAD_LETTERS) (ids ++ [x]).
Proof.
  intros <- _ E. change (map f) with (fmap (M:=list) f) in *. rewrite fmap_drop, fmap_app.
  rewrite <- (window_snoc MAX_DEAD_LETTERS ids (f <$> letters)) by done. by rewrite length_fmap.
Qed.

(** ** A job that settles *)

Section Settle.
Context (ls : list mgr_label) (s : manager) (i ref : nat) (out : outcome).
Context (Hinv : mgr_inv ls s) (Hi : m_pollers s !! i = Some (Busy ref)).

Lemma settle_asleep id t i' :
  map_get (t_pending (m_clock s)) id = Some (t, i') → <[i := Ended]> (m_pollers s) !! i' = Some (Asleep id).
Proof.
  intros Ht. apply (inv_wake _ _ Hinv) in Ht. destruct (decide (i = i')) as [<-|Hne]; [congruence|].
  by rewrite list_lookup_insert_ne.
Qed.

Lemma settle_dead v : dead (ls ++ [MSettle i ref out v]) = dead ls ++ (if decide (v = Dead) then [ref] else []).
Proof. unfold dead. by rewrite with_verdict_snoc. Qed.

Lemma settle_completed v :
  completed (ls ++ [MSettle i ref out v]) = completed ls ++ (if decide (v = Completed) then [ref] else []).
Proof. unfold completed. by rewrite with_verdict_snoc. Qed.

Lemma settle_seen v n :
  n = length (q_jobs (m_queue s)) → Forall (λ x, x.1 < n)%nat (omap settled (ls ++ [MSettle i ref out v])).
Proof.
  destruct (in_flight_job ls s i ref Hinv Hi) as (j & Hj & _). apply lookup_lt_Some in Hj.
  intros ->. rewrite omap_app. apply Forall_app. split; [apply Hinv|]. cbn. by repeat constructor.
Qed.

(** The other jobs stay as they are. *)
Lemma settle_other v r x : r ≠ ref → job_ok ls r x → job_ok (ls ++ [MSettle i ref out v]) r x.
Proof.
  intros Hne Hx. unfold job_ok in *. rewrite failures_snoc, settle_dead. cbn [settled].
  rewrite (decide_False (P := ref = r ∧ _)) by naive_solver. rewrite Z.add_0_r.
  destruct Hx as (? & ? & ? & ? & ? & ? & Hx & ?). split_and!; try done.
  destruct (decide (r ∈ dead ls)) as [Hin|Hin].
  - by rewrite decide_True by set_solver.
  - rewrite decide_False; [done|]. case_decide; set_solver.
Qed.

Lemma settle_processed d :
  mgr_inv (ls ++ [MSettle i ref out Completed])
    (set_poller i Ended (Manager (m_queue s) (m_running s) (m_timer s) (m_clock s) (m_pollers s) (m_hasOnResult s) d)).
Proof.
  destruct (in_flight_job ls s i ref Hinv Hi) as (j & Hj & Hok & Ha & Hnd & Hnc & Hp).
  pose proof Hinv as [Hc Hw Hs Hr Hjs Hd1 Hd2 Hd3].
  split; cbn [set_poller m_clock m_pollers m_queue];
    rewrite ?settle_completed, ?settle_dead; cbn [decide]; rewrite ?app_nil_r; try done; try (by apply settle_asleep); try (by apply settle_seen).
  - rewrite <- Hp. cbn. rewrite decide_True by done. unfold in_flight. cbn. solve_Permutation.
  - intros r' x Hx. destruct (decide (r' = ref)) as [->|Hne]; [|eauto using settle_other].
    rewrite Hj in Hx. injection Hx as <-. destruct Hok as (Hm & He1 & He2 & He3 & He4 & Hat & _ & Hra).
    unfold job_ok. rewrite failures_snoc, settle_dead. cbn.
    rewrite (decide_False (P := ref = ref ∧ _)) by naive_solver. rewrite app_nil_r, decide_False by done.
    split_and!; try done. lia.
Qed.

(** What [requeue] does to the job objects. *)
Lemma requeue_objects q :
  (requeue (m_now s) ref (m_queue s)).2 = q →
  q_jobs q = alter bump ref (q_jobs (m_queue s)) ∧ length (q_jobs q) = length (q_jobs (m_queue s)) ∧
  ∀ r, job_id (deref q r) = job_id (deref (m_queue s) r).
Proof.
  intros <-. pose proof (requeue_jobs (m_now s) ref (m_queue s)) as Eq. split_and!; [done|by rewrite Eq, length_alter|].
  intros r. pose proof (map_job_ids bump ref (m_queue s) r ltac:(done)) as H0.
  unfold deref in *. cbn in H0. by rewrite Eq.
Qed.

Lemma settle_requeued j q f :
  q_jobs (m_queue s) !! ref = Some j → (requeue (m_now s) ref (m_queue s)).2 = q →
  attempts j + 1 < maxAttempts j → q_items q = q_items (m_queue s) ++ [ref] →
  q_deadLetters q = q_deadLetters (m_queue s) →
  mgr_inv (ls ++ [MSettle i ref out Requeued]) (set_poller i Ended (set_queue (map_job (set_retryAfter f) ref q) s)).
Proof.
  intros Hj Erq Eb Hi1 Hi2. destruct (requeue_objects q Erq) as (Eq & El & Hids).
  destruct (in_flight_job ls s i ref Hinv Hi) as (j0 & Hj0 & Hok & Ha & Hnd & Hnc & Hp).
  rewrite Hj in Hj0. injection Hj0 as <-.
  pose proof Hinv as [Hc Hw Hs Hr Hjs Hd1 Hd2 Hd3].
  split; cbn [set_poller set_queue m_clock m_pollers m_queue map_job q_jobs q_items q_deadLetters];
    rewrite ?length_alter, ?El, ?Hi1, ?Hi2; try done; try (by apply settle_asleep); try (by apply settle_seen).
  - rewrite settle_completed, settle_dead, !decide_False, !app_nil_r by done. rewrite <- Hp.
    unfold in_flight. cbn. solve_Permutation.
  - intros r' x Hx. destruct (decide (r' = ref)) as [->|Hne].
    + rewrite list_lookup_alter_eq, Eq, list_lookup_alter_eq, Hj in Hx. injection Hx as <-.
      destruct Hok as (Hm & He1 & He2 & He3 & He4 & Hat & _ & Hra).
      assert (0 ≤ attempts j) as Ha0 by (rewrite Hat; unfold failures; lia).
      unfold job_ok. rewrite failures_snoc, settle_dead. cbn. rewrite (decide_True (P := ref = ref ∧ _)) by done.
      rewrite app_nil_r, decide_False by done. split_and!; try done; lia.
    + rewrite list_lookup_alter_ne, Eq, list_lookup_alter_ne in Hx by done. eauto using settle_other.
  - rewrite settle_dead, decide_False, app_nil_r by done. rewrite Hd2. f_equal. apply map_ext. intros r.
    pose proof (map_job_ids (set_retryAfter f) ref q r ltac:(done)) as H0. rewrite Hids in H0. symmetry. exact H0.
Qed.

Lemma settle_dies j q :
  q_jobs (m_queue s) !! ref = Some j → (requeue (m_now s) ref (m_queue s)).2 = q →
  ¬ attempts j + 1 < maxAttempts j → q_items q = q_items (m_queue s) →
  (length (q_deadLetters q) ≤ MAX_DEAD_LETTERS)%nat →
  q_deadLetters q = drop (S (length (q_deadLetters (m_queue s))) - MAX_DEAD_LETTERS)
                         (q_deadLetters (m_queue s) ++ [dead_letter_of (m_now s) (bump j)]) →
  mgr_inv (ls ++ [MSettle i ref out Dead]) (set_poller i Ended (set_queue q s)).
Proof.
  intros Hj Erq Eb Hi1 Hlen Edl. destruct (requeue_objects q Erq) as (Eq & El & Hids).
  destruct (in_flight_job ls s i ref Hinv Hi) as (j0 & Hj0 & Hok & Ha & Hnd & Hnc & Hp).
  rewrite Hj in Hj0. injection Hj0 as <-.
  destruct Hok as (Hm & He1 & He2 & He3 & He4 & Hat & _ & Hra).
  pose proof Hinv as [Hc Hw Hs Hr Hjs Hd1 Hd2 Hd3].
  split; cbn [set_poller set_queue m_clock m_pollers m_queue];
    rewrite ?El, ?Hi1; try done; try (by apply settle_asleep); try (by apply settle_seen).
  - rewrite settle_completed, settle_dead, decide_False, decide_True, app_nil_r by done. rewrite <- Hp.
    unfold in_flight. cbn. solve_Permutation.
  - intros r' x Hx. destruct (decide (r' = ref)) as [->|Hne].
    + rewrite Eq, list_lookup_alter_eq, Hj in Hx. injection Hx as <-. unfold job_ok.
      assert (0 ≤ attempts j) as Ha0 by (rewrite Hat; unfold failures; lia).
      rewrite failures_snoc, settle_dead. cbn. rewrite (decide_True (P := ref = ref ∧ _)) by done.
      rewrite decide_True by set_solver. split_and!; try done; lia.
    + rewrite Eq, list_lookup_alter_ne in Hx by done. eauto using settle_other.
  - rewrite settle_dead, decide_True by done. rewrite Edl.
    change (map (λ r, job_id (deref q r))) with (fmap (M:=list) (λ r, job_id (deref q r))).
    rewrite fmap_app.
    rewrite (list_fmap_ext _ (λ r, job_id (deref (m_queue s) r)) (dead ls)) by (intros; apply Hids).
    cbn [fmap list_fmap]. rewrite length_app, Nat.add_comm. cbn [length Nat.add].
    pose proof (letters_drop dl_id (q_deadLetters (m_queue s)) (dead_letter_of (m_now s) (bump j))
      (map (λ r, job_id (deref (m_queue s) r)) (dead ls)) (job_id (deref q ref))) as Hdrop.
    rewrite length_app, length_map, Nat.add_comm in Hdrop. apply Hdrop; [|done|done].
    rewrite Hids. unfold deref. by rewrite Hj.
  - rewrite Edl. apply Forall_drop, Forall_snoc; [done|]. cbn. unfold errorSummary. cbn.
    rewrite He1, He2. split_and!; done || lia.
Qed.

Lemma mgr_inv_settle v s' :
  settle ref out s = (v, s') → mgr_inv (ls ++ [MSettle i ref out v]) (set_poller i Ended s').
Proof.
  intros E. destruct (in_flight_job ls s i ref Hinv Hi) as (j & Hj & _).
  destruct out as [r|e] eqn:Eo; cbn [settle] in E.
  - injection E as <- <-. rewrite <- Eo. apply settle_processed.
  - pose proof (requeue_spec (m_now s) ref (m_queue s) j Hj (inv_letters _ _ Hinv)) as Hrq.
    pose proof (requeue_letters (m_now s) ref (m_queue s) j Hj) as Hl.
    destruct (requeue (m_now s) ref (m_queue s)) as [again q] eqn:Erq. destruct Hrq as (Hj' & -> & Hcase).
    assert ((requeue (m_now s) ref (m_queue s)).2 = q) as Eq by (by rewrite Erq).
    destruct (attempts j + 1 <? maxAttempts j) eqn:Eb; injection E as <- <-; destruct Hcase as [Hi1 Hi2]; rewrite <- Eo.
    + apply Z.ltb_lt in Eb. by apply (settle_requeued j).
    + apply Z.ltb_ge in Eb. apply (settle_dies j); try done; [lia|apply Hi2|by apply Hl].
Qed.
End Settle.

Lemma mgr_inv_step ls s l s' : mgr_inv ls s → mgr_step s l s' → mgr_inv (ls ++ [l]) s'.
Proof.
  intros Hinv Hs. pose proof Hinv as [Hc Hw Hse Hr Hj Hd1 Hd2 Hd3].
  destruct Hs as [s|s|s id type data|s i ref out v s' Hi E|s id i Hd|s d Hd].
  - unfold start. destruct (m_running s); [by eapply mgr_inv_frame|].
    apply mgr_inv_poll_top.
    + cbn. by rewrite lookup_app_r, Nat.sub_diag by lia.
    + eapply mgr_inv_frame; [done|exact Hinv|done| |done|].
      * unfold in_flight. cbn. by rewrite bind_app, app_nil_r.
      * intros id t i Ht. cbn in *. apply lookup_app_l_Some. eauto.
  - eapply mgr_inv_frame; [done|exact Hinv|done|done|by apply timers_wf_clear_opt|].
    intros id t i Ht. apply pending_clear_opt in Ht as [_ Ht]; eauto.
  - set (j := new_job id type data (m_now s)).
    assert (length (q_jobs (m_queue s)) ∉ dead ls) as Hnew
      by (intros Hin; apply (dead_lt ls s) in Hin; [lia|done]).
    assert (dead (ls ++ [MEnqueue id type data]) = dead ls) as Ed
      by (unfold dead; by rewrite with_verdict_snoc, app_nil_r).
    assert (completed (ls ++ [MEnqueue id type data]) = completed ls) as Ec
      by (unfold completed; by rewrite with_verdict_snoc, app_nil_r).
    split; cbn [set_queue enqueue snd m_clock m_pollers m_queue q_jobs q_items q_deadLetters];
      rewrite ?Ed, ?Ec; try done.
    + rewrite omap_app. cbn. rewrite app_nil_r, length_app.
      eapply Forall_impl; [exact Hse|]. cbn. lia.
    + rewrite length_app, Nat.add_1_r, seq_S. cbn. rewrite <- Hr. unfold in_flight. cbn. solve_Permutation.
    + intros ref x Hx. unfold job_ok. rewrite Ed, failures_snoc. cbn [settled]. rewrite Z.add_0_r.
      apply lookup_snoc_Some in Hx as [[Hlt Hx]|[-> <-]]; [by apply Hj|].
      rewrite decide_False by done. rewrite (failures_seen _ _ _ Hse) by lia. done.
    + rewrite Hd2. f_equal. apply map_ext_in. intros r Hin%list_elem_of_In. unfold deref. cbn.
      rewrite lookup_app_l; [done|]. by apply (dead_lt ls s).
  - rewrite <- (drain_set_poller i Ended). apply mgr_inv_drain.
    + cbn. apply list_lookup_insert_eq. apply lookup_lt_Some in Hi.
      assert (m_pollers s' = m_pollers s) as ->; [|done].
      unfold settle in E. repeat case_match; by simplify_eq.
    + by eapply mgr_inv_settle.
  - apply due_Some in Hd as (t & Ht & _). specialize (Hw _ _ _ Ht) as Hi.
    rewrite <- (poll_top_eq i _ Ended) by (by eapply lookup_lt_Some).
    apply mgr_inv_poll_top.
    + cbn. apply list_lookup_insert_eq. by eapply lookup_lt_Some.
    + eapply mgr_inv_frame; [done|exact Hinv|done| |by apply timers_wf_clear|].
      * unfold in_flight. cbn. pose proof (busy_insert (m_pollers s) i Ended _ Hi) as Hb. cbn in Hb.
        by rewrite !app_nil_r in Hb.
      * intros id' t' i' Ht'. cbn in *. apply pending_clear in Ht' as [Hne Ht']; [|done].
        apply Hw in Ht'. destruct (decide (i = i')) as [<-|?]; [congruence|].
        by rewrite list_lookup_insert_ne.
  - by eapply mgr_inv_frame.
Qed.

Lemma mgr_inv_steps f now ls s : mgr_steps (new_manager f now) ls s → mgr_inv ls s.
Proof. induction 1; eauto using mgr_inv_new, mgr_inv_step. Qed.

Lemma mgr_inv_run ls0 s ls s' : mgr_inv ls0 s → mgr_steps s ls s' → mgr_inv (ls0 ++ ls) s'.
Proof.
  intros Hi. induction 1 as [|ls s1 l s2 _ IH Hl]; [by rewrite app_nil_r|].
  rewrite app_assoc. by eapply mgr_inv_step.
Qed.

(** ** Attempts *)

Lemma tries_split ref ls :
  tries ref ls = failures ref ls + Z.of_nat (length (filter (λ r, r = ref) (completed ls))).
Proof.
  induction ls as [|l ls IH] using rev_ind; [done|].
  unfold completed in *. rewrite tries_snoc, failures_snoc, with_verdict_snoc, filter_app, length_app, IH.
  destruct (settled l) as [[r w]|]; cbn [filter list_filter length]; [|lia].
  destruct (decide (w = Completed)) as [->|Hw].
  - rewrite (decide_False (P := r = ref ∧ _)) by naive_solver. rewrite filter_cons. case_decide; cbn; lia.
  - cbn. destruct (decide (r = ref)).
    + rewrite decide_True by done. lia.
    + rewrite decide_False by naive_solver. lia.
Qed.

Lemma filter_eq_NoDup (l : list nat) x :
  NoDup l → length (filter (λ r, r = x) l) = if decide (x ∈ l) then 1%nat else 0%nat.
Proof.
  induction 1 as [|y l Hy Hl IH]; [by rewrite decide_False by set_solver|].
  rewrite filter_cons. destruct (decide (y = x)) as [->|Hxy].
  - cbn [length]. rewrite filter_none; [by rewrite decide_True by set_solver|].
    apply Forall_forall. by intros z Hz ->.
  - rewrite IH. destruct (decide (x ∈ l)); [rewrite decide_True|rewrite decide_False]; set_solver.
Qed.

(** ** Backoff *)

Definition waiting (T : Z) (ref : nat) (s : manager) : Prop :=
  ref ∈ q_items (m_queue s) ∧ ∃ j, q_jobs (m_queue s) !! ref = Some j ∧ retryAfter j = Some T.

Lemma waiting_drain T ref i s : T ≠ 0 → m_now s < T → waiting T ref s → waiting T ref (drain i s).
Proof.
  intros HT Hn (Hin & j & Hj & Hr). unfold drain.
  pose proof (dequeue_fifo (m_now s) (m_queue s)) as Hd.
  destruct (dequeue (m_now s) (m_queue s)) as [[r|] q]; [|split; cbn; eauto].
  destruct Hd as (pre & post & E1 & E2 & _ & He & Eq & _).
  split; cbn [set_poller set_queue m_queue]; [|rewrite Eq; eauto].
  rewrite E2. rewrite E1 in Hin. assert (ref ≠ r); [|set_solver].
  intros <-. unfold deref in He. rewrite Hj in He. unfold eligible in He. cbn in He.
  rewrite Hr in He. lia.
Qed.

Lemma waiting_poll_top T ref i s : T ≠ 0 → m_now s < T → waiting T ref s → waiting T ref (poll_top i s).
Proof. intros ???. unfold poll_top. destruct (m_running s); [by apply waiting_drain | done]. Qed.

Lemma m_now_drain i s : m_now (drain i s) = m_now s.
Proof. unfold drain. destruct (dequeue _ _) as [[r|] q]; done. Qed.

Lemma m_now_settle ref out s : m_now (settle ref out s).2 = m_now s.
Proof. unfold settle. by repeat case_match. Qed.

Lemma m_now_step s l s' : mgr_step s l s' → m_now s ≤ m_now s'.
Proof.
  destruct 1 as [s|s|s id type data|s i ref out v s' Hi E|s id i Hd|s d Hd]; try done.
  - unfold start, poll_top. cbn. destruct (m_running s); [done|]. cbn. rewrite m_now_drain. done.
  - unfold m_now, stop. cbn. destruct (m_timer s); cbn; lia.
  - rewrite m_now_drain. pose proof (m_now_settle ref out s) as Hs. rewrite E in Hs. cbn in Hs. lia.
  - unfold poll_top. cbn. destruct (m_running s); [rewrite m_now_drain|]; done.
  - unfold m_now. cbn. lia.
Qed.

Lemma m_now_steps s ls s' : mgr_steps s ls s' → m_now s ≤ m_now s'.
Proof. induction 1 as [|ls s1 l s2 _ IH Hl]; [done|]. apply m_now_step in Hl. lia. Qed.

Lemma waiting_step T ref ls s l s' :
  T ≠ 0 → mgr_inv ls s → waiting T ref s → mgr_step s l s' → m_now s' < T →
  waiting T ref s' ∧ ∀ v, settled l ≠ Some (ref, v).
Proof.
  intros HT Hinv Hw Hs Hn. pose proof (m_now_step _ _ _ Hs) as Hle. pose proof Hw as (Hin & j & Hj & Hr).
  destruct Hs as [s|s|s id type data|s i ref' out v s' Hi E|s id i Hd|s d Hd].
  - split; [|done]. unfold start. destruct (m_running s); [done|]. apply waiting_poll_top; [done|cbn in *|done].
    unfold m_now in *. cbn. lia.
  - done.
  - split; [|done]. split; cbn; [set_solver|]. exists j. split; [|done]. by apply lookup_app_l_Some.
  - destruct (in_flight_job ls s i ref' Hinv Hi) as (j' & Hj' & _ & _ & _ & _ & Hp).
    assert (ref' ≠ ref) as Hne.
    { intros ->. pose proof (NoDup_seq 0 (length (q_jobs (m_queue s)))) as Hnd. rewrite <- Hp in Hnd.
      apply NoDup_app in Hnd as (_ & Hnd & _). apply (Hnd ref); set_solver. }
    split; [|cbn; intros v' [= ? _]; done]. rewrite m_now_drain in Hn. apply waiting_drain; [done..|].
    unfold settle in E. destruct out as [r|e]; [by injection E as <- <-|].
    pose proof (requeue_jobs (m_now s) ref' (m_queue s)) as Hq.
    assert (q_items (m_queue s) ⊆ q_items (requeue (m_now s) ref' (m_queue s)).2) as Hit.
    { unfold requeue. destruct (_ >=? _); cbn; set_solver. }
    destruct (requeue (m_now s) ref' (m_queue s)) as [again q]. cbn in Hq, Hit.
    destruct again; injection E as <- <-; (split; cbn; [by apply Hit|]); exists j;
      by rewrite ?Hq, ?list_lookup_alter_ne.
  - split; [|done]. apply waiting_poll_top; [done|cbn in *|done]. unfold m_now in *. cbn. lia.
  - done.
Qed.

Lemma waiting_steps T ref ls0 s ls s' :
  T ≠ 0 → mgr_inv ls0 s → waiting T ref s → mgr_steps s ls s' → m_now s' < T →
  waiting T ref s' ∧ tries ref ls = 0.
Proof.
  intros HT Hinv Hw. induction 1 as [|ls s1 l s2 Hs IH Hl]; intros Hn; [done|].
  pose proof (m_now_step _ _ _ Hl) as Hle. destruct IH as [Hw1 Ht]; [lia|].
  destruct (waiting_step T ref (ls0 ++ ls) s1 l s2 HT (mgr_inv_run _ _ _ _ Hinv Hs) Hw1 Hl Hn) as [Hw2 Hne].
  split; [done|]. rewrite tries_snoc, Ht. destruct (settled l) as [[r v]|]; [|done].
  rewrite decide_False; [done|]. intros ->. by apply (Hne v).
Qed.

(** ** The loop stays alive *)

Definition alive (s : manager) : Prop :=
  m_running s = true ∧ ∃ p, m_pollers s = [p] ∧
    match p with
    | Busy _ => True
    | Asleep id => ∃ t, map_get (t_pending (m_clock s)) id = Some (t, 0%nat) ∧ t ≤ m_now s + POLL_INTERVAL
    | Ended => False
    end.

Lemma alive_drain s p : m_running s = true → m_pollers s = [p] → alive (drain 0 s).
Proof.
  intros Hr Hp. unfold drain. destruct (dequeue (m_now s) (m_queue s)) as [[r|] q].
  - split; [done|]. cbn. rewrite Hp. by exists (Busy r).
  - split; [done|]. cbn [set_poller m_pollers]. rewrite Hp. eexists. split; [reflexivity|].
    exists (m_now s + POLL_INTERVAL). split; [|done]. apply pending_setTimeout. by left.
Qed.

Lemma alive_step ls s l s' : mgr_inv ls s → alive s → l ≠ MStop → mgr_step s l s' → alive s'.
Proof.
  intros Hinv (Hr & p & Hp & Halive) Hl Hs. destruct Hs as [s|s|s id type data|s i ref out v s' Hi E|s id i Hd|s d Hd].
  - unfold start. rewrite Hr. split; eauto.
  - done.
  - split; [done|]. exists p. done.
  - rewrite Hp in Hi. destruct i as [|i]; [|by destruct i].
    assert (m_running s' = m_running s ∧ m_pollers s' = m_pollers s) as [E1 E2].
    { unfold settle in E. repeat case_match; by simplify_eq. }
    by apply (alive_drain s' p); congruence.
  - apply due_Some in Hd as (t & Ht & _). pose proof (inv_wake _ _ Hinv _ _ _ Ht) as Hi.
    rewrite Hp in Hi. destruct i as [|i]; [|by destruct i].
    unfold poll_top. cbn. rewrite Hr. by apply (alive_drain _ p).
  - split; [done|]. exists p. split; [done|]. destruct p; [done| |done].
    destruct Halive as (t & Ht & Hle). exists t. split; [done|]. unfold m_now in *. cbn. lia.
Qed.

Lemma alive_steps ls0 s ls s' :
  mgr_inv ls0 s → alive s → MStop ∉ ls → mgr_steps s ls s' → alive s'.
Proof.
  intros Hinv Ha Hn Hs. induction Hs as [|ls s1 l s2 Hs IH Hl]; [done|].
  rewrite elem_of_app, list_elem_of_singleton in Hn.
  eapply alive_step; [by eapply mgr_inv_run|apply IH; tauto| |done]. intros ->. tauto.
Qed.

(** ** Properties *)

(** C7: no job is lost, duplicated or run forever. Whatever is submitted,
    however jobs end, and however often the manager is started and stopped,
    every job submitted is in exactly one place: queued, being processed,
    completed, or dead; it failed as often as its counter says, at most three
    times, three exactly when dead; and the dead letters are those of the
    last thousand dead jobs, in order, each with three attempts. *)
Theorem manager_conservation f now ls s :
  mgr_steps (new_manager f now) ls s →
  q_items (m_queue s) ++ in_flight s ++ completed ls ++ dead ls ≡ₚ seq 0 (length (q_jobs (m_queue s))) ∧
  (∀ ref j, q_jobs (m_queue s) !! ref = Some j →
     attempts j = failures ref ls ∧ 0 ≤ attempts j ≤ 3 ∧ (attempts j = 3 ↔ ref ∈ dead ls)) ∧
  map dl_id (deadLetters (m_queue s)) =
    drop (length (dead ls) - MAX_DEAD_LETTERS) (map (λ r, job_id (deref (m_queue s) r)) (dead ls)) ∧
  Forall (λ d, dl_attempts d = 3) (deadLetters (m_queue s)).
Proof.
  intros Hs. apply mgr_inv_steps in Hs as [Hc Hw Hse Hr Hj Hd1 Hd2 Hd3].
  split_and!; [done| |done|].
  - intros ref j Hx. destruct (Hj ref j Hx) as (_ & _ & _ & _ & _ & Ha & Hd & _).
    split; [done|]. assert (0 ≤ failures ref ls) by (unfold failures; lia).
    destruct (decide (ref ∈ dead ls)); split; try lia; split; try done; lia.
  - eapply Forall_impl; [exact Hd3|]. by intros d [? _].
Qed.

(** C32: a job is processed at most three times, completes at most once, and is
    not processed again once it completed or died: while it waits or runs it
    has failed at most twice. *)
Theorem manager_tries_bounded f now ls s ref :
  mgr_steps (new_manager f now) ls s →
  0 ≤ tries ref ls ≤ 3 ∧
  (ref ∈ completed ls → tries ref ls = failures ref ls + 1 ∧ ref ∉ q_items (m_queue s) ∧ ref ∉ in_flight s) ∧
  (ref ∈ dead ls → tries ref ls = 3 ∧ ref ∉ q_items (m_queue s) ∧ ref ∉ in_flight s) ∧
  (ref ∈ q_items (m_queue s) ++ in_flight s → tries ref ls = failures ref ls ∧ tries ref ls ≤ 2).
Proof.
  intros Hs. apply mgr_inv_steps in Hs as Hinv. pose proof Hinv as [_ _ Hse Hr Hj _ _ _].
  pose proof (NoDup_seq 0 (length (q_jobs (m_queue s)))) as Hnd. rewrite <- Hr in Hnd.
  rewrite !NoDup_app in Hnd. setoid_rewrite elem_of_app in Hnd. setoid_rewrite elem_of_app in Hnd.
  destruct Hnd as (_ & Hn1 & _ & Hn2 & Hnc & Hn3 & _).
  rewrite tries_split, filter_eq_NoDup by done.
  destruct (decide (ref < length (q_jobs (m_queue s)))%nat) as [Hlt|Hge].
  - destruct (lookup_lt_is_Some_2 _ _ Hlt) as [j Hx].
    destruct (Hj ref j Hx) as (_ & _ & _ & _ & _ & Ha & Hd & _).
    assert (0 ≤ failures ref ls) by (unfold failures; lia). specialize (Hn1 ref). specialize (Hn2 ref).
    specialize (Hn3 ref). rewrite elem_of_app.
    destruct (decide (ref ∈ dead ls)), (decide (ref ∈ completed ls)); split_and!; try lia; try tauto;
      intros; split_and!; try tauto; lia.
  - rewrite (failures_seen ref ls _ Hse) by lia.
    assert (∀ l : list nat, (∀ x, x ∈ l → x ∈ q_items (m_queue s) ++ in_flight s ++ completed ls ++ dead ls) → ref ∉ l) as Hno.
    { intros l Hl Hin. apply Hl in Hin. rewrite Hr in Hin. apply elem_of_seq in Hin. lia. }
    rewrite decide_False by (apply Hno; set_solver).
    assert (ref ∉ completed ls) by (apply Hno; set_solver). assert (ref ∉ dead ls) by (apply Hno; set_solver).
    assert (ref ∉ q_items (m_queue s) ++ in_flight s) by (apply Hno; set_solver).
    split_and!; [lia|lia|tauto..].
Qed.

(** C22: the backoff holds. A job that fails for the first time stays queued,
    untouched, for at least one second, after its second failure for at least
    two, whatever else the loops do meanwhile. *)
Theorem manager_backoff f now ls s i ref out s1 ls2 s2 :
  0 ≤ now →
  mgr_steps (new_manager f now) ls s →
  mgr_step s (MSettle i ref out Requeued) s1 →
  mgr_steps s1 ls2 s2 →
  (failures ref ls = 0 ∨ failures ref ls = 1) ∧
  (m_now s2 < m_now s + 1000 * (failures ref ls + 1) → ref ∈ q_items (m_queue s2) ∧ tries ref ls2 = 0).
Proof.
  intros Hnow Hs Hf Hs2. pose proof (mgr_inv_steps _ _ _ _ Hs) as Hinv.
  pose proof (m_now_steps _ _ _ Hs) as Hn. cbn in Hn.
  pose proof (mgr_inv_step _ _ _ _ Hinv Hf) as Hinv1. pose proof (m_now_step _ _ _ Hf) as Hn1.
  inversion Hf as [| | |s0 i0 ref0 out0 v0 s' Hi E| |]; subst. clear Hf.
  destruct (in_flight_job ls s i ref Hinv Hi) as (j & Hj & Hok & Ha & _).
  destruct Hok as (Hm & _ & _ & _ & _ & Hat & _ & _).
  assert (0 ≤ failures ref ls) as H0 by (unfold failures; lia).
  unfold settle in E. destruct out as [r|e]; [done|].
  pose proof (requeue_spec (m_now s) ref (m_queue s) j Hj (inv_letters _ _ Hinv)) as Hrq.
  destruct (requeue (m_now s) ref (m_queue s)) as [again q]. destruct Hrq as (Hj' & Ha' & Hcase).
  destruct again; [|done]. injection E as <-. destruct Hcase as [Hit _].
  rewrite Hm in Ha'. symmetry in Ha'. apply Z.ltb_lt in Ha'.
  split; [lia|]. intros Hlt.
  set (T := m_now s + backoff (attempts (deref q ref))) in *.
  assert (T = m_now s + 1000 * (failures ref ls + 1)) as HT.
  { unfold T, deref. rewrite Hj'. cbn. unfold backoff.
    destruct (decide (attempts j = 0)) as [E0|]; [|assert (attempts j = 1) as E0 by lia];
      rewrite <- Hat, E0; reflexivity. }
  assert (waiting T ref (drain i (set_queue (map_job (set_retryAfter T) ref q) s))) as Hw.
  { apply waiting_drain; [lia|unfold m_now in *; cbn; lia|].
    split; cbn; [rewrite Hit; set_solver|]. exists (set_retryAfter T (bump j)).
    by rewrite list_lookup_alter_eq, Hj'. }
  destruct (waiting_steps T ref _ _ _ _ ltac:(lia) Hinv1 Hw Hs2 ltac:(lia)) as [[Hin _] Ht]. done.
Qed.

(** C31: the loop does not die and leaves nothing behind. Once started, and as
    long as [stop] is not called, there is exactly one poll loop, it is
    processing a job or sleeps on a timer due within 500 ms, and every time
    it goes to sleep all the jobs in the queue are in their backoff. *)
Theorem manager_loop_alive f now ls0 s0 ls s :
  mgr_steps (new_manager f now) ls0 s0 → MStart ∉ ls0 →
  mgr_steps (start s0) ls s → MStop ∉ ls →
  m_running s = true ∧
  ((∃ ref, m_pollers s = [Busy ref]) ∨
   ∃ id t, m_pollers s = [Asleep id] ∧ map_get (t_pending (m_clock s)) id = Some (t, 0%nat) ∧
           t ≤ m_now s + POLL_INTERVAL) ∧
  (∀ l s', mgr_step s l s' → (match l with MSettle _ _ _ _ | MWake _ => True | _ => False end) →
     (∃ ref, m_pollers s' = [Busy ref]) ∨
     Forall (λ r, eligible (m_now s') (deref (m_queue s') r) = false) (q_items (m_queue s'))).
Proof.
  intros Hs0 Hn0 Hs Hn. pose proof (mgr_inv_steps _ _ _ _ Hs0) as Hinv0.
  assert (m_running s0 = false ∧ m_pollers s0 = []) as [Hr0 Hp0].
  { clear ls s Hs Hn. revert Hn0 Hinv0. induction Hs0 as [|ls s1 l s2 Hs IH Hl]; intros Hn0 _; [done|].
    rewrite elem_of_app, list_elem_of_singleton in Hn0.
    destruct IH as [Hr Hp]; [tauto|by eapply mgr_inv_steps|].
    pose proof (mgr_inv_steps _ _ _ _ Hs) as Hi.
    destruct Hl as [s|s|s id type data|s i ref out v s' Hx E|s id i Hd|s d Hd]; try done.
    - tauto.
    - by rewrite Hp in Hx.
    - apply due_Some in Hd as (t & Ht & _). apply (inv_wake _ _ Hi) in Ht. by rewrite Hp in Ht. }
  pose proof (mgr_inv_step _ _ _ _ Hinv0 (mgr_start s0)) as Hinv1.
  assert (alive (start s0)) as Ha1.
  { unfold start, poll_top. rewrite Hr0. cbn [m_running]. rewrite Hp0. by apply (alive_drain _ Ended). }
  pose proof (alive_steps _ _ _ _ Hinv1 Ha1 Hn Hs) as Ha. pose proof (mgr_inv_run _ _ _ _ Hinv1 Hs) as Hinv.
  split; [apply Ha|]. destruct Ha as (Hr & p & Hp & Hpa). split.
  - destruct p as [ref|id|]; [left; eauto| |done]. destruct Hpa as (t & ? & ?). right. eauto.
  - intros l s' Hl Hkind.
    assert (∀ s1 q, m_pollers s1 = [q] → (∃ ref, m_pollers (drain 0 s1) = [Busy ref]) ∨
      Forall (λ r, eligible (m_now (drain 0 s1)) (deref (m_queue (drain 0 s1)) r) = false)
             (q_items (m_queue (drain 0 s1)))) as Hdrain.
    { intros s1 q Hq. rewrite m_now_drain. unfold drain.
      pose proof (dequeue_fifo (m_now s1) (m_queue s1)) as Hdq.
      destruct (dequeue (m_now s1) (m_queue s1)) as [[ref|] q'].
      - left. exists ref. cbn. by rewrite Hq.
      - right. destruct Hdq as [_ Hall]. exact Hall. }
    destruct Hl as [s|s|s id type data|s i ref out v s' Hi E|s id i Hd|s d Hd]; try done.
    + rewrite Hp in Hi. destruct i as [|i]; [|by destruct i]. apply (Hdrain s' p).
      assert (m_pollers s' = m_pollers s) as ->; [|done]. unfold settle in E. repeat case_match; by simplify_eq.
    + apply due_Some in Hd as (t & Ht & _). pose proof (inv_wake _ _ Hinv _ _ _ Ht) as Hi.
      rewrite Hp in Hi. destruct i as [|i]; [|by destruct i].
      unfold poll_top. cbn [m_running]. rewrite Hr. by apply (Hdrain _ p).
Qed.

Module ManagerExamples.
Definition cleanup_job : mgr_label := MEnqueue (lit "a") (lit "room:cleanup") None.

Lemma mgr_snoc' f now ls s1 l s2 :
  mgr_steps (new_manager f now) ls s1 → mgr_step s1 l s2 → mgr_steps (new_manager f now) (ls ++ [l]) s2.
Proof. apply mgr_snoc. Qed.

Definition started : manager := start (new_manager true 100).
Definition with_job : manager := set_queue (enqueue (lit "a") (lit "x") None 100 (m_queue started)).2 started.
Definition waited : manager :=
  Manager (m_queue with_job) true (m_timer with_job) (advance (m_clock with_job) 500)
          (m_pollers with_job) true [].
Definition awake : manager :=
  poll_top 0 (Manager (m_queue waited) true (m_timer waited) (clearTimeout (m_clock waited) 0)
                      (m_pollers waited) true []).
Definition failed_once : manager := drain 0 (settle 0 (Rejected (lit "boom")) awake).2.

Definition run_labels : list mgr_label :=
  [MStart; MEnqueue (lit "a") (lit "x") None; MWait 500; MWake 0].

(** A job submitted to a sleeping manager is picked up at the next poll. *)
Lemma run_awake : mgr_steps (new_manager true 100) run_labels awake.
Proof.
  change run_labels with (((([] ++ [MStart]) ++ [MEnqueue (lit "a") (lit "x") None]) ++ [MWait 500]) ++ [MWake 0]).
  repeat eapply mgr_snoc; [apply mgr_nil|apply mgr_start|apply mgr_enqueue|by apply (mgr_wait _ 500)|].
  by apply (mgr_wake waited 0 0).
Qed.

Lemma run_failed : mgr_step awake (MSettle 0 0 (Rejected (lit "boom")) Requeued) failed_once.
Proof. by apply (mgr_settle awake 0 0). Qed.

Lemma manager_conservation_witness :
  q_items (m_queue awake) ++ in_flight awake ++ completed run_labels ++ dead run_labels
    ≡ₚ seq 0 (length (q_jobs (m_queue awake))) ∧ in_flight awake = [0%nat].
Proof. split; [exact (proj1 (manager_conservation _ _ _ _ run_awake)) | reflexivity]. Defined.

Lemma manager_tries_bounded_witness :
  0%nat ∈ q_items (m_queue awake) ++ in_flight awake ∧ tries 0 run_labels ≤ 2.
Proof.
  destruct (manager_tries_bounded _ _ _ _ 0 run_awake) as (_ & _ & _ & H).
  assert (0%nat ∈ q_items (m_queue awake) ++ in_flight awake) as Hin by decided.
  split; [exact Hin | exact (proj2 (H Hin))].
Defined.

(** After the first failure, half a second later. *)
Definition later : manager :=
  Manager (m_queue failed_once) true (m_timer failed_once) (advance (m_clock failed_once) 500)
          (m_pollers failed_once) true [].

Lemma manager_backoff_witness :
  m_now later < m_now awake + 1000 * (failures 0 run_labels + 1) ∧
  0%nat ∈ q_items (m_queue later) ∧ tries 0 [MWait 500] = 0.
Proof.
  destruct (manager_backoff true 100 run_labels awake 0 0 (Rejected (lit "boom")) failed_once [MWait 500] later)
    as [_ H].
  - lia.
  - exact run_awake.
  - exact run_failed.
  - apply (mgr_snoc _ [] failed_once); [apply mgr_nil|]. by apply (mgr_wait failed_once 500).
  - assert (m_now later < m_now awake + 1000 * (failures 0 run_labels + 1)) as Hlt by (vm_compute; reflexivity).
    split; [exact Hlt | exact (H Hlt)].
Defined.

Lemma manager_loop_alive_witness :
  m_running with_job = true ∧
  ((∃ ref, m_pollers with_job = [Busy ref]) ∨
   ∃ id t, m_pollers with_job = [Asleep id] ∧
     map_get (t_pending (m_clock with_job)) id = Some (t, 0%nat) ∧ t ≤ m_now with_job + POLL_INTERVAL).
Proof.
  destruct (manager_loop_alive true 100 [] (new_manager true 100) [MEnqueue (lit "a") (lit "x") None] with_job)
    as (H1 & H2 & _).
  - apply mgr_nil.
  - by apply not_elem_of_nil.
  - apply (mgr_snoc _ [] started); [apply mgr_nil|]. by apply (mgr_enqueue started).
  - intros H. apply list_elem_of_singleton in H. discriminate H.
  - split; [exact H1 | exact H2].
Defined.

(** Two jobs, the first being processed. *)
Definition two_jobs : list mgr_label :=
  [MEnqueue (lit "a") (lit "x") None; MEnqueue (lit "b") (lit "x") None; MStart].

(** [stop] does not stop a loop that is processing a job, since the inner
    loop never looks at [running]: after [stop] it goes on to the next job;
    and a [start] before that job ends adds a second loop next to the first,
    so two jobs are processed at once. *)
Theorem stop_start_overlap :
  (∃ s, mgr_steps (new_manager true 100) (two_jobs ++ [MStop; MSettle 0 0 (Processed JNull) Completed]) s ∧
     m_running s = false ∧ in_flight s = [1%nat]) ∧
  (∃ s, mgr_steps (new_manager true 100) (two_jobs ++ [MStop; MStart]) s ∧ in_flight s = [0%nat; 1%nat]).
Proof.
  split; eexists; split.
  - change (two_jobs ++ _) with ((((([] ++ [MEnqueue (lit "a") (lit "x") None])
      ++ [MEnqueue (lit "b") (lit "x") None]) ++ [MStart]) ++ [MStop]) ++ [MSettle 0 0 (Processed JNull) Completed]).
    repeat eapply mgr_snoc;
      [apply mgr_nil|apply mgr_enqueue|apply mgr_enqueue|apply mgr_start|apply mgr_stop
      |by apply (mgr_settle _ 0 0)].
  - split; reflexivity.
  - change (two_jobs ++ _) with ((((([] ++ [MEnqueue (lit "a") (lit "x") None])
      ++ [MEnqueue (lit "b") (lit "x") None]) ++ [MStart]) ++ [MStop]) ++ [MStart]).
    repeat eapply mgr_snoc;
      [apply mgr_nil|apply mgr_enqueue|apply mgr_enqueue|apply mgr_start|apply mgr_stop|apply mgr_start].
  - reflexivity.
Qed.
End ManagerExamples.

(** The dead letters say what died but never why: the manager does not
    write the error to the job, so [error], [queuedAt] and [scheduledAt] of a
    dead letter are always undefined. *)
Theorem dead_letters_without_error f now ls s :
  mgr_steps (new_manager f now) ls s →
  Forall (λ d, dl_error d = None ∧ dl_queuedAt d = None ∧ dl_scheduledAt d = None) (deadLetters (m_queue s)).
Proof.
  intros Hs. apply mgr_inv_steps in Hs as [Hc Hw Hse Hr Hj Hd1 Hd2 Hd3].
  eapply Forall_impl; [exact Hd3|]. by intros d (_ & ? & ? & ?).
Qed.

(** A job that fails three times. *)
Module DeadLetterExample.
Import ManagerExamples.

(** Three turns: fail, wait two seconds, wake. *)
Definition again (n : nat) (s : manager) : manager :=
  let s := drain 0 (settle 0 (Rejected (lit "boom")) s).2 in
  let s := Manager (m_queue s) (m_running s) (m_timer s) (advance (m_clock s) 2000) (m_pollers s)
                   (m_hasOnResult s) (m_delivered s) in
  poll_top 0 (Manager (m_queue s) (m_running s) (m_timer s) (clearTimeout (m_clock s) n)
                      (m_pollers s) (m_hasOnResult s) (m_delivered s)).

Definition twice : manager := again 2 (again 1 awake).
Definition died : manager := drain 0 (settle 0 (Rejected (lit "boom")) twice).2.

Definition fail (v : verdict) : mgr_label := MSettle 0 0 (Rejected (lit "boom")) v.

Lemma again_steps ls n s :
  mgr_steps (new_manager true 100) ls s → m_pollers s !! 0%nat = Some (Busy 0) →
  (settle 0 (Rejected (lit "boom")) s).1 = Requeued →
  due (advance (m_clock (drain 0 (settle 0 (Rejected (lit "boom")) s).2)) 2000) n = Some 0%nat →
  mgr_steps (new_manager true 100) (((ls ++ [fail Requeued]) ++ [MWait 2000]) ++ [MWake n]) (again n s).
Proof.
  intros Hs Hp Hv Hd. eapply mgr_snoc; [eapply mgr_snoc; [eapply mgr_snoc; [exact Hs|]|]|].
  - eapply mgr_settle; [exact Hp|]. rewrite <- Hv. apply surjective_pairing.
  - by eapply mgr_wait.
  - apply mgr_wake. exact Hd.
Qed.

Lemma dead_letters_without_error_witness :
  map dl_id (deadLetters (m_queue died)) = [lit "a"] ∧
  Forall (λ d, dl_error d = None ∧ dl_queuedAt d = None ∧ dl_scheduledAt d = None) (deadLetters (m_queue died)).
Proof.
  split; [reflexivity|].
  assert (∃ ls, mgr_steps (new_manager true 100) ls died) as [ls Hs].
  { eexists. eapply mgr_snoc; [|apply (mgr_settle twice 0 0 (Rejected (lit "boom")) Dead); reflexivity].
    eapply (again_steps _ 2 (again 1 awake)); [|reflexivity..].
    eapply (again_steps _ 1 awake); [exact run_awake|reflexivity..]. }
  exact (dead_letters_without_error true 100 ls died Hs).
Defined.
End DeadLetterExample.
