(* ===== verification/Worker.v ===== *)
(** * services/worker/src/worker.js: [processJob]

    A job talks to the gateway: [prog] is the sequence of the requests it
    makes and the clock readings it takes, with what it does after each
    answer, and [runs] gives it every behaviour of the network. The checks of
    a batch of rooms run side by side, so a batch is a list of programs whose
    events interleave. The WHATWG URL parser, the date parser and [Buffer.from]
    of what is no string are the platform's ([URL_parse], [Date_parse],
    [Buffer_from]). Logging is left out. *)

From S2P Require Import Prelude JsLib Base64 Text Json Crypto Uri Mime Queue.

Local Open Scope Z_scope.

(** ** The platform *)

Record url := Url { url_protocol : jsstr; url_hostname : jsstr; url_port : jsstr; url_host : jsstr }.

Class Platform := {
  URL_parse : jsstr → option url;          (** [new URL(s)]; [None] throws *)
  Date_parse : option json → option Z;     (** [new Date(v).getTime()]; [None] is [NaN] *)
  Buffer_from : json → result bytes;       (** [Buffer.from(v, 'base64')] of an array, an object, a number *)
  Buffer_from_bytes v b : Buffer_from v = Ok b → Forall is_byte b
}.

(** [String(v)], in a template and where the platform wants a string. *)
Definition to_string (v : option json) : result jsstr := match v with Some v => js_String v | None => Ok (lit "undefined") end.

(** ** Strings the module uses *)

(** [(process.env.X || default).split(',').map(h => h.trim())]. *)
Definition host_list (env : option jsstr) (dflt : jsstr) : list jsstr :=
  map trim (split_char 44 (match env with Some (c :: s) => c :: s | _ => dflt end)).

(** ** Requests and answers *)

Record request := Request { rq_method : jsstr; rq_url : jsstr; rq_body : option jsstr }.

(** [res.json()] may reject. *)
Record response := Response { rs_ok : bool; rs_status : Z; rs_json : result json }.

Definition http_get (u : jsstr) : request := Request (lit "GET") u None.

Inductive prog (A : Type) : Type :=
  | Done (r : result A)
  | Fetch (rq : request) (k : result response → prog A)
  | Now (k : Z → prog A).
Arguments Done {A} r.
Arguments Fetch {A} rq k.
Arguments Now {A} k.

Inductive event :=
  | EFetch (rq : request) (answer : result response)
  | ENow (t : Z).

Inductive runs {A} : prog A → list event → result A → Prop :=
  | runs_done r : runs (Done r) [] r
  | runs_fetch rq k a t r : runs (k a) t r → runs (Fetch rq k) (EFetch rq a :: t) r
  | runs_now k z t r : runs (k z) t r → runs (Now k) (ENow z :: t) r.

(** [await m] then [k]; a rejection goes past [k]. *)
Fixpoint andThen {A B} (m : prog A) (k : A → prog B) : prog B :=
  match m with
  | Done (Ok a) => k a
  | Done (Throw e) => Done (Throw e)
  | Fetch rq f => Fetch rq (λ x, andThen (f x) k)
  | Now f => Now (λ z, andThen (f z) k)
  end.

(** [try { return await m } catch { return h }]. *)
Fixpoint catch {A} (m : prog A) (h : A) : prog A :=
  match m with
  | Done (Ok a) => Done (Ok a)
  | Done (Throw _) => Done (Ok h)
  | Fetch rq f => Fetch rq (λ x, catch (f x) h)
  | Now f => Now (λ z, catch (f z) h)
  end.

Definition fetch (rq : request) : prog response := Fetch rq Done.

(** ** The allowlist *)

Definition ALLOWED_PORTS : list jsstr := [lit "80"; lit "443"; lit "8080"].
Definition default_hosts : jsstr := lit "localhost,127.0.0.1".

Section Worker.
Context `{Platform}.
(** [process.env.ALLOWED_GATEWAY_HOSTS]. *)
Context (env_hosts : option jsstr).

Definition ALLOWED_GATEWAY_HOSTS : list jsstr := host_list env_hosts default_hosts.

(** The port a URL names, or its protocol's. *)
Definition effective_port (u : url) : jsstr :=
  str_or (url_port u)
    (if bool_decide (url_protocol u = lit "https:") then lit "443" else lit "80").

(** [new URL(gatewayURL)] takes the string of what it is given. *)
Definition validateGatewayURL (gatewayURL : option json) : result url :=
  if negb (truthy gatewayURL) then Throw (lit "gatewayURL is required")
  else
    s ← to_string gatewayURL;
    match URL_parse s with
    | None => Throw (lit "Invalid URL")
    | Some parsed =>
        if negb (includes [lit "http:"; lit "https:"] (url_protocol parsed))
           || negb (includes ALLOWED_GATEWAY_HOSTS (url_hostname parsed))
           || negb (includes ALLOWED_PORTS (effective_port parsed))
        then Throw (lit "disallowed gatewayURL host or port: " ++ url_host parsed)
        else Ok parsed
    end.

(** [`${gatewayURL}/api/rooms`] and below it. *)
Definition rooms_url (gatewayURL : jsstr) : jsstr := gatewayURL ++ lit "/api/rooms".
Definition room_url (gatewayURL name action : jsstr) : jsstr :=
  rooms_url gatewayURL ++ lit "/" ++ name ++ lit "/" ++ action.

(** ** ["media:chunk"] *)

(** [for (let i = 0; i < rawBytes.length; i += chunkSize)]: the step is
    positive, so the length is fuel enough. *)
Fixpoint split_loop (fuel : nat) (chunkSize i seq : Z) (raw : bytes) : list (Z * jsstr) :=
  match fuel with
  | O => []
  | S f =>
      if i <? Z.of_nat (length raw) then
        (seq, buffer_to_base64 (slice (Z.to_nat i) (Z.to_nat (i + chunkSize)) raw))
          :: split_loop f chunkSize (i + chunkSize) (seq + 1) raw
      else []
  end.

Definition split_payload (raw : bytes) (chunkSize : Z) : list (Z * jsstr) := split_loop (length raw) chunkSize 0 0 raw.

(** [Buffer.from(payload, 'base64')]. *)
Definition payload_bytes (payload : json) : result bytes :=
  match payload with JStr s => Ok (buffer_from_base64 s) | v => Buffer_from v end.

(** One element of the result. *)
Definition chunk_result_json (data : json) (total : Z) (c : Z * jsstr) : json :=
  let get k := json_get data (lit k) in
  obj [(lit "seq", Some (JNum c.1)); (lit "data", Some (JStr c.2)); (lit "total", Some (JNum total));
       (lit "roomId", get "roomId"); (lit "transferId", get "transferId");
       (lit "mimeType", get "mimeType"); (lit "fileName", get "fileName");
       (lit "fileSize", get "fileSize")].

(** What the room is to receive. *)
Definition forward_payload (id : jsstr) (data : json) (total : Z) (c : Z * jsstr) : json :=
  let get k := json_get data (lit k) in
  obj [(lit "transferId", if truthy (get "transferId") then get "transferId" else Some (JStr id));
       (lit "seq", Some (JNum c.1)); (lit "total", Some (JNum total));
       (lit "mimeType", get "mimeType"); (lit "fileName", get "fileName");
       (lit "fileSize", get "fileSize"); (lit "chunk", Some (JStr c.2))].

(** The body of the broadcast: a ["media"] envelope around it. *)
Definition forward_body (id : jsstr) (data : json) (total : Z) (c : Z * jsstr) : jsstr :=
  JSON_stringify (obj
    [(lit "type", Some (JStr (lit "media")));
     (lit "payload", Some (JStr (JSON_stringify (forward_payload id data total c))))]).

(** [encodeURIComponent(v)], of the string of [v]. *)
Definition encode_value (v : option json) : result jsstr := s ← to_string v; encodeURIComponent s.

(** The loop that forwards the chunks: a failure is logged, the next chunk
    goes on. *)
Fixpoint forward (id gatewayURL : jsstr) (data : json) (total : Z) (cs : list (Z * jsstr))
    (result : json) : prog json :=
  match cs with
  | [] => Done (Ok result)
  | c :: cs' =>
      match encode_value (json_get data (lit "roomId")) with
      | Throw _ => forward id gatewayURL data total cs' result
      | Ok room =>
          Fetch (Request (lit "POST") (room_url gatewayURL room (lit "broadcast"))
                         (Some (forward_body id data total c)))
                (λ _, forward id gatewayURL data total cs' result)
      end
  end.

Definition media_chunk (id : jsstr) (data : json) : prog json :=
  let get k := json_get data (lit k) in
  match get "payload", get "chunkSize" with
  | Some payload, Some (JNum chunkSize) =>
      if negb (truthy (Some payload)) || (chunkSize <=? 0) then
        Done (Throw (lit "media:chunk requires payload and positive chunkSize"))
      else
        match payload_bytes payload with
        | Throw e => Done (Throw e)
        | Ok raw =>
            let chunks := split_payload raw chunkSize in
            let total := Z.of_nat (length chunks) in
            let result := JArr (map (chunk_result_json data total) chunks) in
            if truthy (get "gatewayURL") && truthy (get "roomId") then
              match validateGatewayURL (get "gatewayURL"), to_string (get "gatewayURL") with
              | Ok _, Ok gw => forward id gw data total chunks result
              | Throw e, _ | _, Throw e => Done (Throw e)
              end
            else Done (Ok result)
        end
  | _, _ => Done (Throw (lit "media:chunk requires payload and positive chunkSize"))
  end.

(** ** ["room:cleanup"] *)

Definition defaultStaleThreshold : Z := 30 * 60 * 1000.
Definition CONCURRENCY : nat := 10.

(** A property of a value that may be [null]. *)
Definition prop (v : json) (k : string) : result (option json) :=
  match v with JNull => Throw (lit "TypeError") | _ => Ok (json_get v (lit k)) end.

(** [v > n] on a number; anything else, [undefined] included, compares false. *)
Definition above (v : option json) (n : Z) : bool :=
  match v with Some (JNum x) => x >? n | _ => false end.

(** The TTL of the room is over. *)
Definition ttl_expired (ttl : json) (now : Z) : bool :=
  above (json_get ttl (lit "ttlSeconds")) 0 && above (json_get ttl (lit "expiresAt")) 0 &&
  match json_get ttl (lit "expiresAt") with Some (JNum x) => now >? x | _ => false end.

(** The inner [try]: [true] returns from [shouldCleanRoom]. *)
Definition ttl_check (gatewayURL name : jsstr) : prog bool :=
  andThen (fetch (http_get (room_url gatewayURL name (lit "ttl")))) (λ res,
  if rs_ok res then
    match rs_json res with
    | Throw e => Done (Throw e)
    | Ok JNull => Done (Throw (lit "TypeError"))
    | Ok ttl =>
        if above (json_get ttl (lit "ttlSeconds")) 0 && above (json_get ttl (lit "expiresAt")) 0
        then Now (λ now, Done (Ok (ttl_expired ttl now)))
        else Done (Ok false)
    end
  else Done (Ok false)).

(** No peer and idle for longer than the threshold; an unreadable date is
    [NaN] and never idle. *)
Definition idle_stale (info : json) (now : Z) : bool :=
  match json_get info (lit "peers"), Date_parse (json_get info (lit "lastActivity")) with
  | Some (JNum peers), Some last => (peers =? 0) && (now - last >? defaultStaleThreshold)
  | _, _ => false
  end.

(** [encodeURIComponent(room.name)]. *)
Definition room_name (room : json) : result jsstr :=
  name ← prop room "name"; encode_value name.

(** [shouldCleanRoom(room)] inside its [try]. *)
Definition check_room (gatewayURL name : jsstr) : prog bool :=
  andThen (fetch (http_get (room_url gatewayURL name (lit "info")))) (λ res,
  if negb (rs_ok res) then Done (Ok false)
  else match rs_json res with
  | Throw e => Done (Throw e)
  | Ok info =>
      andThen (catch (ttl_check gatewayURL name) false) (λ expired,
      if expired then Done (Ok true)
      else Now (λ now,
        match info with
        | JNull => Done (Throw (lit "TypeError"))
        | _ => Done (Ok (idle_stale info now))
        end))
  end).

Definition shouldCleanRoom (gatewayURL : jsstr) (room : json) : prog bool :=
  match room_name room with
  | Throw _ => Done (Ok false)
  | Ok name => catch (check_room gatewayURL name) false
  end.

(** The function mapped over a batch. *)
Definition clean_room (gatewayURL : jsstr) (room : json) : prog bool :=
  andThen (shouldCleanRoom gatewayURL room) (λ clean,
  if clean then
    match room_name room with
    | Throw e => Done (Throw e)
    | Ok name =>
        andThen (fetch (Request (lit "POST") (room_url gatewayURL name (lit "cleanup")) None)) (λ res,
        Done (Ok (rs_ok res)))
    end
  else Done (Ok false)).

(** The events of programs that run side by side. *)
Inductive interleaving : list (list event) → list event → Prop :=
  | il_nil ts : Forall (λ t, t = []) ts → interleaving ts []
  | il_step ts i e t rest :
      ts !! i = Some (e :: t) → interleaving (<[i := t]> ts) rest → interleaving ts (e :: rest).

(** [Promise.allSettled] over one batch: every program runs. *)
Inductive batch_runs (gatewayURL : jsstr) : list json → list event → list (result bool) → Prop :=
  | batch_intro rooms ts rs t :
      Forall3 (λ room t r, runs (clean_room gatewayURL room) t r) rooms ts rs →
      interleaving ts t → batch_runs gatewayURL rooms t rs.

(** [results.filter(r => r.status === 'fulfilled' && r.value).length]. *)
Definition fulfilled (rs : list (result bool)) : Z :=
  Z.of_nat (length (List.filter (λ r, match r with Ok b => b | Throw _ => false end) rs)).

(** The loop over the batches, from room [i]. *)
Inductive batches_run (gatewayURL : jsstr) : list json → Z → list event → Z → Prop :=
  | batches_nil cleaned : batches_run gatewayURL [] cleaned [] cleaned
  | batches_cons rooms cleaned t rs t' cleaned' :
      rooms ≠ [] → batch_runs gatewayURL (take CONCURRENCY rooms) t rs →
      batches_run gatewayURL (drop CONCURRENCY rooms) (cleaned + fulfilled rs) t' cleaned' →
      batches_run gatewayURL rooms cleaned (t ++ t') cleaned'.

(** The list of rooms the gateway answers with. *)
Definition fetch_rooms (gatewayURL : jsstr) : prog (list json) :=
  andThen (fetch (http_get (rooms_url gatewayURL))) (λ res,
  if negb (rs_ok res) then Done (Throw (lit "failed to fetch rooms: " ++ dec_int (rs_status res)))
  else match rs_json res with
  | Throw e => Done (Throw e)
  | Ok v =>
      match prop v "rooms" with
      | Ok (Some (JArr rooms)) => Done (Ok rooms)
      | _ => Done (Throw (lit "TypeError"))
      end
  end).

Inductive room_cleanup (data : json) : list event → result json → Prop :=
  | cleanup_invalid e :
      validateGatewayURL (json_get data (lit "gatewayURL")) = Throw e → room_cleanup data [] (Throw e)
  | cleanup_no_rooms u gw t e :
      validateGatewayURL (json_get data (lit "gatewayURL")) = Ok u →
      to_string (json_get data (lit "gatewayURL")) = Ok gw →
      runs (fetch_rooms gw) t (Throw e) → room_cleanup data t (Throw e)
  | cleanup_done u gw t rooms t' cleaned :
      validateGatewayURL (json_get data (lit "gatewayURL")) = Ok u →
      to_string (json_get data (lit "gatewayURL")) = Ok gw →
      runs (fetch_rooms gw) t (Ok rooms) → batches_run gw rooms 0 t' cleaned →
      room_cleanup data (t ++ t')
        (Ok (JObj [(lit "checked", JNum (Z.of_nat (length rooms))); (lit "cleaned", JNum cleaned)])).

(** ** [processJob(job)]: its events and what it settles to *)

Definition data_of (j : job) : json :=
  match job_data j with
  | Some d => if truthy (Some d) then d else JObj []
  | None => JObj []
  end.

Inductive processJob (j : job) : list event → result json → Prop :=
  | process_media t r :
      job_type j = lit "media:chunk" → runs (media_chunk (job_id j) (data_of j)) t r → processJob j t r
  | process_cleanup t r :
      job_type j = lit "room:cleanup" → room_cleanup (data_of j) t r → processJob j t r
  | process_unknown :
      job_type j ≠ lit "media:chunk" → job_type j ≠ lit "room:cleanup" →
      processJob j [] (Throw (lit "unknown job type: " ++ job_type j)).
End Worker.

(** ** Runs of the combinators *)

Lemma runs_andThen {A B} (m : prog A) (k : A → prog B) t r :
  runs (andThen m k) t r →
  (∃ e, runs m t (Throw e) ∧ r = Throw e) ∨
  (∃ t1 t2 a, t = t1 ++ t2 ∧ runs m t1 (Ok a) ∧ runs (k a) t2 r).
Proof.
  revert t. induction m as [[a|e]|rq f IH|f IH]; cbn [andThen]; intros t Hr.
  - right. exists [], t, a. split_and!; [done|constructor|done].
  - inversion Hr; subst. left. exists e. split; [constructor|done].
  - inversion Hr as [|? ? x t' ? Hx|]; subst. destruct (IH x t' Hx) as [(e & He & ->)|(t1 & t2 & a & -> & H1 & H2)].
    + left. exists e. split; [by constructor|done].
    + right. exists (EFetch rq x :: t1), t2, a. split_and!; [done|by constructor|done].
  - inversion Hr as [| |? x t' ? Hx]; subst. destruct (IH x t' Hx) as [(e & He & ->)|(t1 & t2 & a & -> & H1 & H2)].
    + left. exists e. split; [by constructor|done].
    + right. exists (ENow x :: t1), t2, a. split_and!; [done|by constructor|done].
Qed.

Lemma runs_catch {A} (m : prog A) h t r :
  runs (catch m h) t r → (∃ a, runs m t (Ok a) ∧ r = Ok a) ∨ (∃ e, runs m t (Throw e) ∧ r = Ok h).
Proof.
  revert t. induction m as [[a|e]|rq f IH|f IH]; cbn [catch]; intros t Hr.
  - inversion Hr; subst. left. exists a. split; [constructor|done].
  - inversion Hr; subst. right. exists e. split; [constructor|done].
  - inversion Hr as [|? ? x t' ? Hx|]; subst.
    destruct (IH x t' Hx) as [(a & ? & ->)|(e & ? & ->)]; [left; exists a|right; exists e]; (split; [by constructor|done]).
  - inversion Hr as [| |? x t' ? Hx]; subst.
    destruct (IH x t' Hx) as [(a & ? & ->)|(e & ? & ->)]; [left; exists a|right; exists e]; (split; [by constructor|done]).
Qed.

Lemma runs_fetch_inv rq t r : runs (fetch rq) t r → t = [EFetch rq r].
Proof.
  unfold fetch. intros Hr. inversion Hr as [|? ? x t' ? Hx|]; subst. by inversion Hx; subst.
Qed.

Lemma runs_Done {A} (a : result A) t r : runs (Done a) t r → t = [] ∧ r = a.
Proof. intros Hr. by inversion Hr. Qed.

Ltac run_inv :=
  repeat match goal with
  | H : runs (Done _) _ _ |- _ => apply runs_Done in H as [? ?]; subst
  | H : runs (fetch _) _ _ |- _ => apply runs_fetch_inv in H; subst
  | H : runs (Now _) _ _ |- _ => let z := fresh "now" in inversion H as [| |? z ? ? ?]; subst; clear H
  | H : runs (andThen _ _) _ _ |- _ => apply runs_andThen in H as [(? & ? & ?)|(? & ? & ? & ? & ? & ?)]; subst
  | H : runs (catch _ _) _ _ |- _ => apply runs_catch in H as [(? & ? & ?)|(? & ? & ?)]; subst
  | H : Ok _ = Ok _ |- _ => injection H as ?; subst
  | H : Throw _ = Ok _ |- _ => discriminate H
  | H : Ok _ = Throw _ |- _ => discriminate H
  end.

(** ** Interleavings *)

Lemma interleaving_elem ts t e : interleaving ts t → e ∈ t → ∃ i ti, ts !! i = Some ti ∧ e ∈ ti.
Proof.
  induction 1 as [ts|ts i e' t' rest Hi _ IH]; intros He; [by apply not_elem_of_nil in He|].
  apply elem_of_cons in He as [->|He].
  - exists i, (e' :: t'). split; [done|by left].
  - destruct (IH He) as (j & tj & Hj & Hin). destruct (decide (i = j)) as [<-|Hne].
    + rewrite list_lookup_insert_eq in Hj by (by eapply lookup_lt_Some). injection Hj as <-.
      exists i, (e' :: t'). split; [done|by right].
    + rewrite list_lookup_insert_ne in Hj by done. eauto.
Qed.

Lemma interleaving_sub ts t i ti e : interleaving ts t → ts !! i = Some ti → e ∈ ti → e ∈ t.
Proof.
  intros Hil. revert i ti. induction Hil as [ts Hts|ts j e' t' rest Hj _ IH]; intros i ti Hi He.
  - rewrite Forall_lookup in Hts. rewrite (Hts i ti Hi) in He. by apply not_elem_of_nil in He.
  - destruct (decide (j = i)) as [->|Hne].
    + rewrite Hi in Hj. injection Hj as ->. apply elem_of_cons in He as [->|He]; [by left|]. right.
      eapply IH; [|exact He]. apply list_lookup_insert_eq. by eapply lookup_lt_Some.
    + right. eapply IH; [|exact He]. by rewrite list_lookup_insert_ne.
Qed.

(** What comes before an event in its own program comes before it in the whole. *)
Lemma interleaving_split ts p e q :
  interleaving ts (p ++ e :: q) → ∃ i p' q', ts !! i = Some (p' ++ e :: q') ∧ ∀ x, x ∈ p' → x ∈ p.
Proof.
  revert ts. induction p as [|e0 p IH]; intros ts Hil; inversion Hil as [|? i e' t' rest Hi Hrest]; subst.
  - exists i, [], t'. split; [done|]. by intros x ?%not_elem_of_nil.
  - destruct (IH _ Hrest) as (j & p' & q' & Hj & Hsub). destruct (decide (i = j)) as [<-|Hne].
    + rewrite list_lookup_insert_eq in Hj by (by eapply lookup_lt_Some). injection Hj as ->.
      exists i, (e0 :: p'), q'. split; [done|]. intros x [->|Hx]%elem_of_cons; [by left|right; auto].
    + rewrite list_lookup_insert_ne in Hj by done. exists j, p', q'. split; [done|]. intros x Hx. right. auto.
Qed.

Lemma interleaving_count (f : event → bool) ts t :
  interleaving ts t →
  length (List.filter f t) = list_sum (map (λ ti, length (List.filter f ti)) ts).
Proof.
  induction 1 as [ts Hts|ts i e t' rest Hi _ IH]; cbn.
  - induction Hts as [|x ts -> _ IH]; [done|exact IH].
  - assert (∀ x y l, l !! i = Some x →
      (list_sum (map (λ ti, length (List.filter f ti)) (<[i := y]> l)) + length (List.filter f x) =
       list_sum (map (λ ti, length (List.filter f ti)) l) + length (List.filter f y))%nat) as Hsum.
    { clear. induction i as [|i IH]; intros x y [|z l] Hl; try done; cbn in *.
      - injection Hl as ->. lia.
      - specialize (IH x y l Hl). change (foldr Init.Nat.add 0%nat) with list_sum. unfold insert in *. lia. }
    specialize (Hsum (e :: t') t' ts Hi). rewrite <- IH in Hsum. cbn in Hsum.
    destruct (f e); cbn in *; lia.
Qed.

(** ** What the checks of a room ask and when they clean *)

Definition is_post (e : event) : bool :=
  match e with EFetch rq _ => bool_decide (rq_method rq = lit "POST") | ENow _ => false end.

(** A POST the gateway answered with a 2xx. *)
Definition ok_post (e : event) : bool :=
  is_post e && match e with EFetch _ (Ok res) => rs_ok res | _ => false end.

(** The programs whose events all satisfy [P]. *)
Definition emits {A} (P : event → Prop) (m : prog A) : Prop := ∀ t r, runs m t r → Forall P t.

Lemma emits_Done {A} P (r : result A) : emits P (Done r).
Proof. intros t r' Hr. apply runs_Done in Hr as [-> _]. constructor. Qed.

Lemma emits_fetch (P : event → Prop) rq : (∀ a, P (EFetch rq a)) → emits P (fetch rq).
Proof. intros HP t r Hr. apply runs_fetch_inv in Hr as ->. by constructor. Qed.

Lemma emits_Now {A} (P : event → Prop) (k : Z → prog A) :
  (∀ z, P (ENow z)) → (∀ z, emits P (k z)) → emits P (Now k).
Proof. intros HP Hk t r Hr. inversion Hr; subst. constructor; [done|by eapply Hk]. Qed.

Lemma emits_andThen {A B} P (m : prog A) (k : A → prog B) :
  emits P m → (∀ a, emits P (k a)) → emits P (andThen m k).
Proof.
  intros Hm Hk t r Hr. apply runs_andThen in Hr as [(e & He & _)|(t1 & t2 & a & -> & H1 & H2)];
    [by eapply Hm|]. apply Forall_app. split; [by eapply Hm | by eapply Hk].
Qed.

Lemma emits_catch {A} P (m : prog A) h : emits P m → emits P (catch m h).
Proof. intros Hm t r Hr. apply runs_catch in Hr as [(? & ? & _)|(? & ? & _)]; by eapply Hm. Qed.

Create HintDb emits.
#[export] Hint Resolve emits_Done emits_fetch emits_Now emits_andThen emits_catch : emits.

Lemma runs_elem {A} (m : prog A) (P : event → Prop) t r e : emits P m → runs m t r → e ∈ t → P e.
Proof. intros Hm Hr He. specialize (Hm t r Hr). rewrite Forall_forall in Hm. auto. Qed.

Section CleanupFacts.
Context {platform : Platform}.

(** A request of the checks: a GET of the room. *)
Definition room_get (gw name : jsstr) (e : event) : Prop :=
  match e with
  | EFetch rq _ => ∃ action, action ∈ [lit "info"; lit "ttl"] ∧ rq = http_get (room_url gw name action)
  | ENow _ => True
  end.

Lemma ttl_check_emits gw name : emits (room_get gw name) (ttl_check gw name).
Proof.
  unfold ttl_check. apply emits_andThen.
  - apply emits_fetch. intros a. exists (lit "ttl"). split; [decided|done].
  - intros res. repeat case_match; auto with emits. all: apply emits_Now; auto with emits; done.
Qed.

Lemma check_room_emits gw name : emits (room_get gw name) (check_room gw name).
Proof.
  unfold check_room. apply emits_andThen.
  - apply emits_fetch. intros a. exists (lit "info"). split; [decided|done].
  - intros res. destruct (rs_ok res); cbn [negb]; [|auto with emits]. destruct (rs_json res) as [info|e]; [|auto with emits].
    apply emits_andThen; [apply emits_catch, ttl_check_emits|]. intros [|]; [auto with emits|].
    apply emits_Now; [done|]. intros z. destruct info; auto with emits.
Qed.

(** The answers that make a room stale: no peer and idle past the threshold,
    or a TTL that is over. *)
Definition evidence (gw name : jsstr) (t : list event) : Prop :=
  (∃ res info now, EFetch (http_get (room_url gw name (lit "info"))) (Ok res) ∈ t ∧ rs_ok res = true ∧
     rs_json res = Ok info ∧ ENow now ∈ t ∧ idle_stale info now = true) ∨
  (∃ res ttl now, EFetch (http_get (room_url gw name (lit "ttl"))) (Ok res) ∈ t ∧ rs_ok res = true ∧
     rs_json res = Ok ttl ∧ ENow now ∈ t ∧ ttl_expired ttl now = true).

Lemma evidence_mono gw name t t' : (∀ e, e ∈ t → e ∈ t') → evidence gw name t → evidence gw name t'.
Proof.
  intros Hsub [(res & v & now & ? & ? & ? & ? & ?)|(res & v & now & ? & ? & ? & ? & ?)];
    [left|right]; exists res, v, now; split_and!; auto.
Qed.

(** Every POST is the cleanup of a room, on evidence that came before it. *)
Definition justified (gw : jsstr) (t : list event) : Prop :=
  ∀ p e q, t = p ++ e :: q → is_post e = true →
    ∃ name, (∃ a, e = EFetch (Request (lit "POST") (room_url gw name (lit "cleanup")) None) a) ∧ evidence gw name p.

Lemma justified_none gw t : Forall (λ e, is_post e = false) t → justified gw t.
Proof. intros Ht p e q -> Hp. apply Forall_app in Ht as [_ Ht]. apply Forall_cons in Ht as [Ht _]. congruence. Qed.

Lemma justified_app gw t1 t2 : justified gw t1 → justified gw t2 → justified gw (t1 ++ t2).
Proof.
  intros H1 H2 p e q E Hp. apply app_eq_inv in E as [(k & -> & E)|(k & -> & ->)].
  - destruct k as [|e' k].
    + destruct (H2 [] e q) as (name & Ha & Hev); [done..|]. exists name. split; [done|].
      eapply evidence_mono; [|exact Hev]. by intros x ?%not_elem_of_nil.
    + injection E as <- ->. destruct (H1 p e k) as (name & ? & ?); [done..|]. by exists name.
  - destruct (H2 k e q) as (name & Ha & Hev); [done..|]. exists name. split; [done|].
    eapply evidence_mono; [|exact Hev]. intros x Hx. apply elem_of_app. by right.
Qed.

Lemma justified_last gw name t1 a :
  Forall (λ e, is_post e = false) t1 → evidence gw name t1 →
  justified gw (t1 ++ [EFetch (Request (lit "POST") (room_url gw name (lit "cleanup")) None) a]).
Proof.
  intros Ht Hev p e q E Hp. destruct q as [|z q _] using rev_ind.
  - apply app_inj_tail in E as [-> <-]. exists name. split; [eauto|done].
  - change (e :: q ++ [z]) with ((e :: q) ++ [z]) in E. rewrite app_assoc in E. apply app_inj_tail in E as [-> _].
    apply Forall_app in Ht as [_ Ht]. apply Forall_cons in Ht as [Ht _]. congruence.
Qed.

Lemma justified_interleaving gw ts t : interleaving ts t → (∀ i ti, ts !! i = Some ti → justified gw ti) → justified gw t.
Proof.
  intros Hil Hts p e q -> Hp. apply interleaving_split in Hil as (i & p' & q' & Hi & Hsub).
  destruct (Hts i _ Hi p' e q') as (name & ? & Hev); [done..|]. exists name. split; [done|]. by eapply evidence_mono.
Qed.

Lemma ttl_check_true gw name t : runs (ttl_check gw name) t (Ok true) → evidence gw name t.
Proof.
  unfold ttl_check. intros Hr. run_inv. destruct (rs_ok x1) eqn:Eok; [|by run_inv].
  destruct (rs_json x1) as [v|e] eqn:Ej; [|by run_inv].
  assert (runs (if above (json_get v (lit "ttlSeconds")) 0 && above (json_get v (lit "expiresAt")) 0
     then Now (λ now, Done (Ok (ttl_expired v now))) else Done (Ok false)) x0 (Ok true)) as Hr
    by (destruct v; try done; by run_inv).
  case_match; [|by run_inv]. run_inv. right. exists x1, v, now.
  split_and!; try done; [by left|right; by left].
Qed.

Lemma check_room_true gw name t : runs (check_room gw name) t (Ok true) → evidence gw name t.
Proof.
  unfold check_room. intros Hr. apply runs_andThen in Hr as [(? & _ & [=])|(t1 & t2 & res & -> & H1 & Hr)].
  apply runs_fetch_inv in H1 as ->. destruct (rs_ok res) eqn:Eok; cbn [negb] in *; [|by run_inv].
  destruct (rs_json res) as [v|e] eqn:Ej; [|by run_inv].
  apply runs_andThen in Hr as [(? & _ & [=])|(t3 & t4 & expired & -> & H3 & Hr)].
  destruct expired.
  - apply runs_catch in H3 as [(? & H3 & [= <-])|(? & _ & [=])]. run_inv.
    eapply evidence_mono; [|by eapply ttl_check_true]. set_solver.
  - run_inv. all: left; exists res, v, now; destruct v; run_inv; split_and!; try done; set_solver.
Qed.

Lemma room_gets_no_post gw name t : Forall (room_get gw name) t → Forall (λ e, is_post e = false) t.
Proof.
  intros H. eapply Forall_impl; [exact H|]. intros [rq a|z]; [|done].
  by intros (action & _ & ->).
Qed.

Lemma no_post_count t : Forall (λ e, is_post e = false) t → List.filter ok_post t = [].
Proof. induction 1 as [|e t He _ IH]; [done|]. cbn. unfold ok_post at 1. by rewrite He. Qed.

Lemma ok_post_answer u res :
  List.filter ok_post [EFetch (Request (lit "POST") u None) (Ok res)]
  = if rs_ok res then [EFetch (Request (lit "POST") u None) (Ok res)] else [].
Proof. reflexivity. Qed.

(** An event of the cleanup of room [name]. *)
Definition cleanup_event (gw name : jsstr) (e : event) : Prop :=
  match e with
  | EFetch rq _ => ∃ action, action ∈ [lit "info"; lit "ttl"; lit "cleanup"] ∧ rq_url rq = room_url gw name action
  | ENow _ => True
  end.

(** The cleanup of one room posts at most once, at the end, and only on
    evidence; its result says whether the gateway agreed. *)
Lemma clean_room_spec gw room t r :
  runs (clean_room gw room) t r →
  (t = [] ∨ ∃ name, room_name room = Ok name ∧ Forall (cleanup_event gw name) t) ∧
  justified gw t ∧
  length (List.filter ok_post t) = (match r with Ok true => 1 | _ => 0 end)%nat.
Proof.
  unfold clean_room, shouldCleanRoom. destruct (room_name room) as [name|e] eqn:En; intros Hr.
  2:{ cbn in Hr. run_inv. split_and!; [by left|by apply justified_none|done]. }
  assert (∀ t, Forall (room_get gw name) t → Forall (cleanup_event gw name) t) as Hweak.
  { intros t' Ht. eapply Forall_impl; [exact Ht|]. intros [rq a|z]; [|done]. intros (action & Ha & ->).
    exists action. split; [set_solver|done]. }
  apply runs_andThen in Hr as [(e & Hr & ->)|(t1 & t2 & clean & -> & Hc & Hr)].
  { apply runs_catch in Hr as [(? & _ & [=])|(? & _ & [=])]. }
  assert (Forall (room_get gw name) t1) as Hg by (eapply emits_catch; [apply check_room_emits|exact Hc]).
  pose proof (room_gets_no_post _ _ _ Hg) as Hnp. rewrite List.filter_app, (no_post_count _ Hnp). cbn [app].
  destruct clean.
  - assert (evidence gw name t1) as Hev.
    { apply runs_catch in Hc as [(? & Hc & [= <-])|(? & _ & [=])]. by eapply check_room_true. }
    assert (∀ a, Forall (cleanup_event gw name) (t1 ++ [EFetch (Request (lit "POST") (room_url gw name (lit "cleanup")) None) a])) as Hall.
    { intros a. apply Forall_app. split; [by apply Hweak|]. constructor; [|constructor].
      exists (lit "cleanup"). split; [decided|done]. }
    apply runs_andThen in Hr as [(e & Hr & ->)|(t3 & t4 & res & -> & H3 & H4)].
    + apply runs_fetch_inv in Hr as ->. split_and!; [right; by exists name|by apply justified_last|done].
    + apply runs_fetch_inv in H3 as ->. apply runs_Done in H4 as [-> ->]. rewrite app_nil_r.
      split_and!; [right; by exists name|by apply justified_last|by rewrite ok_post_answer; destruct (rs_ok res)].
  - apply runs_Done in Hr as [-> ->]. rewrite app_nil_r. split_and!; [right; eauto|by apply justified_none|done].
Qed.

(** Batches put the rooms together. *)
Definition rooms_event (gw : jsstr) (e : event) : Prop :=
  match e with
  | EFetch rq _ =>
      ∃ name enc action, encodeURIComponent name = Ok enc ∧
        action ∈ [lit "info"; lit "ttl"; lit "cleanup"; lit "broadcast"] ∧ rq_url rq = room_url gw enc action
  | ENow _ => True
  end.

Lemma room_name_encoded room enc : room_name room = Ok enc → ∃ name, encodeURIComponent name = Ok enc.
Proof.
  unfold room_name. intros (v & _ & (name & _ & Hv)%bind_Ok)%bind_Ok. by exists name.
Qed.

(** What holds of the events of a cleanup, and of how many rooms it cleaned. *)
Definition cleanup_ok (gw : jsstr) (t : list event) (cleaned : Z) : Prop :=
  Forall (rooms_event gw) t ∧ justified gw t ∧ Z.of_nat (length (List.filter ok_post t)) = cleaned.

Lemma cleanup_ok_app gw t1 c1 t2 c2 :
  cleanup_ok gw t1 c1 → cleanup_ok gw t2 c2 → cleanup_ok gw (t1 ++ t2) (c1 + c2).
Proof.
  intros (H1 & H2 & H3) (H4 & H5 & H6). split_and!; [by apply Forall_app|by apply justified_app|].
  rewrite List.filter_app, length_app. lia.
Qed.

Lemma batch_ok gw rooms t rs : batch_runs gw rooms t rs → cleanup_ok gw t (fulfilled rs) ∧ length rs = length rooms.
Proof.
  intros [rooms' ts rs' t' H3 Hil].
  assert (∀ i ti, ts !! i = Some ti → ∃ room r, runs (clean_room gw room) ti r) as Hrun.
  { intros i ti Hi. destruct (Forall3_lookup_m _ _ _ _ _ _ H3 Hi) as (room & r & _ & _ & ?). eauto. }
  split; [|symmetry; eapply Forall3_length_lr; exact H3]. split_and!.
  - apply Forall_forall. intros e He. destruct (interleaving_elem _ _ _ Hil He) as (i & ti & Hi & Hin).
    destruct (Hrun i ti Hi) as (room & r & Hr). destruct (clean_room_spec gw room ti r Hr) as (Hev & _).
    destruct Hev as [->|(enc & Hn & Hev)]; [by apply not_elem_of_nil in Hin|].
    rewrite Forall_forall in Hev. specialize (Hev e Hin). destruct e as [rq a|z]; [|done].
    destruct Hev as (action & Ha & Hu). destruct (room_name_encoded _ _ Hn) as (name & ?).
    exists name, enc, action. split_and!; [done|set_solver|done].
  - eapply justified_interleaving; [exact Hil|]. intros i ti Hi. destruct (Hrun i ti Hi) as (room & r & Hr).
    by destruct (clean_room_spec gw room ti r Hr) as (_ & ? & _).
  - rewrite (interleaving_count ok_post ts t' Hil). unfold fulfilled. f_equal. clear Hil Hrun.
    clear -H3. induction H3 as [|room ti r rooms' ts rs' Hr _ IH]; [done|].
    destruct (clean_room_spec gw room ti r Hr) as (_ & _ & Hc). cbn. rewrite Hc.
    destruct r as [[|]|]; cbn; unfold list_sum in IH; lia.
Qed.

Lemma batches_ok gw rooms c t c' :
  batches_run gw rooms c t c' → cleanup_ok gw t (c' - c) ∧ c ≤ c' ≤ c + Z.of_nat (length rooms).
Proof.
  induction 1 as [c|rooms c t rs t' c' Hne Hb _ [IH IHc]].
  - rewrite Z.sub_diag. split; [|cbn; lia]. split_and!; [constructor|by apply justified_none|done].
  - apply batch_ok in Hb as [Hb Hl]. replace (c' - c) with (fulfilled rs + (c' - (c + fulfilled rs))) by lia.
    split; [by apply cleanup_ok_app|].
    assert (0 ≤ fulfilled rs ≤ Z.of_nat (length rs)) as Hf.
    { unfold fulfilled. clear. induction rs as [|r rs IH]; cbn; [done|]. destruct r as [[|]|]; cbn; lia. }
    rewrite length_drop in IHc. rewrite length_take in Hl. lia.
Qed.
End CleanupFacts.

(** ** Splitting *)

Lemma split_loop_spec fuel size i s raw :
  0 < size → 0 ≤ i → Z.of_nat (length raw) - i ≤ Z.of_nat fuel * size → Forall is_byte raw →
  let cs := split_loop fuel size i s raw in
  concat (map (λ c, buffer_from_base64 c.2) cs) = drop (Z.to_nat i) raw ∧
  map fst cs = seqZ s (Z.of_nat (length cs)) ∧
  Forall (λ c, 0 < Z.of_nat (length (buffer_from_base64 c.2)) ≤ size) cs ∧
  (i ≤ Z.of_nat (length raw) →
   Z.of_nat (length raw) - i ≤ Z.of_nat (length cs) * size < Z.of_nat (length raw) - i + size).
Proof.
  intros Hs. revert i s. induction fuel as [|fuel IH]; intros i s Hi Hf Hraw; cbn [split_loop].
  - cbn. split_and!; [|done|done|lia]. symmetry. apply drop_ge. lia.
  - destruct (i <? Z.of_nat (length raw)) eqn:E; [|cbn; split_and!; [symmetry; apply drop_ge; lia|done|done|lia]].
    destruct (IH (i + size) (s + 1) ltac:(lia) ltac:(lia) Hraw) as (H1 & H2 & H3 & H4).
    set (cs := split_loop fuel size (i + size) (s + 1) raw) in *.
    assert (Forall is_byte (slice (Z.to_nat i) (Z.to_nat (i + size)) raw)) as Hb
      by (unfold slice; by apply Forall_take, Forall_drop).
    assert (length (slice (Z.to_nat i) (Z.to_nat (i + size)) raw)
            = Nat.min (Z.to_nat size) (length raw - Z.to_nat i)) as Hl.
    { unfold slice. rewrite length_take, length_drop. lia. }
    cbn [map concat fst snd length]. rewrite buffer_from_to_base64 by done. split_and!.
    + rewrite H1. unfold slice. replace (Z.to_nat (i + size)) with (Z.to_nat i + Z.to_nat size)%nat by lia.
      rewrite <- drop_drop. replace (Z.to_nat i + Z.to_nat size - Z.to_nat i)%nat with (Z.to_nat size) by lia.
      apply take_drop.
    + rewrite H2. rewrite (seqZ_cons s (Z.of_nat (S (length cs)))) by lia. f_equal. unfold Z.succ, Z.pred.
      f_equal; lia.
    + constructor; [|done]. cbn [snd]. rewrite buffer_from_to_base64, Hl by done. lia.
    + intros _. destruct (decide (i + size ≤ Z.of_nat (length raw))); [lia|].
      assert (length cs = 0%nat) as Hz; [|lia].
      unfold cs. destruct fuel as [|fuel']; [done|]. cbn [split_loop].
      replace (i + size <? Z.of_nat (length raw)) with false by lia. done.
Qed.

Section ForwardFacts.
Context {platform : Platform} (env_hosts : option jsstr).

Lemma forward_failed id gw data total cs result t r e :
  encode_value (json_get data (lit "roomId")) = Throw e →
  runs (forward id gw data total cs result) t r → t = [] ∧ r = Ok result.
Proof.
  intros He. induction cs as [|c cs IH]; cbn [forward]; intros Hr; [by apply runs_Done in Hr|].
  rewrite He in Hr. auto.
Qed.

(** The events of the forwarding: one POST per chunk, in order. *)
Lemma forward_runs id gw data total cs result t r room :
  encode_value (json_get data (lit "roomId")) = Ok room →
  runs (forward id gw data total cs result) t r →
  r = Ok result ∧
  Forall2 (λ e c, ∃ a, e = EFetch (Request (lit "POST") (room_url gw room (lit "broadcast"))
                                           (Some (forward_body id data total c))) a) t cs.
Proof.
  intros He. revert t. induction cs as [|c cs IH]; cbn [forward]; intros t Hr.
  - apply runs_Done in Hr as [-> ->]. split; [done|constructor].
  - rewrite He in Hr. inversion Hr as [|? ? a t' ? Hx|]; subst.
    destruct (IH t' Hx) as [-> H2]. split; [done|]. constructor; eauto.
Qed.

(** What the gateway reads in the body of a forwarded chunk. *)
Lemma forward_body_type id data total c :
  json_wf data = true → Forall is_unit id → Forall is_unit c.2 →
  ∃ v, JSON_parse (forward_body id data total c) = Ok v ∧ json_get v (lit "type") = Some (JStr (lit "media")).
Proof.
  intros Hd Hid Hc. unfold forward_body.
  assert (json_wf (forward_payload id data total c) = true) as Hwf.
  { apply obj_wf; [decided|].
    assert (∀ k v, json_get data k = Some v → json_wf v = true) as Hg
      by (intros k v; by apply json_get_wf).
    rewrite !Forall_cons, Forall_nil. cbn [fst snd]. split_and!; try decided; intros v Hv;
      try (exact (Hg _ _ Hv)); try (injection Hv as <-; done).
    - destruct (truthy _); [exact (Hg _ _ Hv)|]. injection Hv as <-. cbn. by apply bool_decide_eq_true.
    - injection Hv as <-. cbn. by apply bool_decide_eq_true. }
  apply stringify_wf in Hwf. revert Hwf. generalize (JSON_stringify (forward_payload id data total c)) as text.
  intros text Hwf. eexists. split.
  - apply JSON_parse_stringify. apply obj_wf; [decided|].
    rewrite !Forall_cons, Forall_nil. cbn [fst snd]. split_and!; try decided; intros v Hv; injection Hv as <-;
      [decided|exact Hwf].
  - by rewrite json_get_obj by decided.
Qed.

Lemma payload_bytes_ok v raw : payload_bytes v = Ok raw → Forall is_byte raw.
Proof.
  unfold payload_bytes. destruct v; try (intros; by eapply Buffer_from_bytes).
  intros [= <-]. apply buffer_from_base64_bytes.
Qed.

Lemma b64_units_split raw size c : Forall is_byte raw → 0 < size → c ∈ split_payload raw size → Forall is_unit c.2.
Proof.
  intros Hraw Hs. unfold split_payload.
  generalize (length raw) at 1 as fuel. intros fuel. generalize 0 at 1 as i. generalize 0 as s.
  revert c. induction fuel as [|fuel IH]; intros c s i; cbn [split_loop]; [by intros ?%not_elem_of_nil|].
  destruct (i <? Z.of_nat (length raw)); [|by intros ?%not_elem_of_nil].
  intros [->|Hin]%elem_of_cons; [|by eapply IH]. cbn [snd].
  apply b64_units. unfold slice. by apply Forall_take, Forall_drop.
Qed.
End ForwardFacts.

Section FetchRooms.
Context {platform : Platform}.

Lemma fetch_rooms_trace gw t r : runs (fetch_rooms gw) t r → ∃ a, t = [EFetch (http_get (rooms_url gw)) a].
Proof.
  unfold fetch_rooms. intros Hr. apply runs_andThen in Hr as [(e & Hr & _)|(t1 & t2 & res & -> & H1 & H2)].
  - apply runs_fetch_inv in Hr as ->. eauto.
  - apply runs_fetch_inv in H1 as ->. exists (Ok res).
    assert (t2 = []) as ->; [|done]. repeat case_match; by apply runs_Done in H2 as [-> _].
Qed.

Lemma fetch_rooms_url gw t r rq a : runs (fetch_rooms gw) t r → EFetch rq a ∈ t → rq_url rq = rooms_url gw.
Proof.
  intros Hr Hin. apply fetch_rooms_trace in Hr as (a' & ->). apply list_elem_of_singleton in Hin.
  by injection Hin as ->.
Qed.
End FetchRooms.

(** Pointwise implication where the second list's elements are known. *)
Lemma Forall2_impl_elem {A B} (P Q : A → B → Prop) l k :
  Forall2 P l k → (∀ x y, y ∈ k → P x y → Q x y) → Forall2 Q l k.
Proof.
  induction 1 as [|x y l k Hxy _ IH]; intros H; constructor.
  - apply H; [by left|done].
  - apply IH. intros x' y' Hin. apply H. by right.
Qed.

(** ** Properties *)

(** The target [validateGatewayURL] lets through. *)
Definition allowed_target (env_hosts : option jsstr) (u : url) : Prop :=
  url_protocol u ∈ [lit "http:"; lit "https:"] ∧ url_hostname u ∈ ALLOWED_GATEWAY_HOSTS env_hosts ∧
  effective_port u ∈ ALLOWED_PORTS.

Section WorkerProperties.
Context {platform : Platform} (env_hosts : option jsstr).

Lemma validate_Ok v u :
  validateGatewayURL env_hosts v = Ok u →
  ∃ gw, to_string v = Ok gw ∧ URL_parse gw = Some u ∧ allowed_target env_hosts u.
Proof.
  unfold validateGatewayURL. destruct (truthy v); [|done]. cbn [negb]. intros (gw & Egw & Hv)%bind_Ok. revert Hv.
  destruct (URL_parse gw) as [p|] eqn:Eu; [|done].
  destruct (includes [_; _] _) eqn:E1, (includes (ALLOWED_GATEWAY_HOSTS _) _) eqn:E2, (includes ALLOWED_PORTS _) eqn:E3;
    cbn [negb orb]; intros [= ->].
  apply includes_spec in E1, E2, E3. exists gw. by split_and!.
Qed.

(** C19: [processJob] cannot be made to call anything but the gateway. The
    address of every request a job makes, whatever its data and whatever the
    gateway answers, is the text of the job's [gatewayURL], whose protocol, host
    name and port are in the allowlist, followed by [/api/rooms], or by that, a
    name and one of four actions, the name encoded so that it has no slash,
    backslash, question mark, number sign or at sign (a name that is one dot or
    two stays as it is); without such a URL no request is made. *)
Theorem processJob_requests_allowed j t r rq a :
  processJob env_hosts j t r → EFetch rq a ∈ t →
  ∃ gw u, to_string (json_get (data_of j) (lit "gatewayURL")) = Ok gw ∧ URL_parse gw = Some u ∧
    allowed_target env_hosts u ∧
    (rq_url rq = rooms_url gw ∨
     ∃ name enc action, encodeURIComponent name = Ok enc ∧ rq_url rq = room_url gw enc action ∧
       action ∈ [lit "info"; lit "ttl"; lit "cleanup"; lit "broadcast"] ∧
       (Forall is_unit name → one_segment enc)).
Proof.
  intros Hp Hin. assert (∀ (x : result json), runs (Done x) t r → False) as Hdone.
  { intros x [-> _]%runs_Done. by apply not_elem_of_nil in Hin. }
  destruct Hp as [t r _ Hr|t r _ Hr|_ _]; [| |by apply not_elem_of_nil in Hin].
  - unfold media_chunk in Hr.
    destruct (json_get (data_of j) (lit "payload")) as [payload|], (json_get (data_of j) (lit "chunkSize")) as [[| |size| | |]|];
      try (exfalso; by eapply Hdone).
    destruct (negb _ || _); [exfalso; by eapply Hdone|]. destruct (payload_bytes payload) as [raw|e]; [|exfalso; by eapply Hdone].
    destruct (truthy _ && _); [|exfalso; by eapply Hdone].
    destruct (validateGatewayURL env_hosts _) as [u|e] eqn:Ev; [|exfalso; by eapply Hdone].
    destruct (validate_Ok _ _ Ev) as (gw & Egw & Hu & Hal). rewrite Egw in Hr.
    exists gw, u. split_and!; [done..|]. right.
    destruct (encode_value (json_get (data_of j) (lit "roomId"))) as [room|e] eqn:Ee.
    + destruct (forward_runs _ _ _ _ _ _ _ _ _ Ee Hr) as [-> H2].
      apply list_elem_of_lookup in Hin as (i & Hi). destruct (Forall2_lookup_l _ _ _ _ _ H2 Hi) as (c & _ & a' & [= -> _]).
      apply bind_Ok in Ee as (name & _ & Ee). eexists name, room, _.
      split_and!; [done|done|set_solver|intros; by eapply encodeURIComponent_segment].
    + destruct (forward_failed _ _ _ _ _ _ _ _ _ Ee Hr) as [-> _]. by apply not_elem_of_nil in Hin.
  - destruct Hr as [e Ev|u gw t e Ev Egw Hr|u gw t rooms t' cleaned Ev Egw Hr Hb].
    + by apply not_elem_of_nil in Hin.
    + destruct (validate_Ok _ _ Ev) as (gw' & Egw' & Hu & Hal). rewrite Egw in Egw'. injection Egw' as <-.
      exists gw, u. split_and!; [done..|]. left. eapply fetch_rooms_url; [exact Hr|exact Hin].
    + destruct (validate_Ok _ _ Ev) as (gw' & Egw' & Hu & Hal). rewrite Egw in Egw'. injection Egw' as <-.
      exists gw, u. split_and!; [done..|]. apply elem_of_app in Hin as [Hin|Hin].
      * left. eapply fetch_rooms_url; [exact Hr|exact Hin].
      * right. apply batches_ok in Hb as [(Hev & _) _]. rewrite Forall_forall in Hev.
        destruct (Hev _ Hin) as (name & enc & action & ? & ? & ?).
        exists name, enc, action. split_and!; [done..|]. intros. by eapply encodeURIComponent_segment.
Qed.

(** Every POST of a cleanup asks for the cleanup of a room, on evidence that
    came before it. *)
Lemma room_cleanup_posts data t r :
  room_cleanup env_hosts data t r →
  ∀ p e q, t = p ++ e :: q → is_post e = true →
     ∃ gw name a, to_string (json_get data (lit "gatewayURL")) = Ok gw ∧
       e = EFetch (Request (lit "POST") (room_url gw name (lit "cleanup")) None) a ∧ evidence gw name p.
Proof.
  assert (∀ gw t r, runs (fetch_rooms gw) t r → Forall (λ e, is_post e = false) t) as Hget.
  { intros gw t' r' Hr. apply fetch_rooms_trace in Hr as (a & ->). by repeat constructor. }
  intros [e Ev|u gw t' e Ev Egw Hr|u gw t' rooms t'' cleaned Ev Egw Hr Hb].
  - by intros [] ? ?.
  - specialize (Hget _ _ _ Hr). intros p e' q -> Hp.
    by destruct (justified_none gw _ Hget p e' q eq_refl Hp) as (name & (a & ->) & Hev); exists gw, name, a.
  - specialize (Hget _ _ _ Hr). apply batches_ok in Hb as [(_ & Hj & _) _]. intros p e q E Hp.
    destruct (justified_app gw t' t'' (justified_none gw _ Hget) Hj p e q E Hp) as (name & (a & ->) & Hev).
    by exists gw, name, a.
Qed.

(** A room is only cleaned when it may be: every cleanup request of a
    [room:cleanup] job is for a room whose own answers in that job said that
    no peer is in it and it was idle for more than thirty minutes, or that its
    TTL is over. The result counts the rooms and the cleanups the gateway
    agreed to, however the checks of a batch interleave; a job that fails has
    cleaned nothing. *)
Theorem room_cleanup_safe data t r :
  room_cleanup env_hosts data t r →
  (∀ p e q, t = p ++ e :: q → is_post e = true →
     ∃ gw name a, to_string (json_get data (lit "gatewayURL")) = Ok gw ∧
       e = EFetch (Request (lit "POST") (room_url gw name (lit "cleanup")) None) a ∧ evidence gw name p) ∧
  match r with
  | Ok v => ∃ checked, v = JObj [(lit "checked", JNum checked);
                                 (lit "cleaned", JNum (Z.of_nat (length (List.filter ok_post t))))] ∧
              Z.of_nat (length (List.filter ok_post t)) ≤ checked
  | Throw _ => List.filter ok_post t = []
  end.
Proof.
  intros Hr. split; [by apply room_cleanup_posts with r|]. assert (∀ gw t r, runs (fetch_rooms gw) t r → List.filter ok_post t = []) as Hget.
  { intros gw t' r' Ht. apply fetch_rooms_trace in Ht as (a & ->). by apply no_post_count; repeat constructor. }
  destruct Hr as [e Ev|u gw t' e Ev Egw Hr|u gw t' rooms t'' cleaned Ev Egw Hr Hb]; [done|by eapply Hget|].
  apply batches_ok in Hb as [(_ & _ & Hc) Hle].
  rewrite List.filter_app, (Hget _ _ _ Hr). cbn [app]. rewrite Z.sub_0_r in Hc.
  exists (Z.of_nat (length rooms)). rewrite Hc. split; [done|lia].
Qed.

(** [media:chunk] cuts a payload without loss: the chunks are numbered
    from 0, each holds between one and [chunkSize] bytes, there are
    ⌈bytes / chunkSize⌉ of them, and decoding them in order gives the bytes of
    the payload, whatever base64 text, or other value a buffer can be made of,
    it was. *)
Theorem split_payload_spec payload raw chunkSize :
  0 < chunkSize → payload_bytes payload = Ok raw →
  let cs := split_payload raw chunkSize in
  concat (map (λ c, buffer_from_base64 c.2) cs) = raw ∧
  map fst cs = seqZ 0 (Z.of_nat (length cs)) ∧
  Forall (λ c, 0 < Z.of_nat (length (buffer_from_base64 c.2)) ≤ chunkSize) cs ∧
  Z.of_nat (length cs) = (Z.of_nat (length raw) + chunkSize - 1) / chunkSize.
Proof.
  intros Hs Hb%payload_bytes_ok. cbn zeta. unfold split_payload.
  destruct (split_loop_spec (length raw) chunkSize 0 0 raw Hs ltac:(lia) ltac:(nia) Hb) as (H1 & H2 & H3 & H4).
  split_and!; [done|done|done|]. specialize (H4 ltac:(lia)).
  set (n := Z.of_nat (length (split_loop (length raw) chunkSize 0 0 raw))) in *.
  apply (Z.div_unique_pos _ _ _ (Z.of_nat (length raw) + chunkSize - 1 - chunkSize * n)); nia.
Qed.

(** Forwarding cannot work and cannot fail: with a gateway and a room the
    job posts every chunk, in order, as a ["media"] broadcast, and completes
    with the same result whether the gateway takes the broadcasts, refuses
    them or cannot be reached. *)
Theorem media_forward_blind j t r payload raw size gw u room enc :
  job_type j = lit "media:chunk" →
  json_wf (data_of j) = true → Forall is_unit (job_id j) →
  json_get (data_of j) (lit "payload") = Some payload → truthy (Some payload) = true → payload_bytes payload = Ok raw →
  json_get (data_of j) (lit "chunkSize") = Some (JNum size) → 0 < size →
  json_get (data_of j) (lit "gatewayURL") = Some (JStr gw) →
  validateGatewayURL env_hosts (Some (JStr gw)) = Ok u →
  json_get (data_of j) (lit "roomId") = Some (JStr room) → room ≠ [] → encodeURIComponent room = Ok enc →
  processJob env_hosts j t r →
  let cs := split_payload raw size in
  r = Ok (JArr (map (chunk_result_json (data_of j) (Z.of_nat (length cs))) cs)) ∧
  Forall2 (λ e c, ∃ a body v, e = EFetch (Request (lit "POST") (room_url gw enc (lit "broadcast")) (Some body)) a ∧
     JSON_parse body = Ok v ∧ json_get v (lit "type") = Some (JStr (lit "media"))) t cs.
Proof.
  intros Hty Hwf Hid Hpl Htr0 Hraw Hsz Hsz0 Hgw Hv Hrm Hrmne Henc Hp. cbn zeta.
  destruct Hp as [t r _ Hr|t r Ht _|Hne _]; [|by rewrite Hty in Ht|done].
  unfold media_chunk in Hr. rewrite Hpl, Hsz, Hgw, Hrm, Hv, Htr0, Hraw in Hr.
  assert (gw ≠ []) as Hgwne by (by intros ->). cbn [negb orb] in Hr.
  replace (size <=? 0) with false in Hr by lia.
  assert (truthy (Some (JStr gw)) && truthy (Some (JStr room)) = true) as Htr
    by (by destruct gw, room). rewrite Htr in Hr. cbn [to_string js_String] in Hr.
  assert (encode_value (json_get (data_of j) (lit "roomId")) = Ok enc) as He by (by rewrite Hrm).
  destruct (forward_runs _ _ _ _ _ _ _ _ _ He Hr) as [-> H2]. split; [done|].
  eapply Forall2_impl_elem; [exact H2|]. intros e c Hin (a & ->).
  destruct (forward_body_type (job_id j) (data_of j) (Z.of_nat (length (split_payload raw size))) c Hwf Hid)
    as (v & Hv1 & Hv2); [by apply (b64_units_split raw size c (payload_bytes_ok _ _ Hraw))|].
  eauto 8.
Qed.
End WorkerProperties.

Module WorkerExamples.
Definition gw : jsstr := lit "http://localhost:8080".

(** A platform that knows one URL and whose dates are all the epoch. *)
#[export] Instance toy_platform : Platform := {|
  URL_parse s := if bool_decide (s = gw)
                 then Some (Url (lit "http:") (lit "localhost") (lit "8080") (lit "localhost:8080")) else None;
  Date_parse v := match v with Some (JStr _) => Some 0 | _ => None end;
  Buffer_from _ := Throw (lit "TypeError");
  Buffer_from_bytes v b := λ E : Throw (lit "TypeError") = Ok b, match E with end
|}.

Definition media_data : json :=
  JObj [(lit "payload", JStr (lit "aGk=")); (lit "chunkSize", JNum 2); (lit "roomId", JStr (lit "a/b"));
        (lit "gatewayURL", JStr gw)].
Definition media_job : job := new_job (lit "j1") (lit "media:chunk") (Some media_data) 0.

Definition media_body : jsstr := forward_body (lit "j1") media_data 1 (0, lit "aGk=").
Definition media_url : jsstr := gw ++ lit "/api/rooms/a%2Fb/broadcast".
Definition media_event : event := EFetch (Request (lit "POST") media_url (Some media_body)) (Throw (lit "down")).
Definition media_result : result json := Ok (JArr [chunk_result_json media_data 1 (0, lit "aGk=")]).

Lemma media_run : processJob None media_job [media_event] media_result.
Proof.
  apply process_media; [done|]. change (data_of media_job) with media_data.
  unfold media_chunk. vm_compute json_get. cbn iota beta.
  match goal with |- runs ?m _ _ =>
    replace m with (Fetch (Request (lit "POST") media_url (Some media_body)) (λ _, Done media_result)) by reflexivity
  end. apply runs_fetch, runs_done.
Qed.

Lemma processJob_requests_allowed_witness :
  ∃ gw' u, to_string (json_get media_data (lit "gatewayURL")) = Ok gw' ∧ URL_parse gw' = Some u ∧
    allowed_target None u.
Proof.
  destruct (processJob_requests_allowed None media_job [media_event] media_result _ _ media_run
    (list_elem_of_here _ _)) as (gw' & u & H1 & H2 & H3 & _).
  exists gw', u. split; [exact H1|]. split; [exact H2|exact H3].
Defined.

Lemma media_forward_blind_witness :
  media_result = Ok (JArr (map (chunk_result_json media_data 1) [(0, lit "aGk=")])) ∧
  ∃ body v, media_body = body ∧ JSON_parse body = Ok v ∧ json_get v (lit "type") = Some (JStr (lit "media")).
Proof.
  destruct (media_forward_blind None media_job [media_event] media_result (JStr (lit "aGk=")) [104; 105] 2 gw
    (Url (lit "http:") (lit "localhost") (lit "8080") (lit "localhost:8080")) (lit "a/b") (lit "a%2Fb"))
    as [Hr Ht];
    [reflexivity|vm_compute; reflexivity|decided|reflexivity|reflexivity|reflexivity|reflexivity|lia|reflexivity
    |vm_compute; reflexivity|reflexivity|discriminate|vm_compute; reflexivity|exact media_run|].
  split; [exact Hr|].
  apply Forall2_cons_1 in Ht as [(a & body & v & E & Hv & Hty) _].
  exists body, v. split; [by injection E|]. split; [exact Hv|exact Hty].
Defined.

Lemma split_payload_spec_witness :
  let cs := split_payload [104; 101; 108; 108; 111] 2 in
  concat (map (λ c, buffer_from_base64 c.2) cs) = [104; 101; 108; 108; 111] ∧ length cs = 3%nat.
Proof.
  destruct (split_payload_spec (JStr (lit "aGVsbG8=")) [104; 101; 108; 108; 111] 2 ltac:(lia) eq_refl) as (H & _).
  split; [exact H|reflexivity].
Defined.

(** One idle room. *)
Definition cleanup_data : json := JObj [(lit "gatewayURL", JStr gw)].
Definition idle_room : json := JObj [(lit "name", JStr (lit "r1"))].
Definition idle_info : json := JObj [(lit "peers", JNum 0); (lit "lastActivity", JStr (lit "t"))].
Definition ok_json (v : json) : result response := Ok (Response true 200 (Ok v)).
Definition idle_events : list event :=
  [EFetch (http_get (room_url gw (lit "r1") (lit "info"))) (ok_json idle_info);
   EFetch (http_get (room_url gw (lit "r1") (lit "ttl"))) (Ok (Response false 404 (Throw (lit "no"))));
   ENow 1800001;
   EFetch (Request (lit "POST") (room_url gw (lit "r1") (lit "cleanup")) None) (ok_json JNull)].
Definition cleanup_events : list event :=
  [EFetch (http_get (rooms_url gw)) (ok_json (JObj [(lit "rooms", JArr [idle_room])]))] ++ idle_events.

Lemma idle_run : runs (clean_room gw idle_room) idle_events (Ok true).
Proof. repeat (apply runs_fetch || apply runs_now || apply runs_done). Qed.

Lemma interleaving_one t : interleaving [t] t.
Proof.
  induction t as [|e t IH]; [apply il_nil; by constructor|].
  by apply (il_step _ 0 e t).
Qed.

Lemma cleanup_run :
  room_cleanup None cleanup_data cleanup_events (Ok (JObj [(lit "checked", JNum 1); (lit "cleaned", JNum 1)])).
Proof.
  apply (cleanup_done None cleanup_data (Url (lit "http:") (lit "localhost") (lit "8080") (lit "localhost:8080"))
           gw _ [idle_room] idle_events 1).
  - vm_compute; reflexivity.
  - reflexivity.
  - apply runs_fetch, runs_done.
  - rewrite <- (app_nil_r idle_events). apply (batches_cons gw [idle_room] 0 idle_events [Ok true]); [done| |].
    + apply (batch_intro gw _ [idle_events]); [|apply interleaving_one].
      constructor; [exact idle_run|constructor].
    + apply batches_nil.
Qed.

Lemma room_cleanup_safe_witness :
  ∃ gw' name a, to_string (json_get cleanup_data (lit "gatewayURL")) = Ok gw' ∧
    EFetch (Request (lit "POST") (room_url gw (lit "r1") (lit "cleanup")) None) (ok_json JNull)
    = EFetch (Request (lit "POST") (room_url gw' name (lit "cleanup")) None) a ∧ evidence gw' name (take 4 cleanup_events).
Proof.
  destruct (room_cleanup_safe None cleanup_data _ _ cleanup_run) as [H _].
  exact (H (take 4 cleanup_events) (EFetch (Request (lit "POST") (room_url gw (lit "r1") (lit "cleanup")) None) (ok_json JNull)) []
           eq_refl eq_refl).
Defined.

(** Two dots are a name like any other to [encodeURIComponent], and a way up
    to the parser of addresses: what is asked about this room is asked about
    [/api/info]. *)
Example dots_are_not_encoded : encode_value (Some (JStr (lit ".."))) = Ok (lit "..").
Proof. vm_compute. reflexivity. Qed.

(** A number is as good as its text. *)
Example numbers_are_names : encode_value (Some (JNum 42)) = Ok (lit "42") ∧ encode_value None = Ok (lit "undefined").
Proof. split; vm_compute; reflexivity. Qed.
End WorkerExamples.
