(* ===== verification/WorkerServer.v ===== *)
(** * services/worker/src/index.js: the worker's HTTP server

    The server owns the queue, its manager, the map of results, the set of
    submitted ids and the rate limiter; the callbacks of Node's HTTP server
    each run to completion, so a step is one callback. The URL parser, the
    DNS and the hash are the platform's. *)

From S2P Require Import Prelude JsLib Base64 Text Json Mime Timers Uri Queue Manager Worker.
From Stdlib Require Import Sorting.Sorted.

Local Open Scope Z_scope.

Definition MAX_RESULTS : nat := 1000.
Definition MAX_SUBMITTED_JOBS : nat := Z.to_nat 10000.
Definition RATE_LIMIT_WINDOW_MS : Z := 60000.
Definition RATE_LIMIT_MAX_REQUESTS : Z := 60.
Definition MAX_RATE_LIMIT_IPS : nat := Z.to_nat 10000.
Definition MAX_BODY : Z := 1024 * 1024.

(** ** [checkRateLimit] *)

Record rate_entry := RateEntry { re_count : Z; re_resetAt : Z }.

(** [m.size > max] after an insertion: drop the key inserted first. *)
Definition evict_first {K V} `{EqDecision K} (max : nat) (m : list (K * V)) : list (K * V) :=
  if Nat.ltb max (length m) then
    match map_first_key m with Some k => map_delete m k | None => m end
  else m.

Definition checkRateLimit (ip : jsstr) (now : Z) (m : list (jsstr * rate_entry))
    : bool * list (jsstr * rate_entry) :=
  let entry :=
    match map_get m ip with
    | Some e => if now >=? re_resetAt e then RateEntry 0 (now + RATE_LIMIT_WINDOW_MS) else e
    | None => RateEntry 0 (now + RATE_LIMIT_WINDOW_MS)
    end in
  let entry := RateEntry (re_count entry + 1) (re_resetAt entry) in
  (re_count entry <=? RATE_LIMIT_MAX_REQUESTS, evict_first MAX_RATE_LIMIT_IPS (map_set m ip entry)).

(** ** [checkAuth]: [None] lets the request through, [Some] is the answer *)

Record reply := Reply { rp_status : Z; rp_body : option json }.

Definition error_reply (status : Z) (message : string) : reply :=
  Reply status (Some (JObj [(lit "error", JStr (lit message))])).

Class NodePlatform := {
  node_platform : Platform;
  sha256_digest : bytes → bytes;                   (** [createHash('sha256')] *)
  URL_pathname : jsstr → option jsstr              (** [new URL(req.url, base).pathname] *)
}.
#[export] Existing Instance node_platform.

Section Server.
Context `{NodePlatform}.
(** [WORKER_AUTH_TOKEN], [ALLOWED_CALLBACK_HOSTS] and [ALLOWED_GATEWAY_HOSTS]. *)
Context (AUTH_TOKEN : jsstr) (env_callback_hosts env_gateway_hosts : option jsstr).

Definition bearer (header : jsstr) : jsstr :=
  if starts_with (lit "Bearer ") header then drop 7 header else [].

Definition hash_text (s : jsstr) : bytes := sha256_digest (TextEncoder_encode s).

Definition checkAuth (authorization : option jsstr) : option reply :=
  if str_empty AUTH_TOKEN then None
  else
    let token := bearer (default [] authorization) in
    if str_empty token then Some (error_reply 401 "unauthorized")
    else if bool_decide (hash_text token = hash_text AUTH_TOKEN) then None
    else Some (error_reply 401 "unauthorized").

(** ** [trackResult] *)

Definition ALLOWED_CALLBACK_HOSTS : list jsstr := host_list env_callback_hosts default_hosts.
Definition CALLBACK_PORTS : list jsstr := [lit "80"; lit "443"; lit "8080"; lit "9100"].

(** [Number(part)] of a part of an address: digits, or [NaN]. *)
Definition number_of (s : jsstr) : option Z :=
  if forallb is_digit s then Some (digits_val 0 s).1 else None.

Definition isPrivate (address : jsstr) : bool :=
  let ipParts := map number_of (split_char 46 address) in
  let part i := match ipParts !! i with Some (Some n) => n | _ => -1 end in
  bool_decide (address = lit "::1") ||
  (part 0%nat =? 127) || (part 0%nat =? 10) ||
  ((part 0%nat =? 172) && (part 1%nat >=? 16) && (part 1%nat <=? 31)) ||
  ((part 0%nat =? 192) && (part 1%nat =? 168)) ||
  (part 0%nat =? 0).

(** The checks of the callback URL before the name is resolved. *)
Definition callback_target (callbackURL : jsstr) : result url :=
  match URL_parse callbackURL with
  | None => Throw (lit "Invalid URL")
  | Some cbUrl =>
      if negb (includes [lit "http:"; lit "https:"] (url_protocol cbUrl)) then
        Throw (lit "disallowed protocol: " ++ url_protocol cbUrl)
      else if negb (includes ALLOWED_CALLBACK_HOSTS (url_hostname cbUrl)) ||
              negb (includes CALLBACK_PORTS (effective_port cbUrl)) then
        Throw (lit "disallowed callback host or port: " ++ url_host cbUrl)
      else Ok cbUrl
  end.

(** The whole callback: the request it makes, if any; [lookup] is the DNS. *)
Definition callback (j : job) (result : json) (lookup : jsstr → Prelude.result jsstr) : option request :=
  match json_get (data_of j) (lit "callbackURL") with
  | Some (JStr (c :: s)) =>
      match (cbUrl ← callback_target (c :: s);
             address ← lookup (url_hostname cbUrl);
             if isPrivate address && negb (includes ALLOWED_CALLBACK_HOSTS (lit "localhost"))
                && negb (includes ALLOWED_CALLBACK_HOSTS (lit "127.0.0.1"))
             then Throw (lit "callback resolved to private IP: " ++ address) else mret tt) with
      | Ok _ =>
          Some (Request (lit "POST") (c :: s)
            (Some (JSON_stringify (JObj [(lit "jobId", JStr (job_id j)); (lit "status", JStr (lit "completed"));
                                         (lit "result", result)]))))
      | Throw _ => None
      end
  | _ => None
  end.

Record stored_result := StoredResult { sr_id : jsstr; sr_result : json; sr_completedAt : Z }.

(** What [trackResult] stores before its first [await]. *)
Definition store_result (j : job) (result : json) (now : Z) (m : list (jsstr * stored_result))
    : list (jsstr * stored_result) :=
  evict_first MAX_RESULTS (map_set m (job_id j) (StoredResult (job_id j) result now)).

(** ** The server *)

Record server := Server {
  sv_manager : manager;
  sv_results : list (jsstr * stored_result);
  sv_submitted : list jsstr;
  sv_rate : list (jsstr * rate_entry)
}.

Record http_request := HttpRequest {
  hr_method : jsstr;
  hr_url : jsstr;
  hr_authorization : option jsstr;
  hr_remoteAddress : option jsstr
}.

(** What the request callback does: answer, wait for the body of a job, or
    throw (an uncaught exception, which ends the process). *)
Inductive handling :=
  | Answer (r : reply)
  | ReadBody
  | Crash.

Definition job_path (pathname : jsstr) : option jsstr :=
  if starts_with (lit "/jobs/") pathname then
    match drop 6 pathname with
    | [] => None
    | id => if existsb (Z.eqb 47) id then None else Some id
    end
  else None.

Definition health_reply (s : server) : reply :=
  Reply 200 (Some (JObj [(lit "status", JStr (lit "ok")); (lit "service", JStr (lit "worker"));
                         (lit "queued", JNum (Z.of_nat (size (m_queue (sv_manager s)))))])).

Definition job_status (id : jsstr) (s : server) : reply :=
  match map_get (sv_results s) id with
  | Some r =>
      Reply 200 (Some (JObj [(lit "id", JStr (sr_id r)); (lit "status", JStr (lit "completed"));
                             (lit "result", sr_result r); (lit "completedAt", JNum (sr_completedAt r))]))
  | None =>
      if set_has (sv_submitted s) id then
        Reply 200 (Some (JObj [(lit "id", JStr id); (lit "status", JStr (lit "pending"))]))
      else error_reply 404 "job not found"
  end.

Definition dead_letter_json (d : dead_letter) : json :=
  obj [(lit "id", Some (JStr (dl_id d))); (lit "type", Some (JStr (dl_type d)));
       (lit "attempts", Some (JNum (dl_attempts d))); (lit "maxAttempts", Some (JNum (dl_maxAttempts d)));
       (lit "queuedAt", dl_queuedAt d); (lit "scheduledAt", dl_scheduledAt d);
       (lit "failedAt", Some (JNum (dl_failedAt d))); (lit "error", dl_error d)].

(** The callback of [createServer]. *)
Definition handle_request (rq : http_request) (s : server) : handling * server :=
  match URL_pathname (hr_url rq) with
  | None => (Crash, s)
  | Some pathname =>
      let GET := bool_decide (hr_method rq = lit "GET") in
      let POST := bool_decide (hr_method rq = lit "POST") in
      if bool_decide (pathname = lit "/health") && GET then (Answer (health_reply s), s)
      else match checkAuth (hr_authorization rq) with
      | Some r => (Answer r, s)
      | None =>
          if bool_decide (pathname = lit "/jobs") && POST then
            let ip := str_or (default [] (hr_remoteAddress rq)) (lit "unknown") in
            let '(ok, rate) := checkRateLimit ip (m_now (sv_manager s)) (sv_rate s) in
            let s := Server (sv_manager s) (sv_results s) (sv_submitted s) rate in
            if ok then (ReadBody, s) else (Answer (error_reply 429 "rate limit exceeded"), s)
          else match job_path pathname with
          | Some id => if GET then (Answer (job_status id s), s) else (Answer (Reply 404 None), s)
          | None =>
              if bool_decide (pathname = lit "/dead-letters") && GET then
                (Answer (Reply 200 (Some (JObj [(lit "deadLetters",
                   JArr (map dead_letter_json (deadLetters (m_queue (sv_manager s)))))]))), s)
              else (Answer (Reply 404 None), s)
          end
      end
  end.

(** ** The body *)

(** [chunk.toString()]: UTF-8, without the byte order mark rule of [TextDecoder]. *)
Definition buffer_to_string (b : bytes) : jsstr := utf16s (utf8_decode u_init b).

(** The ["data"] callbacks: [body += chunk] until the limit; past it the
    stream is destroyed, which ends its events: neither ["data"] nor ["end"]
    comes again ([None]). *)
Fixpoint read_body (body : jsstr) (chunks : list bytes) : option jsstr :=
  match chunks with
  | [] => Some body
  | c :: cs =>
      if Z.of_nat (length body) + Z.of_nat (length c) >? MAX_BODY then None
      else read_body (body ++ buffer_to_string c) cs
  end.

(** The ["end"] callback; [id] is the random UUID of a new job. *)
Definition handle_end (id : jsstr) (body : jsstr) (s : server) : reply * server :=
  let invalid := (error_reply 400 "invalid json", s) in
  match JSON_parse body with
  | Throw _ | Ok JNull => invalid
  | Ok v =>
      match json_get v (lit "type") with
      | Some (JStr (c :: t)) =>
          match json_get v (lit "data") with
          | None | Some (JObj _) =>
              let '(id, q) := enqueue id (c :: t) (json_get v (lit "data")) (m_now (sv_manager s))
                                      (m_queue (sv_manager s)) in
              let submitted := set_add (sv_submitted s) id in
              let submitted := if Nat.ltb MAX_SUBMITTED_JOBS (length submitted)
                               then match submitted with oldest :: _ => set_delete submitted oldest | [] => [] end
                               else submitted in
              (Reply 201 (Some (JObj [(lit "id", JStr id)])),
               Server (set_queue q (sv_manager s)) (sv_results s) submitted (sv_rate s))
          | Some _ => (error_reply 400 "data must be an object", s)
          end
      | _ => (error_reply 400 "type must be a non-empty string", s)
      end
  end.

(** ** Steps *)

Inductive srv_label :=
  | SRequest (rq : http_request) (h : handling)
  | SEnd (id : jsstr) (body : jsstr) (r : reply)
  | SManager (l : mgr_label).

(** [onResult] is [trackResult]: it stores before the loop goes on. *)
Definition after_settle (l : mgr_label) (s : server) : list (jsstr * stored_result) :=
  match l with
  | MSettle _ ref (Processed r) Completed =>
      store_result (deref (m_queue (sv_manager s)) ref) r (m_now (sv_manager s)) (sv_results s)
  | _ => sv_results s
  end.

Inductive srv_step : server → srv_label → server → Prop :=
  | srv_request s rq h s' : handle_request rq s = (h, s') → srv_step s (SRequest rq h) s'
  | srv_end s id body r s' :
      Forall (λ j, job_id j ≠ id) (q_jobs (m_queue (sv_manager s))) →
      handle_end id body s = (r, s') → srv_step s (SEnd id body r) s'
  | srv_manager s l m' :
      (∀ id type data, l ≠ MEnqueue id type data) → mgr_step (sv_manager s) l m' →
      srv_step s (SManager l) (Server m' (after_settle l s) (sv_submitted s) (sv_rate s)).

Inductive srv_steps (s : server) : list srv_label → server → Prop :=
  | srv_nil : srv_steps s [] s
  | srv_snoc ls s1 l s2 : srv_steps s ls s1 → srv_step s1 l s2 → srv_steps s (ls ++ [l]) s2.

Definition new_server (now : Z) : server := Server (new_manager true now) [] [] [].
End Server.

(** ** The server drives the manager

    Everything proved of the manager holds of the server's: its steps are
    steps of Manager.v, the jobs submitted over HTTP being the enqueues. *)

Definition enqueued (id body : jsstr) (r : reply) : list mgr_label :=
  if rp_status r =? 201 then
    match JSON_parse body with
    | Ok v => match json_get v (lit "type") with
              | Some (JStr t) => [MEnqueue id t (json_get v (lit "data"))]
              | _ => []
              end
    | Throw _ => []
    end
  else [].

Definition mgr_trace (l : srv_label) : list mgr_label :=
  match l with
  | SRequest _ _ => []
  | SEnd id body r => enqueued id body r
  | SManager l => [l]
  end.

(** The set of submitted ids after one more. *)
Definition submit (id : jsstr) (l : list jsstr) : list jsstr :=
  let submitted := set_add l id in
  if Nat.ltb MAX_SUBMITTED_JOBS (length submitted)
  then match submitted with oldest :: _ => set_delete submitted oldest | [] => [] end
  else submitted.

(** [handle_end] either refuses and changes nothing, or submits one job. *)
Lemma handle_end_cases id body s :
  (∃ r, handle_end id body s = (r, s) ∧ rp_status r = 400 ∧ enqueued id body r = []) ∨
  ∃ v t, JSON_parse body = Ok v ∧ json_get v (lit "type") = Some (JStr t) ∧ t ≠ [] ∧
    handle_end id body s =
      (Reply 201 (Some (JObj [(lit "id", JStr id)])),
       Server (set_queue (enqueue id t (json_get v (lit "data")) (m_now (sv_manager s)) (m_queue (sv_manager s))).2
                         (sv_manager s)) (sv_results s) (submit id (sv_submitted s)) (sv_rate s)).
Proof.
  unfold handle_end. destruct (JSON_parse body) as [v|e] eqn:Ev; [|left; eexists; by split_and!].
  assert ((∃ r, (error_reply 400 "type must be a non-empty string", s) = (r, s) ∧ rp_status r = 400 ∧
    enqueued id body r = []) ∧ (∃ r, (error_reply 400 "data must be an object", s) = (r, s) ∧ rp_status r = 400 ∧
    enqueued id body r = []) ∧ (∃ r, (error_reply 400 "invalid json", s) = (r, s) ∧ rp_status r = 400 ∧
    enqueued id body r = [])) as (Hl1 & Hl2 & Hl3) by (split_and!; eexists; by split_and!).
  destruct v as [|b|n|str|l|fs]; try (left; assumption).
  destruct (json_get (JObj fs) (lit "type")) as [[| | |[|c t]| |]|] eqn:Et; try (left; assumption).
  destruct (json_get (JObj fs) (lit "data")) as [[]|] eqn:Ed; try (left; assumption).
  all: right; exists (JObj fs), (c :: t); rewrite Ed; split_and!; done.
Qed.

Section ServerRefines.
Context `{NodePlatform} (AUTH_TOKEN : jsstr).

Lemma handle_request_frame rq s h s' :
  handle_request AUTH_TOKEN rq s = (h, s') →
  sv_manager s' = sv_manager s ∧ sv_results s' = sv_results s ∧ sv_submitted s' = sv_submitted s.
Proof.
  unfold handle_request. intros E. repeat (case_match; simplify_eq/=; try done).
Qed.

Lemma srv_mgr_step s l s' :
  srv_step AUTH_TOKEN s l s' → mgr_steps (sv_manager s) (mgr_trace l) (sv_manager s').
Proof.
  intros [s1 rq h s2 E|s1 id body r s2 Hid E|s1 l1 m' Hl Hm]; cbn [mgr_trace].
  - destruct (handle_request_frame _ _ _ _ E) as (-> & _). constructor.
  - destruct (handle_end_cases id body s1) as [(r' & E' & _ & En)|(v & t & Ev & Et & Htne & E')];
      rewrite E' in E; injection E as <- <-; cbn [sv_manager].
    + rewrite En. constructor.
    + unfold enqueued. cbn [rp_status]. rewrite Ev, Et. cbn [Z.eqb Pos.eqb].
      apply (mgr_snoc _ [] (sv_manager s1)); [constructor|apply mgr_enqueue].
  - apply (mgr_snoc _ [] (sv_manager s1)); [constructor|done].
Qed.

Lemma mgr_steps_app m ls m1 ls' m2 : mgr_steps m ls m1 → mgr_steps m1 ls' m2 → mgr_steps m (ls ++ ls') m2.
Proof.
  intros H1. induction 1 as [|ls' m2 l m3 _ IH Hl]; [by rewrite app_nil_r|].
  rewrite app_assoc. by eapply mgr_snoc.
Qed.

Lemma srv_mgr_steps s ls s' :
  srv_steps AUTH_TOKEN s ls s' → mgr_steps (sv_manager s) (ls ≫= mgr_trace) (sv_manager s').
Proof.
  induction 1 as [|ls s1 l s2 _ IH Hl]; [constructor|].
  rewrite bind_app. cbn. rewrite app_nil_r. eapply mgr_steps_app; [exact IH|by apply srv_mgr_step].
Qed.
End ServerRefines.

Lemma srv_steps_app `{NodePlatform} token s ls s1 ls' s2 :
  srv_steps token s ls s1 → srv_steps token s1 ls' s2 → srv_steps token s (ls ++ ls') s2.
Proof.
  intros H1. induction 1 as [|ls' s2 l s3 _ IH Hl]; [by rewrite app_nil_r|].
  rewrite app_assoc. by eapply srv_snoc.
Qed.

(** The manager's steps, executed in the server. *)
Fixpoint srv_run (s : server) (ls : list mgr_label) : option server :=
  match ls with
  | [] => Some s
  | MEnqueue _ _ _ :: _ => None
  | l :: ls =>
      m ← mgr_exec (sv_manager s) l;
      srv_run (Server m (after_settle l s) (sv_submitted s) (sv_rate s)) ls
  end.

Lemma srv_run_steps `{NodePlatform} token ls s s' :
  srv_run s ls = Some s' → srv_steps token s (map SManager ls) s'.
Proof.
  revert s. induction ls as [|l ls IH]; intros s; cbn [srv_run map]; intros E; [simplify_eq; constructor|].
  assert (∃ m, mgr_exec (sv_manager s) l = Some m ∧ (∀ id t d, l ≠ MEnqueue id t d) ∧
    srv_run (Server m (after_settle l s) (sv_submitted s) (sv_rate s)) ls = Some s') as (m & Em & Hl & E').
  { destruct l; try done; apply bind_Some in E as (m & Em & E); exists m; by split_and!. }
  apply (srv_steps_app _ _ [_] (Server m (after_settle l s) (sv_submitted s) (sv_rate s))); [|by apply IH].
  apply (srv_snoc _ _ [] s); [constructor|]. apply srv_manager; [done|by apply mgr_exec_step].
Qed.

(** ** Which jobs the server knows *)

Lemma evict_first_keys {V} max (m : list (jsstr * V)) k v :
  k ∉ map_keys m → (length m ≤ max)%nat →
  map_keys (evict_first max (map_set m k v)) = drop (S (length m) - max) (map_keys m ++ [k]).
Proof.
  intros Hk Hl. rewrite map_set_fresh by done. unfold evict_first. rewrite length_app. cbn [length].
  rewrite Nat.add_1_r. destruct (Nat.ltb max (S (length m))) eqn:E.
  - apply Nat.ltb_lt in E. replace (S (length m) - max)%nat with 1%nat by lia.
    destruct m as [|[k0 v0] m]; cbn; rewrite decide_True by done; [done|].
    unfold map_keys. by rewrite fmap_app.
  - apply Nat.ltb_ge in E. replace (S (length m) - max)%nat with 0%nat by lia.
    unfold map_keys. by rewrite fmap_app.
Qed.

Lemma submit_fresh id l :
  id ∉ l → (length l ≤ MAX_SUBMITTED_JOBS)%nat →
  submit id l = drop (S (length l) - MAX_SUBMITTED_JOBS) (l ++ [id]).
Proof.
  intros Hid Hl. unfold submit, set_add.
  replace (set_has l id) with false by (symmetry; unfold set_has; by rewrite bool_decide_false).
  rewrite length_app. cbn [length]. rewrite Nat.add_1_r.
  destruct (Nat.ltb MAX_SUBMITTED_JOBS (S (length l))) eqn:E.
  - apply Nat.ltb_lt in E. replace (S (length l) - MAX_SUBMITTED_JOBS)%nat with 1%nat by lia.
    destruct l as [|x l]; cbn; by rewrite decide_True.
  - apply Nat.ltb_ge in E. by replace (S (length l) - MAX_SUBMITTED_JOBS)%nat with 0%nat by lia.
Qed.

Definition job_ids (m : manager) : list jsstr := map job_id (q_jobs (m_queue m)).

Lemma job_ids_alter f ref (l : list job) :
  (∀ j, job_id (f j) = job_id j) → map job_id (alter f ref l) = map job_id l.
Proof.
  intros Hf. revert ref. induction l as [|j l IH]; intros [|ref]; cbn; [done|done|by rewrite Hf|].
  f_equal. apply IH.
Qed.

Lemma job_ids_drain i m : job_ids (drain i m) = job_ids m.
Proof.
  unfold job_ids, drain. pose proof (dequeue_fifo (m_now m) (m_queue m)) as Hd.
  destruct (dequeue _ _) as [[r|] q]; [|done]. destruct Hd as (? & ? & _ & _ & _ & _ & Eq & _).
  cbn. by rewrite Eq.
Qed.

Lemma job_ids_poll_top i m : job_ids (poll_top i m) = job_ids m.
Proof. unfold poll_top. destruct (m_running m); [apply job_ids_drain|done]. Qed.

Lemma job_ids_settle ref out m : job_ids (settle ref out m).2 = job_ids m.
Proof.
  unfold job_ids, settle. destruct out as [r|e]; [done|].
  pose proof (requeue_jobs (m_now m) ref (m_queue m)) as Hq.
  destruct (requeue _ _ _) as [[|] q]; cbn in *; rewrite ?job_ids_alter by done; rewrite Hq; by apply job_ids_alter.
Qed.

Lemma job_ids_step m l m' : (∀ id t d, l ≠ MEnqueue id t d) → mgr_step m l m' → job_ids m' = job_ids m.
Proof.
  intros Hl Hs. destruct Hs as [s|s|s id type data|s i ref out v s' Hi E|s id i Hd|s d Hd]; try done.
  - unfold start. destruct (m_running s); [done|]. by rewrite job_ids_poll_top.
  - exfalso. by eapply Hl.
  - rewrite job_ids_drain. pose proof (job_ids_settle ref out s) as Hs. by rewrite E in Hs.
  - by rewrite job_ids_poll_top.
Qed.

Lemma deref_id m ref : job_id (deref (m_queue m) ref) = default [] (job_ids m !! ref).
Proof.
  unfold deref, job_ids. change (map job_id) with (fmap (M:=list) job_id). rewrite list_lookup_fmap.
  by destruct (q_jobs (m_queue m) !! ref).
Qed.

Definition ids_of (m : manager) (refs : list nat) : list jsstr := map (λ r, default [] (job_ids m !! r)) refs.

Record srv_inv (ls : list mgr_label) (s : server) : Prop := {
  si_mgr : mgr_inv ls (sv_manager s);
  si_ids : NoDup (job_ids (sv_manager s));
  si_results : map_keys (sv_results s) = drop (length (completed ls) - MAX_RESULTS) (ids_of (sv_manager s) (completed ls));
  si_submitted : sv_submitted s = drop (length (job_ids (sv_manager s)) - MAX_SUBMITTED_JOBS) (job_ids (sv_manager s));
  si_entries : Forall (λ x, sr_id x.2 = x.1) (sv_results s)
}.

Lemma srv_inv_new now : srv_inv [] (new_server now).
Proof. split; [apply mgr_inv_new|constructor|done|done|constructor]. Qed.

Lemma ids_of_in m refs ref :
  NoDup (job_ids m) → Forall (λ r, r < length (job_ids m))%nat refs → (ref < length (job_ids m))%nat →
  default [] (job_ids m !! ref) ∈ ids_of m refs → ref ∈ refs.
Proof.
  intros Hnd Hlt Hr (r & E & Hin)%list_elem_of_fmap. rewrite Forall_forall in Hlt. specialize (Hlt r Hin).
  destruct (lookup_lt_is_Some_2 _ _ Hr) as [x Hx]. destruct (lookup_lt_is_Some_2 _ _ Hlt) as [y Hy].
  rewrite Hx, Hy in E. cbn in E. subst. by rewrite (NoDup_lookup _ _ _ _ Hnd Hx Hy).
Qed.

Lemma evict_first_sub {V} max (m : list (jsstr * V)) x : x ∈ evict_first max m → x ∈ m.
Proof.
  unfold evict_first. destruct (Nat.ltb max (length m)); [|done]. destruct m as [|[k v] m]; [done|]. cbn.
  rewrite decide_True by done. by right.
Qed.

Lemma length_jobs m : length (q_jobs (m_queue m)) = length (job_ids m).
Proof. unfold job_ids. by rewrite length_map. Qed.

Lemma srv_inv_settle ls s i ref r m' v :
  srv_inv ls s → mgr_step (sv_manager s) (MSettle i ref (Processed r) v) m' →
  srv_inv (ls ++ [MSettle i ref (Processed r) v])
    (Server m' (after_settle (MSettle i ref (Processed r) v) s) (sv_submitted s) (sv_rate s)).
Proof.
  intros [Hm Hid Hres Hsub Hent] Hs.
  assert (job_ids m' = job_ids (sv_manager s)) as Eids by (eapply job_ids_step; [|exact Hs]; done).
  pose proof (mgr_inv_step _ _ _ _ Hm Hs) as Hm'.
  inversion Hs as [| | |s0 i0 ref0 out0 v0 s' Hi E| |]; subst. cbn in E. injection E as <- <-.
  destruct (in_flight_job ls _ i ref Hm Hi) as (j & Hj & _ & _ & _ & Hnc & Hp).
  set (k := job_id (deref (m_queue (sv_manager s)) ref)).
  assert (k = default [] (job_ids (sv_manager s) !! ref)) as Ek by apply deref_id.
  assert (k ∉ map_keys (sv_results s)) as Hk.
  { rewrite Hres. intros Hin. apply elem_of_drop_sub in Hin. rewrite Ek in Hin.
    apply ids_of_in in Hin; [done|done| |].
    - rewrite Forall_forall. intros x Hx. rewrite <- length_jobs.
      assert (x ∈ seq 0 (length (q_jobs (m_queue (sv_manager s))))) as Hx' by (rewrite <- Hp; set_solver).
      apply elem_of_seq in Hx'. lia.
    - rewrite <- length_jobs. by eapply lookup_lt_Some. }
  assert (length (sv_results s) ≤ MAX_RESULTS)%nat as Hlen.
  { apply (f_equal length) in Hres. unfold map_keys in Hres. rewrite length_fmap in Hres. rewrite Hres, length_drop.
    unfold ids_of. rewrite length_map. lia. }
  assert (completed (ls ++ [MSettle i ref (Processed r) Completed]) = completed ls ++ [ref]) as Ec
    by (unfold completed; by rewrite with_verdict_snoc).
  split; cbn [sv_manager sv_results sv_submitted after_settle]; rewrite ?Eids; try done.
  - unfold store_result. rewrite evict_first_keys by done. rewrite Ec. fold k.
    unfold ids_of in *. rewrite Eids, map_app. cbn [map]. rewrite <- Ek.
    replace (length (completed ls ++ [ref])) with
      (length (map (λ r, default [] (job_ids (sv_manager s) !! r)) (completed ls) ++ [k]))
      by (by rewrite !length_app, length_map).
    rewrite <- window_snoc with (keep := map_keys (sv_results s)).
    + unfold map_keys. by rewrite length_fmap.
    + by rewrite length_map.
  - apply Forall_forall. intros x Hx. unfold store_result in Hx. apply evict_first_sub in Hx.
    fold k in Hx. rewrite map_set_fresh in Hx by done. apply elem_of_app in Hx as [Hx|Hx%list_elem_of_singleton].
    + rewrite Forall_forall in Hent. auto.
    + by subst.
Qed.

(** Steps that leave what the server knows of jobs as it is. *)
Lemma srv_inv_frame ls ls' s s' :
  srv_inv ls s → mgr_inv ls' (sv_manager s') → job_ids (sv_manager s') = job_ids (sv_manager s) →
  completed ls' = completed ls → sv_results s' = sv_results s → sv_submitted s' = sv_submitted s →
  srv_inv ls' s'.
Proof.
  intros [Hm Hid Hres Hsub Hent] Hm' Ei Ec Er Es. split; [done|..]; unfold ids_of; rewrite ?Ei, ?Ec, ?Er, ?Es; done.
Qed.

Lemma completed_other ls l :
  (match l with MSettle _ _ _ Completed => False | _ => True end) → completed (ls ++ [l]) = completed ls.
Proof.
  intros Hl. unfold completed. rewrite with_verdict_snoc. destruct l as [| |? ? ?|? ? ? v|?|?]; cbn;
    try (by rewrite app_nil_r). by destruct v; rewrite ?decide_False, ?app_nil_r.
Qed.

Lemma map_set_sub {V} (m : list (jsstr * V)) k v x : x ∈ map_set m k v → x = (k, v) ∨ x ∈ m.
Proof.
  induction m as [|[k' v'] m IH]; cbn; [intros ->%list_elem_of_singleton; by left|].
  case_decide as E.
  - intros [->|Hx]%elem_of_cons; [left; by rewrite ?E|right; by right].
  - intros [->|Hx]%elem_of_cons; [right; by left|]. apply IH in Hx as [->|Hx]; [by left|right; by right].
Qed.

Section ServerFacts.
Context `{NodePlatform} (AUTH_TOKEN : jsstr).

Lemma srv_inv_step ls s l s' :
  srv_inv ls s → srv_step AUTH_TOKEN s l s' → srv_inv (ls ++ mgr_trace l) s'.
Proof.
  intros Hinv Hs. pose proof Hinv as [Hm Hid Hres Hsub Hent]. destruct Hs as [s rq h s' E|s id body r s' Hnew E|s l m' Hl Hs].
  - destruct (handle_request_frame _ _ _ _ _ E) as (E1 & E2 & E3). cbn. rewrite app_nil_r.
    eapply srv_inv_frame; [exact Hinv|by rewrite E1|by rewrite E1|done..].
  - cbn [mgr_trace]. destruct (handle_end_cases id body s) as [(r' & E' & _ & En)|(v & t & Ev & Et & Htne & E')];
      rewrite E' in E; injection E as <- <-.
    { rewrite En, app_nil_r. exact Hinv. }
    assert (enqueued id body (Reply 201 (Some (JObj [(lit "id", JStr id)]))) = [MEnqueue id t (json_get v (lit "data"))]) as En
      by (unfold enqueued; cbn [rp_status Z.eqb Pos.eqb]; by rewrite Ev, Et).
    rewrite En. set (m' := set_queue _ _).
    assert (job_ids m' = job_ids (sv_manager s) ++ [id]) as Ei by (unfold m', job_ids; cbn; by rewrite map_app).
    assert (id ∉ job_ids (sv_manager s)) as Hfresh.
    { intros (j & E & Hin)%list_elem_of_fmap. rewrite Forall_forall in Hnew. by apply (Hnew j Hin). }
    pose proof (mgr_inv_step _ _ _ _ Hm (mgr_enqueue (sv_manager s) id t (json_get v (lit "data")))) as Hm'.
    assert (completed (ls ++ [MEnqueue id t (json_get v (lit "data"))]) = completed ls) as Ec by (by apply completed_other).
    assert (Forall (λ r, r < length (job_ids (sv_manager s)))%nat (completed ls)) as Hclt.
    { apply Forall_forall. intros x Hx. rewrite <- length_jobs.
      assert (x ∈ seq 0 (length (q_jobs (m_queue (sv_manager s))))) as Hx'
        by (rewrite <- (inv_refs _ _ Hm); set_solver). apply elem_of_seq in Hx'. lia. }
    split; cbn [sv_manager sv_results sv_submitted]; try done; rewrite ?Ei, ?Ec.
    + apply NoDup_snoc; done.
    + rewrite Hres. f_equal. unfold ids_of. apply map_ext_in. intros x Hx%list_elem_of_In.
      rewrite Forall_forall in Hclt. rewrite Ei, lookup_app_l by (by apply Hclt). done.
    + assert (length (sv_submitted s) ≤ MAX_SUBMITTED_JOBS)%nat as Hl.
      { rewrite Hsub, length_drop. lia. }
      rewrite submit_fresh; [|rewrite Hsub; by intros ?%elem_of_drop_sub|done].
      by apply window_snoc.
  - cbn [mgr_trace]. destruct l as [| |id t d|i ref out v|id|d] eqn:El.
    + eapply srv_inv_frame; [exact Hinv|by eapply mgr_inv_step|by eapply job_ids_step|by apply completed_other|done..].
    + eapply srv_inv_frame; [exact Hinv|by eapply mgr_inv_step|by eapply job_ids_step|by apply completed_other|done..].
    + exfalso. by eapply Hl.
    + destruct out as [r|e]; [by apply srv_inv_settle|].
      assert (v ≠ Completed) as Hv.
      { intros ->. inversion Hs as [| | |? ? ? ? ? ? ? E| |]; subst. unfold settle in E. by repeat case_match. }
      eapply srv_inv_frame; [exact Hinv|by eapply mgr_inv_step|by eapply job_ids_step|apply completed_other; by destruct v|done..].
    + eapply srv_inv_frame; [exact Hinv|by eapply mgr_inv_step|by eapply job_ids_step|by apply completed_other|done..].
    + eapply srv_inv_frame; [exact Hinv|by eapply mgr_inv_step|by eapply job_ids_step|by apply completed_other|done..].
Qed.

Lemma srv_inv_steps now ls s :
  srv_steps AUTH_TOKEN (new_server now) ls s → srv_inv (ls ≫= mgr_trace) s.
Proof.
  induction 1 as [|ls s1 l s2 _ IH Hl]; [apply srv_inv_new|].
  rewrite bind_app. cbn. rewrite app_nil_r. by eapply srv_inv_step.
Qed.
End ServerFacts.

Lemma ids_of_drop m n refs : ids_of m (drop n refs) = drop n (ids_of m refs).
Proof. unfold ids_of. change (@map nat jsstr) with (@fmap list _ nat jsstr). by rewrite fmap_drop. Qed.

Definition pending_reply (id : jsstr) : reply :=
  Reply 200 (Some (JObj [(lit "id", JStr id); (lit "status", JStr (lit "pending"))])).
Definition completed_reply (id : jsstr) (result : json) (t : Z) : reply :=
  Reply 200 (Some (JObj [(lit "id", JStr id); (lit "status", JStr (lit "completed"));
                         (lit "result", result); (lit "completedAt", JNum t)])).

(** The last [n] of a list. *)
Definition last_n {A} (n : nat) (l : list A) : list A := drop (length l - n) l.

Lemma job_status_cases ls s ref j :
  srv_inv ls s → q_jobs (m_queue (sv_manager s)) !! ref = Some j →
  if decide (ref ∈ last_n MAX_RESULTS (completed ls)) then
    ∃ e, (job_id j, e) ∈ sv_results s ∧ job_status (job_id j) s = completed_reply (job_id j) (sr_result e) (sr_completedAt e)
  else if decide (length (q_jobs (m_queue (sv_manager s))) - MAX_SUBMITTED_JOBS ≤ ref)%nat then
    job_status (job_id j) s = pending_reply (job_id j)
  else job_status (job_id j) s = error_reply 404 "job not found".
Proof.
  intros [Hm Hid Hres Hsub Hent] Hj.
  assert (job_ids (sv_manager s) !! ref = Some (job_id j)) as Hi.
  { unfold job_ids. change (map job_id) with (fmap (M:=list) job_id). by rewrite list_lookup_fmap, Hj. }
  assert (Forall (λ r, r < length (job_ids (sv_manager s)))%nat (completed ls)) as Hclt.
  { apply Forall_forall. intros x Hx. rewrite <- length_jobs.
    assert (x ∈ seq 0 (length (q_jobs (m_queue (sv_manager s))))) as Hx'
      by (rewrite <- (inv_refs _ _ Hm); set_solver). apply elem_of_seq in Hx'. lia. }
  unfold job_status. case_decide as Hin.
  - assert (job_id j ∈ map_keys (sv_results s)) as Hk.
    { rewrite Hres, <- ids_of_drop. apply list_elem_of_fmap. exists ref. by rewrite Hi. }
    apply map_has_true in Hk. unfold map_has in Hk. destruct (map_get (sv_results s) (job_id j)) as [e|] eqn:E; [|done].
    apply map_get_Some_elem in E. rewrite Forall_forall in Hent. specialize (Hent _ E). cbn in Hent. rewrite Hent.
    by exists e.
  - rewrite (proj2 (map_get_None _ _)).
    2:{ rewrite Hres, <- ids_of_drop. intros Hk. apply Hin.
        assert (job_id j = default [] (job_ids (sv_manager s) !! ref)) as Ej by (by rewrite Hi).
        rewrite Ej in Hk. eapply ids_of_in; [exact Hid| |by eapply lookup_lt_Some|exact Hk].
        by apply Forall_drop. }
    rewrite length_jobs. unfold set_has. rewrite Hsub. case_decide as Hwin.
    + rewrite bool_decide_true; [done|]. apply list_elem_of_lookup.
      exists (ref - (length (job_ids (sv_manager s)) - MAX_SUBMITTED_JOBS))%nat.
      rewrite lookup_drop, <- Hi. f_equal. lia.
    + rewrite bool_decide_false; [done|]. intros (k & Hk)%list_elem_of_lookup. rewrite lookup_drop in Hk.
      pose proof (NoDup_lookup _ _ _ _ Hid Hi Hk). lia.
Qed.

(** ** The rate limiter *)

Fixpoint rate_run (calls : list (jsstr * Z)) (m : list (jsstr * rate_entry)) : list bool :=
  match calls with
  | [] => []
  | (ip, now) :: calls' => let '(ok, m) := checkRateLimit ip now m in ok :: rate_run calls' m
  end.

(** The calls of [ip] let through with [T <= now < T + window]. *)
Definition let_through (ip : jsstr) (T : Z) (calls : list (jsstr * Z)) (oks : list bool) : Z :=
  Z.of_nat (length (List.filter (λ x : jsstr * Z * bool,
    bool_decide (x.1.1 = ip) && (T <=? x.1.2) && (x.1.2 <? T + RATE_LIMIT_WINDOW_MS) && x.2) (zip calls oks))).

(** What [ip] may still do in the window from [T]. *)
Definition credit (T : Z) (e : option rate_entry) : Z :=
  match e with
  | None => 119
  | Some e =>
      if T + RATE_LIMIT_WINDOW_MS <=? re_resetAt e then Z.max 0 (60 - re_count e)
      else if T <? re_resetAt e then Z.max 0 (60 - re_count e) + 60 else 119
  end.

Lemma credit_nonneg T e : 0 ≤ credit T e.
Proof. unfold credit. destruct e as [e|]; [|done]. repeat case_match; lia. Qed.

Lemma let_through_cons ip T ip' now calls ok oks :
  let_through ip T ((ip', now) :: calls) (ok :: oks) =
    (if bool_decide (ip' = ip) && (T <=? now) && (now <? T + RATE_LIMIT_WINDOW_MS) && ok then 1 else 0)
    + let_through ip T calls oks.
Proof. unfold let_through. cbn. case_match; cbn [length]; lia. Qed.

Lemma let_through_late ip T calls oks :
  Forall (λ c, T + RATE_LIMIT_WINDOW_MS ≤ c.2) calls → let_through ip T calls oks = 0.
Proof.
  revert oks. induction calls as [|[ip' now] calls IH]; intros [|ok oks] H; try done.
  apply Forall_cons in H as [H1 H]. cbn in H1. rewrite let_through_cons, (IH oks H).
  replace (now <? T + RATE_LIMIT_WINDOW_MS) with false by lia. by rewrite andb_false_r.
Qed.

Lemma evict_none {V} max (m : list (jsstr * V)) : (length m ≤ max)%nat → evict_first max m = m.
Proof. intros H. unfold evict_first. by replace (Nat.ltb max (length m)) with false by (symmetry; apply Nat.ltb_ge; lia). Qed.

Lemma length_keys {V} (m : list (jsstr * V)) : length (map_keys m) = length m.
Proof. unfold map_keys. by rewrite length_fmap. Qed.

Lemma rate_run_credit (ips : list jsstr) ip T calls m :
  (length ips ≤ MAX_RATE_LIMIT_IPS)%nat → map_wf m → map_keys m ⊆ ips → calls.*1 ⊆ ips →
  StronglySorted Z.le (map snd calls) →
  let_through ip T calls (rate_run calls m) ≤ credit T (map_get m ip).
Proof.
  intros Hips. revert m. induction calls as [|[ip' now] calls IH]; intros m Hw Hm Hc Hs.
  - unfold let_through, credit. cbn. repeat case_match; lia.
  - apply StronglySorted_inv in Hs as [Hs Hle].
    assert (ip' ∈ ips) as Hip' by (apply Hc; left). assert (calls.*1 ⊆ ips) as Hc' by (intros x Hx; apply Hc; by right).
    cbn [rate_run]. unfold checkRateLimit.
    set (e0 := match map_get m ip' with Some e => _ | None => _ end).
    set (e1 := RateEntry _ _). set (m1 := map_set m ip' e1).
    assert (map_keys m1 ⊆ ips) as Hm1.
    { unfold m1. rewrite map_keys_set. case_match; [done|]. intros x [?|Hx%list_elem_of_singleton]%elem_of_app; [auto|by subst]. }
    assert (map_wf m1) as Hw1 by (by apply map_wf_set).
    assert (length m1 ≤ MAX_RATE_LIMIT_IPS)%nat as Hl1.
    { etrans; [|exact Hips]. rewrite <- length_keys. apply NoDup_incl_length; [by apply NoDup_ListNoDup|].
      intros x Hx. apply list_elem_of_In. apply Hm1. by apply list_elem_of_In. }
    rewrite evict_none by done. specialize (IH m1 Hw1 Hm1 Hc' Hs). rewrite let_through_cons.
    destruct (decide (ip' = ip)) as [->|Hne].
    + rewrite bool_decide_true by done. unfold m1 in IH. rewrite map_get_set_eq in IH.
      destruct (decide (T + RATE_LIMIT_WINDOW_MS ≤ now)) as [Hlate|Hnl].
      * rewrite let_through_late.
        2:{ apply Forall_forall. intros c Hc0. rewrite Forall_forall in Hle.
            specialize (Hle c.2). assert (c.2 ∈ map snd calls) as Hin by (apply list_elem_of_fmap; eauto).
            specialize (Hle Hin). cbn [snd] in Hle. lia. }
        replace (now <? T + RATE_LIMIT_WINDOW_MS) with false by lia. rewrite andb_false_r. cbn [andb Z.add].
        apply credit_nonneg.
      * replace (now <? T + RATE_LIMIT_WINDOW_MS) with true by lia. rewrite andb_true_r. cbn [andb].
        change (map_set m ip e1) with m1 in IH. revert IH.
        generalize (let_through ip T calls (rate_run calls m1)) as N. intros N IH. clear m1 Hm1 Hw1 Hl1.
        unfold credit, e1, e0 in *. clear e1 e0. unfold RATE_LIMIT_MAX_REQUESTS, RATE_LIMIT_WINDOW_MS in *.
        destruct (map_get m ip) as [[c R]|]; cbn [re_count re_resetAt] in *;
          [destruct (now >=? R) eqn:ER|]; cbn [re_count re_resetAt] in *;
          repeat match goal with
          | |- context [if ?b then _ else _] => destruct b eqn:?
          | H : context [if ?b then _ else _] |- _ => destruct b eqn:?
          end; lia.
    + rewrite bool_decide_false by done. cbn [andb].
      assert (map_get m1 ip = map_get m ip) as E by (unfold m1; by rewrite map_get_set_ne).
      rewrite E in IH. lia.
Qed.

(** ** Bodies *)

Lemma utf8_ascii b : Forall is_ascii b → flat_map utf8 b = b.
Proof.
  induction 1 as [|c b Hc _ IH]; [done|]. cbn. rewrite IH. unfold utf8, is_ascii in *.
  by replace (c <? 0x80) with true by lia.
Qed.

Lemma buffer_to_string_ascii b : Forall is_ascii b → buffer_to_string b = b.
Proof.
  intros Hb. unfold buffer_to_string. rewrite <- (utf8_ascii b Hb) at 1.
  rewrite utf8_roundtrip by (eapply Forall_impl; [exact Hb|]; unfold is_ascii, is_scalar; lia).
  induction Hb as [|c b Hc _ IH]; [done|]. cbn. unfold utf16s in IH. rewrite IH. unfold utf16, is_ascii in *.
  by replace (c <? 0x10000) with true by lia.
Qed.

Lemma read_body_ascii body chunks :
  Forall is_ascii (concat chunks) → Z.of_nat (length body) ≤ MAX_BODY →
  read_body body chunks =
    if decide (Z.of_nat (length (body ++ concat chunks)) ≤ MAX_BODY) then Some (body ++ concat chunks) else None.
Proof.
  revert body. induction chunks as [|c cs IH]; intros body Ha Hb; cbn [concat read_body] in *.
  - rewrite app_nil_r. by rewrite decide_True.
  - apply Forall_app in Ha as [Hc Hcs]. destruct (_ >? MAX_BODY) eqn:E.
    + rewrite decide_False; [done|]. rewrite !length_app. lia.
    + rewrite buffer_to_string_ascii, IH, <- app_assoc by (done || rewrite length_app; lia). done.
Qed.

(** ** Properties *)

(** An ASCII body of at most 1 MiB is read whole, however the network cuts
    it; past the limit the request is dropped, without any answer. *)
Theorem read_body_spec chunks :
  Forall is_ascii (concat chunks) →
  read_body [] chunks =
    if decide (Z.of_nat (length (concat chunks)) ≤ MAX_BODY) then Some (concat chunks) else None.
Proof. intros Ha. by rewrite read_body_ascii. Qed.

Section ServerProperties.
Context `{NodePlatform} (AUTH_TOKEN : jsstr) (env_callback_hosts : option jsstr).

(** That the processing of a job succeeded in a run, with its result and the
    time by the worker's clock. *)
Definition completed_with (now : Z) (ls : list srv_label) (ref : nat) (result : json) (t : Z) : Prop :=
  ∃ ls1 ls2 s1 i, ls = ls1 ++ SManager (MSettle i ref (Processed result) Completed) :: ls2 ∧
    srv_steps AUTH_TOKEN (new_server now) ls1 s1 ∧ m_now (sv_manager s1) = t.

Definition result_of_run (now : Z) (ls : list srv_label) (m : manager) (x : jsstr * stored_result) : Prop :=
  ∃ ref, job_ids m !! ref = Some x.1 ∧ completed_with now ls ref (sr_result x.2) (sr_completedAt x.2).

Lemma result_of_run_mono now ls l m m' xs x :
  job_ids m' = job_ids m ++ xs → result_of_run now ls m x → result_of_run now (ls ++ [l]) m' x.
Proof.
  intros E (ref & Hr & ls1 & ls2 & s1 & i & -> & Hw). exists ref. split; [rewrite E; by apply lookup_app_l_Some|].
  exists ls1, (ls2 ++ [l]), s1, i. split; [by rewrite <- app_assoc|done].
Qed.

Lemma job_ids_srv_step s l s' : srv_step AUTH_TOKEN s l s' → ∃ xs, job_ids (sv_manager s') = job_ids (sv_manager s) ++ xs.
Proof.
  intros [s0 rq h s1 E|s0 id body r s1 _ E|s0 l0 m' Hl Hs].
  - apply handle_request_frame in E as (-> & _). exists []. by rewrite app_nil_r.
  - destruct (handle_end_cases id body s0) as [(r' & E' & _)|(v & t & _ & _ & _ & E')]; rewrite E' in E; injection E as <- <-.
    + exists []. by rewrite app_nil_r.
    + exists [id]. unfold job_ids. cbn. by rewrite map_app.
  - exists []. rewrite app_nil_r. by eapply job_ids_step.
Qed.

(** Every stored result is the one the processing of its job ended with. *)
Lemma results_history now ls s :
  srv_steps AUTH_TOKEN (new_server now) ls s → Forall (result_of_run now ls (sv_manager s)) (sv_results s).
Proof.
  intros Hs. induction Hs as [|ls s1 l s2 Hs1 IH Hl]; [constructor|].
  destruct (job_ids_srv_step s1 l s2 Hl) as [xs Ei].
  assert (Forall (result_of_run now (ls ++ [l]) (sv_manager s2)) (sv_results s1)) as IH'.
  { eapply Forall_impl; [exact IH|]. intros x. by apply result_of_run_mono with xs. }
  clear IH. destruct Hl as [s rq h s' E|s id body r s' _ E|s l m' Hl Hm].
  - apply handle_request_frame in E as (_ & E & _). by rewrite E.
  - destruct (handle_end_cases id body s) as [(r' & E' & _)|(v & t & _ & _ & _ & E')]; rewrite E' in E; by injection E as <- <-.
  - cbn [sv_results]. unfold after_settle. destruct l as [| | |i ref [r|e] []| |]; try done.
    rewrite Forall_forall in *. intros x Hx%evict_first_sub. apply map_set_sub in Hx as [->|Hx]; [|auto].
    exists ref. cbn [fst snd sr_result sr_completedAt sv_manager] in *. rewrite Ei. split.
    + apply lookup_app_l_Some. inversion Hm as [| | |? ? ? ? ? ? Hi _| |]; subst.
      destruct (in_flight_job _ _ i ref (si_mgr _ _ (srv_inv_steps AUTH_TOKEN now ls s Hs1)) Hi) as (j & Hj & _).
      assert (is_Some (job_ids (sv_manager s) !! ref)) as [x Hx].
      { apply lookup_lt_is_Some. rewrite <- length_jobs. by eapply lookup_lt_Some. }
      rewrite deref_id, Hx. done.
    + by exists ls, [], s, i.
Qed.


(** A dead job never answers ["failed"]: until its id is forgotten its
    status stays ["pending"]. *)
Theorem dead_job_pending now ls s ref j :
  srv_steps AUTH_TOKEN (new_server now) ls s → q_jobs (m_queue (sv_manager s)) !! ref = Some j →
  ref ∈ dead (ls ≫= mgr_trace) →
  job_status (job_id j) s = pending_reply (job_id j) ∨ job_status (job_id j) s = error_reply 404 "job not found".
Proof.
  intros Hs Hj Hd. apply srv_inv_steps in Hs as Hi. pose proof (job_status_cases _ _ _ _ Hi Hj) as Hst.
  rewrite decide_False in Hst; [case_decide; auto|].
  intros Hc%elem_of_drop_sub. pose proof (inv_refs _ _ (si_mgr _ _ Hi)) as Hr.
  pose proof (NoDup_seq 0 (length (q_jobs (m_queue (sv_manager s))))) as Hnd. rewrite <- Hr in Hnd.
  apply NoDup_app in Hnd as (_ & _ & Hnd). apply NoDup_app in Hnd as (_ & _ & Hnd).
  apply NoDup_app in Hnd as (_ & Hnd & _). by apply (Hnd ref).
Qed.

(** C36: with a token configured nobody gets past the health check without it:
    a request whose bearer token does not hash like the configured one is
    answered 401 (or is the health check, or has an unparsable URL), and
    changes nothing, not even the rate limiter. *)
Theorem auth_required rq s h s' :
  AUTH_TOKEN ≠ [] →
  hash_text (bearer (default [] (hr_authorization rq))) ≠ hash_text AUTH_TOKEN →
  handle_request AUTH_TOKEN rq s = (h, s') →
  s' = s ∧ (h = Crash ∨ h = Answer (health_reply s) ∨ h = Answer (error_reply 401 "unauthorized")).
Proof.
  intros Ht Hne E. unfold handle_request in E. destruct (URL_pathname (hr_url rq)) as [p|]; [|by simplify_eq; auto].
  destruct (bool_decide _ && _); [by simplify_eq; auto|].
  assert (checkAuth AUTH_TOKEN (hr_authorization rq) = Some (error_reply 401 "unauthorized")) as Ea.
  { unfold checkAuth. destruct AUTH_TOKEN as [|c t]; [done|]. cbn [str_empty].
    destruct (str_empty (bearer _)); [done|]. by rewrite bool_decide_false. }
  rewrite Ea in E. by simplify_eq; auto.
Qed.

(** The rate limit that holds: while at most ten thousand addresses have
    been seen, no address gets more than 119 job submissions through in any
    60 seconds, wherever the 60 seconds begin. *)
Theorem rate_limit_bound (ips : list jsstr) ip T calls :
  (length ips ≤ MAX_RATE_LIMIT_IPS)%nat → calls.*1 ⊆ ips → StronglySorted Z.le (map snd calls) →
  let_through ip T calls (rate_run calls []) ≤ 119.
Proof.
  intros Hips Hc Hs. apply (rate_run_credit ips); [done|apply map_wf_nil|by intros x ?%not_elem_of_nil|done|done].
Qed.

(** The callback of a job only reaches the allowlist: a request is made to
    the job's own [callbackURL], whose protocol, host name and port are
    allowed, and, when neither loopback name is in the allowlist, whose name
    did not resolve to a private address. *)
Theorem callback_allowed j result lookup rq :
  callback env_callback_hosts j result lookup = Some rq →
  ∃ s u address, json_get (data_of j) (lit "callbackURL") = Some (JStr s) ∧ rq_url rq = s ∧
    URL_parse s = Some u ∧ url_protocol u ∈ [lit "http:"; lit "https:"] ∧
    url_hostname u ∈ ALLOWED_CALLBACK_HOSTS env_callback_hosts ∧ effective_port u ∈ CALLBACK_PORTS ∧
    lookup (url_hostname u) = Ok address ∧
    (lit "localhost" ∉ ALLOWED_CALLBACK_HOSTS env_callback_hosts →
     lit "127.0.0.1" ∉ ALLOWED_CALLBACK_HOSTS env_callback_hosts → isPrivate address = false).
Proof.
  unfold callback. destruct (json_get (data_of j) (lit "callbackURL")) as [[| | |[|c s]| |]|]; try done.
  case_match eqn:E; [|done]. intros [= <-].
  apply bind_Ok in E as (u & Hu & E). apply bind_Ok in E as (address & Ha & E).
  unfold callback_target in Hu. destruct (URL_parse (c :: s)) as [u'|] eqn:Ep; [|done].
  destruct (includes [lit "http:"; lit "https:"] (url_protocol u')) eqn:E1; [|done]. cbn [negb] in Hu.
  destruct (includes (ALLOWED_CALLBACK_HOSTS env_callback_hosts) (url_hostname u')) eqn:E2; [|done].
  destruct (includes CALLBACK_PORTS (effective_port u')) eqn:E3; [|done]. cbn [negb orb] in Hu.
  injection Hu as ->. apply includes_spec in E1, E2, E3.
  exists (c :: s), u, address. split_and!; try done. intros H1 H2.
  destruct (isPrivate address); [|done].
  destruct (includes (ALLOWED_CALLBACK_HOSTS env_callback_hosts) (lit "localhost")) eqn:E4;
    [by apply includes_spec in E4|].
  destruct (includes (ALLOWED_CALLBACK_HOSTS env_callback_hosts) (lit "127.0.0.1")) eqn:E5;
    [by apply includes_spec in E5|]. done.
Qed.
End ServerProperties.

Module ServerExamples.
Import WorkerExamples.

#[export] Instance toy_node : NodePlatform := {|
  node_platform := toy_platform;
  sha256_digest b := b;
  URL_pathname u := match u with 47 :: _ => Some u | _ => None end
|}.

Definition submission : jsstr := jtext "{'type':'room:cleanup'}".

Lemma read_body_spec_witness :
  read_body [] [lit "{'type'"; lit ":'x'}"] = Some (lit "{'type':'x'}").
Proof. exact (read_body_spec [lit "{'type'"; lit ":'x'}"] ltac:(decided)). Defined.

(** One job is submitted, started, and processed after a second. *)
Definition sv1 : server := (handle_end (lit "j1") submission (new_server 5)).2.
Definition on_mgr (f : manager → manager) (s : server) : server := Server (f (sv_manager s)) (sv_results s) (sv_submitted s) (sv_rate s).
Definition advanced (m : manager) : manager := default m (mgr_exec m (MWait 1000)).
Definition sv2 : server := on_mgr advanced (on_mgr start sv1).
Definition one_ends : mgr_label := MSettle 0 0 (Processed (JNum 7)) Completed.
Definition sv3 : server := Server (default (sv_manager sv2) (mgr_exec (sv_manager sv2) one_ends)) (after_settle one_ends sv2) (sv_submitted sv2) (sv_rate sv2).
Definition one_done : list srv_label :=
  [SEnd (lit "j1") submission (handle_end (lit "j1") submission (new_server 5)).1; SManager MStart; SManager (MWait 1000); SManager one_ends].

Lemma one_done_steps : srv_steps [] (new_server 5) one_done sv3.
Proof.
  eapply (srv_snoc _ _ [_; _; _] _ (SManager one_ends) sv3); [eapply (srv_snoc _ _ [_; _] _ (SManager (MWait 1000)) sv2);
    [eapply (srv_snoc _ _ [_] _ (SManager MStart) (on_mgr start sv1)); [eapply (srv_snoc _ _ [] _ _ sv1); [apply srv_nil|]|]|]|].
  - apply srv_end; [constructor|]. apply surjective_pairing.
  - apply (srv_manager [] sv1 MStart); [discriminate|]. apply mgr_exec_step. reflexivity.
  - apply (srv_manager [] (on_mgr start sv1) (MWait 1000)); [discriminate|]. apply mgr_exec_step. reflexivity.
  - apply (srv_manager [] sv2 one_ends); [discriminate|]. apply mgr_exec_step. vm_compute. reflexivity.
Qed.


(** One job, submitted before the server starts, that fails three times. *)
Definition dying : list mgr_label :=
  [MStart; MSettle 0 0 (Rejected (lit "boom")) Requeued; MWait 1000; MWake 0;
   MSettle 0 0 (Rejected (lit "boom")) Requeued; MWait 2000; MWake 1; MSettle 0 0 (Rejected (lit "boom")) Dead].

Lemma dead_job_pending_witness :
  ∃ s, job_status (lit "j1") s = pending_reply (lit "j1") ∨
       job_status (lit "j1") s = error_reply 404 "job not found".
Proof.
  set (r0 := Reply 201 (Some (JObj [(lit "id", JStr (lit "j1"))]))).
  assert (∃ s0, handle_end (lit "j1") submission (new_server 5) = (r0, s0)) as [s0 E0]
    by (eexists; vm_compute; reflexivity).
  assert (srv_step [] (new_server 5) (SEnd (lit "j1") submission r0) s0) as H0 by (by apply srv_end).
  assert (∃ s, srv_run s0 dying = Some s ∧ job_id (deref (m_queue (sv_manager s)) 0) = lit "j1") as (s & Hr & Hj).
  { clear H0. vm_compute in E0. injection E0 as <-. eexists. split; vm_compute; reflexivity. }
  exists s.
  destruct (q_jobs (m_queue (sv_manager s)) !! 0%nat) as [j|] eqn:Ej.
  - unfold deref in Hj. rewrite Ej in Hj. change (job_id j = lit "j1") in Hj. rewrite <- Hj.
    apply (dead_job_pending [] 5 ([SEnd (lit "j1") submission r0] ++ map SManager dying) s 0 j); [|done|].
    + eapply srv_steps_app; [eapply (srv_snoc _ _ []); [apply srv_nil|exact H0]|by apply srv_run_steps].
    + decided.
  - exfalso. unfold deref in Hj. rewrite Ej in Hj. discriminate Hj.
Defined.

Definition get_status : http_request := HttpRequest (lit "GET") (lit "/jobs/j1") None None.

Lemma auth_required_witness :
  ∃ h, handle_request (lit "secret") get_status (new_server 5) = (h, new_server 5) ∧
    (h = Crash ∨ h = Answer (health_reply (new_server 5)) ∨ h = Answer (error_reply 401 "unauthorized")).
Proof.
  eexists. split; [vm_compute; reflexivity|].
  refine (proj2 (auth_required (lit "secret") get_status (new_server 5) _ (new_server 5) _ _ _));
    [discriminate|vm_compute; discriminate|vm_compute; reflexivity].
Defined.

Definition steady : list (jsstr * Z) := replicate 70 (lit "1.2.3.4", 10).

Lemma rate_limit_bound_witness : let_through (lit "1.2.3.4") 0 steady (rate_run steady []) ≤ 119.
Proof.
  apply (rate_limit_bound [lit "1.2.3.4"] (lit "1.2.3.4") 0 steady).
  - change (1 ≤ MAX_RATE_LIMIT_IPS)%nat. unfold MAX_RATE_LIMIT_IPS. lia.
  - intros x (c & -> & Hc)%list_elem_of_fmap. apply elem_of_replicate in Hc as [-> _]. apply list_elem_of_here.
  - unfold steady. cbn [replicate map snd]. repeat (constructor; try lia).
Defined.

(** The window is fixed to the first call, so it can be nearly doubled. *)
Definition burst : list (jsstr * Z) :=
  [(lit "1.2.3.4", 0)] ++ replicate 59 (lit "1.2.3.4", 59999) ++ replicate 60 (lit "1.2.3.4", 60000).

(** The comment of index.js says sixty jobs a minute; 119 submissions of
    one address get through within two milliseconds. *)
Theorem rate_limit_doubled :
  let_through (lit "1.2.3.4") 59999 burst (rate_run burst []) = 119 ∧
  Forall (λ b, b = true) (rate_run burst []).
Proof. split; [vm_compute; reflexivity|decided]. Qed.

Definition callback_job : job :=
  new_job (lit "j1") (lit "room:cleanup") (Some (JObj [(lit "callbackURL", JStr gw)])) 0.

Lemma callback_allowed_witness :
  ∃ rq, callback None callback_job (JArr []) (λ _, Ok (lit "127.0.0.1")) = Some rq ∧
    ∃ s u address, json_get (data_of callback_job) (lit "callbackURL") = Some (JStr s) ∧ rq_url rq = s ∧
      URL_parse s = Some u ∧ url_protocol u ∈ [lit "http:"; lit "https:"] ∧
      url_hostname u ∈ ALLOWED_CALLBACK_HOSTS None ∧ effective_port u ∈ CALLBACK_PORTS ∧
      Ok (lit "127.0.0.1") = Ok address ∧
      (lit "localhost" ∉ ALLOWED_CALLBACK_HOSTS None → lit "127.0.0.1" ∉ ALLOWED_CALLBACK_HOSTS None →
       isPrivate address = false).
Proof.
  eexists. split; [vm_compute; reflexivity|].
  refine (callback_allowed None callback_job (JArr []) (λ _, Ok (lit "127.0.0.1")) _ _). vm_compute. reflexivity.
Defined.

(** The type of the job that a body, received in these chunks, creates. *)
Definition submitted_type (chunks : list bytes) : option jsstr :=
  body ← read_body [] chunks;
  j ← q_jobs (m_queue (sv_manager (handle_end (lit "j1") body (new_server 5)).2)) !! 0%nat;
  Some (job_type j).

(** A character of the body that the network cuts in two is lost: the
    bytes of each chunk are decoded on their own, so a job is created with
    another type than the one submitted. *)
Theorem split_character_corrupts_job :
  let before := jtext "{'type':'" ++ [0xC3] in
  let after := [0xA9] ++ jtext "'}" in
  submitted_type [before ++ after] = Some [0xE9] ∧ submitted_type [before; after] = Some [0xFFFD; 0xFFFD].
Proof. split; vm_compute; reflexivity. Qed.
End ServerExamples.
