(* ===== verification/Lifecycle.v ===== *)
(** * services/worker/src/index.js and logger.js: the worker's process

    The process around the server of WorkerServer.v: listening, the signals,
    the shutdown, and the lines it logs. [server.close] stops accepting
    connections and calls back once the connections that are open have ended;
    the forced exit is a timer. An exception no one catches ends the process.
    [toISOString] is the platform's. *)

From S2P Require Import Prelude JsLib Json Timers Queue Manager Worker WorkerServer.

Local Open Scope Z_scope.

Definition SHUTDOWN_MS : Z := 10000.

(** ** The log *)

Section Logger.
Context (toISOString : Z → jsstr).

(** [JSON.stringify({ level, msg, ...data, time })]. *)
Definition log_fields (level msg : jsstr) (data : list (jsstr * json)) (now : Z) : list (jsstr * json) :=
  map_set (fold_left (λ m f, map_set m f.1 f.2) data [(lit "level", JStr level); (lit "msg", JStr msg)])
          (lit "time") (JStr (toISOString now)).

Definition log_line (level msg : jsstr) (data : list (jsstr * json)) (now : Z) : jsstr :=
  JSON_stringify (JObj (log_fields level msg data now)).
End Logger.

(** ** The process *)

Record process := Process {
  pr_server : server;
  pr_listening : bool;
  pr_connections : nat;
  pr_deadlines : list Z;      (** when each shutdown forces the exit *)
  pr_log : list jsstr;
  pr_exit : option Z
}.

Definition pr_now (p : process) : Z := m_now (sv_manager (pr_server p)).

Definition set_server (s : server) (p : process) : process :=
  Process s (pr_listening p) (pr_connections p) (pr_deadlines p) (pr_log p) (pr_exit p).
Definition set_connections (n : nat) (p : process) : process :=
  Process (pr_server p) (pr_listening p) n (pr_deadlines p) (pr_log p) (pr_exit p).
Definition exit (code : Z) (p : process) : process :=
  Process (pr_server p) (pr_listening p) (pr_connections p) (pr_deadlines p) (pr_log p) (Some code).
Definition on_manager (f : manager → manager) (s : server) : server :=
  Server (f (sv_manager s)) (sv_results s) (sv_submitted s) (sv_rate s).

Definition new_process (now : Z) : process := Process (new_server now) false 0 [] [] None.

Section Process.
Context `{NodePlatform} (AUTH_TOKEN : jsstr) (PORT : json) (toISOString : Z → jsstr).

Definition log (level : string) (msg : jsstr) (data : list (jsstr * json)) (p : process) : process :=
  Process (pr_server p) (pr_listening p) (pr_connections p) (pr_deadlines p)
          (pr_log p ++ [log_line toISOString (lit level) msg data (pr_now p)]) (pr_exit p).

(** The callback of [server.listen]. *)
Definition listening (p : process) : process :=
  let p := log "info" (lit "worker listening") [(lit "port", PORT)] p in
  let p := if str_empty AUTH_TOKEN
           then log "warn" (lit "WORKER_AUTH_TOKEN not set " ++ [8212] ++ lit " running without authentication") [] p else p in
  Process (on_manager start (pr_server p)) true (pr_connections p) (pr_deadlines p) (pr_log p) (pr_exit p).

Definition shutdown (signal : jsstr) (p : process) : process :=
  let p := log "info" (lit "received signal, shutting down") [(lit "signal", JStr signal)] p in
  Process (on_manager stop (pr_server p)) false (pr_connections p) (pr_deadlines p ++ [pr_now p + SHUTDOWN_MS])
          (pr_log p) (pr_exit p).

(** The callback of [server.close], and the timer of the forced exit. *)
Definition closed (p : process) : process := exit 0 (log "info" (lit "worker stopped") [] p).
Definition timed_out (p : process) : process :=
  exit 1 (log "error" (lit "graceful shutdown timed out, forcing exit") [] p).

Inductive proc_label :=
  | PListen
  | PSignal (signal : jsstr)
  | PConnect
  | PDisconnect
  | PServer (l : srv_label)
  | PClosed
  | PForce.

(** A process that has exited takes no step. *)
Inductive proc_step (p : process) : proc_label → process → Prop :=
  | proc_listen :
      pr_exit p = None → pr_listening p = false → pr_deadlines p = [] → proc_step p PListen (listening p)
  | proc_signal signal : pr_exit p = None → proc_step p (PSignal signal) (shutdown signal p)
  | proc_connect :
      pr_exit p = None → pr_listening p = true → proc_step p PConnect (set_connections (S (pr_connections p)) p)
  | proc_disconnect n :
      pr_exit p = None → pr_connections p = S n → proc_step p PDisconnect (set_connections n p)
  | proc_server l s' :
      pr_exit p = None → (∀ m, l = SManager m → m ≠ MStart ∧ m ≠ MStop) →
      ((∀ m, l ≠ SManager m) → pr_connections p ≠ 0%nat) →
      srv_step AUTH_TOKEN (pr_server p) l s' →
      proc_step p (PServer l) (match l with SRequest _ Crash => exit 1 (set_server s' p) | _ => set_server s' p end)
  | proc_closed :
      pr_exit p = None → pr_deadlines p ≠ [] → pr_connections p = 0%nat → proc_step p PClosed (closed p)
  | proc_force T :
      pr_exit p = None → T ∈ pr_deadlines p → T ≤ pr_now p → proc_step p PForce (timed_out p).

Inductive proc_run (p : process) : list proc_label → process → Prop :=
  | proc_nil : proc_run p [] p
  | proc_snoc ls p1 l p2 : proc_run p ls p1 → proc_step p1 l p2 → proc_run p (ls ++ [l]) p2.

(** ** Lemmas *)

Lemma pr_now_log level msg data p : pr_now (log level msg data p) = pr_now p.
Proof. done. Qed.

(** What a step does to a process that was told to stop. *)
Lemma stopping_step T p l p' :
  proc_step p l p' → T ∈ pr_deadlines p → pr_listening p = false →
  T ∈ pr_deadlines p' ∧ pr_listening p' = false ∧ (pr_connections p' ≤ pr_connections p)%nat.
Proof.
  intros Hs HT Hl. destruct Hs as [He _ Hd|sg He|He Hl'|n He Hc|l s' He _ _ _|He _ _|T' He _ _].
  - rewrite Hd in HT. by apply not_elem_of_nil in HT.
  - cbn. split_and!; [apply elem_of_app; by left|done|lia].
  - congruence.
  - cbn. split_and!; [done|done|lia].
  - destruct l as [rq []| |]; cbn; (split_and!; [done|done|lia]).
  - cbn. split_and!; [done|done|lia].
  - cbn. split_and!; [done|done|lia].
Qed.

Lemma stopping_run T p ls p' :
  proc_run p ls p' → T ∈ pr_deadlines p → pr_listening p = false →
  T ∈ pr_deadlines p' ∧ pr_listening p' = false ∧ (pr_connections p' ≤ pr_connections p)%nat.
Proof.
  intros Hr HT Hl. induction Hr as [|ls p1 l p2 _ (I1 & I2 & I3) Hs]; [done|].
  destruct (stopping_step T p1 l p2 Hs I1 I2) as (J1 & J2 & J3). split_and!; [done|done|lia].
Qed.

(** Jobs come in over connections only. *)
Lemma drain_jobs i m : q_jobs (m_queue (drain i m)) = q_jobs (m_queue m).
Proof. unfold drain, dequeue. by destruct (dequeue_scan _ _) as [[]|]. Qed.

Lemma poll_top_jobs i m : q_jobs (m_queue (poll_top i m)) = q_jobs (m_queue m).
Proof. unfold poll_top. destruct (m_running m); [apply drain_jobs|done]. Qed.

Lemma start_jobs m : q_jobs (m_queue (start m)) = q_jobs (m_queue m).
Proof. unfold start. destruct (m_running m); [done|]. by rewrite poll_top_jobs. Qed.

Lemma settle_jobs ref out m v m' :
  settle ref out m = (v, m') → length (q_jobs (m_queue m')) = length (q_jobs (m_queue m)).
Proof.
  destruct out as [r|e]; cbn [settle]; [by intros [= <- <-]|].
  pose proof (requeue_jobs (m_now m) ref (m_queue m)) as Hq.
  destruct (requeue (m_now m) ref (m_queue m)) as [[] q]; intros [= <- <-]; cbn in *; by rewrite ?length_alter, Hq, length_alter.
Qed.

Lemma no_connection_jobs p l p' :
  proc_step p l p' → pr_connections p = 0%nat →
  length (q_jobs (m_queue (sv_manager (pr_server p')))) = length (q_jobs (m_queue (sv_manager (pr_server p)))).
Proof.
  intros Hs H0. destruct Hs as [He _ Hd|sg He|He Hl'|n He Hc|l s' He _ Hc Hs|He _ _|T' He _ _]; try done.
  - unfold listening. destruct (str_empty AUTH_TOKEN); cbn; by rewrite start_jobs.
  - destruct l as [rq h|id body r|m]; [exfalso; by apply Hc..|]. inversion Hs as [| |s l m' Hne Hm]; subst. cbn.
    inversion Hm as [m1|m1|m1 id type data|m1 i ref out v m2 Hb Hse|m1 id i Hd|m1 d Hd]; subst; cbn.
    + by rewrite start_jobs.
    + done.
    + by destruct (Hne id type data).
    + rewrite drain_jobs. by apply settle_jobs in Hse.
    + by rewrite poll_top_jobs.
    + done.
Qed.

(** *** A manager that was told to stop *)

Lemma in_flight_set i p m p0 :
  m_pollers m !! i = Some p0 → (length (busy p) ≤ length (busy p0))%nat →
  (length (in_flight (set_poller i p m)) ≤ length (in_flight m))%nat.
Proof.
  intros Hi Hp. pose proof (busy_insert (m_pollers m) i p p0 Hi) as Hb%Permutation_length.
  rewrite !length_app in Hb. unfold in_flight. cbn. lia.
Qed.

Lemma drain_in_flight i ref m :
  m_pollers m !! i = Some (Busy ref) →
  m_running (drain i m) = m_running m ∧ (length (in_flight (drain i m)) ≤ length (in_flight m))%nat.
Proof.
  intros Hi. unfold drain. destruct (dequeue _ _) as [[r|] q]; (split; [done|]).
  - by apply (in_flight_set i (Busy r) (set_queue q m) (Busy ref)).
  - by apply (in_flight_set i _ (Manager _ _ _ _ _ _ _) (Busy ref)); [|cbn; lia].
Qed.

Lemma settle_pollers ref out m v m' :
  settle ref out m = (v, m') → m_pollers m' = m_pollers m ∧ m_running m' = m_running m.
Proof. destruct out as [r|e]; cbn [settle]; [by intros [= _ <-]|]. destruct (requeue _ _ _) as [[] q]; by intros [= _ <-]. Qed.

(** No loop that is idle takes up a job. *)
Lemma stopped_step m l m' :
  m_running m = false → l ≠ MStart → mgr_step m l m' →
  m_running m' = false ∧ (length (in_flight m') ≤ length (in_flight m))%nat.
Proof.
  intros Hr Hl Hs. destruct Hs as [s|s|s id type data|s i ref out v s' Hi E|s id i Hd|s d Hd]; try done.
  - apply settle_pollers in E as [Ep Er]. assert (m_pollers s' !! i = Some (Busy ref)) as Hi' by (by rewrite Ep).
    destruct (drain_in_flight i ref s' Hi') as [E1 E2]. rewrite E1, Er. split; [done|].
    etrans; [exact E2|]. unfold in_flight. by rewrite Ep.
  - unfold poll_top. cbn [m_running]. rewrite Hr. split; [done|].
    destruct (m_pollers s !! i) as [p|] eqn:Ei.
    + apply (in_flight_set i Ended (Manager _ _ _ _ _ _ _) p); [exact Ei|cbn; lia].
    + unfold in_flight. cbn. by rewrite list_insert_ge by (by apply lookup_ge_None).
Qed.

Lemma stopped_server s l s' :
  m_running (sv_manager s) = false → l ≠ SManager MStart → srv_step AUTH_TOKEN s l s' →
  m_running (sv_manager s') = false ∧ (length (in_flight (sv_manager s')) ≤ length (in_flight (sv_manager s)))%nat.
Proof.
  intros Hr Hl Hs. destruct Hs as [s0 rq h s1 E|s0 id body r s1 _ E|s0 l0 m' _ Hm].
  - apply handle_request_frame in E as (-> & _). done.
  - destruct (handle_end_cases id body s0) as [(r' & E' & _)|(v & t & _ & _ & _ & E')]; rewrite E' in E; by injection E as <- <-.
  - eapply stopped_step; [exact Hr| |exact Hm]. by intros ->.
Qed.

Lemma stopped_run T p ls p' :
  proc_run p ls p' → T ∈ pr_deadlines p → pr_listening p = false → m_running (sv_manager (pr_server p)) = false →
  m_running (sv_manager (pr_server p')) = false ∧
  (length (in_flight (sv_manager (pr_server p'))) ≤ length (in_flight (sv_manager (pr_server p))))%nat.
Proof.
  intros Hr HT Hl Hm. induction Hr as [|ls p1 l p2 Hr IH Hs]; [done|]. destruct IH as [I1 I2].
  destruct (stopping_run T p ls p1 Hr HT Hl) as (HT1 & Hl1 & _).
  assert (m_running (sv_manager (pr_server p2)) = false ∧
    (length (in_flight (sv_manager (pr_server p2))) ≤ length (in_flight (sv_manager (pr_server p1))))%nat) as [J1 J2].
  { destruct Hs as [He _ Hd|sg He|He Hl'|n He Hc|l s' He Hn _ Hst|He _ _|T' He _ _]; try done.
    - rewrite Hd in HT1. by apply not_elem_of_nil in HT1.
    - assert (l ≠ SManager MStart) as Hne by (intros ->; by destruct (Hn MStart eq_refl)).
      destruct (stopped_server _ _ _ I1 Hne Hst). destruct l as [rq []| |]; by split. }
  split; [done|lia].
Qed.

(** ** Properties *)


(** Nothing happens after the exit. *)
Lemma exited_stops p l p' : pr_exit p ≠ None → ¬ proc_step p l p'.
Proof. intros He Hs. by destruct Hs. Qed.
End Process.

Module LifecycleExamples.
Import WorkerExamples ServerExamples.

Definition iso (t : Z) : jsstr := dec_int t.
Definition fresh : process := new_process 5.
Definition up : process := listening [] (JNum 9100) iso fresh.

(** A job has been submitted and is being processed when the signal comes. *)
Definition busy_server : server :=
  let s := (handle_end (lit "j1") submission (pr_server fresh)).2 in on_manager start s.
Definition working : process := Process busy_server true 0 [] [] None.


(** The process exits at once with a job in its hands: nothing drains the work
    in flight, and the job is lost with the process. *)
Example in_flight_job_lost :
  in_flight (sv_manager (pr_server working)) = [0%nat] ∧
  ∃ p2, proc_step [] (JNum 9100) iso (shutdown iso (lit "SIGTERM") working) PClosed p2 ∧ pr_exit p2 = Some 0 ∧
    in_flight (sv_manager (pr_server p2)) = [0%nat].
Proof.
  split; [vm_compute; reflexivity|]. exists (closed iso (shutdown iso (lit "SIGTERM") working)).
  split_and!; [|vm_compute; reflexivity..]. constructor; [reflexivity|discriminate|reflexivity].
Qed.

(** What was given to the logger comes after the level and the message, and
    before the time, and replaces a field of the same name. *)
Example a_line :
  log_line iso (lit "error") (lit "callback failed") [(lit "level", JStr (lit "x")); (lit "jobId", JStr (lit "j1"))] 7 =
  JSON_stringify (JObj [(lit "level", JStr (lit "x")); (lit "msg", JStr (lit "callback failed"));
                        (lit "jobId", JStr (lit "j1")); (lit "time", JStr (lit "7"))]).
Proof. vm_compute. reflexivity. Qed.
End LifecycleExamples.
