(* ===== verification/Client.v ===== *)
(** * apps/trapchat/src/socket/client.js: TrapChatClient

    The client owns one WebSocket at a time through [#ws], but every socket it
    ever created keeps the handlers [connect] gave it, so the sockets live in
    a heap and an event of an old socket runs its handlers on the client's
    present state. What the client does is written to a log: the messages it
    puts on a socket, the listeners it calls, the promises it settles.

    A listener that calls the client back does so after the operation that
    called it; the only listener of the application that does is the one of
    ['message'], the last thing [onmessage] runs before the typed event. *)

From S2P Require Import Prelude JsLib Text Json Timers.

Local Open Scope Z_scope.

Create HintDb client.

Definition MAX_RECONNECT_DELAY : Z := 30000.
Definition BASE_RECONNECT_DELAY : Z := 1000.
Definition MAX_RECONNECT_ATTEMPTS : Z := 20.
Definition MAX_ROOMS : nat := 5.
Definition MAX_PENDING : nat := 200.

(** ** The browser's WebSocket *)

Inductive ready := CONNECTING | OPEN | CLOSING | CLOSED.

Global Instance ready_eq_dec : EqDecision ready.
Proof. solve_decision. Defined.

(** A socket and the [settled] flag its handlers close over. *)
Record socket := Socket { ws_state : ready; ws_settled : bool }.

Inductive effect :=
  | WsSend (s : nat) (msg : jsstr)                                  (** [ws.send(msg)] *)
  | Emitted (event : jsstr) (data : option json) (fns : list nat)   (** the listeners called, in order *)
  | Resolved (s : nat)
  | Rejected (s : nat) (err : json).

Record client := Client {
  cl_ws : option nat;
  cl_sockets : list socket;
  cl_listeners : list (jsstr * list nat);
  cl_reconnecting : bool;
  cl_attempts : Z;
  cl_timer : option nat;
  cl_clock : timers unit;
  cl_joined : list (jsstr * option json);
  cl_pending : list (jsstr * jsstr);
  cl_peerId : option json;
  cl_uuids : nat;
  cl_log : list effect
}.

Definition cl_now (c : client) : Z := t_now (cl_clock c).

Definition log (e : effect) (c : client) : client :=
  Client (cl_ws c) (cl_sockets c) (cl_listeners c) (cl_reconnecting c) (cl_attempts c) (cl_timer c) (cl_clock c)
         (cl_joined c) (cl_pending c) (cl_peerId c) (cl_uuids c) (cl_log c ++ [e]).
Definition set_sockets (ws : option nat) (sockets : list socket) (c : client) : client :=
  Client ws sockets (cl_listeners c) (cl_reconnecting c) (cl_attempts c) (cl_timer c) (cl_clock c)
         (cl_joined c) (cl_pending c) (cl_peerId c) (cl_uuids c) (cl_log c).
Definition set_listeners (l : list (jsstr * list nat)) (c : client) : client :=
  Client (cl_ws c) (cl_sockets c) l (cl_reconnecting c) (cl_attempts c) (cl_timer c) (cl_clock c)
         (cl_joined c) (cl_pending c) (cl_peerId c) (cl_uuids c) (cl_log c).
Definition set_reconnect (reconnecting : bool) (attempts : Z) (c : client) : client :=
  Client (cl_ws c) (cl_sockets c) (cl_listeners c) reconnecting attempts (cl_timer c) (cl_clock c)
         (cl_joined c) (cl_pending c) (cl_peerId c) (cl_uuids c) (cl_log c).
Definition set_timer (timer : option nat) (clock : timers unit) (c : client) : client :=
  Client (cl_ws c) (cl_sockets c) (cl_listeners c) (cl_reconnecting c) (cl_attempts c) timer clock
         (cl_joined c) (cl_pending c) (cl_peerId c) (cl_uuids c) (cl_log c).
Definition set_joined (joined : list (jsstr * option json)) (c : client) : client :=
  Client (cl_ws c) (cl_sockets c) (cl_listeners c) (cl_reconnecting c) (cl_attempts c) (cl_timer c) (cl_clock c)
         joined (cl_pending c) (cl_peerId c) (cl_uuids c) (cl_log c).
Definition set_pending (pending : list (jsstr * jsstr)) (c : client) : client :=
  Client (cl_ws c) (cl_sockets c) (cl_listeners c) (cl_reconnecting c) (cl_attempts c) (cl_timer c) (cl_clock c)
         (cl_joined c) pending (cl_peerId c) (cl_uuids c) (cl_log c).
Definition set_peerId (id : option json) (c : client) : client :=
  Client (cl_ws c) (cl_sockets c) (cl_listeners c) (cl_reconnecting c) (cl_attempts c) (cl_timer c) (cl_clock c)
         (cl_joined c) (cl_pending c) id (cl_uuids c) (cl_log c).
Definition draw_uuids (n : nat) (c : client) : client :=
  Client (cl_ws c) (cl_sockets c) (cl_listeners c) (cl_reconnecting c) (cl_attempts c) (cl_timer c) (cl_clock c)
         (cl_joined c) (cl_pending c) (cl_peerId c) (n + cl_uuids c) (cl_log c).

Definition new_client (now : Z) : client :=
  Client None [] [] false 0 None (timers_init now) [] [] None 0 [].

(** ** Listeners *)

Definition on (event : jsstr) (fn : nat) (c : client) : client :=
  let fns := default [] (map_get (cl_listeners c) event) in
  set_listeners (map_set (cl_listeners c) event (set_add fns fn)) c.

(** The function [on] returns. *)
Definition unsubscribe (event : jsstr) (fn : nat) (c : client) : client :=
  match map_get (cl_listeners c) event with
  | Some fns => set_listeners (map_set (cl_listeners c) event (set_delete fns fn)) c
  | None => c
  end.

Definition emit (event : jsstr) (data : option json) (c : client) : client :=
  log (Emitted event data (default [] (map_get (cl_listeners c) event))) c.

Definition emitP2P (event : jsstr) (data : option json) (c : client) : client :=
  emit (lit "p2p:" ++ event) data c.

(** ** Sending *)

(** [this.#ws], when its [readyState] is [OPEN]. *)
Definition open_ws (c : client) : option nat :=
  s ← cl_ws c;
  k ← cl_sockets c !! s;
  if decide (ws_state k = OPEN) then Some s else None.

Definition connected (c : client) : bool := bool_decide (is_Some (open_ws c)).

Definition joinedRooms (c : client) : list jsstr := map_keys (cl_joined c).

Definition room_limit : json :=
  JObj [(lit "code", JStr (lit "MAX_ROOMS")); (lit "message", JStr (lit "Cannot join more than 5 rooms"))].

Definition message (id msgId type room : jsstr) (payload : option json) (now : Z) : jsstr :=
  JSON_stringify (obj [(lit "id", Some (JStr id)); (lit "msgId", Some (JStr msgId)); (lit "type", Some (JStr type));
                       (lit "room", Some (JStr room)); (lit "payload", payload);
                       (lit "timestamp", Some (JNum now))]).

Definition queues (type : jsstr) : bool := bool_decide (type = lit "chat") || bool_decide (type = lit "media").

Section Client.
(** The values [crypto.randomUUID()] returns, in order. *)
Context (randomUUID : nat → jsstr).

(** The bookkeeping of a ['join'] or ['leave']; [None] is the room limit. *)
Definition track_room (type room : jsstr) (payload : option json) (c : client) : option client :=
  if bool_decide (type = lit "join") then
    if negb (map_has (cl_joined c) room) && Nat.leb MAX_ROOMS (length (cl_joined c)) then None
    else Some (set_joined (map_set (cl_joined c) room payload) c)
  else if bool_decide (type = lit "leave") then Some (set_joined (map_delete (cl_joined c) room) c)
  else Some c.

Definition send (type room : jsstr) (payload : option json) (msgId : option jsstr) (c : client) : bool * client :=
  match track_room type room payload c with
  | None => (false, emit (lit "error") (Some room_limit) c)
  | Some c =>
      let id := randomUUID (cl_uuids c) in
      let '(mid, c) :=
        match msgId with
        | Some (ch :: m) => (ch :: m, draw_uuids 1 c)
        | _ => (randomUUID (S (cl_uuids c)), draw_uuids 2 c)
        end in
      let msg := message id mid type room payload (cl_now c) in
      match open_ws c with
      | Some s => (true, log (WsSend s msg) c)
      | None =>
          (false,
           if queues type then
             emit (lit "queued") (Some (JObj [(lit "type", JStr type); (lit "room", JStr room)]))
                  (if Nat.ltb (length (cl_pending c)) MAX_PENDING
                   then set_pending (cl_pending c ++ [(room, msg)]) c else c)
           else c)
      end
  end.

Definition sendRaw (msg : jsstr) (c : client) : bool * client :=
  match open_ws c with
  | None => (false, c)
  | Some s =>
      match JSON_parse msg with
      | Ok v =>
          if truthy (json_get v (lit "type")) && truthy (json_get v (lit "room"))
             && is_str (json_get v (lit "type")) (lit "signal")
          then (true, log (WsSend s msg) c) else (false, c)
      | Throw _ => (false, c)
      end
  end.

(** The loop of [#flushQueue]: a message that cannot be sent is dropped. *)
Fixpoint flush (queue : list (jsstr * jsstr)) (c : client) : client :=
  match queue with
  | [] => c
  | (_, msg) :: queue =>
      let c := set_pending queue c in
      flush queue (match open_ws c with Some s => log (WsSend s msg) c | None => c end)
  end.

Definition flushQueue (c : client) : client := flush (cl_pending c) c.

(** ** Connecting *)

Definition connect (c : client) : client :=
  set_sockets (Some (length (cl_sockets c))) (cl_sockets c ++ [Socket CONNECTING false]) c.

Definition reconnect_base (attempts : Z) : Z :=
  Z.min (BASE_RECONNECT_DELAY * 2 ^ attempts) MAX_RECONNECT_DELAY.

(** [jitter] is [Math.random() * base * 0.5], to the millisecond. *)
Definition attemptReconnect (jitter : Z) (c : client) : client :=
  match cl_joined c with
  | [] => c
  | _ :: _ =>
      if cl_attempts c >=? MAX_RECONNECT_ATTEMPTS then
        let c := emit (lit "reconnect_failed") (Some (JObj [(lit "attempts", JNum (cl_attempts c))])) c in
        set_reconnect false (cl_attempts c) c
      else
        let delay := Z.min (reconnect_base (cl_attempts c) + jitter) MAX_RECONNECT_DELAY in
        let c := set_reconnect true (cl_attempts c + 1) c in
        let c := emit (lit "reconnecting")
                   (Some (JObj [(lit "attempt", JNum (cl_attempts c)); (lit "delay", JNum delay)])) c in
        let '(id, clock) := setTimeout (cl_clock c) tt delay in
        set_timer (Some id) clock c
  end.

Definition clearReconnect (c : client) : client :=
  let c := set_reconnect false 0 c in
  set_timer None (clear_opt (cl_clock c) (cl_timer c)) c.

(** The [for] loop of [onopen]: [send] puts the same keys back. *)
Fixpoint rejoin (rooms : list (jsstr * option json)) (c : client) : client :=
  match rooms with
  | [] => c
  | (room, payload) :: rooms => rejoin rooms (send (lit "join") room payload None c).2
  end.

Definition settle_socket (s : nat) (c : client) : client :=
  set_sockets (cl_ws c) (alter (λ k, Socket (ws_state k) true) s (cl_sockets c)) c.

Definition onopen (s : nat) (c : client) : client :=
  let c := set_reconnect (cl_reconnecting c) 0 (settle_socket s c) in
  let c := emit (lit "open") None c in
  let c := if cl_reconnecting c && Nat.ltb 0 (length (cl_joined c))
           then let c := rejoin (cl_joined c) c in set_reconnect false (cl_attempts c) c
           else c in
  log (Resolved s) (flushQueue c).

Definition onerror (s : nat) (err : json) (c : client) : client :=
  let c := emit (lit "error") (Some err) c in
  match cl_sockets c !! s with
  | Some (Socket _ false) => log (Rejected s err) (settle_socket s c)
  | _ => c
  end.

Definition onclose (s : nat) (ev : json) (jitter : Z) (c : client) : client :=
  let c := emit (lit "close") (Some ev) c in
  match cl_sockets c !! s with
  | Some (Socket _ true) => attemptReconnect jitter c
  | _ => c
  end.

(** [text] is [e.data]. Reading a property of [null] throws. A [type] that is
    not a string names no event anybody can listen to. *)
Definition onmessage (text : jsstr) (c : client) : client :=
  match JSON_parse text with
  | Throw _ | Ok JNull => emit (lit "message") (Some (JStr text)) c
  | Ok data =>
      let c := if is_str (json_get data (lit "type")) (lit "welcome") &&
                  truthy (json_get data (lit "id"))
               then set_peerId (json_get data (lit "id")) c else c in
      let c := emit (lit "message") (Some data) c in
      match json_get data (lit "type") with
      | Some (JStr (ch :: t)) => emit (ch :: t) (Some data) c
      | _ => c
      end
  end.

(** [ws.close()]: nothing happens to a socket that is closing or closed. *)
Definition close_socket (s : nat) (c : client) : client :=
  set_sockets (cl_ws c)
    (alter (λ k, Socket (match ws_state k with CLOSED => CLOSED | _ => CLOSING end) (ws_settled k)) s
           (cl_sockets c)) c.

Definition disconnect (c : client) : client :=
  let c := set_pending [] (set_joined [] (clearReconnect c)) in
  match cl_ws c with
  | Some s => let c := close_socket s c in set_sockets None (cl_sockets c) c
  | None => c
  end.

(** ** Runs *)

Inductive cl_label :=
  | CConnect
  | CDisconnect
  | CSend (type room : jsstr) (payload : option json) (msgId : option jsstr)
  | CSendRaw (msg : jsstr)
  | COn (event : jsstr) (fn : nat)
  | COff (event : jsstr) (fn : nat)
  | CEmit (event : jsstr) (data : option json)
  | COpen (s : nat)                                        (** the handshake of a socket succeeds *)
  | CEnd (s : nat) (err : option json) (ev : json) (jitter : Z)  (** a socket ends, with or without an error *)
  | CMessage (s : nat) (text : jsstr)
  | CTimer (id : nat)
  | CWait (d : Z).

Definition set_state (s : nat) (r : ready) (c : client) : client :=
  set_sockets (cl_ws c) (alter (λ k, Socket r (ws_settled k)) s (cl_sockets c)) c.

Definition socket_state (c : client) (s : nat) : option ready := ws_state <$> cl_sockets c !! s.

(** One operation, or one event of the platform: [None] when it cannot happen.
    The state of a socket changes before its handlers run; the error and the
    close event of a socket that fails belong to one task. *)
Definition cl_exec (c : client) (l : cl_label) : option client :=
  match l with
  | CConnect => Some (connect c)
  | CDisconnect => Some (disconnect c)
  | CSend type room payload msgId => Some (send type room payload msgId c).2
  | CSendRaw msg => Some (sendRaw msg c).2
  | COn event fn => Some (on event fn c)
  | COff event fn => Some (unsubscribe event fn c)
  | CEmit event data => Some (emit event data c)
  | COpen s => if decide (socket_state c s = Some CONNECTING) then Some (onopen s (set_state s OPEN c)) else None
  | CEnd s err ev jitter =>
      if decide (is_Some (socket_state c s) ∧ socket_state c s ≠ Some CLOSED ∧
                 0 ≤ jitter ∧ 2 * jitter ≤ reconnect_base (cl_attempts c)) then
        let c := set_state s CLOSED c in
        let c := match err with Some e => onerror s e c | None => c end in
        Some (onclose s ev jitter c)
      else None
  | CMessage s text => if decide (socket_state c s = Some OPEN) then Some (onmessage text c) else None
  | CTimer id =>
      _ ← due (cl_clock c) id;
      Some (connect (set_timer (cl_timer c) (clearTimeout (cl_clock c) id) c))
  | CWait d => if decide (0 ≤ d) then Some (set_timer (cl_timer c) (advance (cl_clock c) d) c) else None
  end.

Fixpoint cl_run (c : client) (ls : list cl_label) : option client :=
  match ls with
  | [] => Some c
  | l :: ls => c' ← cl_exec c l; cl_run c' ls
  end.
End Client.

(** ** What the operations leave alone *)

Definition log_all (es : list effect) (c : client) : client :=
  Client (cl_ws c) (cl_sockets c) (cl_listeners c) (cl_reconnecting c) (cl_attempts c) (cl_timer c) (cl_clock c)
         (cl_joined c) (cl_pending c) (cl_peerId c) (cl_uuids c) (cl_log c ++ es).

Lemma log_all_nil c : log_all [] c = c.
Proof. destruct c. unfold log_all. cbn. by rewrite app_nil_r. Qed.

Lemma log_all_cons e es c : log_all (e :: es) c = log_all es (log e c).
Proof. unfold log_all, log. cbn. by rewrite <- app_assoc. Qed.

Lemma open_ws_Some c s : open_ws c = Some s ↔ cl_ws c = Some s ∧ socket_state c s = Some OPEN.
Proof.
  unfold open_ws, socket_state. destruct (cl_ws c) as [s'|]; cbn; [|naive_solver].
  destruct (cl_sockets c !! s') as [k|] eqn:E; cbn.
  - case_decide as Hd; split; [intros [= ->]; rewrite E; cbn; by rewrite Hd | naive_solver | done |].
    intros [[= ->] H]. rewrite E in H. cbn in H. naive_solver.
  - split; [done|]. intros [[= ->] H]. rewrite E in H. done.
Qed.

(** The network's part of the state: what every socket is doing, which one is
    the client's, the handle of the reconnection timer and the clock. *)
Abbreviation network := (list ready * option nat * option nat * timers unit)%type.

Definition net (c : client) : network := (map ws_state (cl_sockets c), cl_ws c, cl_timer c, cl_clock c).

Lemma socket_state_net c s : socket_state c s = (net c).1.1.1 !! s.
Proof. unfold socket_state, net. cbn. change (map ws_state) with (fmap (M:=list) ws_state). by rewrite list_lookup_fmap. Qed.

Lemma states_alter f s (l : list socket) :
  (∀ k, ws_state (f k) = ws_state k) → map ws_state (alter f s l) = map ws_state l.
Proof.
  intros Hf. revert s. induction l as [|k l IH]; intros [|s]; cbn; [done..|by rewrite Hf|]. f_equal. apply IH.
Qed.

Lemma states_alter_to r f s (l : list socket) :
  (∀ k, ws_state (f k) = r (ws_state k)) → map ws_state (alter f s l) = alter r s (map ws_state l).
Proof.
  intros Hf. revert s. induction l as [|k l IH]; intros [|s]; cbn; [done..|by rewrite Hf|]. f_equal. apply IH.
Qed.

Lemma net_settle s c : net (settle_socket s c) = net c.
Proof. unfold net. cbn. by rewrite states_alter. Qed.

Section ClientFacts.
Context (randomUUID : nat → jsstr).
Implicit Types (c : client).

Notation send := (send randomUUID).
Notation rejoin := (rejoin randomUUID).
Notation onopen := (onopen randomUUID).
Notation cl_exec := (cl_exec randomUUID).
Notation cl_run := (cl_run randomUUID).

Lemma net_send type room payload msgId c :
  net (send type room payload msgId c).2 = net c.
Proof. unfold Client.send, track_room. repeat (case_match; simplify_eq/=); done. Qed.

Lemma net_flush q c : net (flush q c) = net c.
Proof.
  revert c. induction q as [|[r m] q IH]; intros c; cbn [flush]; [done|].
  rewrite IH. by destruct (open_ws _).
Qed.

Lemma net_rejoin rooms c : net (rejoin rooms c) = net c.
Proof.
  revert c. induction rooms as [|[r p] rooms IH]; intros c; cbn [Client.rejoin]; [done|].
  rewrite IH. apply net_send.
Qed.

Lemma net_onopen s c : net (onopen s c) = net c.
Proof.
  unfold Client.onopen, flushQueue. change (net (log ?e ?c)) with (net c). rewrite net_flush.
  destruct (_ && _); [change (net (set_reconnect ?a ?b ?c)) with (net c); rewrite net_rejoin|]; apply (net_settle s c).
Qed.

Lemma net_onmessage text c : net (onmessage text c) = net c.
Proof. unfold onmessage. repeat (case_match; simplify_eq/=); done. Qed.

Lemma net_onerror s e c : net (onerror s e c) = net c.
Proof.
  unfold onerror. destruct (cl_sockets _ !! s) as [[r []]|]; try done. apply (net_settle s c).
Qed.

(** ** The invariant *)

(** A message [send] builds, or a signal that [sendRaw] accepts. *)
Definition wire_ok (m : jsstr) : Prop :=
  (∃ id mid type room payload t, m = message id mid type room payload t) ∨
  ∃ v, JSON_parse m = Ok v ∧ json_get v (lit "type") = Some (JStr (lit "signal")) ∧
    truthy (json_get v (lit "room")) = true.

Definition queued_ok (p : jsstr * jsstr) : Prop :=
  ∃ id mid type payload t, queues type = true ∧ p.2 = message id mid type p.1 payload t.

Definition effect_ok (e : effect) : Prop := match e with WsSend _ m => wire_ok m | _ => True end.

Record client_inv (c : client) : Prop := {
  ci_rooms : (length (cl_joined c) ≤ MAX_ROOMS)%nat;
  ci_joined : map_wf (cl_joined c);
  ci_pending : (length (cl_pending c) ≤ MAX_PENDING)%nat;
  ci_queued : Forall queued_ok (cl_pending c);
  ci_attempts : 0 ≤ cl_attempts c ≤ MAX_RECONNECT_ATTEMPTS;
  ci_log : Forall effect_ok (cl_log c);
  ci_listeners : ∀ event fns, map_get (cl_listeners c) event = Some fns → NoDup fns
}.

Lemma client_inv_new now : client_inv (new_client now).
Proof. split; cbn; try done; try lia; constructor. Qed.

Lemma inv_log e c : effect_ok e → client_inv c → client_inv (log e c).
Proof. intros He []; split; cbn; try done. by apply Forall_snoc. Qed.

Lemma inv_emit event data c : client_inv c → client_inv (emit event data c).
Proof. by apply inv_log. Qed.

Lemma inv_sockets ws l c : client_inv c → client_inv (set_sockets ws l c).
Proof. intros []; by split. Qed.

Lemma inv_timer t k c : client_inv c → client_inv (set_timer t k c).
Proof. intros []; by split. Qed.

Lemma inv_peerId v c : client_inv c → client_inv (set_peerId v c).
Proof. intros []; by split. Qed.

Lemma inv_uuids n c : client_inv c → client_inv (draw_uuids n c).
Proof. intros []; by split. Qed.

Lemma inv_reconnect b n c : 0 ≤ n ≤ MAX_RECONNECT_ATTEMPTS → client_inv c → client_inv (set_reconnect b n c).
Proof. intros ? []; by split. Qed.

Lemma inv_set_pending q c :
  (length q ≤ MAX_PENDING)%nat → Forall queued_ok q → client_inv c → client_inv (set_pending q c).
Proof. intros ? ? []; by split. Qed.

Lemma inv_joined m c : (length m ≤ MAX_ROOMS)%nat → map_wf m → client_inv c → client_inv (set_joined m c).
Proof. intros ? ? []; by split. Qed.

Hint Resolve inv_log inv_emit inv_sockets inv_timer inv_peerId inv_uuids : client.

Lemma inv_track_room type room payload c c' :
  client_inv c → track_room type room payload c = Some c' → client_inv c'.
Proof.
  intros Hc. unfold track_room. destruct (bool_decide _).
  - destruct (map_has (cl_joined c) room) eqn:Eh; cbn [negb andb].
    + intros [= <-]. apply inv_joined; [|apply map_wf_set, Hc|done]. rewrite map_length_set, Eh. apply Hc.
    + destruct (Nat.leb _ _) eqn:El; [done|]. intros [= <-]. apply Nat.leb_gt in El.
      apply inv_joined; [|apply map_wf_set, Hc|done]. rewrite map_length_set, Eh. lia.
  - destruct (bool_decide _); intros [= <-]; [|done].
    apply inv_joined; [|apply map_wf_delete, Hc|done].
    rewrite map_length_delete. pose proof (ci_rooms _ Hc). case_match; lia.
Qed.

(** [send] after the bookkeeping of the rooms. *)
Definition dispatch (type room mid : jsstr) (payload : option json) (id : jsstr) (c : client) : bool * client :=
  let msg := message id mid type room payload (cl_now c) in
  match open_ws c with
  | Some s => (true, log (WsSend s msg) c)
  | None =>
      (false,
       if queues type then
         emit (lit "queued") (Some (JObj [(lit "type", JStr type); (lit "room", JStr room)]))
              (if Nat.ltb (length (cl_pending c)) MAX_PENDING
               then set_pending (cl_pending c ++ [(room, msg)]) c else c)
       else c)
  end.

Lemma send_dispatch type room payload msgId c c' :
  track_room type room payload c = Some c' →
  ∃ mid n, send type room payload msgId c =
    dispatch type room mid payload (randomUUID (cl_uuids c')) (draw_uuids n c') ∧
    mid = match msgId with Some (ch :: m) => ch :: m | _ => randomUUID (S (cl_uuids c')) end ∧
    n = match msgId with Some (_ :: _) => 1%nat | _ => 2%nat end.
Proof. intros E. unfold Client.send. rewrite E. destruct msgId as [[|ch m]|]; eexists _, _; by split_and!. Qed.

Lemma inv_dispatch type room mid payload id c : client_inv c → client_inv (dispatch type room mid payload id c).2.
Proof.
  intros Hc. unfold dispatch. destruct (open_ws c) as [s|]; cbn [snd].
  - apply inv_log; [|done]. left. eauto 10.
  - destruct (queues type) eqn:Eq; [|done]. apply inv_emit.
    destruct (Nat.ltb _ _) eqn:El; [|done]. apply Nat.ltb_lt in El.
    apply inv_set_pending; [rewrite length_app; cbn; lia| |done].
    apply Forall_snoc; [apply Hc|]. repeat eexists. exact Eq.
Qed.

Lemma inv_send type room payload msgId c : client_inv c → client_inv (send type room payload msgId c).2.
Proof.
  intros Hc. destruct (track_room type room payload c) as [c'|] eqn:E.
  - destruct (send_dispatch type room payload msgId c c' E) as (mid & n & -> & _).
    apply inv_dispatch, inv_uuids. by eapply inv_track_room.
  - unfold Client.send. rewrite E. by apply inv_emit.
Qed.

Lemma queued_wire p : queued_ok p → wire_ok p.2.
Proof. intros (id & mid & type & payload & t & _ & ->). left. eauto 10. Qed.

Lemma inv_flush q c : Forall queued_ok q → (length q ≤ MAX_PENDING)%nat → client_inv c → client_inv (flush q c).
Proof.
  revert c. induction q as [|[r m] q IH]; intros c Hq Hl Hc; cbn [flush]; [done|].
  apply Forall_cons in Hq as [Hm Hq]. cbn [length] in Hl.
  assert (client_inv (set_pending q c)) as Hc' by (apply inv_set_pending; [lia|done..]).
  apply IH; [done|lia|]. case_match; [|done]. apply inv_log; [|done]. by apply (queued_wire (r, m)).
Qed.

Lemma inv_rejoin rooms c : client_inv c → client_inv (rejoin rooms c).
Proof. revert c. induction rooms as [|[r p] rooms IH]; intros c Hc; cbn [Client.rejoin]; [done|]. by apply IH, inv_send. Qed.

Lemma inv_onopen s c : client_inv c → client_inv (onopen s c).
Proof.
  intros Hc. unfold Client.onopen. apply inv_log; [done|]. unfold flushQueue.
  match goal with |- client_inv (flush _ ?c') => assert (client_inv c') as Hc' end.
  - unfold MAX_RECONNECT_ATTEMPTS in *.
    assert (client_inv (emit (lit "open") None (set_reconnect (cl_reconnecting (settle_socket s c)) 0 (settle_socket s c)))) as H.
    { apply inv_emit, inv_reconnect; [unfold MAX_RECONNECT_ATTEMPTS; lia|]. by apply inv_sockets. }
    destruct (_ && _); [|done]. apply inv_reconnect; [apply inv_rejoin, H|]. by apply inv_rejoin.
  - apply inv_flush; [apply Hc'..|done].
Qed.

Lemma inv_attemptReconnect j c : client_inv c → client_inv (attemptReconnect j c).
Proof.
  intros Hc. unfold attemptReconnect. destruct (cl_joined c); [done|].
  pose proof (ci_attempts _ Hc) as Ha. destruct (_ >=? _) eqn:E.
  - apply inv_reconnect; [apply Hc|]. by apply inv_emit.
  - cbn. apply inv_timer, inv_emit, inv_reconnect; [|done]. lia.
Qed.

Lemma inv_exec c l c' : client_inv c → cl_exec c l = Some c' → client_inv c'.
Proof.
  intros Hc E. destruct l as [| |type room payload msgId|msg|event fn|event fn|event data|s|s err ev j|s text|id|d];
    cbn [Client.cl_exec] in E; simplify_eq.
  - by apply inv_sockets.
  - unfold disconnect. assert (client_inv (set_pending [] (set_joined [] (clearReconnect c)))) as H.
    { apply inv_set_pending; [cbn; lia|done|]. apply inv_joined; [cbn; lia|constructor|].
      apply inv_timer, inv_reconnect; [done|exact Hc]. }
    destruct (cl_ws _); [by apply inv_sockets, inv_sockets|done].
  - by apply inv_send.
  - unfold sendRaw. destruct (open_ws c); [|done]. destruct (JSON_parse msg) as [v|] eqn:Ev; [|done].
    destruct (truthy (json_get v (lit "type"))); [|done]. destruct (truthy (json_get v (lit "room"))) eqn:Er; [|done].
    destruct (is_str _ _) eqn:Et; [|done]. apply inv_log; [|done]. right. exists v. split_and!; [done| |done].
    by apply is_str_true.
  - pose proof (ci_listeners _ Hc) as Hn. destruct Hc. split; cbn; try done. intros ev fns.
    destruct (decide (event = ev)) as [->|Hne]; [rewrite map_get_set_eq|rewrite map_get_set_ne by done; apply Hn].
    intros [= <-]. apply set_add_NoDup. destruct (map_get (cl_listeners c) ev) eqn:E; [by apply (Hn ev)|constructor].
  - unfold unsubscribe. destruct (map_get _ event) as [fns0|] eqn:E; [|done].
    pose proof (ci_listeners _ Hc _ _ E) as Hn. destruct Hc. split; cbn; try done. intros ev fns.
    destruct (decide (event = ev)) as [->|Hne]; [rewrite map_get_set_eq|by rewrite map_get_set_ne; eauto].
    intros [= <-]. by apply set_delete_NoDup.
  - by apply inv_emit.
  - case_decide; [|done]. simplify_eq. by apply inv_onopen, inv_sockets.
  - case_decide; [|done]. simplify_eq. unfold onclose.
    assert (client_inv (set_state s CLOSED c)) as Hc1 by (by apply inv_sockets).
    assert (client_inv match err with Some e => onerror s e (set_state s CLOSED c) | None => set_state s CLOSED c end)
      as Hc2.
    { destruct err as [e|]; [|done]. unfold onerror. apply (inv_emit (lit "error") (Some e)) in Hc1.
      destruct (cl_sockets _ !! s) as [[? []]|]; try done. apply inv_log; [done|]. by apply inv_sockets. }
    apply (inv_emit (lit "close") (Some ev)) in Hc2.
    destruct (cl_sockets _ !! s) as [[? []]|]; try done. by apply inv_attemptReconnect.
  - case_decide; [|done]. simplify_eq. unfold onmessage. repeat (case_match; simplify_eq/=); auto with client.
  - apply bind_Some in E as (? & _ & E). simplify_eq. by apply inv_sockets, inv_timer.
  - case_decide; [|done]. simplify_eq. by apply inv_timer.
Qed.

Lemma inv_run ls c c' : client_inv c → cl_run c ls = Some c' → client_inv c'.
Proof.
  revert c. induction ls as [|l ls IH]; intros c Hc E; cbn [Client.cl_run] in E; [by simplify_eq|].
  apply bind_Some in E as (c1 & E1 & E). eapply IH; [|exact E]. by eapply inv_exec.
Qed.

(** ** One connection at a time *)

Definition live (n : network) (s : nat) : Prop := ∃ r, n.1.1.1 !! s = Some r ∧ r ≠ CLOSED.

(** Connecting or open. *)
Definition working (r : ready) : Prop := r = CONNECTING ∨ r = OPEN.

Record single (n : network) : Prop := {
  sg_clock : timers_wf n.2;
  sg_one : ∀ s s', live n s → live n s' → s = s';
  sg_timer : ∀ id p, map_get (t_pending n.2) id = Some p → n.1.2 = Some id;
  sg_idle : ∀ id p s, map_get (t_pending n.2) id = Some p → ¬ live n s;
  sg_own : ∀ s r, n.1.1.1 !! s = Some r → working r → n.1.1.2 = Some s
}.

(** Runs that call [connect] only when every socket is closed and no
    reconnection is due. *)
Definition idle (c : client) : bool :=
  bool_decide (Forall (λ k, ws_state k = CLOSED) (cl_sockets c)) &&
  match t_pending (cl_clock c) with [] => true | _ => false end.

Fixpoint careful (c : client) (ls : list cl_label) : bool :=
  match ls with
  | [] => true
  | l :: ls =>
      match l with CConnect => idle c | _ => true end &&
      match cl_exec c l with Some c' => careful c' ls | None => true end
  end.

Lemma live_alter r s (states : list ready) w w' t k s' :
  (states !! s = Some CLOSED → r CLOSED = CLOSED) → live (alter r s states, w, t, k) s' → live (states, w', t, k) s'.
Proof.
  intros Hr (x & Hx & Hne). unfold live. cbn in *. destruct (decide (s = s')) as [->|Hs].
  - rewrite list_lookup_alter_eq in Hx. destruct (states !! s') as [y|] eqn:Ey; [|done]. cbn in Hx. simplify_eq.
    exists y. split; [done|]. intros ->. by apply Hne, Hr.
  - rewrite list_lookup_alter_ne in Hx by done. eauto.
Qed.

(** Closing sockets, whatever else happens to them, keeps the discipline. *)
Lemma single_alter r s states w t k :
  (∀ x, states !! s = Some x → (x = CLOSED → r x = CLOSED) ∧ (working (r x) → working x)) →
  single (states, w, t, k) → single (alter r s states, w, t, k).
Proof.
  intros Hr [H1 H2 H3 H4 H5]. assert (states !! s = Some CLOSED → r CLOSED = CLOSED) as Hc by (intros H; by apply Hr).
  split; cbn in *; [done| |done| |].
  - intros s1 s2 Hl1 Hl2. apply H2; eapply live_alter; eauto.
  - intros id p s' Hp Hl. eapply H4; [done|]. by eapply live_alter.
  - intros s' x Hx Hw. destruct (decide (s = s')) as [->|Hne]; [|rewrite list_lookup_alter_ne in Hx by done; eauto].
    rewrite list_lookup_alter_eq in Hx. destruct (states !! s') as [y|] eqn:Ey; [|done]. cbn in Hx. simplify_eq.
    eapply H5; [done|]. by apply (Hr y).
Qed.

Lemma single_connect states t k :
  timers_wf k → (∀ w s, ¬ live (states, w, t, k) s) → (∀ id p, map_get (t_pending k) id ≠ Some p) →
  single (states ++ [CONNECTING], Some (length states), t, k).
Proof.
  intros Hk Hl Hp.
  assert (∀ s, live (states ++ [CONNECTING], Some (length states), t, k) s → s = length states) as Hlive.
  { intros s (x & Hx & Hnx). cbn in Hx.
    apply lookup_app_Some in Hx as [Hx|[Hs Hx]]; [destruct (Hl None s); by exists x|].
    apply list_lookup_singleton_Some in Hx as [? _]. lia. }
  split; cbn; [done| | | |].
  - intros s s' ->%Hlive ->%Hlive. done.
  - intros id p H. by apply Hp in H.
  - intros id p s H. by apply Hp in H.
  - intros s r Hr Hw. f_equal. symmetry. apply Hlive. exists r. split; [done|]. intros ->. by destruct Hw.
Qed.

Lemma net_connect c :
  net (connect c) =
    (map ws_state (cl_sockets c) ++ [CONNECTING], Some (length (map ws_state (cl_sockets c))), cl_timer c, cl_clock c).
Proof. unfold net, connect. cbn. by rewrite map_app, length_map. Qed.

Lemma net_set_state s r c : net (set_state s r c) = (alter (λ _, r) s (net c).1.1.1, cl_ws c, cl_timer c, cl_clock c).
Proof. unfold net, set_state. cbn. by rewrite (states_alter_to (λ _, r)). Qed.

Lemma single_attemptReconnect j c :
  single (net c) → (∀ s, ¬ live (net c) s) → (∀ id p, map_get (t_pending (cl_clock c)) id ≠ Some p) →
  single (net (attemptReconnect j c)).
Proof.
  intros Hs Hl Hp. unfold attemptReconnect. destruct (cl_joined c) as [|jr js]; [done|]. destruct (_ >=? _); [done|].
  destruct Hs as [H1 H2 H3 H4 H5].
  split; cbn [net snd fst emit log set_timer set_reconnect cl_clock cl_timer cl_sockets cl_ws setTimeout] in *.
  - apply (timers_wf_set _ tt _ H1).
  - intros s s' Hls. destruct (Hl s). exact Hls.
  - intros id p [[-> _]|[_ H]]%(pending_setTimeout (cl_clock c)); [done|]. by apply Hp in H.
  - intros id p s _ Hls. destruct (Hl s). exact Hls.
  - exact H5.
Qed.

Lemma idle_spec c :
  idle c = true →
  (∀ w s, ¬ live (map ws_state (cl_sockets c), w, cl_timer c, cl_clock c) s) ∧
  (∀ id p, map_get (t_pending (cl_clock c)) id ≠ Some p).
Proof.
  unfold idle. intros [Hs Hp]%andb_true_iff. apply bool_decide_eq_true in Hs. split.
  - intros w s (r & Hr & Hne). cbn in Hr. change (map ws_state) with (fmap (M:=list) ws_state) in Hr.
    rewrite list_lookup_fmap in Hr. destruct (cl_sockets c !! s) as [k|] eqn:E; [|done]. cbn in Hr. simplify_eq.
    rewrite Forall_forall in Hs. apply Hne, Hs. by eapply list_elem_of_lookup_2.
  - by destruct (t_pending _).
Qed.

Lemma single_cleared c id p :
  single (net c) → map_get (t_pending (clear_opt (cl_clock c) (cl_timer c))) id ≠ Some p.
Proof.
  intros [H1 H2 H3 H4 _]. cbn in *. rewrite pending_clear_opt by done. intros [Hn Hp]. apply Hn. by eapply H3.
Qed.

(** The end of the one live socket. *)
Lemma single_end c s :
  single (net c) → live (net c) s →
  (∀ s', ¬ live (net (set_state s CLOSED c)) s') ∧ (∀ id p, map_get (t_pending (cl_clock c)) id ≠ Some p).
Proof.
  intros Hs Hl. split; [|intros id p Hp; by eapply (sg_idle _ Hs)].
  rewrite net_set_state. intros s' Hl'.
  assert (live (net c) s') as Hl'' by (eapply live_alter; [|exact Hl']; done).
  pose proof (sg_one _ Hs _ _ Hl Hl'') as <-. destruct Hl' as (r & Hr & Hne). cbn in Hr.
  rewrite list_lookup_alter_eq in Hr. destruct (_ !! s); cbn in Hr; naive_solver.
Qed.

Lemma single_onclose s err ev j c :
  single (net c) → live (net c) s →
  single (net (onclose s ev j match err with Some e => onerror s e (set_state s CLOSED c) | None => set_state s CLOSED c end)).
Proof.
  intros Hs Hl. destruct (single_end c s Hs Hl) as [Hn Hp].
  set (c1 := match err with Some e => _ | None => _ end).
  assert (net c1 = net (set_state s CLOSED c)) as E by (unfold c1; destruct err; [apply net_onerror|done]).
  assert (single (net c1)) as Hs1.
  { rewrite E, net_set_state. apply single_alter; [|done]. intros x _. split; [done|by intros []]. }
  unfold onclose. destruct (cl_sockets _ !! s) as [[? []]|]; try done.
  apply single_attemptReconnect; [done|intros s'; change (net (emit ?a ?b ?c)) with (net c); rewrite E; apply Hn|].
  change (∀ id p, map_get (t_pending (net c1).2) id ≠ Some p). by rewrite E.
Qed.

Lemma live_state c s : live (net c) s ↔ is_Some (socket_state c s) ∧ socket_state c s ≠ Some CLOSED.
Proof. unfold live. rewrite <- socket_state_net. destruct (socket_state c s); split; naive_solver. Qed.

Lemma single_disconnect c : single (net c) → single (net (disconnect c)).
Proof.
  intros Hs. pose proof (single_cleared c) as Hn.
  assert (single (map ws_state (cl_sockets c), cl_ws c, None, clear_opt (cl_clock c) (cl_timer c))) as H.
  { split; cbn; [apply timers_wf_clear_opt, Hs|apply Hs| | |apply Hs];
      intros id p; [intros Hp|intros s Hp]; by destruct (Hn id p Hs). }
  unfold disconnect. destruct (cl_ws c) as [s|] eqn:Ew; cbn [cl_ws set_pending set_joined clearReconnect set_timer set_reconnect];
    rewrite Ew; [|unfold net; cbn; rewrite Ew; exact H]. unfold net. cbn.
  rewrite (states_alter_to (λ r, match r with CLOSED => CLOSED | _ => CLOSING end)) by done.
  apply (single_alter (λ r, match r with CLOSED => CLOSED | _ => CLOSING end) s) in H.
  2: { intros x _. split; [by intros ->|]. by destruct x; intros []. }
  destruct H as [H1 H2 H3 H4 H5]. split; try done. cbn in *. intros s' r Hr Hw. exfalso.
  pose proof (H5 s' r Hr Hw) as E. injection E as <-. rewrite list_lookup_alter_eq in Hr. destruct (_ !! s) as [[]|]; cbn in Hr; simplify_eq;
    by destruct Hw.
Qed.

Lemma single_exec c l c' :
  single (net c) → (l = CConnect → idle c = true) → cl_exec c l = Some c' → single (net c').
Proof.
  intros Hs Hidle E. destruct l as [| |type room payload msgId|msg|event fn|event fn|event data|s|s err ev j|s text|id|d];
    cbn [Client.cl_exec] in E; simplify_eq.
  - destruct (idle_spec c (Hidle eq_refl)) as [Hl Hp]. rewrite net_connect.
    apply single_connect; [apply Hs|exact Hl|exact Hp].
  - by apply single_disconnect.
  - by rewrite net_send.
  - unfold sendRaw. repeat (case_match; simplify_eq/=); done.
  - done.
  - unfold unsubscribe. by case_match.
  - done.
  - case_decide as Hd; [|done]. simplify_eq. rewrite net_onopen, net_set_state.
    apply single_alter; [|done]. intros x Hx. rewrite socket_state_net, Hx in Hd. injection Hd as ->.
    split; [done|by left].
  - case_decide as Hd; [|done]. simplify_eq. apply single_onclose; [done|]. apply live_state. tauto.
  - case_decide; [|done]. simplify_eq. by rewrite net_onmessage.
  - apply bind_Some in E as (? & Hd & E). simplify_eq. apply due_Some in Hd as (t & Hp & _).
    rewrite net_connect. cbn. apply single_connect; [apply timers_wf_clear, Hs| |].
    + intros w s Hl. by apply (sg_idle _ Hs id (t, x) s).
    + intros id' p. rewrite pending_clear by apply Hs. intros [Hne Hp'].
      apply (sg_timer _ Hs) in Hp as Ht. apply (sg_timer _ Hs) in Hp' as Ht'. congruence.
  - case_decide; [|done]. simplify_eq. destruct Hs as [H1 H2 H3 H4 H5]. split; done.
Qed.

Lemma single_run ls c c' : single (net c) → careful c ls = true → cl_run c ls = Some c' → single (net c').
Proof.
  revert c. induction ls as [|l ls IH]; intros c Hs Hc E; cbn [Client.cl_run careful] in *; [by simplify_eq|].
  apply bind_Some in E as (c1 & E1 & E). rewrite E1 in Hc. apply andb_true_iff in Hc as [Hi Hc].
  eapply IH; [|exact Hc|exact E]. eapply single_exec; [exact Hs| |exact E1]. by intros ->.
Qed.

Lemma single_new now : single (net (new_client now)).
Proof. split; cbn; [apply timers_wf_init|intros s s' (? & ? & _)|done| |]; done. Qed.

(** ** The rejoin and the queue *)

Fixpoint rejoin_texts (n : nat) (now : Z) (rooms : list (jsstr * option json)) : list jsstr :=
  match rooms with
  | [] => []
  | (room, payload) :: rooms =>
      message (randomUUID n) (randomUUID (S n)) (lit "join") room payload now :: rejoin_texts (2 + n) now rooms
  end.

Lemma rejoin_spec rooms c s :
  open_ws c = Some s → Forall (λ x, map_get (cl_joined c) x.1 = Some x.2) rooms →
  rejoin rooms c =
    draw_uuids (2 * length rooms) (log_all (map (WsSend s) (rejoin_texts (cl_uuids c) (cl_now c) rooms)) c).
Proof.
  revert c. induction rooms as [|[r p] rooms IH]; intros c Ho Hj; cbn [Client.rejoin rejoin_texts map].
  - rewrite log_all_nil. by destruct c.
  - apply Forall_cons in Hj as [Hr Hj]. cbn in Hr.
    assert (send (lit "join") r p None c =
      (true, log (WsSend s (message (randomUUID (cl_uuids c)) (randomUUID (S (cl_uuids c))) (lit "join") r p (cl_now c)))
                 (draw_uuids 2 c))) as ->.
    { unfold Client.send, track_room. rewrite bool_decide_true by done. unfold map_has. rewrite Hr. cbn [negb andb].
      rewrite map_set_get_id by done. destruct c. cbn in *. by rewrite Ho. }
    cbn [snd]. rewrite IH by done. rewrite log_all_cons. unfold draw_uuids, log_all, log. cbn.
    f_equal. lia.
Qed.

Lemma flush_spec q c s :
  open_ws c = Some s → cl_pending c = q → flush q c = set_pending [] (log_all (map (WsSend s ∘ snd) q) c).
Proof.
  revert c. induction q as [|[r m] q IH]; intros c Ho Hq; cbn [flush map].
  - rewrite log_all_nil. destruct c. cbn in *. by subst.
  - rewrite log_all_cons. replace (open_ws (set_pending q c)) with (Some s) by (by rewrite <- Ho).
    rewrite IH by (by rewrite <- Ho || done). done.
Qed.

(** ** Where messages go *)

(** From [c] to [c'] the client put messages on its open socket only. *)
Definition quiet (c c' : client) : Prop :=
  open_ws c' = open_ws c ∧
  ∃ es, cl_log c' = cl_log c ++ es ∧ ∀ s m, WsSend s m ∈ es → open_ws c = Some s.

Lemma quiet_refl c c' : cl_ws c' = cl_ws c → cl_sockets c' = cl_sockets c → cl_log c' = cl_log c → quiet c c'.
Proof.
  intros Hw Hs Hl. split; [unfold open_ws; by rewrite Hw, Hs|]. exists []. rewrite app_nil_r.
  split; [done|]. by intros s m ?%not_elem_of_nil.
Qed.

Lemma quiet_trans c1 c2 c3 : quiet c1 c2 → quiet c2 c3 → quiet c1 c3.
Proof.
  intros [Ho (es & Hl & He)] [Ho' (es' & Hl' & He')]. split; [congruence|].
  exists (es ++ es'). rewrite Hl', Hl, app_assoc. split; [done|].
  intros s m [H|H]%elem_of_app; [eauto|]. rewrite <- Ho. eauto.
Qed.

Lemma quiet_log e c : (∀ s m, e = WsSend s m → open_ws c = Some s) → quiet c (log e c).
Proof. intros He. split; [done|]. exists [e]. split; [done|]. intros s m <-%list_elem_of_singleton. eauto. Qed.

Lemma quiet_emit event data c : quiet c (emit event data c).
Proof. by apply quiet_log. Qed.

Hint Resolve quiet_refl quiet_emit : client.

Lemma quiet_send type room payload msgId c : quiet c (send type room payload msgId c).2.
Proof.
  destruct (track_room type room payload c) as [c'|] eqn:E.
  - destruct (send_dispatch type room payload msgId c c' E) as (mid & n & -> & _).
    apply (quiet_trans _ (draw_uuids n c')).
    { apply quiet_refl; unfold track_room in E; repeat (case_match; simplify_eq/=; try done). }
    unfold dispatch. destruct (open_ws _) as [s|] eqn:Eo; cbn [snd].
    + apply quiet_log. congruence.
    + destruct (queues type); [|by apply quiet_refl]. eapply quiet_trans; [|apply quiet_emit].
      by destruct (Nat.ltb _ _); apply quiet_refl.
  - unfold Client.send. rewrite E. apply quiet_emit.
Qed.

Lemma quiet_rejoin rooms c : quiet c (rejoin rooms c).
Proof.
  revert c. induction rooms as [|[r p] rooms IH]; intros c; cbn [Client.rejoin]; [by apply quiet_refl|].
  eapply quiet_trans; [apply quiet_send|apply IH].
Qed.

Lemma quiet_flush q c : quiet c (flush q c).
Proof.
  revert c. induction q as [|[r m] q IH]; intros c; cbn [flush]; [by apply quiet_refl|].
  apply (quiet_trans _ (set_pending q c)); [by apply quiet_refl|]. eapply quiet_trans; [|apply IH].
  destruct (open_ws _) as [s|] eqn:E; [|by apply quiet_refl]. apply quiet_log. congruence.
Qed.

Lemma quiet_settle s c : quiet c (settle_socket s c).
Proof.
  split; [|exists []; rewrite app_nil_r; split; [done|by intros ?? ?%not_elem_of_nil]].
  apply option_eq. intros s'. rewrite !open_ws_Some, !socket_state_net, net_settle. done.
Qed.

Lemma quiet_onopen s c : quiet c (onopen s c).
Proof.
  unfold Client.onopen, flushQueue. eapply quiet_trans; [|by apply quiet_log].
  eapply quiet_trans; [|apply quiet_flush].
  apply (quiet_trans _ (emit (lit "open") None (set_reconnect (cl_reconnecting (settle_socket s c)) 0 (settle_socket s c)))).
  { eapply quiet_trans; [apply (quiet_settle s)|]. eapply quiet_trans; [|apply quiet_emit]. by apply quiet_refl. }
  destruct (_ && _); [|by apply quiet_refl]. eapply quiet_trans; [apply quiet_rejoin|by apply quiet_refl].
Qed.

Lemma quiet_onend s err ev j c :
  quiet c (onclose s ev j match err with Some e => onerror s e c | None => c end).
Proof.
  apply (quiet_trans _ match err with Some e => onerror s e c | None => c end).
  - destruct err as [e|]; [|by apply quiet_refl]. unfold onerror.
    eapply quiet_trans; [apply quiet_emit|]. destruct (cl_sockets _ !! s) as [[? []]|]; try by apply quiet_refl.
    eapply quiet_trans; [apply (quiet_settle s)|by apply quiet_log].
  - unfold onclose. eapply quiet_trans; [apply quiet_emit|].
    destruct (cl_sockets _ !! s) as [[? []]|]; try by apply quiet_refl.
    unfold attemptReconnect. destruct (cl_joined _) as [|jr js]; [by apply quiet_refl|].
    destruct (_ >=? _); (eapply quiet_trans; [|by apply quiet_refl]); cbn; [apply quiet_emit|].
    eapply quiet_trans; [|apply quiet_emit]. by apply quiet_refl.
Qed.

Lemma quiet_onmessage text c : quiet c (onmessage text c).
Proof.
  unfold onmessage. destruct (JSON_parse text) as [v|]; [|apply quiet_emit].
  assert (quiet c (emit (lit "message") (Some v)
    (if is_str (json_get v (lit "type")) (lit "welcome") && truthy (json_get v (lit "id"))
     then set_peerId (json_get v (lit "id")) c else c))) as H.
  { eapply quiet_trans; [|apply quiet_emit]. by destruct (_ && _); apply quiet_refl. }
  destruct v; try apply quiet_emit; destruct (json_get _ (lit "type")) as [[| | |[|ch ty]| |]|]; try exact H;
    (eapply quiet_trans; [exact H|apply quiet_emit]).
Qed.

(** ** Offline *)

Record outgoing := Outgoing { o_type : jsstr; o_room : jsstr; o_payload : option json; o_msgId : option jsstr }.

Definition send_label (m : outgoing) : cl_label := CSend (o_type m) (o_room m) (o_payload m) (o_msgId m).

(** The texts of messages sent one after the other, the [n]-th UUID being next. *)
Fixpoint outgoing_texts (n : nat) (now : Z) (ms : list outgoing) : list jsstr :=
  match ms with
  | [] => []
  | m :: ms =>
      let '(mid, n') := match o_msgId m with Some (ch :: i) => (ch :: i, 1 + n) | _ => (randomUUID (S n), 2 + n) end%nat in
      message (randomUUID n) mid (o_type m) (o_room m) (o_payload m) now :: outgoing_texts n' now ms
  end.

Definition on_wire (s : nat) (es : list effect) : list jsstr :=
  omap (λ e, match e with WsSend s' m => if decide (s' = s) then Some m else None | _ => None end) es.

Lemma on_wire_app s es es' : on_wire s (es ++ es') = on_wire s es ++ on_wire s es'.
Proof. apply omap_app. Qed.

Lemma on_wire_sends s ms : on_wire s (map (WsSend s) ms) = ms.
Proof. induction ms as [|m ms IH]; cbn; [done|]. rewrite decide_True by done. by f_equal. Qed.

Lemma send_offline m c :
  queues (o_type m) = true → open_ws c = None → (length (cl_pending c) < MAX_PENDING)%nat →
  ∃ text n e, (∀ ms, outgoing_texts (cl_uuids c) (cl_now c) (m :: ms) =
      text :: outgoing_texts (n + cl_uuids c) (cl_now c) ms) ∧ (∀ s, on_wire s [e] = []) ∧
    (send (o_type m) (o_room m) (o_payload m) (o_msgId m) c).2 =
      log e (set_pending (cl_pending c ++ [(o_room m, text)]) (draw_uuids n c)).
Proof.
  intros Hq Ho Hl.
  assert (track_room (o_type m) (o_room m) (o_payload m) c = Some c) as Ht.
  { unfold track_room, queues in *. apply orb_true_iff in Hq as [H|H]; apply bool_decide_eq_true in H;
      rewrite H, !bool_decide_false by done; done. }
  destruct (send_dispatch _ _ _ (o_msgId m) _ _ Ht) as (mid & n & -> & Em & En). unfold dispatch.
  change (open_ws (draw_uuids n c)) with (open_ws c). rewrite Ho, Hq. cbn [snd cl_pending draw_uuids].
  apply Nat.ltb_lt in Hl. rewrite Hl. unfold emit. eexists _, n, _. split_and!; [| |reflexivity]; [|done].
  intros ms. cbn [outgoing_texts]. subst. destruct (o_msgId m) as [[|ch i]|]; reflexivity.
Qed.

(** A run of sends while offline. *)
Lemma sends_offline ms c :
  Forall (λ m, queues (o_type m) = true) ms → open_ws c = None →
  (length (cl_pending c) + length ms ≤ MAX_PENDING)%nat →
  ∃ c' es, cl_run c (map send_label ms) = Some c' ∧ map snd (cl_pending c') =
      map snd (cl_pending c) ++ outgoing_texts (cl_uuids c) (cl_now c) ms ∧
    cl_log c' = cl_log c ++ es ∧ (∀ s, on_wire s es = []) ∧ cl_joined c' = cl_joined c ∧
    cl_sockets c' = cl_sockets c ∧ cl_ws c' = cl_ws c ∧ cl_reconnecting c' = cl_reconnecting c ∧
    cl_clock c' = cl_clock c.
Proof.
  revert c. induction ms as [|m ms IH]; intros c Hq Ho Hl.
  { exists c, []. cbn. rewrite !app_nil_r. by split_and!. }
  apply Forall_cons in Hq as [Hm Hq]. cbn [length] in Hl.
  destruct (send_offline m c Hm Ho ltac:(lia)) as (text & n & e & Et & He & Es).
  set (c1 := log e (set_pending (cl_pending c ++ [(o_room m, text)]) (draw_uuids n c))) in *.
  destruct (IH c1) as (c' & es & Hr & Hp & Hlog & Hw & H1 & H2 & H3 & H4 & H5); [done|exact Ho| |].
  { cbn. rewrite length_app. cbn. lia. }
  exists c', (e :: es). cbn [map Client.cl_run send_label Client.cl_exec]. rewrite Es. split_and!; try done.
  - rewrite Hp, Et. cbn. rewrite map_app, <- app_assoc. done.
  - rewrite Hlog. cbn. by rewrite <- app_assoc.
  - intros s. change (e :: es) with ([e] ++ es). by rewrite on_wire_app, He, Hw.
Qed.

Lemma cl_run_app ls ls' c : cl_run c (ls ++ ls') = c' ← cl_run c ls; cl_run c' ls'.
Proof.
  revert c. induction ls as [|l ls IH]; intros c; cbn [app Client.cl_run]; [done|].
  destruct (cl_exec c l); cbn; [apply IH|done].
Qed.

Lemma open_ws_opened c s :
  cl_ws c = Some s → socket_state c s = Some CONNECTING → open_ws (settle_socket s (set_state s OPEN c)) = Some s.
Proof.
  intros Hw Hs. apply open_ws_Some. split; [done|].
  rewrite socket_state_net, net_settle, net_set_state. cbn. rewrite list_lookup_alter_eq.
  rewrite socket_state_net in Hs. cbn in Hs. by rewrite Hs.
Qed.

(** The handshake of the client's own socket: what goes out, in order. *)
Lemma onopen_spec c s :
  map_wf (cl_joined c) → cl_ws c = Some s → socket_state c s = Some CONNECTING →
  let rejoins := if cl_reconnecting c then rejoin_texts (cl_uuids c) (cl_now c) (cl_joined c) else [] in
  let c' := onopen s (set_state s OPEN c) in
  cl_pending c' = [] ∧ cl_attempts c' = 0 ∧
  ∃ fns, cl_log c' = cl_log c ++ [Emitted (lit "open") None fns] ++
    map (WsSend s) (rejoins ++ map snd (cl_pending c)) ++ [Resolved s].
Proof.
  intros Hwf Hw Hs. pose proof (open_ws_opened c s Hw Hs) as Ho. cbn zeta. unfold Client.onopen, flushQueue.
  set (c1 := emit (lit "open") None _).
  assert (Forall (λ x, map_get (cl_joined c1) x.1 = Some x.2) (cl_joined c1)) as Hj.
  { apply Forall_forall. intros [r p] Hin. by apply map_elem_get. }
  assert (open_ws c1 = Some s) as Ho1 by exact Ho.
  change (cl_reconnecting c1) with (cl_reconnecting c). change (cl_joined c1) with (cl_joined c) in *.
  destruct (cl_reconnecting c && Nat.ltb 0 (length (cl_joined c))) eqn:E.
  - apply andb_true_iff in E as [Er _]. rewrite Er.
    rewrite (rejoin_spec _ _ s) by done. erewrite flush_spec; [|exact Ho1|reflexivity].
    split_and!; [done..|]. eexists. rewrite map_app, map_map. cbn. rewrite <- !app_assoc. reflexivity.
  - erewrite flush_spec; [|exact Ho1|reflexivity]. split_and!; [done..|]. eexists. rewrite map_app, map_map.
    assert ((if cl_reconnecting c then rejoin_texts (cl_uuids c) (cl_now c) (cl_joined c) else []) = []) as ->.
    { destruct (cl_reconnecting c); [|done]. by destruct (cl_joined c). }
    cbn. rewrite <- !app_assoc. reflexivity.
Qed.

(** ** Properties *)

(** C30: in every state the client reaches it is in at most five rooms, at most
    200 messages wait, each of them a chat or media message for the room it is
    tagged with, at most twenty reconnections were tried in a row, no listener
    is registered twice for an event, and everything that ever went out on a
    socket is a message [send] built or a signal. *)
Theorem client_invariant now ls c :
  cl_run (new_client now) ls = Some c →
  (length (joinedRooms c) ≤ MAX_ROOMS)%nat ∧ NoDup (joinedRooms c) ∧
  (length (cl_pending c) ≤ MAX_PENDING)%nat ∧ Forall queued_ok (cl_pending c) ∧
  0 ≤ cl_attempts c ≤ MAX_RECONNECT_ATTEMPTS ∧
  (∀ event fns, map_get (cl_listeners c) event = Some fns → NoDup fns) ∧
  ∀ s m, WsSend s m ∈ cl_log c → wire_ok m.
Proof.
  intros H. apply inv_run in H as [H1 H2 H3 H4 H5 H6 H7]; [|apply client_inv_new].
  unfold joinedRooms. split; [unfold map_keys; by rewrite length_fmap|]. do 5 (split; [assumption|]).
  intros s m Hin. rewrite Forall_forall in H6. by apply (H6 (WsSend s m)).
Qed.

(** [WebSocket.send] is never called on a socket that is not open, and only
    ever on the client's present one. *)
Theorem sends_on_open_socket c l c' :
  cl_exec c l = Some c' →
  ∃ es, cl_log c' = cl_log c ++ es ∧ ∀ s m, WsSend s m ∈ es → cl_ws c' = Some s ∧ socket_state c' s = Some OPEN.
Proof.
  intros E. assert (∃ c1, cl_log c1 = cl_log c ∧ quiet c1 c') as (c1 & Hl & Ho & es & He & Hes).
  { destruct l as [| |type room payload msgId|msg|event fn|event fn|event data|s|s err ev j|s text|id|d];
      cbn [Client.cl_exec] in E; simplify_eq.
    - eexists. split; [|by apply quiet_refl]. done.
    - eexists. split; [|by apply quiet_refl]. unfold disconnect. by destruct (cl_ws _).
    - exists c. split; [done|apply quiet_send].
    - exists c. split; [done|]. unfold sendRaw. destruct (open_ws c) as [s|] eqn:Es; [|by apply quiet_refl].
      destruct (JSON_parse msg); [|by apply quiet_refl]. destruct (_ && _); [|by apply quiet_refl].
      apply quiet_log. congruence.
    - exists c. split; [done|by apply quiet_refl].
    - exists c. split; [done|]. unfold unsubscribe. by destruct (map_get _ _); apply quiet_refl.
    - exists c. split; [done|apply quiet_emit].
    - case_decide; [|done]. simplify_eq. eexists. split; [|apply quiet_onopen]. done.
    - case_decide; [|done]. simplify_eq. eexists. split; [|apply quiet_onend]. done.
    - case_decide; [|done]. simplify_eq. exists c. split; [done|apply quiet_onmessage].
    - apply bind_Some in E as (? & _ & E). simplify_eq. eexists. split; [|by apply quiet_refl]. done.
    - case_decide; [|done]. simplify_eq. exists c. split; [done|by apply quiet_refl]. }
  exists es. rewrite He, Hl. split; [done|]. intros s m Hin. apply open_ws_Some. rewrite Ho. eauto.
Qed.

(** C14: nothing said offline is lost or reordered. While the client's socket is
    connecting, chat and media messages may be sent as long as at most 200
    wait; when the handshake succeeds the client puts on that socket, in this
    order, a join for every room it is in (when it is reconnecting), the
    messages that already waited and the new ones, and nothing else; and no
    message waits any more. *)
Theorem offline_messages_delivered now ls c s ms :
  cl_run (new_client now) ls = Some c →
  cl_ws c = Some s → socket_state c s = Some CONNECTING →
  Forall (λ m, queues (o_type m) = true) ms → (length (cl_pending c) + length ms ≤ MAX_PENDING)%nat →
  ∃ c' n, cl_run c (map send_label ms ++ [COpen s]) = Some c' ∧ cl_pending c' = [] ∧
    on_wire s (drop (length (cl_log c)) (cl_log c')) =
      (if cl_reconnecting c then rejoin_texts n (cl_now c) (cl_joined c) else []) ++
      map snd (cl_pending c) ++ outgoing_texts (cl_uuids c) (cl_now c) ms.
Proof.
  intros Hr Hw Hs Hq Hl. apply inv_run in Hr as Hi; [|apply client_inv_new].
  assert (open_ws c = None) as Ho.
  { destruct (open_ws c) as [s'|] eqn:E; [|done]. apply open_ws_Some in E as [E1 E2]. congruence. }
  destruct (sends_offline ms c Hq Ho Hl) as (c1 & es & Hrun & Hp & Hlog & Hes & Hj & Hsock & Hws & Hrec & Hclk).
  assert (socket_state c1 s = Some CONNECTING) as Hs1 by (unfold socket_state; by rewrite Hsock).
  destruct (onopen_spec c1 s) as (Hp1 & _ & fns & Hlog1); [rewrite Hj; apply Hi|congruence|done|].
  exists (onopen s (set_state s OPEN c1)), (cl_uuids c1). split_and!; [|done|].
  - rewrite cl_run_app, Hrun. cbn. by rewrite decide_True.
  - rewrite Hlog1, Hlog, <- app_assoc, drop_app_length, !on_wire_app, on_wire_sends, Hes, Hp, Hj, Hrec.
    unfold cl_now. rewrite Hclk. cbn. by rewrite app_nil_r.
Qed.


(** A client that is done: it is in no room, nothing is scheduled, and no
    socket is connecting or open. *)
Definition at_rest (c : client) : Prop :=
  cl_joined c = [] ∧ t_pending (cl_clock c) = [] ∧ ∀ s r, socket_state c s = Some r → ¬ working r.

(** The events after which it is none any more: somebody connects it, or joins a room. *)
Definition leaves_alone (l : cl_label) : bool :=
  match l with CConnect => false | CSend type _ _ _ => negb (bool_decide (type = lit "join")) | _ => true end.

Lemma at_rest_same c c' :
  cl_joined c' = cl_joined c → cl_clock c' = cl_clock c → map ws_state (cl_sockets c') = map ws_state (cl_sockets c) →
  at_rest c → at_rest c'.
Proof.
  intros E1 E2 E3 (H1 & H2 & H3). split_and!; [congruence..|]. intros s r. rewrite socket_state_net. cbn. rewrite E3.
  specialize (H3 s r). by rewrite socket_state_net in H3.
Qed.

Lemma at_rest_send type room payload msgId c :
  type ≠ lit "join" → at_rest c → at_rest (send type room payload msgId c).2 ∧
  length (cl_sockets (send type room payload msgId c).2) = length (cl_sockets c).
Proof.
  intros Ht Hc. unfold Client.send, track_room. rewrite bool_decide_false by done.
  assert (∀ c1, cl_clock c1 = cl_clock c → cl_sockets c1 = cl_sockets c → cl_joined c1 = [] →
    at_rest c1 ∧ length (cl_sockets c1) = length (cl_sockets c)) as Hk.
  { intros c1 E1 E2 E3. split; [|by rewrite E2]. eapply at_rest_same, Hc; [|done|by rewrite E2]. rewrite E3. symmetry. apply Hc. }
  assert (cl_joined c = []) as Hj by apply Hc.
  set (tr := if bool_decide _ then _ else _). assert (∃ c0, tr = Some c0 ∧ cl_joined c0 = [] ∧ cl_clock c0 = cl_clock c ∧
    cl_sockets c0 = cl_sockets c) as (c0 & -> & E1 & E2 & E3).
  { unfold tr. case_bool_decide; eexists; (split; [reflexivity|]); cbn; by rewrite Hj. }
  destruct msgId as [[|ch m]|]; cbn zeta; destruct (open_ws _); cbn [snd]; try (apply Hk; [exact E2|exact E3|exact E1]).
  all: destruct (queues type); [destruct (Nat.ltb _ _)|]; (apply Hk; [exact E2|exact E3|exact E1]).
Qed.

Lemma at_rest_exec c l c' :
  at_rest c → leaves_alone l = true → cl_exec c l = Some c' →
  at_rest c' ∧ length (cl_sockets c') = length (cl_sockets c).
Proof.
  intros Hc Hl E. pose proof Hc as (H1 & H2 & H3).
  destruct l as [| |type room payload msgId|msg|event fn|event fn|event data|s|s err ev j|s text|id|d];
    cbn [Client.cl_exec leaves_alone] in *; simplify_eq.
  - split; [|unfold disconnect; destruct (cl_ws _); cbn; by rewrite ?length_alter]. split_and!.
    + unfold disconnect. by destruct (cl_ws _).
    + unfold disconnect, clearReconnect, clear_opt. assert (∀ h, t_pending (clear_opt (cl_clock c) h) = []) as Hp.
      { intros [h|]; cbn; by rewrite H2. } destruct (cl_ws _); apply Hp.
    + intros s r. unfold disconnect. destruct (cl_ws _) as [w|]; [|apply H3]. unfold socket_state. cbn.
      destruct (decide (w = s)) as [->|Hne]; [|rewrite list_lookup_alter_ne by done; apply H3].
      rewrite list_lookup_alter_eq. destruct (cl_sockets c !! s) as [k|]; [|done]. cbn. intros [= <-].
      destruct (ws_state k); intros [?|?]; discriminate.
  - apply at_rest_send; [|done]. intros ->. by rewrite bool_decide_true in Hl.
  - unfold sendRaw. destruct (open_ws c); [|done]. destruct (JSON_parse msg); [|done]. by destruct (_ && _).
  - done.
  - unfold unsubscribe. by destruct (map_get _ _).
  - done.
  - case_decide as Hs; [|done]. exfalso. eapply H3; [exact Hs|by left].
  - case_decide as Hs; [|done]. simplify_eq. set (c1 := match err with Some e => _ | None => _ end).
    assert (at_rest c1 ∧ length (cl_sockets c1) = length (cl_sockets c)) as [Hr1 El1].
    { assert (at_rest (set_state s CLOSED c)) as Hr.
      { split_and!; [done..|]. intros s' r. unfold socket_state. cbn. destruct (decide (s = s')) as [->|Hne];
          [|rewrite list_lookup_alter_ne by done; apply H3].
        rewrite list_lookup_alter_eq. destruct (cl_sockets c !! s'); [|done]. cbn. intros [= <-] [?|?]; discriminate. }
      unfold c1. destruct err as [e|]; [|split; [done|cbn; by rewrite length_alter]].
      unfold onerror. destruct (cl_sockets _ !! s) as [[? []]|]; (split; [|cbn; by rewrite ?length_alter]); try exact Hr.
      eapply at_rest_same; [..|exact Hr]; [done..|]. cbn. clear. apply list_eq. intros i. rewrite !list_lookup_fmap.
      destruct (decide (s = i)) as [->|]; [|by rewrite !list_lookup_alter_ne]. rewrite !list_lookup_alter_eq.
      by destruct (cl_sockets c !! i). }
    unfold onclose. destruct (cl_sockets _ !! s) as [[? []]|]; [|done..]. unfold attemptReconnect.
    change (cl_joined (emit ?a ?b ?d)) with (cl_joined d). destruct Hr1 as (E1 & ? & ?). by rewrite E1.
  - case_decide as Hs; [|done]. exfalso. eapply H3; [exact Hs|by right].
  - unfold due in E. rewrite H2 in E. discriminate E.
  - case_decide; [|done]. by simplify_eq.
Qed.

Lemma at_rest_run ls c c' :
  at_rest c → forallb leaves_alone ls = true → cl_run c ls = Some c' → at_rest c' ∧ length (cl_sockets c') = length (cl_sockets c).
Proof.
  revert c. induction ls as [|l ls IH]; intros c Hc Hl; cbn [Client.cl_run forallb] in *; [by intros [= <-]|].
  apply andb_true_iff in Hl as [Hl Hls]. intros (c1 & E1 & E2)%bind_Some.
  destruct (at_rest_exec c l c1) as [Hc1 <-]; [done..|]. by apply IH.
Qed.

(** C29: one connection at a time. As long as [connect] is only called when
    every socket is closed and no reconnection is due, at most one socket is
    ever not closed, no reconnection is pending while there is one, and
    [disconnect] is final: from then on, whatever the network does to the old
    sockets and whatever is said or heard, no socket is connecting or open, none
    is made and no reconnection is scheduled, until somebody calls [connect] or
    joins a room. *)
Theorem single_connection now ls c :
  careful (new_client now) ls = true → cl_run (new_client now) ls = Some c →
  (∀ s s', live (net c) s → live (net c) s' → s = s') ∧
  (∀ id p s, map_get (t_pending (cl_clock c)) id = Some p → ¬ live (net c) s) ∧
  (∀ ls' c', forallb leaves_alone ls' = true → cl_run (disconnect c) ls' = Some c' →
     t_pending (cl_clock c') = [] ∧ (∀ s r, socket_state c' s = Some r → ¬ working r) ∧
     length (cl_sockets c') = length (cl_sockets c)).
Proof.
  intros Hc Hr. apply single_run in Hr as Hs; [|apply single_new|done]. apply single_disconnect in Hs as Hd.
  split_and!; [apply Hs|apply Hs|]. intros ls' c' Hl Hr'.
  destruct (at_rest_run ls' (disconnect c) c') as [(_ & H1 & H2) H3]; [|done..|].
  - split_and!; [unfold disconnect; by destruct (cl_ws _)| |].
    + pose proof (λ id p, single_cleared c id p Hs) as Hcl.
      assert (t_pending (cl_clock (disconnect c)) = t_pending (cl_clock (clearReconnect c))) as -> by (unfold disconnect; by destruct (cl_ws _)).
      destruct (t_pending (cl_clock (clearReconnect c))) as [|[id p] l] eqn:E; [done|]. 
      assert (map_get ((id, p) :: l) id = Some p) as Hg by (simpl; by rewrite decide_True).
      rewrite <- E in Hg. by destruct (Hcl id p Hg).
    + intros s r Hx Hw. rewrite socket_state_net in Hx. pose proof (sg_own _ Hd s r Hx Hw) as H. cbn in H.
      assert (cl_ws (disconnect c) = None) as Hn; [|congruence].
      unfold disconnect. by destruct (cl_ws (set_pending _ _)) eqn:E.
  - split_and!; [done..|]. rewrite H3. unfold disconnect. destruct (cl_ws _); cbn; by rewrite ?length_alter.
Qed.

(** What one client sends, another dispatches: from the text of a message,
    [onmessage] gives the listeners of ['message'], and then those of the
    message's type, an object with the sender's type, room and payload. *)
Theorem client_message_roundtrip id mid type room payload t c :
  json_wf (obj [(lit "id", Some (JStr id)); (lit "msgId", Some (JStr mid)); (lit "type", Some (JStr type));
                (lit "room", Some (JStr room)); (lit "payload", payload); (lit "timestamp", Some (JNum t))]) = true →
  type ≠ [] → type ≠ lit "welcome" →
  ∃ v, onmessage (message id mid type room payload t) c = emit type (Some v) (emit (lit "message") (Some v) c) ∧
    json_get v (lit "type") = Some (JStr type) ∧ json_get v (lit "room") = Some (JStr room) ∧
    json_get v (lit "payload") = payload.
Proof.
  intros Hw Hne Hnw. unfold onmessage, message. rewrite JSON_parse_stringify by done.
  set (v := obj _). assert (NoDup [lit "id"; lit "msgId"; lit "type"; lit "room"; lit "payload"; lit "timestamp"]) as Hn
    by decided.
  assert (json_get v (lit "type") = Some (JStr type)) as Ht by (unfold v; by rewrite json_get_obj).
  exists v. rewrite Ht. split_and!; [|done|unfold v; by rewrite json_get_obj..].
  unfold is_str. rewrite bool_decide_false by done. cbn [andb]. unfold v, obj. by destruct type.
Qed.
End ClientFacts.

(** ** Concrete runs *)

Module ClientExamples.
Definition uuid (n : nat) : jsstr := 117 :: dec_nat (Z.of_nat n).
Abbreviation run := (cl_run uuid (new_client 0)).

(** In room [r], the connection drops, and the first reconnection is on its way. *)
Definition dropped : list cl_label :=
  [CConnect; COpen 0; CSend (lit "join") (lit "r") None None; CEnd 0 None JNull 250; CWait 1250; CTimer 0].

Lemma run_dropped : ∃ c, run dropped = Some c ∧ careful uuid (new_client 0) dropped = true ∧
  cl_ws c = Some 1%nat ∧ socket_state c 1 = Some CONNECTING ∧ cl_pending c = [] ∧ cl_attempts c = 1 ∧
  cl_joined c = [(lit "r", None)].
Proof. eexists. split; [vm_compute; reflexivity|]. split_and!; vm_compute; reflexivity. Qed.

Lemma client_invariant_witness :
  ∃ c, run dropped = Some c ∧ (length (joinedRooms c) ≤ MAX_ROOMS)%nat ∧ NoDup (joinedRooms c) ∧
    (length (cl_pending c) ≤ MAX_PENDING)%nat.
Proof.
  destruct run_dropped as (c & Hc & _). exists c. split; [exact Hc|].
  destruct (client_invariant uuid 0 dropped c Hc) as (H1 & H2 & H3 & _).
  split; [exact H1|]. split; [exact H2|exact H3].
Defined.

Definition hello : outgoing := Outgoing (lit "chat") (lit "r") (Some (JStr (lit "hello"))) None.

Lemma offline_messages_delivered_witness :
  ∃ c c' n, run dropped = Some c ∧ cl_run uuid c (map send_label [hello] ++ [COpen 1]) = Some c' ∧ cl_pending c' = [] ∧
    on_wire 1 (drop (length (cl_log c)) (cl_log c')) =
      (if cl_reconnecting c then rejoin_texts uuid n (cl_now c) (cl_joined c) else []) ++
      map snd (cl_pending c) ++ outgoing_texts uuid (cl_uuids c) (cl_now c) [hello].
Proof.
  destruct run_dropped as (c & Hc & _ & Hw & Hs & Hp & _). exists c.
  destruct (offline_messages_delivered uuid 0 dropped c 1 [hello] Hc Hw Hs) as (c' & n & H1 & H2 & H3).
  - repeat constructor.
  - rewrite Hp. decided.
  - exists c', n. split; [exact Hc|]. split; [exact H1|]. split; [exact H2|exact H3].
Defined.

Lemma sends_on_open_socket_witness :
  ∃ c c' es, cl_exec uuid c (COpen 1) = Some c' ∧ cl_log c' = cl_log c ++ es ∧
    ∀ s m, WsSend s m ∈ es → cl_ws c' = Some s ∧ socket_state c' s = Some OPEN.
Proof.
  assert (∃ c c', run dropped = Some c ∧ cl_exec uuid c (COpen 1) = Some c') as (c & c' & _ & H).
  { eexists _, _. split; [vm_compute; reflexivity|]. vm_compute. reflexivity. }
  exists c, c'. destruct (sends_on_open_socket uuid c (COpen 1) c' H) as (es & H1 & H2).
  exists es. split; [exact H|]. split; [exact H1|exact H2].
Defined.


(** The last room is left, and the server answers the closing handshake. *)
Lemma single_connection_witness :
  ∃ c c', run dropped = Some c ∧
    cl_run uuid (disconnect c) [CSend (lit "chat") (lit "r") None None; CWait 60000; CEnd 1 None JNull 0] = Some c' ∧
    t_pending (cl_clock c') = [] ∧ (∀ s r, socket_state c' s = Some r → ¬ working r).
Proof.
  destruct run_dropped as (c & Hc & Hcare & _).
  destruct (cl_run uuid (disconnect c) [CSend (lit "chat") (lit "r") None None; CWait 60000; CEnd 1 None JNull 0]) as [c'|] eqn:E.
  - exists c, c'. split; [exact Hc|]. split; [exact E|].
    destruct (proj2 (proj2 (single_connection uuid 0 dropped c Hcare Hc))
      [CSend (lit "chat") (lit "r") None None; CWait 60000; CEnd 1 None JNull 0] c' eq_refl E) as (H1 & H2 & _).
    split; [exact H1|exact H2].
  - exfalso. revert E. assert (run dropped = Some c) as H by exact Hc. vm_compute in H. injection H as <-. vm_compute. discriminate.
Defined.

Lemma client_message_roundtrip_witness :
  ∃ v, onmessage (message (lit "i") (lit "m") (lit "chat") (lit "r") (Some (JStr (lit "hi"))) 7) (new_client 0) =
      emit (lit "chat") (Some v) (emit (lit "message") (Some v) (new_client 0)) ∧
    json_get v (lit "type") = Some (JStr (lit "chat")) ∧ json_get v (lit "room") = Some (JStr (lit "r")) ∧
    json_get v (lit "payload") = Some (JStr (lit "hi")).
Proof.
  apply (client_message_roundtrip (lit "i") (lit "m") (lit "chat") (lit "r") (Some (JStr (lit "hi"))) 7);
    [vm_compute; reflexivity|discriminate|discriminate].
Defined.

(** The room joined from the dialog while the client is reconnecting: the
    application calls [connect] because [connected] is false. *)
Definition join_while_reconnecting : list cl_label :=
  [CConnect; COpen 0; CSend (lit "join") (lit "r") None None; CEnd 0 None JNull 0;
   CConnect; COpen 1; CSend (lit "join") (lit "s") None None; CWait 1000; CTimer 0; COpen 2].

(** The last room left and another one joined before the server has answered
    the closing handshake. *)
Definition leave_and_join : list cl_label :=
  [CConnect; COpen 0; CSend (lit "join") (lit "r") None None; CSend (lit "leave") (lit "r") None None; CDisconnect;
   CConnect; COpen 1; CSend (lit "join") (lit "s") None None; CEnd 0 None JNull 0; CWait 1000; CTimer 0; COpen 2].

(** Nothing keeps the client to one connection. Joining a room while a
    reconnection is due, or joining a room right after leaving the last one
    (the old socket's close event then counts as a lost connection), both end
    with two open sockets, of which the client only knows one: the other one
    stays open even after [disconnect]. *)
Theorem second_connection_leaks :
  (∃ c, run join_while_reconnecting = Some c ∧ socket_state c 1 = Some OPEN ∧ socket_state c 2 = Some OPEN ∧
     socket_state (disconnect c) 1 = Some OPEN) ∧
  (∃ c, run leave_and_join = Some c ∧ socket_state c 1 = Some OPEN ∧ socket_state c 2 = Some OPEN ∧
     socket_state (disconnect c) 1 = Some OPEN).
Proof. split; (eexists; split; [vm_compute; reflexivity|]; split_and!; vm_compute; reflexivity). Qed.

(** The connection is opened twice before either handshake is over. *)
Definition crossed : list cl_label :=
  [CSend (lit "chat") (lit "r") (Some (JStr (lit "hello"))) None; CConnect; CConnect; COpen 0; COpen 1].

(** The first of two sockets to open throws the waiting messages away: the
    queue is flushed to the client's present socket, which is still
    connecting, so nothing goes out, and nothing waits any more. *)
Theorem crossed_open_drops_queue :
  ∃ c, run crossed = Some c ∧ cl_pending c = [] ∧ connected c = true ∧
    on_wire 0 (cl_log c) = [] ∧ on_wire 1 (cl_log c) = [].
Proof. eexists. split; [vm_compute; reflexivity|]. split_and!; vm_compute; reflexivity. Qed.
End ClientExamples.
