(* ===== verification/Rooms.v ===== *)
(** * hooks/useRoomManager.js: rooms, messages, keys and share links

    React's state is a value that [setRooms] replaces by what its updater
    returns; the refs ([keyRefs], [saltRefs], ...) are mutable maps next to it.
    [commit] is a render followed by its effects: it brings the refs that
    mirror the state up to date, and recomputes the active key only when the
    rooms or the active room changed. An updater runs when it is given to
    [setRooms]. The QR code is AppUi.v's; the fields of a room that nothing writes
    are left out. *)

From S2P Require Import Prelude JsLib Base64 Text Json Crypto Timers Uri.

Local Open Scope Z_scope.

Local Arguments Z.eqb : simpl never.

Definition MAX_MESSAGES : nat := 500.
Definition MAX_ROOM_NAME_LEN : nat := 64.
Definition MAX_ROOMS : nat := 5.
Definition COPIED_MS : Z := 2000.

(** ** The state of a room *)

Record media_ref := MediaRef { mr_url : jsstr; mr_mimeType : jsstr; mr_fileName : jsstr; mr_fileSize : option Z }.

(** [um_senderNickname] is the [ownNickname] of an own message. *)
Record ui_message := UiMessage {
  um_id : jsstr;
  um_text : option jsstr;
  um_own : bool;
  um_system : bool;
  um_error : bool;
  um_queued : bool;
  um_p2p : bool;
  um_senderId : option json;
  um_senderNickname : option json;
  um_media : option media_ref
}.

Record room_state := RoomState {
  rs_messages : list ui_message;
  rs_input : jsstr;
  rs_expiresAt : option json;
  rs_peerCount : json;
  rs_peerNicknames : json;
  rs_messageReceipts : list (jsstr * json);
  rs_isP2P : bool;
  rs_shareLink : jsstr;
  rs_copied : bool;
  rs_showQR : bool;
  rs_qrDataURL : jsstr;
  rs_unreadCount : Z;
  rs_salt : option json
}.

Definition defaultRoomState : room_state :=
  RoomState [] [] None (JNum 0) (JObj []) [] false [] false false [] 0 None.

Section Rooms.
Context `{WebCrypto}.

(** What [keyRefs] maps a room to: the key fragment of a share link, until the
    room is joined, then the key. *)
Inductive keyref :=
  | Fragment (s : jsstr)
  | Key (k : CryptoKey).

Record room_manager := RoomManager {
  rm_rooms : list (jsstr * room_state);
  rm_roomsRef : list (jsstr * room_state);
  rm_activeRoom : jsstr;
  rm_activeRoomRef : jsstr;
  rm_keys : list (jsstr * keyref);
  rm_activeKey : option keyref;
  rm_salts : list (jsstr * bytes);
  rm_passphrases : list (jsstr * jsstr);
  rm_dirty : bool;                        (** the rooms or the active room changed since the last commit *)
  rm_revoked : list jsstr;                (** the blob URLs revoked, oldest first *)
  rm_clock : timers jsstr                 (** the ['copied'] marks to take away, by room *)
}.

Definition new_room_manager (now : Z) : room_manager :=
  RoomManager [] [] [] [] [] None [] [] false [] (timers_init now).

Definition set_rooms (rooms : list (jsstr * room_state)) (m : room_manager) : room_manager :=
  RoomManager rooms (rm_roomsRef m) (rm_activeRoom m) (rm_activeRoomRef m) (rm_keys m) (rm_activeKey m)
              (rm_salts m) (rm_passphrases m) true (rm_revoked m) (rm_clock m).
Definition set_refs (keys : list (jsstr * keyref)) (salts : list (jsstr * bytes)) (pps : list (jsstr * jsstr))
    (m : room_manager) : room_manager :=
  RoomManager (rm_rooms m) (rm_roomsRef m) (rm_activeRoom m) (rm_activeRoomRef m) keys (rm_activeKey m)
              salts pps (rm_dirty m) (rm_revoked m) (rm_clock m).
Definition set_keys (keys : list (jsstr * keyref)) (m : room_manager) : room_manager :=
  set_refs keys (rm_salts m) (rm_passphrases m) m.
Definition set_activeKey (key : option keyref) (m : room_manager) : room_manager :=
  RoomManager (rm_rooms m) (rm_roomsRef m) (rm_activeRoom m) (rm_activeRoomRef m) (rm_keys m) key
              (rm_salts m) (rm_passphrases m) (rm_dirty m) (rm_revoked m) (rm_clock m).
Definition set_activeRoom (room : jsstr) (m : room_manager) : room_manager :=
  RoomManager (rm_rooms m) (rm_roomsRef m) room (rm_activeRoomRef m) (rm_keys m) (rm_activeKey m)
              (rm_salts m) (rm_passphrases m) (rm_dirty m || bool_decide (room ≠ rm_activeRoom m))
              (rm_revoked m) (rm_clock m).
Definition revoke (urls : list jsstr) (m : room_manager) : room_manager :=
  RoomManager (rm_rooms m) (rm_roomsRef m) (rm_activeRoom m) (rm_activeRoomRef m) (rm_keys m) (rm_activeKey m)
              (rm_salts m) (rm_passphrases m) (rm_dirty m) (rm_revoked m ++ urls) (rm_clock m).
Definition set_clock (k : timers jsstr) (m : room_manager) : room_manager :=
  RoomManager (rm_rooms m) (rm_roomsRef m) (rm_activeRoom m) (rm_activeRoomRef m) (rm_keys m) (rm_activeKey m)
              (rm_salts m) (rm_passphrases m) (rm_dirty m) (rm_revoked m) k.

(** A render and its effects, in one step: the refs catch up with the state.
    (React paints first and runs the effects after; nothing comes in between
    here.) *)
Definition commit (m : room_manager) : room_manager :=
  RoomManager (rm_rooms m) (rm_rooms m) (rm_activeRoom m) (rm_activeRoom m) (rm_keys m)
    (if rm_dirty m then map_get (rm_keys m) (rm_activeRoom m) else rm_activeKey m)
    (rm_salts m) (rm_passphrases m) false (rm_revoked m) (rm_clock m).

(** ** Rooms and messages *)

Definition getRoomState (room : jsstr) (m : room_manager) : room_state :=
  default defaultRoomState (map_get (rm_rooms m) room).

Definition updateRoomState (room : jsstr) (updater : room_state → room_state) (m : room_manager) : room_manager :=
  set_rooms (map_set (rm_rooms m) room (updater (getRoomState room m))) m.

Definition blob_url (msg : ui_message) : list jsstr :=
  match um_media msg with
  | Some r => if negb (str_empty (mr_url r)) && starts_with (lit "blob:") (mr_url r) then [mr_url r] else []
  | None => []
  end.

Definition set_messages (messages : list ui_message) (unread : Z) (s : room_state) : room_state :=
  RoomState messages (rs_input s) (rs_expiresAt s) (rs_peerCount s) (rs_peerNicknames s) (rs_messageReceipts s)
            (rs_isP2P s) (rs_shareLink s) (rs_copied s) (rs_showQR s) (rs_qrDataURL s) unread (rs_salt s).

Definition appendMessageToRoom (room : jsstr) (msg : ui_message) (m : room_manager) : room_manager :=
  match map_get (rm_rooms m) room with
  | None => m
  | Some current =>
      let messages := rs_messages current ++ [msg] in
      let over := (length messages - MAX_MESSAGES)%nat in
      let m := if Nat.ltb MAX_MESSAGES (length messages) then revoke (flat_map blob_url (take over messages)) m else m in
      let messages := if Nat.ltb MAX_MESSAGES (length messages) then drop over messages else messages in
      let unread := if bool_decide (room ≠ rm_activeRoomRef m) then rs_unreadCount current + 1
                    else rs_unreadCount current in
      set_rooms (map_set (rm_rooms m) room (set_messages messages unread current)) m
  end.

Definition clear_unread (s : room_state) : room_state := set_messages (rs_messages s) 0 s.

Definition switchRoom (room : jsstr) (m : room_manager) : room_manager :=
  let m := updateRoomState room clear_unread (set_activeRoom room m) in
  set_activeKey (map_get (rm_keys m) room) m.

Definition removeRoom (room : jsstr) (m : room_manager) : room_manager :=
  let m := set_refs (map_delete (rm_keys m) room) (map_delete (rm_salts m) room)
                    (map_delete (rm_passphrases m) room) m in
  let m := match map_get (rm_rooms m) room with
           | Some current => revoke (flat_map blob_url (rs_messages current)) m
           | None => m
           end in
  set_rooms (map_delete (rm_rooms m) room) m.

Definition set_copied (b : bool) (s : room_state) : room_state :=
  RoomState (rs_messages s) (rs_input s) (rs_expiresAt s) (rs_peerCount s) (rs_peerNicknames s)
            (rs_messageReceipts s) (rs_isP2P s) (rs_shareLink s) b (rs_showQR s) (rs_qrDataURL s)
            (rs_unreadCount s) (rs_salt s).

(** How the link gets to the clipboard: [api] is whether there is a clipboard to
    write to, [first] and [second] whether it takes the link. *)
Inductive copy_action := WriteText (text : jsstr) | AppendTextarea (text : jsstr) | SelectTextarea | ExecCopy | RemoveTextarea.

Definition copy_actions (api first second : bool) (link : jsstr) : list copy_action :=
  let write := if api then [WriteText link] else [] in
  write ++
  (if api && first then []
   else [AppendTextarea link; SelectTextarea] ++ write ++ (if api && second then [] else [ExecCopy]) ++ [RemoveTextarea]).

(** Whether the link has got to the clipboard, if the browser's own command
    works, and the text area that is left on the page. *)
Fixpoint copied_by (took : list bool) (acts : list copy_action) (area : option jsstr) (clip : option jsstr)
    : option jsstr * option jsstr :=
  match acts with
  | [] => (clip, area)
  | WriteText t :: acts => match took with
                           | b :: took => copied_by took acts area (if b then Some t else clip)
                           | [] => copied_by [] acts area clip
                           end
  | AppendTextarea t :: acts => copied_by took acts (Some t) clip
  | SelectTextarea :: acts => copied_by took acts area clip
  | ExecCopy :: acts => copied_by took acts area (match area with Some t => Some t | None => clip end)
  | RemoveTextarea :: acts => copied_by took acts None clip
  end.

(** On every branch the link is copied and the page is left as it was. *)
Lemma copy_actions_spec api first second link :
  copied_by [first; second] (copy_actions api first second link) None None = (Some link, None).
Proof. by destruct api, first, second. Qed.

(** After the link was written to the clipboard, one way or the other. *)
Definition copyShareLink (m : room_manager) : room_manager :=
  let room := rm_activeRoom m in
  match map_get (rm_rooms m) room with
  | Some s =>
      if str_empty (rs_shareLink s) then m
      else let m := updateRoomState room (set_copied true) m in
           set_clock (setTimeout (rm_clock m) room COPIED_MS).2 m
  | None => m
  end.

Definition copied_expired (id : nat) (m : room_manager) : option room_manager :=
  room ← due (rm_clock m) id;
  Some (updateRoomState room (set_copied false) (set_clock (clearTimeout (rm_clock m) id) m)).

(** ** Keys and links *)

(** [hash.split('/', 2)], the components after the second dropped. *)
Definition split_hash (hash : jsstr) : option (jsstr * jsstr) :=
  match split_char 47 hash with
  | roomName :: keyFragment :: _ => Some (roomName, keyFragment)
  | _ => None
  end.

(** The effect that reads the URL fragment when the page opens. *)
Definition mount_hash (hash : jsstr) (m : room_manager) : result room_manager :=
  match split_hash hash with
  | Some (c :: roomName, d :: keyFragment) =>
      room ← decodeURIComponent (c :: roomName);
      mret (set_keys (map_set (rm_keys m) room (Fragment (d :: keyFragment))) m)
  | _ => mret m
  end.

(** [`${origin}${pathname}#${encodeURIComponent(room)}/${exported}`]. *)
Definition link_hash (room exported : jsstr) : result jsstr :=
  enc ← encodeURIComponent room; mret (enc ++ [47] ++ exported).

Definition share_link (base room exported : jsstr) : result jsstr :=
  hash ← link_hash room exported; mret (base ++ [35] ++ hash).

(** Where a call of [setupRoomKey(trimmed, passphrase)] is suspended: it awaits
    the import of the key in the link, the derivation, a fresh key, or the
    export of the key for the link. The export of a fresh key is [strict]: its
    failure is the call's. *)
Inductive setup :=
  | SImport (r : result CryptoKey)
  | SDerive (r : result CryptoKey)
  | SGenerate (key : CryptoKey)
  | SExport (key : CryptoKey) (strict : bool).

(** Up to the first [await]; [fresh_salt] and [fresh_key] are what the random
    generator gives. *)
Definition setup_begin (fresh_salt : bytes) (fresh_key : CryptoKey) (trimmed passphrase : jsstr)
    (m : room_manager) : room_manager * setup :=
  let without_link (next : setup) :=
    if negb (str_empty (trim passphrase)) then
      (set_refs (rm_keys m) (map_set (rm_salts m) trimmed fresh_salt) (map_set (rm_passphrases m) trimmed passphrase) m,
       SDerive (deriveRoomKey trimmed passphrase (Some fresh_salt)))
    else (m, next) in
  match map_get (rm_keys m) trimmed with
  | Some (Fragment (c :: s)) => (m, SImport (importKey (c :: s)))
  | Some (Key key) => without_link (SExport key false)
  | Some (Fragment []) | None => without_link (SGenerate fresh_key)
  end.

(** From one [await] to the next, or to the end of the call. *)
Definition setup_next (base trimmed : jsstr) (s : setup) (m : room_manager) : room_manager * (setup + result (CryptoKey * jsstr)) :=
  let with_key key := set_keys (map_set (rm_keys m) trimmed (Key key)) m in
  match s with
  | SImport (Throw e) | SDerive (Throw e) => (m, inr (Throw e))
  | SImport (Ok key) => (with_key key, inl (SExport key false))
  | SDerive (Ok key) => (with_key key, inr (link ← share_link base trimmed []; mret (key, link)))
  | SGenerate key => (with_key key, inl (SExport key true))
  | SExport key strict =>
      (m, inr match exported ← exportKey (Some key); share_link base trimmed exported with
              | Ok link => Ok (key, link)
              | Throw e => if strict then Throw e else link ← share_link base trimmed []; mret (key, link)
              end)
  end.

(** The whole call, when nothing else happens meanwhile: it awaits twice at
    most. *)
Fixpoint setup_run (fuel : nat) (base trimmed : jsstr) (s : setup) (m : room_manager) : room_manager * result (CryptoKey * jsstr) :=
  match setup_next base trimmed s m with
  | (m, inr r) => (m, r)
  | (m, inl s) => match fuel with O => (m, Throw (lit "suspended")) | S fuel => setup_run fuel base trimmed s m end
  end.

Definition setupRoomKey (base : jsstr) (fresh_salt : bytes) (fresh_key : CryptoKey) (trimmed passphrase : jsstr)
    (m : room_manager) : room_manager * result (CryptoKey * jsstr) :=
  let '(m, s) := setup_begin fresh_salt fresh_key trimmed passphrase m in setup_run 1 base trimmed s m.
End Rooms.

(** ** Runs *)

Definition urls_of (s : room_state) : list jsstr := flat_map blob_url (rs_messages s).

(** The blob URLs of the messages on display. *)
Definition shown (rooms : list (jsstr * room_state)) : list jsstr := map_collect urls_of rooms.

Definition keeps_messages (f : room_state → room_state) : Prop := ∀ s, rs_messages (f s) = rs_messages s.

Section RoomFacts.
Context `{WebCrypto}.
Implicit Types (m : room_manager).

(** One operation of the manager, with the blob URLs it is given in a message,
    and those of them that are lost: a message for a room that is not there is
    dropped with its URL. The updaters of the program leave the messages alone. *)
Inductive rm_step : room_manager → list jsstr → list jsstr → room_manager → Prop :=
  | rm_update room f m : keeps_messages f → rm_step m [] [] (updateRoomState room f m)
  | rm_append room msg m :
      rm_step m (blob_url msg) (if map_has (rm_rooms m) room then [] else blob_url msg) (appendMessageToRoom room msg m)
  | rm_switch room m : rm_step m [] [] (switchRoom room m)
  | rm_active room m : rm_step m [] [] (set_activeRoom room m)
  | rm_remove room m : rm_step m [] [] (removeRoom room m)
  | rm_copy m : rm_step m [] [] (copyShareLink m)
  | rm_copied id m m' : copied_expired id m = Some m' → rm_step m [] [] m'
  | rm_commit m : rm_step m [] [] (commit m)
  | rm_refs keys salts pps m : rm_step m [] [] (set_refs keys salts pps m)
  | rm_key key m : rm_step m [] [] (set_activeKey key m)
  | rm_wait d m : 0 ≤ d → rm_step m [] [] (set_clock (advance (rm_clock m) d) m).

(** Runs, with the URLs given and lost so far. *)
Inductive rm_steps (m : room_manager) : list jsstr → list jsstr → room_manager → Prop :=
  | rm_nil : rm_steps m [] [] m
  | rm_snoc us lost m1 u l m2 : rm_steps m us lost m1 → rm_step m1 u l m2 → rm_steps m (us ++ u) (lost ++ l) m2.

Record rooms_inv (us : list jsstr) (m : room_manager) : Prop := {
  ri_wf : map_wf (rm_rooms m);
  ri_bound : Forall (λ x, length (rs_messages x.2) ≤ MAX_MESSAGES)%nat (rm_rooms m);
  ri_urls : rm_revoked m ++ shown (rm_rooms m) ≡ₚ us
}.

Lemma bound_get us m room s : rooms_inv us m → map_get (rm_rooms m) room = Some s →
  (length (rs_messages s) ≤ MAX_MESSAGES)%nat.
Proof.
  intros Hi Hs. apply map_get_Some_elem in Hs. pose proof (ri_bound _ _ Hi) as Hb.
  rewrite Forall_forall in Hb. by apply (Hb (room, s)).
Qed.

Lemma bound_state us m room : rooms_inv us m → (length (rs_messages (getRoomState room m)) ≤ MAX_MESSAGES)%nat.
Proof.
  intros Hi. unfold getRoomState. destruct (map_get _ room) as [s|] eqn:E; [by eapply bound_get|].
  cbn. unfold MAX_MESSAGES. lia.
Qed.

Lemma inv_update us m room f : keeps_messages f → rooms_inv us m → rooms_inv us (updateRoomState room f m).
Proof.
  intros Hf Hi. split; cbn [updateRoomState set_rooms rm_rooms rm_revoked].
  - apply map_wf_set, Hi.
  - apply Forall_map_set; [apply Hi| |done]. cbn. rewrite Hf. by eapply bound_state.
  - rewrite <- (ri_urls _ _ Hi). apply Permutation_app_head.
    assert (urls_of (f (getRoomState room m)) = urls_of (getRoomState room m)) as Eu
      by (unfold urls_of; by rewrite Hf).
    unfold getRoomState in *. destruct (map_get (rm_rooms m) room) as [s|] eqn:E; cbn [default] in *.
    + apply (Permutation_app_inv_r (urls_of s)). unfold shown; rewrite (map_collect_set_Some urls_of _ _ s) by done. cbn in Eu |- *. by rewrite Eu.
    + unfold shown; rewrite (map_collect_set_None urls_of) by done. cbn. rewrite Eu. cbn. by rewrite app_nil_r.
Qed.

Lemma inv_frame us m m' :
  rm_rooms m' = rm_rooms m → rm_revoked m' = rm_revoked m → rooms_inv us m → rooms_inv us m'.
Proof. intros E1 E2 []. split; by rewrite ?E1, ?E2. Qed.

Lemma inv_append us m room msg :
  rooms_inv us m →
  rooms_inv (us ++ if map_has (rm_rooms m) room then blob_url msg else []) (appendMessageToRoom room msg m).
Proof.
  intros Hi. unfold appendMessageToRoom, map_has. destruct (map_get (rm_rooms m) room) as [s|] eqn:E.
  2: { by rewrite app_nil_r. }
  pose proof (bound_get _ _ _ _ Hi E) as Hb. set (msgs := rs_messages s ++ [msg]).
  assert (flat_map blob_url msgs = urls_of s ++ blob_url msg) as Eu.
  { unfold msgs, urls_of. rewrite flat_map_app. cbn. by rewrite app_nil_r. }
  assert (length msgs = S (length (rs_messages s))) as El by (unfold msgs; rewrite length_app; cbn; lia).
  assert (∀ n unread, let m1 := revoke (flat_map blob_url (take n msgs)) m in
    (length (drop n msgs) ≤ MAX_MESSAGES)%nat →
    rooms_inv (us ++ blob_url msg) (set_rooms (map_set (rm_rooms m1) room (set_messages (drop n msgs) unread s)) m1)) as Hn.
  { intros n unread m1 Hl. split; cbn [set_rooms rm_rooms rm_revoked m1 revoke].
    - apply map_wf_set, Hi.
    - apply Forall_map_set; [apply Hi|done|done].
    - rewrite <- (ri_urls _ _ Hi). apply (Permutation_app_inv_r (urls_of s)).
      unfold shown; rewrite <- !app_assoc, (map_collect_set_Some urls_of _ _ s) by done.
      assert (urls_of (set_messages (drop n msgs) unread s) = flat_map blob_url (drop n msgs)) as -> by done.
      rewrite (Permutation_app_comm (shown _)), !app_assoc, <- (app_assoc (rm_revoked m)), <- flat_map_app, take_drop, Eu.
      solve_Permutation. }
  destruct (Nat.ltb MAX_MESSAGES (length msgs)) eqn:Elt.
  - apply Hn. rewrite length_drop. lia.
  - apply Nat.ltb_ge in Elt. specialize (Hn 0%nat). cbn zeta in Hn. rewrite take_0, drop_0 in Hn. cbn [flat_map] in Hn.
    eapply inv_frame; [| |apply Hn; lia]; cbn; [done|by rewrite app_nil_r].
Qed.

(** ** Many messages at once

    What a run of [appendMessageToRoom] amounts to: the room keeps the last
    five hundred of the old and the new messages together, the blob URLs of
    all the others are revoked, and the unread count grows by the number of
    messages unless the room is on display. *)
Definition append_all (room : jsstr) (msgs : list ui_message) (m : room_manager) : room_manager :=
  match map_get (rm_rooms m) room with
  | None => m
  | Some s =>
      let all := rs_messages s ++ msgs in
      let over := (length all - MAX_MESSAGES)%nat in
      let unread := if bool_decide (room ≠ rm_activeRoomRef m) then rs_unreadCount s + Z.of_nat (length msgs)
                    else rs_unreadCount s in
      set_rooms (map_set (rm_rooms m) room (set_messages (drop over all) unread s))
                (revoke (flat_map blob_url (take over all)) m)
  end.

Lemma revoke_nil m : revoke [] m = m.
Proof. destruct m. unfold revoke. cbn. by rewrite app_nil_r. Qed.

Lemma append_one room msg m : appendMessageToRoom room msg m = append_all room [msg] m.
Proof.
  unfold appendMessageToRoom, append_all. destruct (map_get _ room) as [s|]; [|done].
  generalize MAX_MESSAGES as max. intros max. cbn zeta.
  destruct (Nat.ltb max (length (rs_messages s ++ [msg]))) eqn:E; [done|].
  apply Nat.ltb_ge in E. replace (length (rs_messages s ++ [msg]) - max)%nat with 0%nat by lia.
  by rewrite take_0, drop_0, revoke_nil.
Qed.

Lemma append_snoc room msgs msg m :
  append_all room [msg] (append_all room msgs m) = append_all room (msgs ++ [msg]) m.
Proof.
  unfold append_all. destruct (map_get (rm_rooms m) room) as [s|] eqn:E; [|by rewrite E].
  generalize MAX_MESSAGES as max. intros max. cbn zeta.
  cbn [set_rooms rm_rooms revoke rm_activeRoomRef rm_revoked].
  rewrite map_get_set_eq, map_set_set. cbn [set_messages rs_messages rs_unreadCount].
  set (all := rs_messages s ++ msgs).
  rewrite (app_assoc (rs_messages s) msgs [msg]). fold all. rewrite !length_app. cbn [length].
  rewrite !Nat.add_1_r. destruct (cut_snoc max all msg) as [H1 H2]. rewrite <- H1, <- H2.
  unfold set_rooms, revoke. cbn. rewrite flat_map_app, <- app_assoc.
  f_equal. unfold set_messages. cbn. do 3 f_equal. case_bool_decide; lia.
Qed.

Lemma keeps_clear_unread : keeps_messages clear_unread.
Proof. done. Qed.
Lemma keeps_copied b : keeps_messages (set_copied b).
Proof. done. Qed.

Lemma inv_remove us m room : rooms_inv us m → rooms_inv us (removeRoom room m).
Proof.
  intros Hi. unfold removeRoom. cbn [rm_rooms set_refs].
  destruct (map_get (rm_rooms m) room) as [s|] eqn:E; split; cbn [set_rooms rm_rooms rm_revoked revoke set_refs].
  - apply map_wf_delete, Hi.
  - apply Forall_map_delete, Hi.
  - rewrite <- (ri_urls _ _ Hi), <- app_assoc. apply Permutation_app_head. by apply (map_collect_delete urls_of).
  - apply map_wf_delete, Hi.
  - apply Forall_map_delete, Hi.
  - rewrite map_delete_not_in; [apply Hi|by apply map_get_None].
Qed.

(** [us]: the URLs put on display. *)
Lemma rooms_inv_step us m u l m' : rooms_inv us m → rm_step m u l m' → ∃ v, u ≡ₚ v ++ l ∧ rooms_inv (us ++ v) m'.
Proof.
  intros Hi Hs. revert Hi.
  destruct Hs as [room f m1 Hf|room msg m1|room m1|room m1|room m1|m1|id m1 m2 E|m1|keys salts pps m1|key m1|d m1 _];
    intros Hi; try (exists []; rewrite !app_nil_r; split; [done|]).
  - by apply inv_update.
  - exists (if map_has (rm_rooms m1) room then blob_url msg else []). split; [|by apply inv_append].
    destruct (map_has _ _); by rewrite ?app_nil_r.
  - apply (inv_frame _ (updateRoomState room clear_unread (set_activeRoom room m1))); [done..|].
    apply inv_update; [done|]. by apply (inv_frame _ m1).
  - by apply (inv_frame _ m1).
  - by apply inv_remove.
  - unfold copyShareLink. destruct (map_get _ _); [|done]. destruct (str_empty _); [done|].
    by apply (inv_frame _ (updateRoomState (rm_activeRoom m1) (set_copied true) m1)), inv_update.
  - apply bind_Some in E as (room & _ & [= <-]). apply inv_update; [done|]. by apply (inv_frame _ m1).
  - by apply (inv_frame _ m1).
  - by apply (inv_frame _ m1).
  - by apply (inv_frame _ m1).
  - by apply (inv_frame _ m1).
Qed.

Lemma rooms_inv_steps now us lost m :
  rm_steps (new_room_manager now) us lost m → ∃ vs, us ≡ₚ vs ++ lost ∧ rooms_inv vs m.
Proof.
  induction 1 as [|us lost m1 u l m2 _ (vs & Hu & IH) Hs]; [exists []; split; [done|split; cbn; constructor]|].
  destruct (rooms_inv_step vs m1 u l m2 IH Hs) as (v & Hv & Hi). exists (vs ++ v). split; [|done]. rewrite Hu, Hv. solve_Permutation.
Qed.
End RoomFacts.

(** ** Links *)

(** The part of a string before its first slash. *)
Fixpoint before_slash (s : jsstr) : jsstr :=
  match s with c :: s' => if c =? 47 then [] else c :: before_slash s' | [] => [] end.

Lemma split_char_app c a b :
  c ∉ a → split_char c (a ++ c :: b) = a :: split_char c b.
Proof.
  induction a as [|d a IH]; cbn; [by rewrite Z.eqb_refl|]. intros [Hd Ha]%not_elem_of_cons.
  destruct (d =? c) eqn:E; [lia|]. by rewrite IH.
Qed.

Lemma split_char_head s : ∃ rest, split_char 47 s = before_slash s :: rest.
Proof.
  induction s as [|c s [rest IH]]; [by exists []|]. cbn. destruct (c =? 47); [eauto|].
  rewrite IH. eauto.
Qed.

Lemma before_slash_id s : 47 ∉ s → before_slash s = s.
Proof.
  induction s as [|c s IH]; [done|]. intros [Hc Hs]%not_elem_of_cons. cbn.
  destruct (c =? 47) eqn:E; [lia|]. by rewrite IH.
Qed.

Lemma before_slash_shorter s : 47 ∈ s → (length (before_slash s) < length s)%nat.
Proof.
  induction s as [|c s IH]; [by intros ?%not_elem_of_nil|]. cbn. destruct (c =? 47) eqn:E; cbn; [lia|].
  intros [Hc|H]%elem_of_cons; [lia|]. specialize (IH H). lia.
Qed.

Lemma encodeURIComponent_nonempty s e : s ≠ [] → encodeURIComponent s = Ok e → e ≠ [].
Proof.
  intros Hs He. destruct s as [|c s]; [done|]. intros ->. unfold encodeURIComponent in He. case_match; [|done].
  simplify_eq. unfold TextEncoder_encode in *.
  assert (∀ cp l, flat_map utf8 (cp :: l) ≠ []) as Hu.
  { intros cp l. cbn. unfold utf8. by repeat case_match. }
  destruct (usv (c :: s)) as [|cp l] eqn:Eu.
  - cbn in Eu. repeat case_match; done.
  - destruct (flat_map utf8 (cp :: l)) as [|b bs] eqn:Eb; [by apply (Hu cp l)|]. cbn in *.
    by destruct (uri_unreserved b).
Qed.

Section Links.
Context `{WebCrypto}.
Implicit Types (m : room_manager).

Lemma mount_hash_link room exported hash m :
  Forall is_unit room → room ≠ [] → link_hash room exported = Ok hash →
  mount_hash hash m = Ok (match before_slash exported with
                          | [] => m
                          | frag => set_keys (map_set (rm_keys m) room (Fragment frag)) m
                          end).
Proof.
  intros Hu Hne Hh. apply bind_Ok in Hh as (enc & He & [= <-]). unfold mount_hash, split_hash.
  pose proof (encodeURIComponent_segment _ _ Hu He) as Hseg.
  assert (47 ∉ enc) as Hs.
  { intros Hin. unfold one_segment in Hseg. rewrite Forall_forall in Hseg. apply (Hseg 47 Hin). set_solver. }
  cbn [app]. rewrite split_char_app by done. destruct (split_char_head exported) as [rest ->].
  pose proof (encodeURIComponent_nonempty _ _ Hne He) as Hn. destruct enc as [|c e]; [done|].
  destruct (before_slash exported) as [|d frag]; [done|].
  by rewrite (decodeURIComponent_encode room) by done.
Qed.

(** The link of a room whose name can be encoded. *)
Lemma share_link_hash base room exported hash :
  link_hash room exported = Ok hash → share_link base room exported = Ok (base ++ [35] ++ hash).
Proof. unfold share_link. by intros ->. Qed.

(** [setupRoomKey] when the room's key is a fragment that imports. *)
Lemma setup_fragment base salt fresh room pp m c s k exported hash :
  map_get (rm_keys m) room = Some (Fragment (c :: s)) → importKey (c :: s) = Ok k →
  exportKey (Some k) = Ok exported → link_hash room exported = Ok hash →
  setupRoomKey base salt fresh room pp m =
    (set_keys (map_set (rm_keys m) room (Key k)) m, Ok (k, base ++ [35] ++ hash)).
Proof.
  intros Hk Hi He Hh. unfold setupRoomKey, setup_begin. rewrite Hk, Hi.
  cbn [setup_run setup_next]. rewrite He. cbn [mbind result_bind]. by rewrite (share_link_hash _ _ _ _ Hh).
Qed.
End Links.

Section RoomProperties.
Context `{WebCrypto}.
Implicit Types (m : room_manager).

(** C18: no message list grows past 500, and the blob URLs of files are neither
    forgotten nor freed early, as long as their message's room is there:
    whatever the user and the network do, the URLs revoked so far, those on
    display and those of messages for a room that was not there (which nobody
    revokes) are together exactly the ones the messages came with. *)
Theorem room_messages_conserved now us lost m :
  rm_steps (new_room_manager now) us lost m →
  (∀ room s, map_get (rm_rooms m) room = Some s → (length (rs_messages s) ≤ MAX_MESSAGES)%nat) ∧
  rm_revoked m ++ shown (rm_rooms m) ++ lost ≡ₚ us ∧
  (NoDup us → NoDup (rm_revoked m) ∧ ∀ u, u ∈ shown (rm_rooms m) ++ lost → u ∉ rm_revoked m).
Proof.
  intros Hs. apply rooms_inv_steps in Hs as (vs & Hu & Hi). assert (rm_revoked m ++ shown (rm_rooms m) ++ lost ≡ₚ us) as Hp.
  { rewrite Hu, <- (ri_urls _ _ Hi). solve_Permutation. }
  split_and!; [intros room s; by eapply bound_get|exact Hp|].
  rewrite <- Hp. intros (H1 & H2 & _)%NoDup_app. split; [done|]. intros u Hin Hr. by apply (H2 u).
Qed.

(** C25: appending one message at a time, with its eviction at each step, is
    the same as appending them all and cutting once. *)
Theorem append_window room msgs m :
  msgs ≠ [] →
  fold_left (λ m msg, appendMessageToRoom room msg m) msgs m = append_all room msgs m.
Proof.
  induction msgs as [|msg msgs IH] using rev_ind; [done|]. intros _. rewrite fold_left_app. cbn [fold_left].
  rewrite append_one. destruct msgs as [|x msgs]; [done|]. rewrite IH by done. apply append_snoc.
Qed.

(** A link whose key is cut. Opening a share link stores, as the key of
    the room, the exported key up to its first slash: standard base64 has
    slashes, and [hash.split('/', 2)] drops what follows the second part. *)
Theorem share_link_cut room exported hash m m' :
  Forall is_unit room → room ≠ [] → 47 ∈ exported →
  link_hash room exported = Ok hash → mount_hash hash m = Ok m' → map_get (rm_keys m) room = None →
  match map_get (rm_keys m') room with
  | Some (Fragment frag) => (length frag < length exported)%nat
  | Some (Key _) => False
  | None => True
  end.
Proof.
  intros Hu Hne Hin Hh Hm Hn. rewrite (mount_hash_link room exported) in Hm by done.
  pose proof (before_slash_shorter _ Hin) as Hl. destruct (before_slash exported) as [|d frag].
  - injection Hm as <-. by rewrite Hn.
  - injection Hm as <-. cbn [set_keys set_refs rm_keys]. by rewrite map_get_set_eq.
Qed.
End RoomProperties.

Section RoomKeys.
Context `{!WebCrypto} `{!WebCryptoLaws}.
Implicit Types (m : room_manager).

(** A share link gives the room's key to whoever opens it, when the key's
    base64 text has no slash: the visitor who opens the link and joins the
    room, whatever passphrase was typed in, ends with the key of the member
    who made it, and with the same link. *)
Theorem share_link_gives_key room k exported hash m m' base salt fresh pp :
  Forall is_unit room → room ≠ [] → exportKey (Some k) = Ok exported → exported ≠ [] → 47 ∉ exported →
  link_hash room exported = Ok hash → mount_hash hash m = Ok m' →
  ∃ m'', setupRoomKey base salt fresh room pp m' = (m'', Ok (k, base ++ [35] ++ hash)) ∧
    map_get (rm_keys m'') room = Some (Key k).
Proof.
  intros Hu Hne Hex He Hns Hh Hm. rewrite (mount_hash_link room exported) in Hm by done.
  rewrite before_slash_id in Hm by done. destruct exported as [|c s] eqn:E; [done|]. injection Hm as <-.
  destruct (importKey_exportKey k) as (e & He' & Hi). rewrite Hex in He'. injection He' as <-.
  eexists. split; [eapply setup_fragment; [|done..]; cbn; by rewrite map_get_set_eq|].
  cbn. by rewrite map_get_set_eq.
Qed.

(** The key [setupRoomKey] settles on, on every branch, is the one it
    returns and the one the room is left with: the key of the link, however
    it was made; the key derived from a passphrase, with the salt and the
    passphrase kept for a later derivation; the key the room already had; or
    a fresh one. Only a fragment that is not a key and a failing derivation
    throw, and leave the key as it was. *)
Theorem setupRoomKey_spec base salt fresh room pp m enc :
  encodeURIComponent room = Ok enc →
  let '(m', r) := setupRoomKey base salt fresh room pp m in
  match map_get (rm_keys m) room, r with
  | Some (Fragment (c :: s)), Ok (k, _) => importKey (c :: s) = Ok k ∧ map_get (rm_keys m') room = Some (Key k)
  | Some (Fragment (c :: s)), Throw e => importKey (c :: s) = Throw e ∧ m' = m
  | Some (Key k0), Ok (k, _) =>
      map_get (rm_keys m') room = Some (Key k) ∧
      (if str_empty (trim pp) then k = k0 ∧ m' = m
       else deriveRoomKey room pp (Some salt) = Ok k ∧ map_get (rm_salts m') room = Some salt ∧
            map_get (rm_passphrases m') room = Some pp)
  | _, Ok (k, _) =>
      map_get (rm_keys m') room = Some (Key k) ∧
      (if str_empty (trim pp) then k = fresh
       else deriveRoomKey room pp (Some salt) = Ok k ∧ map_get (rm_salts m') room = Some salt ∧
            map_get (rm_passphrases m') room = Some pp)
  | _, Throw e => deriveRoomKey room pp (Some salt) = Throw e ∧ rm_keys m' = rm_keys m
  end.
Proof.
  intros He. assert (∀ ex, ∃ hash, link_hash room ex = Ok hash) as Hl.
  { intros ex. unfold link_hash. rewrite He. eexists. reflexivity. }
  destruct (setupRoomKey base salt fresh room pp m) as [m' r] eqn:E. revert E. unfold setupRoomKey, setup_begin.
  assert (∀ k, ∃ ex, exportKey (Some k) = Ok ex) as Hex
    by (intros k; destruct (importKey_exportKey k) as (ex & Hx & _); eauto).
  assert (∀ ex, ∃ link, share_link base room ex = Ok link) as Hs.
  { intros ex. destruct (Hl ex) as [h Hh]. eexists. by apply share_link_hash. }
  destruct (map_get (rm_keys m) room) as [[[|c s]|k0]|] eqn:Ek.
  2: { destruct (importKey (c :: s)) as [k|e]; [|by intros [= <- <-]].
       cbn [setup_run setup_next]. destruct (Hex k) as [ex ->], (Hs ex) as [link Hlink]. cbn [mbind result_bind]. rewrite Hlink.
       intros [= <- <-]. cbn. by rewrite map_get_set_eq. }
  all: destruct (str_empty (trim pp)); cbn [negb setup_run setup_next];
    [|destruct (deriveRoomKey room pp (Some salt)) as [k|e]; cbn [setup_run setup_next]; [|by intros [= <- <-]];
      destruct (Hs []) as [link ->]; intros [= <- <-]; cbn; by rewrite !map_get_set_eq].
  2: { destruct (Hex k0) as [ex ->], (Hs ex) as [link Hlink]. cbn [mbind result_bind]. rewrite Hlink.
       by intros [= <- <-]. }
  all: destruct (Hex fresh) as [ex ->], (Hs ex) as [link Hlink]; cbn [mbind result_bind]; rewrite Hlink;
    intros [= <- <-]; cbn; by rewrite map_get_set_eq.
Qed.
End RoomKeys.

(** ** Concrete rooms *)

Module RoomExamples.
Import Toy.

Definition room : jsstr := lit "swift-wolf-7".
Definition base : jsstr := lit "https://chat.example/".
Definition zero_salt : bytes := replicate 32 0.

Definition text_message (id text : string) (media : option media_ref) : ui_message :=
  UiMessage (lit id) (Some (lit text)) false false false false false None None media.
Arguments text_message (_ _)%_string_scope _.

Definition picture : ui_message :=
  text_message "m1" "" (Some (MediaRef (lit "blob:1") (lit "image/png") (lit "p.png") None)).

(** The picture comes twice, the second time for a room that has been left. *)
Lemma room_messages_conserved_witness :
  ∃ m : room_manager, map_has (rm_rooms m) room = false ∧
    rm_revoked m ++ shown (rm_rooms m) ++ [lit "blob:1"] ≡ₚ [lit "blob:1"; lit "blob:1"] ∧ rm_revoked m = [lit "blob:1"].
Proof.
  set (m0 := updateRoomState room id (new_room_manager 0)). set (m1 := appendMessageToRoom room picture m0).
  set (m2 := removeRoom room m1). exists (appendMessageToRoom room picture m2). split; [vm_refl|].
  split; [|vm_refl].
  refine (proj1 (proj2 (room_messages_conserved 0 (((([] ++ []) ++ [lit "blob:1"]) ++ []) ++ [lit "blob:1"]) (((([] ++ []) ++ []) ++ []) ++ [lit "blob:1"]) _ _))).
  apply (rm_snoc _ _ _ m2 [lit "blob:1"] [lit "blob:1"]); [|apply (rm_append room picture m2)].
  apply (rm_snoc _ _ _ m1 [] []); [|apply rm_remove].
  apply (rm_snoc _ _ _ m0 [lit "blob:1"] []); [|apply (rm_append room picture m0)].
  apply (rm_snoc _ [] [] (new_room_manager 0) [] []); [apply rm_nil|]. by apply rm_update.
Defined.

Lemma append_window_witness :
  let m := appendMessageToRoom room picture (updateRoomState room id (new_room_manager (H:=toy) 0)) in
  let m' := fold_left (λ m msg, appendMessageToRoom room msg m) (replicate 500 (text_message "x" "hi" None)) m in
  rm_revoked m' = [lit "blob:1"] ∧ (rs_unreadCount <$> map_get (rm_rooms m') room) = Some 501.
Proof.
  cbv zeta. rewrite append_window by (intros E; discriminate E). split; vm_refl.
Defined.

Definition plain_key : @CryptoKey toy := toy_key Byte.x2b.
Definition slash_key : @CryptoKey toy := toy_key Byte.xfc.

Lemma share_link_gives_key_witness :
  exportKey (Some plain_key) = Ok (lit "Kw==") ∧
  ∃ m'' : room_manager, setupRoomKey base zero_salt slash_key room []
      (set_keys [(room, Fragment (lit "Kw=="))] (new_room_manager 0)) =
    (m'', Ok (plain_key, base ++ [35] ++ lit "swift-wolf-7/Kw==")) ∧ map_get (rm_keys m'') room = Some (Key plain_key).
Proof.
  split; [vm_refl|].
  refine (share_link_gives_key room plain_key (lit "Kw==") (lit "swift-wolf-7/Kw==") (new_room_manager 0) _
    base zero_salt slash_key [] _ _ _ _ _ _ _);
    [decided|discriminate|vm_refl|discriminate|decided|vm_refl|vm_refl].
Defined.

Lemma share_link_cut_witness :
  exportKey (Some slash_key) = Ok (lit "/A==") ∧
  match map_get (rm_keys (new_room_manager (H:=toy) 0)) room with
  | Some (Fragment frag) => (length frag < length (lit "/A=="))%nat
  | Some (Key _) => False
  | None => True
  end.
Proof.
  split; [vm_refl|].
  refine (share_link_cut room (lit "/A==") (lit "swift-wolf-7//A==") (new_room_manager 0) (new_room_manager 0)
    _ _ _ _ _ _);
    [decided|discriminate|decided|vm_refl|vm_refl|reflexivity].
Defined.

Lemma setupRoomKey_spec_witness :
  ∃ (m' : room_manager) k link,
    setupRoomKey base zero_salt plain_key room (lit "pw") (new_room_manager 0) = (m', Ok (k, link)) ∧
    map_get (rm_keys m') room = Some (Key k) ∧
    deriveRoomKey room (lit "pw") (Some zero_salt) = Ok k.
Proof.
  pose proof (setupRoomKey_spec base zero_salt plain_key room (lit "pw") (new_room_manager 0) room eq_refl) as H.
  destruct (setupRoomKey base zero_salt plain_key room (lit "pw") (new_room_manager 0)) as [m' [[k link]|e]] eqn:E.
  - exists m', k, link. split; [reflexivity|]. destruct H as [H1 (H2 & _)]. split; [exact H1|exact H2].
  - exfalso. destruct H as [H _]. vm_compute in H. discriminate H.
Defined.

(** A visitor who opens the share link of a key whose base64 text begins
    with a slash is not told that the link is broken: joining the room gives
    them a key of their own. *)
Theorem cut_link_splits_room :
  exportKey (Some slash_key) = Ok (lit "/A==") ∧ link_hash room (lit "/A==") = Ok (lit "swift-wolf-7//A==") ∧
  (m ← mount_hash (lit "swift-wolf-7//A==") (new_room_manager 0); (setupRoomKey base zero_salt plain_key room [] m).2) =
    Ok (plain_key, base ++ lit "#swift-wolf-7/Kw==").
Proof. split_and!; vm_refl. Qed.

Definition with_link (s : room_state) : room_state :=
  RoomState (rs_messages s) [] None (JNum 0) (JObj []) [] false (lit "https://x/#r/k") false false [] 0 None.

(** In the room, the link is copied, the room is left, two seconds go by. *)
Definition copied_then_left : room_manager :=
  let m := set_activeRoom room (updateRoomState room with_link (new_room_manager (H:=toy) 0)) in
  let m := removeRoom room (copyShareLink m) in
  set_clock (advance (rm_clock m) COPIED_MS) m.

(** A room can come back from the dead: copying the share link and leaving
    the room within two seconds brings the room back, empty, when the mark
    ['copied'] is taken away. *)
Theorem copy_then_leave_resurrects_room :
  rm_rooms copied_then_left = [] ∧
  ((λ m, map_keys (rm_rooms m)) <$> copied_expired 0 copied_then_left) = Some [room].
Proof. split; vm_refl. Qed.
End RoomExamples.
