(* ===== verification/Typing.v ===== *)
(** * hooks/useTypingIndicator.js: who is typing

    The set of names shown, the object of their expiry timers, and the time of
    the last indicator sent. The timers are properties of a plain object, so
    the name ["__proto__"], which a peer may choose, has a timer but no handle:
    assigning a number to that property stores nothing, and reading it gives
    [Object.prototype], which [clearTimeout] ignores. (The other names of
    [Object.prototype] behave as the rest do: [clearTimeout] ignores what is
    read of them, and an assignment makes them the object's own.) Nicknames
    and peer ids are strings: a message with another truthy nickname or id is
    outside the model ([None]). *)

From S2P Require Import Prelude JsLib Text Json Timers.
From Stdlib Require Import Sorting.Sorted.

Local Open Scope Z_scope.

Definition TYPING_THROTTLE_MS : Z := 2000.
Definition TYPING_EXPIRE_MS : Z := 3500.

Record typing := Typing {
  ty_peers : list jsstr;
  ty_timers : list (jsstr * nat);
  ty_lastSent : Z;
  ty_clock : timers jsstr
}.

Definition new_typing (now : Z) : typing := Typing [] [] 0 (timers_init now).

(** [sendTypingIndicator]: the payload sent, if any. *)
Definition sendTypingIndicator (b : bool) (nickname : jsstr) (s : typing) : option jsstr * typing :=
  let now := t_now (ty_clock s) in
  if b && (now - ty_lastSent s <? TYPING_THROTTLE_MS) then (None, s)
  else (Some (JSON_stringify (JObj [(lit "typing", JBool b); (lit "nickname", JStr nickname)])),
        Typing (ty_peers s) (ty_timers s) now (ty_clock s)).

(** The setter a plain object inherits. *)
Definition proto_name : jsstr := lit "__proto__".

(** [typingTimersRef.current[name] = id]. *)
Definition store_timer (name : jsstr) (id : nat) (l : list (jsstr * nat)) : list (jsstr * nat) :=
  if decide (name = proto_name) then l else map_set l name id.

(** [setTypingPeers(prev => new Set([...prev, name]))] and the new timer. *)
Definition show_typing (name : jsstr) (s : typing) : typing :=
  let clock := clear_opt (ty_clock s) (map_get (ty_timers s) name) in
  let '(id, clock) := setTimeout clock name TYPING_EXPIRE_MS in
  Typing (set_add (ty_peers s) name) (store_timer name id (ty_timers s)) (ty_lastSent s) clock.

Definition hide_typing (name : jsstr) (s : typing) : typing :=
  Typing (set_delete (ty_peers s) name) (map_delete (ty_timers s) name) (ty_lastSent s)
         (clear_opt (ty_clock s) (map_get (ty_timers s) name)).

(** [typeof payload === 'string' ? JSON.parse(payload) : payload]. *)
Definition payload_value (payload : option json) : result (option json) :=
  match payload with Some (JStr s) => v ← JSON_parse s; mret (Some v) | v => mret v end.

(** [data.id || 'unknown'], cut to eight characters. *)
Definition sender_short (id : option json) : option jsstr :=
  if truthy id then match id with Some (JStr s) => Some (take 8 s) | _ => None end
  else Some (take 8 (lit "unknown")).

Definition typing_name (tp : json) (id : option json) : option jsstr :=
  if truthy (json_get tp (lit "nickname")) then as_str (json_get tp (lit "nickname")) else sender_short id.

Definition handleTypingMessage (data : json) (s : typing) : option typing :=
  match payload_value (json_get data (lit "payload")) with
  | Throw _ | Ok None | Ok (Some JNull) => Some s
  | Ok (Some tp) =>
      name ← typing_name tp (json_get data (lit "id"));
      Some (if truthy (json_get tp (lit "typing")) then show_typing name s else hide_typing name s)
  end.

(** The callback of an expiry timer. *)
Definition typing_expired (id : nat) (s : typing) : option typing :=
  name ← due (ty_clock s) id;
  Some (Typing (set_delete (ty_peers s) name) (map_delete (ty_timers s) name) (ty_lastSent s)
               (clearTimeout (ty_clock s) id)).

Definition clearTyping (s : typing) : typing :=
  Typing [] [] (ty_lastSent s) (fold_left clearTimeout (map_values (ty_timers s)) (ty_clock s)).

Fixpoint comma_join (l : list jsstr) : jsstr :=
  match l with [] => [] | [x] => x | x :: l => x ++ lit ", " ++ comma_join l end.

Definition typingText (s : typing) : jsstr :=
  match ty_peers s with
  | [] => []
  | [x] => x ++ lit " is typing..."
  | l => comma_join l ++ lit " are typing..."
  end.

(** ** Runs *)

(** What happens to the hook, as its user and its peers see it. *)
Inductive typing_event :=
  | Sent (b : bool) (nickname : jsstr)
  | Heard (data : json)
  | Expired (name : jsstr)
  | Cleared
  | Waited (d : Z).

Inductive typing_step : typing → typing_event → typing → Prop :=
  | ty_send b nick s : typing_step s (Sent b nick) (sendTypingIndicator b nick s).2
  | ty_message data s s' : handleTypingMessage data s = Some s' → typing_step s (Heard data) s'
  | ty_expire id name s s' :
      due (ty_clock s) id = Some name → typing_expired id s = Some s' → typing_step s (Expired name) s'
  | ty_clear s : typing_step s Cleared (clearTyping s)
  | ty_wait d s :
      0 ≤ d →
      typing_step s (Waited d) (Typing (ty_peers s) (ty_timers s) (ty_lastSent s) (advance (ty_clock s) d)).

Inductive typing_run (s : typing) : list typing_event → typing → Prop :=
  | ty_nil : typing_run s [] s
  | ty_snoc evs s1 e s2 : typing_run s evs s1 → typing_step s1 e s2 → typing_run s (evs ++ [e]) s2.

(** The name a message is about. *)
Definition heard_name (data : json) : option jsstr :=
  match payload_value (json_get data (lit "payload")) with
  | Throw _ | Ok None | Ok (Some JNull) => None
  | Ok (Some tp) => typing_name tp (json_get data (lit "id"))
  end.

(** An event that is not a message about ["__proto__"]. *)
Definition ordinary (e : typing_event) : Prop :=
  match e with Heard data => heard_name data ≠ Some proto_name | _ => True end.

#[export] Instance ordinary_dec e : Decision (ordinary e).
Proof. destruct e; apply _. Defined.

(** Exactly the names shown have a timer, which is pending and expires within
    3.5 seconds; nothing else is pending. *)
Record typing_inv (s : typing) : Prop := {
  tv_clock : timers_wf (ty_clock s);
  tv_peers : NoDup (ty_peers s);
  tv_timers : map_wf (ty_timers s);
  tv_shown : ∀ name, name ∈ ty_peers s ↔ map_has (ty_timers s) name = true;
  tv_pending : ∀ name id, map_get (ty_timers s) name = Some id →
    ∃ t, map_get (t_pending (ty_clock s)) id = Some (t, name) ∧ t ≤ t_now (ty_clock s) + TYPING_EXPIRE_MS;
  tv_owned : ∀ id t name, map_get (t_pending (ty_clock s)) id = Some (t, name) →
    map_get (ty_timers s) name = Some id
}.

Lemma typing_inv_new now : typing_inv (new_typing now).
Proof.
  split; cbn; [apply timers_wf_init|constructor|constructor| |done|done].
  intros name. split; [by intros ?%not_elem_of_nil|done].
Qed.

(** Forgetting a name and the timer it has. *)
Lemma typing_inv_hide name s : typing_inv s → typing_inv (hide_typing name s).
Proof.
  intros [H1 H2 H3 H4 H5 H6]. split; cbn.
  - by apply timers_wf_clear_opt.
  - by apply set_delete_NoDup.
  - by apply map_wf_delete.
  - intros x. rewrite set_delete_elem, map_has_delete, H4 by done. tauto.
  - intros x id Hx. destruct (decide (name = x)) as [->|Hne]; [by rewrite map_get_delete_eq in Hx|].
    rewrite map_get_delete_ne in Hx by done. destruct (H5 x id Hx) as (t & Ht & Hle). exists t.
    rewrite pending_clear_opt by done. split_and!; [|done|by destruct (map_get (ty_timers s) name)].
    intros Hn. destruct (H5 name id Hn) as (t' & Ht' & _). naive_solver.
  - intros id t x Hp. rewrite pending_clear_opt in Hp by done. destruct Hp as [Hne Hp]. apply H6 in Hp as Hx.
    rewrite map_get_delete_ne; [done|]. intros ->. by rewrite Hx in Hne.
Qed.

Lemma store_timer_other name id l : name ≠ proto_name → store_timer name id l = map_set l name id.
Proof. intros Hn. unfold store_timer. by rewrite decide_False. Qed.

Lemma typing_inv_show name s : name ≠ proto_name → typing_inv s → typing_inv (show_typing name s).
Proof.
  intros Hp Hi. pose proof (typing_inv_hide name s Hi) as [K1 _ _ _ K5 K6]. destruct Hi as [H1 H2 H3 H4 H5 H6].
  cbn in K1, K5, K6. unfold show_typing. set (k := clear_opt _ _) in *.
  split; cbn [setTimeout ty_clock ty_peers ty_timers ty_lastSent]; rewrite ?store_timer_other by done; clear Hp.
  - by apply (timers_wf_set k).
  - by apply set_add_NoDup.
  - by apply map_wf_set.
  - intros x. rewrite set_add_elem, map_has_set, H4. done.
  - intros x id Hx.
    destruct (decide (name = x)) as [->|Hne].
    + rewrite map_get_set_eq in Hx. simplify_eq. eexists. split; [|reflexivity].
      apply (pending_setTimeout k). by left.
    + rewrite map_get_set_ne in Hx by done. destruct (K5 x id) as (t & Ht & Hle).
      { by rewrite map_get_delete_ne. }
      exists t. split; [|done]. apply (pending_setTimeout k name TYPING_EXPIRE_MS). right. split; [|done].
      intros ->. apply (setTimeout_fresh k K1), map_has_true, map_has_get. eauto.
  - intros id t x Hp. apply (pending_setTimeout k name TYPING_EXPIRE_MS) in Hp as [[-> [= -> ->]]|[Hne Hp]]; [by rewrite map_get_set_eq|].
    apply K6 in Hp. destruct (decide (name = x)) as [->|Hn]; [by rewrite map_get_delete_eq in Hp|].
    rewrite map_get_set_ne by done. by rewrite map_get_delete_ne in Hp.
Qed.

Lemma expired_hide id s s' :
  typing_inv s → typing_expired id s = Some s' → ∃ name, s' = hide_typing name s ∧ name ∈ ty_peers s.
Proof.
  intros Hi E. apply bind_Some in E as (name & Hd & [= <-]). apply due_Some in Hd as (t & Hp & _).
  apply (tv_owned _ Hi) in Hp as Hn. exists name. split.
  - unfold hide_typing. by rewrite Hn.
  - apply (tv_shown _ Hi), map_has_get. eauto.
Qed.

Lemma typing_inv_clear s : typing_inv s → typing_inv (clearTyping s).
Proof.
  intros [H1 H2 H3 H4 H5 H6]. split; cbn; [by apply timers_wf_clear_all|constructor|constructor| |done|].
  - intros x. split; [by intros ?%not_elem_of_nil|done].
  - intros id t x Hp. rewrite pending_clear_all in Hp by done. destruct Hp as [Hn Hp].
    destruct Hn. apply H6, map_get_Some_elem in Hp. apply list_elem_of_fmap. by exists (x, id).
Qed.

(** What a message does to the names: nothing, or one is shown or hidden. *)
Lemma message_cases data s s' :
  handleTypingMessage data s = Some s' →
  s' = s ∨ ∃ name, heard_name data = Some name ∧ (s' = show_typing name s ∨ s' = hide_typing name s).
Proof.
  unfold handleTypingMessage, heard_name. intros E. destruct (payload_value _) as [[tp|]|]; try (left; congruence).
  destruct tp; try (left; congruence); right; apply bind_Some in E as (name & Hn & [= <-]);
    exists name; rewrite Hn; try case_match; auto.
Qed.

Lemma typing_inv_step s e s' : ordinary e → typing_inv s → typing_step s e s' → typing_inv s'.
Proof.
  intros Ho Hi Hs. revert Ho Hi. destruct Hs as [b nick s|data s s' E|id name s s' _ E|s|d s Hd]; intros Ho Hi.
  - unfold sendTypingIndicator. destruct (_ && _); [done|]. destruct Hi. by split.
  - destruct (message_cases _ _ _ E) as [->|(name & Hn & [->| ->])];
      [done| |by apply typing_inv_hide]. apply typing_inv_show; [|done]. intros ->. exact (Ho Hn).
  - destruct (expired_hide id s s' Hi E) as (? & -> & _). by apply typing_inv_hide.
  - by apply typing_inv_clear.
  - destruct Hi as [H1 H2 H3 H4 H5 H6]. split; cbn; try done. intros n id Hn.
    destruct (H5 n id Hn) as (t & Ht & Hle). exists t. split; [done|lia].
Qed.

Lemma typing_inv_run s evs s' : Forall ordinary evs → typing_inv s → typing_run s evs s' → typing_inv s'.
Proof.
  intros Ho Hi Hr. revert Ho. induction Hr as [|evs s1 e s2 _ IH Hs]; intros Ho; [done|].
  apply Forall_app in Ho as [Ho He]. eapply typing_inv_step; [exact (Forall_inv He)|by apply IH|done].
Qed.

(** ** What the hook promises

    A clock, and until when each name is shown: no set, no timers, no
    handles. *)
Record typing_spec := Spec { sp_now : Z; sp_until : gmap jsstr Z }.

Definition spec_hear (data : json) (a : typing_spec) : option typing_spec :=
  match payload_value (json_get data (lit "payload")) with
  | Throw _ | Ok None | Ok (Some JNull) => Some a
  | Ok (Some tp) =>
      name ← typing_name tp (json_get data (lit "id"));
      Some (Spec (sp_now a)
        (if truthy (json_get tp (lit "typing")) then <[name := sp_now a + TYPING_EXPIRE_MS]> (sp_until a)
         else delete name (sp_until a)))
  end.

Definition spec_do (a : typing_spec) (e : typing_event) : option typing_spec :=
  match e with
  | Sent _ _ => Some a
  | Heard data => spec_hear data a
  | Expired name =>
      t ← sp_until a !! name; if bool_decide (t ≤ sp_now a) then Some (Spec (sp_now a) (delete name (sp_until a))) else None
  | Cleared => Some (Spec (sp_now a) ∅)
  | Waited d => if bool_decide (0 ≤ d) then Some (Spec (sp_now a + d) (sp_until a)) else None
  end.

Definition spec_run (a : typing_spec) (evs : list typing_event) : option typing_spec :=
  foldl (λ o e, a ← o; spec_do a e) (Some a) evs.

(** When the timer of a name is due. *)
Definition deadline (s : typing) (name : jsstr) : option Z :=
  id ← map_get (ty_timers s) name; p ← map_get (t_pending (ty_clock s)) id; Some p.1.

Record typing_rel (s : typing) (a : typing_spec) : Prop := {
  tr_inv : typing_inv s;
  tr_now : t_now (ty_clock s) = sp_now a;
  tr_until : ∀ name, sp_until a !! name = deadline s name
}.

Lemma rel_new now : typing_rel (new_typing now) (Spec now ∅).
Proof. split; [apply typing_inv_new|done|done]. Qed.

(** The names shown are the ones the specification knows. *)
Lemma rel_shown s a name : typing_rel s a → name ∈ ty_peers s ↔ is_Some (sp_until a !! name).
Proof.
  intros [Hi _ Hu]. rewrite Hu, (tv_shown _ Hi), map_has_get. unfold deadline. split.
  - intros [id Hid]. destruct (tv_pending _ Hi name id Hid) as (t & Hp & _). rewrite Hid. cbn. by rewrite Hp.
  - destruct (map_get (ty_timers s) name); [done|]. by intros [? ?].
Qed.

(** An unrelated name keeps its deadline. *)
Lemma deadline_hide s name x :
  typing_inv s → deadline (hide_typing name s) x = if decide (name = x) then None else deadline s x.
Proof.
  intros Hi. unfold deadline. cbn [hide_typing ty_timers ty_clock]. case_decide as E.
  - subst. by rewrite map_get_delete_eq by apply Hi.
  - rewrite map_get_delete_ne by done. destruct (map_get (ty_timers s) x) as [id|] eqn:Hx; [cbn|done].
    destruct (tv_pending _ Hi x id Hx) as (t & Ht & _). rewrite Ht.
    replace (map_get _ id) with (Some (t, x)); [done|]. symmetry. apply pending_clear_opt; [apply Hi|].
    split; [|done]. intros Hn. destruct (tv_pending _ Hi name id Hn) as (t' & Ht' & _). congruence.
Qed.

Lemma deadline_show s name x :
  name ≠ proto_name → typing_inv s →
  deadline (show_typing name s) x =
    if decide (name = x) then Some (t_now (ty_clock s) + TYPING_EXPIRE_MS) else deadline s x.
Proof.
  intros Ho Hi. pose proof (typing_inv_hide name s Hi) as Hh. pose proof (deadline_hide s name x Hi) as E.
  case_decide as Hx.
  - subst. unfold deadline. cbn [show_typing setTimeout ty_timers ty_clock]. rewrite store_timer_other by done. cbn. rewrite map_get_set_eq. cbn. rewrite map_get_set_eq. cbn.
    by destruct (map_get (ty_timers s) x).
  - rewrite <- E. unfold deadline. cbn [show_typing hide_typing setTimeout ty_timers ty_clock t_pending].
    rewrite store_timer_other, map_get_set_ne by done.
    rewrite map_get_delete_ne by done. destruct (map_get (ty_timers s) x) as [id|] eqn:Hid; [cbn|done].
    rewrite map_get_set_ne; [done|]. intros <-.
    destruct (tv_pending _ Hh x (t_next (clear_opt (ty_clock s) (map_get (ty_timers s) name)))) as (t & Ht & _);
      [by cbn; rewrite map_get_delete_ne|].
    eapply (setTimeout_fresh _ (tv_clock _ Hh)), map_has_true, map_has_get. eauto.
Qed.

Lemma rel_hide s a name :
  typing_rel s a → typing_rel (hide_typing name s) (Spec (sp_now a) (delete name (sp_until a))).
Proof.
  intros [Hi Hn Hu]. split; [by apply typing_inv_hide| |].
  - cbn. by destruct (map_get _ name).
  - intros x. rewrite deadline_hide by done. cbn. case_decide; [subst; apply lookup_delete_eq|].
    by rewrite lookup_delete_ne.
Qed.

Lemma rel_show s a name :
  name ≠ proto_name → typing_rel s a →
  typing_rel (show_typing name s) (Spec (sp_now a) (<[name := sp_now a + TYPING_EXPIRE_MS]> (sp_until a))).
Proof.
  intros Ho [Hi Hn Hu]. split; [by apply typing_inv_show| |].
  - unfold show_typing. cbn. by destruct (map_get _ name).
  - intros x. rewrite deadline_show by done. cbn. rewrite <- Hn. case_decide; [subst; apply lookup_insert_eq|].
    by rewrite lookup_insert_ne.
Qed.

Lemma rel_hear s a data :
  heard_name data ≠ Some proto_name → typing_rel s a →
  option_Forall2 typing_rel (handleTypingMessage data s) (spec_hear data a).
Proof.
  intros Ho Hr. unfold handleTypingMessage, spec_hear. unfold heard_name in Ho.
  destruct (payload_value _) as [[[]|]|]; try by constructor.
  all: destruct (typing_name _ _) as [name|]; cbn; constructor; try case_match;
    (apply rel_show; [congruence|done]) || by apply rel_hide.
Qed.

(** The timer that may fire is the one of a name whose time is up. *)
Lemma rel_due s a name :
  typing_rel s a →
  (∃ id, due (ty_clock s) id = Some name) ↔ ∃ t, sp_until a !! name = Some t ∧ t ≤ sp_now a.
Proof.
  intros [Hi Hn Hu]. rewrite Hu, <- Hn. unfold deadline. split.
  - intros (id & (t & Hp & Ht)%due_Some). exists t. rewrite (tv_owned _ Hi id t name Hp). cbn. by rewrite Hp.
  - intros (t & Hd & Ht). destruct (map_get (ty_timers s) name) as [id|] eqn:Hid; [cbn in Hd|done].
    destruct (tv_pending _ Hi name id Hid) as (t' & Hp & _). rewrite Hp in Hd. injection Hd as ->.
    exists id. unfold due. rewrite Hp. by rewrite bool_decide_true.
Qed.

Lemma rel_clear s a : typing_rel s a → typing_rel (clearTyping s) (Spec (sp_now a) ∅).
Proof.
  intros Hr. pose proof (rel_new 0) as Hnew. destruct Hr as [Hi Hn Hu].
  split; [by apply typing_inv_clear|cbn; by rewrite clear_all_now|]. intros name. apply Hnew.
Qed.

Lemma rel_sent s a b nick : typing_rel s a → typing_rel (sendTypingIndicator b nick s).2 a.
Proof.
  intros Hr. destruct Hr as [Hi Hn Hu]. split; [by eapply (typing_inv_step _ (Sent b nick)), ty_send| |];
    unfold sendTypingIndicator; by destruct (_ && _).
Qed.

Lemma rel_wait s a d : typing_rel s a → 0 ≤ d →
  typing_rel (Typing (ty_peers s) (ty_timers s) (ty_lastSent s) (advance (ty_clock s) d)) (Spec (sp_now a + d) (sp_until a)).
Proof.
  intros [Hi Hn Hu] Hd. split; [by eapply (typing_inv_step _ (Waited d)), ty_wait| |done]. cbn. by rewrite Hn.
Qed.

(** Step by step, in both directions. *)
Lemma rel_step s a e s' :
  ordinary e → typing_rel s a → typing_step s e s' → ∃ a', spec_do a e = Some a' ∧ typing_rel s' a'.
Proof.
  intros Ho Hr Hs. revert Ho Hr. destruct Hs as [b nick s|data s s' E|id name s s' Hd E|s|d s Hd]; intros Ho Hr; cbn [spec_do].
  - eauto using rel_sent.
  - pose proof (rel_hear s a data Ho Hr) as Hh. rewrite E in Hh. inversion Hh; subst. eauto.
  - destruct (proj1 (rel_due s a name Hr)) as (t & Ht & Hle); [eauto|]. rewrite Ht. cbn.
    rewrite bool_decide_true by done. eexists. split; [done|].
    unfold typing_expired in E. rewrite Hd in E. injection E as <-.
    apply due_Some in Hd as (t' & Hp & _). apply (tv_owned _ (tr_inv _ _ Hr)) in Hp.
    pose proof (rel_hide s a name Hr) as K. unfold hide_typing in K. by rewrite Hp in K.
  - eauto using rel_clear.
  - rewrite bool_decide_true by done. eauto using rel_wait.
Qed.

Lemma rel_step_back s a e a' :
  ordinary e → typing_rel s a → spec_do a e = Some a' → ∃ s', typing_step s e s' ∧ typing_rel s' a'.
Proof.
  intros Ho Hr. destruct e as [b nick|data|name| |d]; cbn [spec_do]; intros E.
  - simplify_eq. eauto using rel_sent, ty_send.
  - pose proof (rel_hear s a data Ho Hr) as Hh. rewrite E in Hh. inversion Hh; subst. eauto using ty_message.
  - apply bind_Some in E as (t & Ht & E). case_bool_decide; [|done].
    destruct (proj2 (rel_due s a name Hr)) as (id & Hd); [eauto|].
    assert (∃ s', typing_expired id s = Some s') as [s' Hs'] by (unfold typing_expired; rewrite Hd; eauto).
    pose proof (ty_expire id name s s' Hd Hs') as Hst. exists s'. split; [exact Hst|].
    destruct (rel_step s a _ s' Ho Hr Hst) as (a2 & E2 & Hr2). cbn [spec_do] in E2. rewrite Ht in E2. cbn in E2.
    rewrite bool_decide_true in E2 by done. congruence.
  - simplify_eq. eauto using rel_clear, ty_clear.
  - case_bool_decide; [|done]. simplify_eq. eauto using rel_wait, ty_wait.
Qed.

(** ** The throttle *)

(** The times of the ['typing'] indicators sent, for calls at given times. *)
Fixpoint sent_times (calls : list (bool * Z)) (last : Z) : list Z :=
  match calls with
  | [] => []
  | (b, now) :: calls =>
      let s := Typing [] [] last (timers_init now) in
      let '(msg, s) := sendTypingIndicator b [] s in
      match msg with
      | Some _ => (if b then [now] else []) ++ sent_times calls (ty_lastSent s)
      | None => sent_times calls (ty_lastSent s)
      end
  end.

Lemma sent_times_spaced calls last :
  StronglySorted Z.le (last :: map snd calls) →
  Forall (λ t, last + TYPING_THROTTLE_MS ≤ t) (sent_times calls last) ∧
  StronglySorted (λ t u, t + TYPING_THROTTLE_MS ≤ u) (sent_times calls last).
Proof.
  revert last. induction calls as [|[b now] calls IH]; intros last Hs; cbn [sent_times]; [split; constructor|].
  apply StronglySorted_inv in Hs as [Hs Hl]. cbn [map snd] in *. apply Forall_cons in Hl as [Hl Hls].
  unfold sendTypingIndicator. cbn [ty_clock ty_lastSent timers_init t_now].
  destruct (b && (now - last <? TYPING_THROTTLE_MS)) eqn:E; cbn [ty_lastSent].
  - apply IH. apply StronglySorted_inv in Hs as [Hs _]. by constructor.
  - destruct (IH now Hs) as [IH1 IH2].
    assert (Forall (λ t, last + TYPING_THROTTLE_MS ≤ t) (sent_times calls now)) as Hf
      by (eapply Forall_impl; [exact IH1|]; cbn; lia).
    destruct b; cbn [app]; [|done]. split; constructor; try done. cbn in E. lia.
Qed.

(** ** Properties *)


(** Nobody types forever. In every state the hook reaches by messages about
    ordinary names, the names shown
    are exactly the ones with an expiry timer; the timer of a name shown is
    pending and due within 3.5 seconds, no other timer is, and when it fires
    exactly that name goes. *)
Theorem typing_expires now evs s name :
  Forall ordinary evs → typing_run (new_typing now) evs s → name ∈ ty_peers s →
  ∃ id t, map_get (t_pending (ty_clock s)) id = Some (t, name) ∧
    t ≤ t_now (ty_clock s) + TYPING_EXPIRE_MS ∧
    (∀ id' t', map_get (t_pending (ty_clock s)) id' = Some (t', name) → id' = id) ∧
    ∀ d, t ≤ t_now (ty_clock s) + d →
      ∃ s', typing_expired id (Typing (ty_peers s) (ty_timers s) (ty_lastSent s) (advance (ty_clock s) d)) = Some s' ∧
        ∀ x, x ∈ ty_peers s' ↔ x ∈ ty_peers s ∧ x ≠ name.
Proof.
  intros Ho Hs Hn. apply typing_inv_run in Hs as Hi; [|done|apply typing_inv_new].
  apply (tv_shown _ Hi), map_has_get in Hn as [id Hid]. destruct (tv_pending _ Hi name id Hid) as (t & Hp & Hle).
  exists id, t. split_and!; [done|done| |].
  - intros id' t' Hp'. apply (tv_owned _ Hi) in Hp'. congruence.
  - intros d Hd. unfold typing_expired, due. cbn [ty_clock advance t_pending t_now]. rewrite Hp.
    rewrite bool_decide_true by done. eexists. split; [reflexivity|]. intros x. cbn.
    apply set_delete_elem, Hi.
Qed.

(** While the user types, peers are told at most once every two seconds. *)
Theorem typing_throttled calls last :
  StronglySorted Z.le (last :: map snd calls) →
  StronglySorted (λ t u, t + TYPING_THROTTLE_MS ≤ u) (sent_times calls last).
Proof. intros Hs. by apply sent_times_spaced. Qed.

Module TypingExamples.
Definition says_as (name : jsstr) (b : bool) : json :=
  JObj [(lit "id", JStr (lit "0123456789"));
        (lit "payload", JStr (JSON_stringify (JObj [(lit "typing", JBool b); (lit "nickname", JStr name)])))].

Definition says : bool → json := says_as (lit "ann").

Lemma typing_expires_witness :
  ∃ s, handleTypingMessage (says true) (new_typing 10) = Some s ∧
    ∃ id t, map_get (t_pending (ty_clock s)) id = Some (t, lit "ann") ∧ t ≤ t_now (ty_clock s) + TYPING_EXPIRE_MS.
Proof.
  assert (∃ s, handleTypingMessage (says true) (new_typing 10) = Some s ∧ lit "ann" ∈ ty_peers s) as (s & Hs & Hin).
  { eexists. split; [vm_compute; reflexivity|decided]. }
  exists s. split; [exact Hs|].
  destruct (typing_expires 10 [Heard (says true)] s (lit "ann")) as (id & t & H1 & H2 & _);
    [decided|apply (ty_snoc _ [] (new_typing 10)); [constructor|apply ty_message; exact Hs]|exact Hin|].
  exists id, t. split; [exact H1|exact H2].
Defined.


Lemma typing_throttled_witness :
  sent_times [(true, 5000); (true, 6000); (true, 7500)] 0 = [5000; 7500] ∧
  StronglySorted (λ t u, t + TYPING_THROTTLE_MS ≤ u) (sent_times [(true, 5000); (true, 6000); (true, 7500)] 0).
Proof.
  split; [vm_compute; reflexivity|]. apply typing_throttled. cbn. repeat (constructor; try lia).
Defined.

(** The name ["__proto__"] has no handle: heard twice, a second apart, it goes
    off the display 2.5 seconds after it was last heard, by the first timer,
    which nothing could clear; every other name stays for 3.5 seconds. *)
Example proto_has_no_handle :
  let again name :=
    s ← handleTypingMessage (says_as name true) (new_typing 0);
    s ← handleTypingMessage (says_as name true) (Typing (ty_peers s) (ty_timers s) (ty_lastSent s) (advance (ty_clock s) 1000));
    Some (Typing (ty_peers s) (ty_timers s) (ty_lastSent s) (advance (ty_clock s) 2500)) in
  (s ← again proto_name; Some (ty_timers s, length (t_pending (ty_clock s)))) = Some ([], 2%nat) ∧
  (s ← again proto_name; s ← typing_expired 0 s; Some (ty_peers s)) = Some [] ∧
  (s ← again (lit "ann"); s ← typing_expired 0 s; Some (ty_peers s)) = None.
Proof. vm_compute. done. Qed.

(** A name on display is taken away by the message that says so. *)
Example typing_stops :
  (s ← handleTypingMessage (says true) (new_typing 10); s ← handleTypingMessage (says false) s; Some (typingText s)) =
  Some [].
Proof. vm_compute. reflexivity. Qed.
End TypingExamples.
