(* ===== verification/RtcConfig.v ===== *)
(** * lib/webrtc.js: the configuration of the peer connections

    [buildIceServers] over the variables the application was built with. *)

From S2P Require Import Prelude JsLib Uri.

Local Open Scope Z_scope.

(** [import.meta.env], as far as it is read. *)
Record build_env := BuildEnv {
  VITE_STUN_URLS : option jsstr;
  VITE_TURN_URL : option jsstr;
  VITE_TURN_USERNAME : option jsstr;
  VITE_TURN_CREDENTIAL : option jsstr;
  VITE_ICE_TRANSPORT_POLICY : option jsstr
}.

Definition env_or (v : option jsstr) (d : jsstr) : jsstr := str_or (default [] v) d.

Record ice_server := IceServer {
  urls : list jsstr;
  credentials : option (jsstr * jsstr)     (** [username] and [credential] *)
}.

Definition default_stun : list jsstr := lit <$> ["stun:stun.l.google.com:19302"; "stun:stun1.l.google.com:19302"]%string.

Definition stun_urls (env : build_env) : list jsstr :=
  match env_or (VITE_STUN_URLS env) [] with [] => default_stun | s => trim <$> split_char 44 s end.

Definition buildIceServers (env : build_env) : list ice_server :=
  IceServer (stun_urls env) None ::
  match env_or (VITE_TURN_URL env) [] with
  | [] => []
  | turnUrl => [IceServer [turnUrl] (Some (env_or (VITE_TURN_USERNAME env) [], env_or (VITE_TURN_CREDENTIAL env) []))]
  end.

Record rtc_config := RtcConfig { iceServers : list ice_server; iceTransportPolicy : jsstr }.

Definition RTC_CONFIG (env : build_env) : rtc_config :=
  RtcConfig (buildIceServers env) (env_or (VITE_ICE_TRANSPORT_POLICY env) (lit "all")).

(** Putting the pieces of a split text together again gives the text. *)
Fixpoint join_char (c : Z) (l : list jsstr) : jsstr :=
  match l with [] => [] | [s] => s | s :: l => s ++ c :: join_char c l end.

Lemma split_char_ne c s : split_char c s ≠ [].
Proof. destruct s as [|d s]; cbn; [done|]. by destruct (_ =? _); [|destruct (split_char c s)]. Qed.

Lemma join_split c s : join_char c (split_char c s) = s.
Proof.
  induction s as [|d s IH]; [done|]. cbn. pose proof (split_char_ne c s) as Hne.
  destruct (_ =? _) eqn:E; destruct (split_char c s) as [|x l]; try done.
  - apply Z.eqb_eq in E as ->. cbn [join_char]. by rewrite <- IH.
  - cbn [join_char] in *. rewrite <- IH. by destruct l.
Qed.

(** There is always a STUN server, a list of addresses written with commas and
    spaces is taken apart, and a TURN server is there just when it is
    configured. *)
Theorem ice_servers_spec env :
  (∃ stun rest, buildIceServers env = stun :: rest ∧ urls stun ≠ [] ∧ credentials stun = None ∧
     ∀ c s, VITE_STUN_URLS env = Some (c :: s) → ∃ pieces, urls stun = trim <$> pieces ∧ join_char 44 pieces = c :: s) ∧
  (length (buildIceServers env) = 2%nat ↔ ∃ c s, VITE_TURN_URL env = Some (c :: s)).
Proof.
  split.
  - eexists _, _. split; [done|]. unfold stun_urls, env_or. cbn [urls credentials]. split; [|split; [done|]].
    + destruct (VITE_STUN_URLS env) as [[|c s]|]; try done.
      change (trim <$> split_char 44 (c :: s) ≠ []).
      pose proof (split_char_ne 44 (c :: s)) as Hne. by destruct (split_char 44 (c :: s)).
    + intros c s ->. exists (split_char 44 (c :: s)). by rewrite join_split. 
  - unfold buildIceServers, env_or. destruct (VITE_TURN_URL env) as [[|c s]|]; cbn;
      (split; [intros Hl; try discriminate Hl; by eexists _, _|intros (c' & s' & E); by simplify_eq]).
Qed.

(** A comma too many gives an empty address, which the browser refuses. *)
Example trailing_comma :
  stun_urls (BuildEnv (Some (lit "stun:a, stun:b,")) None None None None) = [lit "stun:a"; lit "stun:b"; []].
Proof. reflexivity. Qed.
