(* ===== verification/WebRTC.v ===== *)
(** * lib/webrtc.js: peer connections and the mesh

    [RTCPeerConnection] and [RTCDataChannel] are the platform's: a connection
    is a handle [n], and what the program does to it is an effect in a log. An
    async method is a sequence of segments: a [task] is a call suspended at an
    [await], [resume] is the segment that runs when the promise settles
    ([ok] is whether it was fulfilled). [RTC_CONFIG] is
    RtcConfig.v's; logging is left out. *)

From S2P Require Import Prelude JsLib Json.

(** Session descriptions and ICE candidates are values of the platform. *)
Abbreviation sdp := json.
Abbreviation candidate := json.

Inductive rtc_effect :=
  | Signal (signalType : jsstr) (pc : nat)            (** [sendSignal] with the local description, or a candidate *)
  | SignalIce (c : candidate)
  | SetRemote (pc : nat) (d : sdp)
  | AddCandidate (pc : nat) (c : candidate)           (** [new RTCIceCandidate(c)], and [addIceCandidate] of it *)
  | DropCandidate (c : candidate)                     (** the connection went away before it was added *)
  | AddTrack (pc : nat) (track : nat)
  | RemoveTrack (pc : nat) (track : nat)
  | ChannelSend (dc : nat) (data : jsstr)
  | CloseChannel (dc : nat)
  | ClosePc (pc : nat)
  | OnConnected
  | OnDisconnected
  | OnMessage (data : jsstr)
  | OnTrack (stream : nat)
  | Reject.                                           (** the promise of the call rejects *)

(** What a suspended call does after it has flushed the candidates. *)
Inductive after_flush := ThenAnswer | ThenDone.

Inductive task :=
  | OfferCreated (explicit : bool)      (** awaits [createOffer()]; [explicit]: the method, not the negotiation handler *)
  | OfferLocal (explicit : bool)        (** awaits [setLocalDescription(offer)] *)
  | RemoteSet (k : after_flush)         (** awaits [setRemoteDescription] *)
  | Flushing (rest : list candidate) (k : after_flush)   (** awaits [addIceCandidate]; [rest] is still to be added *)
  | Flushed (k : after_flush)           (** awaits [#flushPendingCandidates()] *)
  | AnswerCreated
  | AnswerLocal
  | IceAdded.                           (** awaits [addIceCandidate] in [handleIceCandidate] *)

Inductive dc_state := DcConnecting | DcOpen | DcClosing | DcClosed.

Record peer := Peer {
  p_pc : option nat;
  p_dc : option nat;
  p_connected : bool;
  p_remoteDescriptionSet : bool;
  p_pendingCandidates : list candidate;
  p_senders : list nat;                  (** the tracks [getSenders()] still has *)
  p_rtc_state : jsstr;                   (** [this.#pc.connectionState] *)
  p_channels : list dc_state;
  p_pcs : nat;                           (** connections created so far *)
  p_tasks : list (option task);          (** the calls, [None] when over *)
  p_log : list rtc_effect
}.

Definition new_peer : peer := Peer None None false false [] [] (lit "new") [] 0 [] [].

Definition put (e : list rtc_effect) (p : peer) : peer :=
  Peer (p_pc p) (p_dc p) (p_connected p) (p_remoteDescriptionSet p) (p_pendingCandidates p) (p_senders p)
       (p_rtc_state p) (p_channels p) (p_pcs p) (p_tasks p) (p_log p ++ e).
Definition set_connected (b : bool) (p : peer) : peer :=
  Peer (p_pc p) (p_dc p) b (p_remoteDescriptionSet p) (p_pendingCandidates p) (p_senders p)
       (p_rtc_state p) (p_channels p) (p_pcs p) (p_tasks p) (p_log p).
Definition set_tasks (ts : list (option task)) (p : peer) : peer :=
  Peer (p_pc p) (p_dc p) (p_connected p) (p_remoteDescriptionSet p) (p_pendingCandidates p) (p_senders p)
       (p_rtc_state p) (p_channels p) (p_pcs p) ts (p_log p).
Definition set_candidates (remote : bool) (cs : list candidate) (p : peer) : peer :=
  Peer (p_pc p) (p_dc p) (p_connected p) remote cs (p_senders p)
       (p_rtc_state p) (p_channels p) (p_pcs p) (p_tasks p) (p_log p).
Definition set_channel (dc : option nat) (channels : list dc_state) (p : peer) : peer :=
  Peer (p_pc p) dc (p_connected p) (p_remoteDescriptionSet p) (p_pendingCandidates p) (p_senders p)
       (p_rtc_state p) channels (p_pcs p) (p_tasks p) (p_log p).
Definition set_senders (l : list nat) (p : peer) : peer :=
  Peer (p_pc p) (p_dc p) (p_connected p) (p_remoteDescriptionSet p) (p_pendingCandidates p) l
       (p_rtc_state p) (p_channels p) (p_pcs p) (p_tasks p) (p_log p).

(** [new RTCPeerConnection(RTC_CONFIG)]. *)
Definition new_pc (p : peer) : peer :=
  Peer (Some (p_pcs p)) (p_dc p) (p_connected p) (p_remoteDescriptionSet p) (p_pendingCandidates p) []
       (lit "new") (p_channels p) (S (p_pcs p)) (p_tasks p) (p_log p).

(** A new call, suspended at its first [await]. *)
Definition suspend (t : task) (p : peer) : peer := set_tasks (p_tasks p ++ [Some t]) p.

(** ** PeerConnection *)

Definition createOffer (p : peer) : peer :=
  let p := new_pc p in
  let p := set_channel (Some (length (p_channels p))) (p_channels p ++ [DcConnecting]) p in
  suspend (OfferCreated true) p.

(** [setRemoteDescription] of a null connection throws. *)
Definition set_remote (d : sdp) (k : after_flush) (p : peer) : peer :=
  match p_pc p with
  | Some pc => suspend (RemoteSet k) (put [SetRemote pc d] p)
  | None => put [Reject] p
  end.

Definition handleOffer (d : sdp) (p : peer) : peer :=
  set_remote d ThenAnswer (match p_pc p with Some _ => p | None => new_pc p end).

Definition handleAnswer (d : sdp) (p : peer) : peer :=
  match p_pc p with Some _ => set_remote d ThenDone p | None => p end.

Definition handleIceCandidate (c : candidate) (p : peer) : peer :=
  match p_pc p with
  | None => p
  | Some pc =>
      if negb (truthy (Some c)) then p
      else if negb (p_remoteDescriptionSet p) then set_candidates false (p_pendingCandidates p ++ [c]) p
      else suspend IceAdded (put [AddCandidate pc c] p)
  end.

(** The loop of [#flushPendingCandidates] up to its next [await]; the error
    of a null connection is caught like any other. A candidate is handed over to
    the platform, which may refuse it: [addIceCandidate] by the promise the
    loop awaits, the constructor [RTCIceCandidate] by throwing at once, which is
    the run in which this task is the next to be resumed, refused. *)
Fixpoint flush_loop (cs : list candidate) (k : after_flush) (p : peer) : task * peer :=
  match cs with
  | [] => (Flushed k, p)
  | c :: cs =>
      match p_pc p with
      | Some pc => (Flushing cs k, put [AddCandidate pc c] p)
      | None => flush_loop cs k (put [DropCandidate c] p)
      end
  end.

(** The call ends with an error; the negotiation handler catches its own. *)
Definition fail (explicit : bool) (p : peer) : option task * peer := (None, if explicit then put [Reject] p else p).

(** A connection is needed: the call fails on a null one. *)
Definition need_pc (explicit : bool) (k : nat → option task * peer) (p : peer) : option task * peer :=
  match p_pc p with Some pc => k pc | None => fail explicit p end.

(** What a call does from one [await] to the next. *)
Definition segment (t : task) (ok : bool) (p : peer) : option task * peer :=
  match t with
  | OfferCreated e => if ok then need_pc e (λ _, (Some (OfferLocal e), p)) p else fail e p
  | OfferLocal e => if ok then need_pc e (λ pc, (None, put [Signal (lit "offer") pc] p)) p else fail e p
  | RemoteSet k =>
      if ok then
        let '(t, p) := flush_loop (p_pendingCandidates p) k (set_candidates true [] p) in (Some t, p)
      else fail true p
  | Flushing rest k => let '(t, p) := flush_loop rest k p in (Some t, p)
  | Flushed ThenDone => (None, p)
  | Flushed ThenAnswer => need_pc true (λ _, (Some AnswerCreated, p)) p
  | AnswerCreated => if ok then need_pc true (λ _, (Some AnswerLocal, p)) p else fail true p
  | AnswerLocal => if ok then need_pc true (λ pc, (None, put [Signal (lit "answer") pc] p)) p else fail true p
  | IceAdded => (None, p)
  end.

Definition resume (i : nat) (ok : bool) (p : peer) : option peer :=
  match p_tasks p !! i with
  | Some (Some t) => let '(t', p) := segment t ok p in Some (set_tasks (<[i := t']> (p_tasks p)) p)
  | _ => None
  end.

(** [addTrack] throws on a track that is being sent already. *)
Fixpoint add_tracks (pc : nat) (tracks : list nat) (p : peer) : bool * peer :=
  match tracks with
  | [] => (true, p)
  | t :: tracks =>
      if decide (t ∈ p_senders p) then (false, put [Reject] p)
      else add_tracks pc tracks (put [AddTrack pc t] (set_senders (p_senders p ++ [t]) p))
  end.

(** Whether the promise was fulfilled, too. *)
Definition addLocalStream (tracks : list nat) (p : peer) : bool * peer :=
  match p_pc p with None => (true, p) | Some pc => add_tracks pc tracks p end.

Definition removeLocalStream (p : peer) : peer :=
  match p_pc p with
  | None => p
  | Some pc => put (RemoveTrack pc <$> p_senders p) (set_senders [] p)
  end.

Definition send (data : jsstr) (p : peer) : bool * peer :=
  match p_dc p with
  | Some dc =>
      match p_channels p !! dc with
      | Some DcOpen => (true, put [ChannelSend dc data] p)
      | _ => (false, p)
      end
  | None => (false, p)
  end.

Definition close (p : peer) : peer :=
  let p := set_connected false p in
  let p := match p_dc p with
           | Some dc => put [CloseChannel dc] (set_channel None
                          (alter (λ s, match s with DcClosed => DcClosed | _ => DcClosing end) dc (p_channels p)) p)
           | None => p
           end in
  let p := match p_pc p with
           | Some pc => put [ClosePc pc]
               (Peer None (p_dc p) (p_connected p) (p_remoteDescriptionSet p) (p_pendingCandidates p) []
                     (p_rtc_state p) (p_channels p) (p_pcs p) (p_tasks p) (p_log p))
           | None => p
           end in
  put [OnDisconnected] p.

(** ** The handlers of the platform's events *)

Inductive rtc_event :=
  | EvCandidate (c : candidate)         (** [onicecandidate] *)
  | EvState (state : jsstr)             (** [onconnectionstatechange] of the present connection *)
  | EvTrack (stream : option nat)       (** [ontrack], with [event.streams?.[0]] *)
  | EvNegotiation                       (** [onnegotiationneeded] *)
  | EvChannel                           (** [ondatachannel]: the peer's channel *)
  | EvDcOpen (dc : nat)
  | EvDcClose (dc : nat)
  | EvDcMessage (dc : nat) (data : jsstr).

Definition on_event (e : rtc_event) (p : peer) : peer :=
  match e with
  | EvCandidate c => if truthy (Some c) then put [SignalIce c] p else p
  | EvState state =>
      let p := Peer (p_pc p) (p_dc p) (p_connected p) (p_remoteDescriptionSet p) (p_pendingCandidates p)
                    (p_senders p) state (p_channels p) (p_pcs p) (p_tasks p) (p_log p) in
      match p_pc p with
      | Some _ => if includes [lit "disconnected"; lit "failed"] state
                  then put [OnDisconnected] (set_connected false p) else p
      | None => p
      end
  | EvTrack (Some stream) => put [OnTrack stream] p
  | EvTrack None => p
  | EvNegotiation =>
      match p_pc p with Some _ => suspend (OfferCreated false) p | None => p end
  | EvChannel => set_channel (Some (length (p_channels p))) (p_channels p ++ [DcConnecting]) p
  | EvDcOpen dc => put [OnConnected] (set_connected true (set_channel (p_dc p) (<[dc := DcOpen]> (p_channels p)) p))
  | EvDcClose dc => put [OnDisconnected] (set_connected false (set_channel (p_dc p) (<[dc := DcClosed]> (p_channels p)) p))
  | EvDcMessage dc data => put [OnMessage data] p
  end.

(** When the platform can fire the event: a closed connection fires none. *)
Definition can_fire (e : rtc_event) (p : peer) : bool :=
  match e with
  | EvDcOpen dc => match p_channels p !! dc with Some DcConnecting => true | _ => false end
  | EvDcClose dc => match p_channels p !! dc with Some DcClosed | None => false | _ => true end
  | EvDcMessage dc _ => match p_channels p !! dc with Some DcOpen => true | _ => false end
  | _ => is_some (p_pc p)
  end.

Inductive peer_label :=
  | LOffer
  | LHandleOffer (d : sdp)
  | LHandleAnswer (d : sdp)
  | LIce (c : candidate)
  | LResume (i : nat) (ok : bool)
  | LStream (tracks : list nat)
  | LUnstream
  | LSend (data : jsstr)
  | LClose
  | LEvent (e : rtc_event).

Definition peer_exec (p : peer) (l : peer_label) : option peer :=
  match l with
  | LOffer => Some (createOffer p)
  | LHandleOffer d => Some (handleOffer d p)
  | LHandleAnswer d => Some (handleAnswer d p)
  | LIce c => Some (handleIceCandidate c p)
  | LResume i ok => resume i ok p
  | LStream tracks => Some (addLocalStream tracks p).2
  | LUnstream => Some (removeLocalStream p)
  | LSend data => Some (send data p).2
  | LClose => Some (close p)
  | LEvent e => if can_fire e p then Some (on_event e p) else None
  end.

Fixpoint peer_run (p : peer) (ls : list peer_label) : option peer :=
  match ls with
  | [] => Some p
  | l :: ls => p' ← peer_exec p l; peer_run p' ls
  end.

(** ** PeerMesh *)

(** [#connections] maps a peer to its connection, a reference into the heap
    of every [PeerConnection] the mesh created. *)
Record mesh := Mesh {
  m_connections : list (jsstr * nat);
  m_peers : list peer
}.

Definition new_mesh : mesh := Mesh [] [].

Definition at_peer (r : nat) (f : peer → peer) (m : mesh) : mesh :=
  Mesh (m_connections m) (alter f r (m_peers m)).

Definition addPeer (peerId : jsstr) (isInitiator : bool) (m : mesh) : mesh :=
  if map_has (m_connections m) peerId then m
  else Mesh (map_set (m_connections m) peerId (length (m_peers m)))
            (m_peers m ++ [if isInitiator then createOffer new_peer else new_peer]).

Definition removePeer (peerId : jsstr) (m : mesh) : mesh :=
  match map_get (m_connections m) peerId with
  | Some r => Mesh (map_delete (m_connections m) peerId) (alter close r (m_peers m))
  | None => m
  end.

Definition handleSignal (fromPeerId : jsstr) (signal : json) (m : mesh) : mesh :=
  match map_get (m_connections m) fromPeerId with
  | None => m
  | Some r =>
      let kind := json_get signal (lit "signalType") in
      let data := default JNull (json_get signal (lit "data")) in
      if is_str kind (lit "offer") then at_peer r (handleOffer data) m
      else if is_str kind (lit "answer") then at_peer r (handleAnswer data) m
      else if is_str kind (lit "ice") then at_peer r (handleIceCandidate data) m
      else m
  end.

Definition for_all_peers (f : peer → peer) (m : mesh) : mesh :=
  fold_left (λ m r, at_peer r f m) (map_values (m_connections m)) m.

(** The first connection that throws ends the loop. *)
Fixpoint broadcast (tracks : list nat) (refs : list nat) (m : mesh) : bool * mesh :=
  match refs with
  | [] => (true, m)
  | r :: refs =>
      let m' := at_peer r (λ p, (addLocalStream tracks p).2) m in
      if (addLocalStream tracks (default new_peer (m_peers m !! r))).1 then broadcast tracks refs m' else (false, m')
  end.

Definition broadcastStream (tracks : list nat) (m : mesh) : bool * mesh :=
  broadcast tracks (map_values (m_connections m)) m.

Definition removeAllStreams (m : mesh) : mesh := for_all_peers removeLocalStream m.

Definition connectedPeers (m : mesh) : list jsstr :=
  (filter (λ x, p_connected (default new_peer (m_peers m !! x.2)) = true) (m_connections m)).*1.

Definition getConnection (peerId : jsstr) (m : mesh) : option nat := map_get (m_connections m) peerId.

Definition closeAll (m : mesh) : mesh :=
  Mesh [] (m_peers (for_all_peers close m)).

(** ** ICE candidates *)

Definition handed (p : peer) : list candidate :=
  omap (λ e, match e with AddCandidate _ c => Some c | _ => None end) (p_log p).
Definition dropped (p : peer) : list candidate :=
  omap (λ e, match e with DropCandidate c => Some c | _ => None end) (p_log p).

Definition task_rest (t : option task) : list candidate :=
  match t with Some (Flushing rest _) => rest | _ => [] end.
Definition in_flight (p : peer) : list candidate := p_tasks p ≫= task_rest.

(** The candidates the peer is given while it has a connection. *)
Definition takes (p : peer) (l : peer_label) : list candidate :=
  match l with LIce c => if is_some (p_pc p) && truthy (Some c) then [c] else [] | _ => [] end.

Fixpoint taken (p : peer) (ls : list peer_label) : list candidate :=
  match ls with
  | [] => []
  | l :: ls => takes p l ++ match peer_exec p l with Some p' => taken p' ls | None => [] end
  end.

Definition flush_task (t : option task) : bool :=
  match t with Some (Flushing _ _) | Some (Flushed _) | Some IceAdded => true | _ => false end.

(** The candidates in all the places they can be, and what holds before and
    after the remote description is set. *)
Definition all_candidates (p : peer) : list candidate :=
  handed p ++ dropped p ++ p_pendingCandidates p ++ in_flight p.

Record peer_inv (p : peer) : Prop := {
  pi_before : p_remoteDescriptionSet p = false → handed p = [] ∧ dropped p = [] ∧
              Forall (λ t, flush_task t = false) (p_tasks p);
  pi_after : p_remoteDescriptionSet p = true → p_pendingCandidates p = []
}.

Lemma handed_put e p : handed (put e p) = handed p ++ omap (λ e, match e with AddCandidate _ c => Some c | _ => None end) e.
Proof. apply omap_app. Qed.
Lemma dropped_put e p : dropped (put e p) = dropped p ++ omap (λ e, match e with DropCandidate c => Some c | _ => None end) e.
Proof. apply omap_app. Qed.

Lemma in_flight_suspend t p : in_flight (suspend t p) = in_flight p ++ task_rest (Some t).
Proof. unfold in_flight, suspend. cbn. rewrite bind_app. cbn. by rewrite app_nil_r. Qed.

(** The candidates a flush works through go to the log or stay with its task. *)
Lemma flush_loop_candidates cs k p :
  let r := flush_loop cs k p in
  handed r.2 ++ dropped r.2 ++ task_rest (Some r.1) ≡ₚ handed p ++ dropped p ++ cs ∧
  p_pendingCandidates r.2 = p_pendingCandidates p ∧ p_tasks r.2 = p_tasks p ∧ p_pc r.2 = p_pc p ∧
  p_remoteDescriptionSet r.2 = p_remoteDescriptionSet p ∧
  (p_pc p ≠ None → dropped r.2 = dropped p).
Proof.
  revert p. induction cs as [|c cs IH]; intros p; cbn zeta; [by split_and!|]. cbn [flush_loop].
  destruct (p_pc p) as [pc|] eqn:E; cbn [fst snd task_rest].
  - rewrite handed_put, dropped_put. cbn. rewrite app_nil_r. split_and!; try done. solve_Permutation.
  - specialize (IH (put [DropCandidate c] p)). cbn zeta in IH.
    destruct IH as (H1 & H2 & H3 & H4 & H5 & _). rewrite handed_put, dropped_put in H1. cbn in H1.
    split_and!; try done; [rewrite H1, app_nil_r; solve_Permutation|by rewrite H4].
Qed.

(** What the candidates depend on. *)
Definition ice (p : peer) : list candidate * list candidate * list candidate * list (option task) * bool :=
  (handed p, dropped p, p_pendingCandidates p, p_tasks p, p_remoteDescriptionSet p).

Lemma ice_frame p p' :
  ice p' = ice p → peer_inv p → peer_inv p' ∧ all_candidates p' = all_candidates p.
Proof.
  unfold ice, all_candidates, in_flight. intros [= E1 E2 E3 E4 E5] [H1 H2]. rewrite E1, E2, E3, E4. split; [|done].
  split; by rewrite ?E1, ?E2, ?E3, ?E4, ?E5.
Qed.

(** Effects that are not about candidates. *)
Definition not_ice (e : rtc_effect) : bool :=
  match e with AddCandidate _ _ | DropCandidate _ => false | _ => true end.

Lemma ice_put es p : forallb not_ice es = true → ice (put es p) = ice p.
Proof.
  intros H. unfold ice. rewrite handed_put, dropped_put.
  assert (omap (λ e, match e with AddCandidate _ c => Some c | _ => None end) es = [] ∧
          omap (λ e, match e with DropCandidate c => Some c | _ => None end) es = []) as [-> ->].
  { induction es as [|e es IH]; [done|]. cbn in H. apply andb_true_iff in H as [He H].
    destruct (IH H) as [E1 E2]. cbn. by destruct e; rewrite ?E1, ?E2. }
  by rewrite !app_nil_r.
Qed.

Lemma ice_add_tracks pc tracks p : ice (add_tracks pc tracks p).2 = ice p.
Proof.
  revert p. induction tracks as [|t tracks IH]; intros p; [done|]. cbn [add_tracks]. case_decide; [by apply ice_put|].
  rewrite IH. rewrite ice_put by done. done.
Qed.

Lemma pc_add_tracks pc tracks p : p_pc (add_tracks pc tracks p).2 = p_pc p.
Proof.
  revert p. induction tracks as [|t tracks IH]; intros p; [done|]. cbn [add_tracks]. case_decide; [done|]. by rewrite IH.
Qed.

Lemma ice_close p : ice (close p) = ice p.
Proof.
  destruct p as [pc dc cn r cs s st ch n ts lg]. unfold close, ice, handed, dropped.
  destruct dc, pc; cbn; rewrite !omap_app; cbn; by rewrite !app_nil_r.
Qed.

Lemma negotiation_dec e : {e = EvNegotiation} + {e ≠ EvNegotiation}.
Proof. destruct e; (by left) || (by right). Qed.

Lemma ice_event e p : e ≠ EvNegotiation → ice (on_event e p) = ice p.
Proof.
  intros He. destruct e as [c|st|[s|]| | |dc|dc|dc data]; unfold on_event; try done; try by rewrite ice_put.
  - destruct (truthy (Some c)); [by apply ice_put|done].
  - destruct (p_pc _); [|done]. destruct (includes _ _); [by rewrite ice_put|done].
Qed.

(** A call that suspends at a task without candidates. *)
Lemma suspend_candidates t p :
  flush_task (Some t) = false → peer_inv p → peer_inv (suspend t p) ∧ all_candidates (suspend t p) ≡ₚ all_candidates p.
Proof.
  intros Ht [H1 H2]. split.
  - split; [|exact H2]. intros Hr. destruct (H1 Hr) as (? & ? & ?). split_and!; [done..|]. by apply Forall_snoc.
  - unfold all_candidates. rewrite in_flight_suspend. destruct t; cbn in *; try done; by rewrite app_nil_r.
Qed.

Lemma set_remote_candidates d k p :
  peer_inv p → peer_inv (set_remote d k p) ∧ all_candidates (set_remote d k p) ≡ₚ all_candidates p.
Proof.
  intros Hi. unfold set_remote. destruct (p_pc p) as [pc|];
    [|by destruct (ice_frame p (put [Reject] p)) as [? ->]; [apply ice_put|..]].
  destruct (ice_frame p (put [SetRemote pc d] p)) as [Hi' E]; [by apply ice_put|done|].
  rewrite <- E. by apply suspend_candidates.
Qed.

(** One segment of a call moves candidates, and loses none. *)
Lemma segment_candidates t ok p :
  let r := segment t ok p in
  handed r.2 ++ dropped r.2 ++ p_pendingCandidates r.2 ++ task_rest r.1 ≡ₚ
    handed p ++ dropped p ++ p_pendingCandidates p ++ task_rest (Some t) ∧
  p_tasks r.2 = p_tasks p ∧
  ((p_remoteDescriptionSet r.2 = true ∧
    (p_pendingCandidates r.2 = [] ∨ p_pendingCandidates r.2 = p_pendingCandidates p ∧ p_remoteDescriptionSet p = true)) ∨
   (p_remoteDescriptionSet r.2 = p_remoteDescriptionSet p ∧ p_pendingCandidates r.2 = p_pendingCandidates p ∧
    (flush_task (Some t) = false → flush_task r.1 = false ∧ handed r.2 = handed p ∧ dropped r.2 = dropped p))).
Proof.
  cbn zeta.
  assert (∀ e, let r := fail e p in task_rest r.1 = [] ∧ ice r.2 = ice p ∧ flush_task r.1 = false) as Hfail.
  { intros e. unfold fail. cbn. split_and!; [done| |done]. destruct e; [by apply ice_put|done]. }
  assert (∀ r : option task * peer, task_rest (Some t) = [] → task_rest r.1 = [] → ice r.2 = ice p →
    flush_task r.1 = false ∨ flush_task (Some t) = true →
    handed r.2 ++ dropped r.2 ++ p_pendingCandidates r.2 ++ task_rest r.1 ≡ₚ
      handed p ++ dropped p ++ p_pendingCandidates p ++ task_rest (Some t) ∧ p_tasks r.2 = p_tasks p ∧
    ((p_remoteDescriptionSet r.2 = true ∧
      (p_pendingCandidates r.2 = [] ∨ p_pendingCandidates r.2 = p_pendingCandidates p ∧ p_remoteDescriptionSet p = true)) ∨
     (p_remoteDescriptionSet r.2 = p_remoteDescriptionSet p ∧ p_pendingCandidates r.2 = p_pendingCandidates p ∧
      (flush_task (Some t) = false → flush_task r.1 = false ∧ handed r.2 = handed p ∧ dropped r.2 = dropped p)))) as Hsame.
  { intros r E1 E2 [= E3 E4 E5 E6 E7] Hf. rewrite E1, E2, E3, E4, E5, E6, E7. split_and!; [done..|].
    right. split_and!; [done..|]. intros Ht. destruct Hf as [Hf|Hf]; [done|by rewrite Ht in Hf]. }
  assert (∀ e k, (∀ pc, task_rest (k pc).1 = [] ∧ ice (k pc).2 = ice p ∧ flush_task (k pc).1 = false) →
    let r := need_pc e k p in task_rest r.1 = [] ∧ ice r.2 = ice p ∧ flush_task r.1 = false) as Hneed.
  { intros e k Hk. unfold need_pc. destruct (p_pc p); [apply Hk|apply Hfail]. }
  assert (∀ (b : bool) e k, (∀ pc, task_rest (k pc).1 = [] ∧ ice (k pc).2 = ice p ∧ flush_task (k pc).1 = false) →
    let r := if b then need_pc e k p else fail e p in task_rest r.1 = [] ∧ ice r.2 = ice p ∧ flush_task r.1 = false)
    as Hif by (intros [] e k Hk; [by apply Hneed|by apply Hfail]).
  destruct t as [e|e|k|rest k|[]| | |]; cbn [segment].
  1,2,7,8: match goal with |- context [need_pc ?e ?k _] =>
    destruct (Hif ok e k) as (E1 & E2 & E3);
      [intros pc; split_and!; [done|cbn [snd]; rewrite ?ice_put by done; done|done]|apply Hsame; [done..|by left]]
  end.
  - destruct ok; [|apply Hsame; [done|apply Hfail..|left; apply Hfail]].
    pose proof (flush_loop_candidates (p_pendingCandidates p) k (set_candidates true [] p)) as Hl. cbn zeta in Hl.
    destruct (flush_loop _ _ _) as [t' p']. cbn [fst snd] in *. destruct Hl as (H1 & H2 & H3 & H4 & H5 & _).
    cbn in H2, H3, H5. rewrite H2, H3, H5. split_and!; [|done|left; auto].
    cbn [app task_rest]. rewrite app_nil_r. exact H1.
  - pose proof (flush_loop_candidates rest k p) as Hl. cbn zeta in Hl.
    destruct (flush_loop _ _ _) as [t' p']. cbn [fst snd] in *. destruct Hl as (H1 & H2 & H3 & H4 & H5 & _).
    rewrite H2, H3, H5. split_and!; [|done|right; by split_and!].
    transitivity ((handed p' ++ dropped p' ++ task_rest (Some t')) ++ p_pendingCandidates p); [solve_Permutation|].
    rewrite H1. cbn [task_rest]. solve_Permutation.
  - destruct (Hneed true (λ _, (Some AnswerCreated, p))) as (E1 & E2 & E3); [done|]. apply Hsame; [done..|by right].
  - apply Hsame; [done|done|done|by right].
  - apply Hsame; [done|done|done|by right].
Qed.

Lemma in_flight_lookup i (p : peer) t : p_tasks p !! i = Some t → task_rest t ⊆+ in_flight p.
Proof.
  unfold in_flight. intros Hi. rewrite <- (take_drop_middle _ _ _ Hi), bind_app. cbn. solve_submseteq.
Qed.

Lemma resume_candidates i ok p p' :
  peer_inv p → resume i ok p = Some p' → peer_inv p' ∧ all_candidates p' ≡ₚ all_candidates p.
Proof.
  intros [H1 H2]. unfold resume. destruct (p_tasks p !! i) as [[t|]|] eqn:Ei; [|done..].
  pose proof (segment_candidates t ok p) as Hseg. cbn zeta in Hseg.
  destruct (segment t ok p) as [t' q]. cbn [fst snd] in Hseg. destruct Hseg as (Hp & Ht & Hcase). intros [= <-].
  assert (all_candidates (set_tasks (<[i:=t']> (p_tasks q)) q) ≡ₚ all_candidates p) as Hperm.
  { unfold all_candidates, in_flight. change (handed (set_tasks _ q)) with (handed q).
    change (dropped (set_tasks _ q)) with (dropped q). cbn [p_pendingCandidates p_tasks set_tasks]. rewrite Ht.
    pose proof (bind_insert_Permutation task_rest (p_tasks p) i (Some t) t' Ei) as Hins.
    apply (Permutation_app_inv_r (task_rest (Some t))).
    transitivity ((handed q ++ dropped q ++ p_pendingCandidates q) ++ (p_tasks p ≫= task_rest) ++ task_rest t').
    { rewrite <- Hins. solve_Permutation. }
    transitivity ((handed q ++ dropped q ++ p_pendingCandidates q ++ task_rest t') ++ (p_tasks p ≫= task_rest));
      [solve_Permutation|]. rewrite Hp. solve_Permutation. }
  split; [|exact Hperm].
  destruct Hcase as [(Hr & Hc)|(Hr & Hc & Hf)].
  - split; cbn; [by rewrite Hr|]. intros _. destruct Hc as [->|[-> Hp']]; auto.
  - split; cbn; rewrite Hr.
    + intros Hr'. destruct (H1 Hr') as (E1 & E2 & E3).
      destruct Hf as (F1 & F2 & F3); [by eapply Forall_lookup_1 in E3|]. rewrite Ht.
      split_and!; [by etransitivity; [exact F2|]|by etransitivity; [exact F3|]|by apply Forall_insert].
    + intros Hr'. rewrite Hc. auto.
Qed.

Lemma peer_exec_candidates p l p' :
  peer_inv p → peer_exec p l = Some p' →
  peer_inv p' ∧ all_candidates p' ≡ₚ all_candidates p ++ takes p l.
Proof.
  intros Hi. assert (∀ q, ice q = ice p → peer_inv q ∧ all_candidates q ≡ₚ all_candidates p ++ []) as Hframe.
  { intros q Hq. destruct (ice_frame p q Hq Hi) as [? ->]. by rewrite app_nil_r. }
  destruct l as [|d|d|c|i ok|tracks| |data| |e]; cbn [peer_exec takes]; intros Hp.
  - injection Hp as <-. unfold createOffer. rewrite app_nil_r.
    destruct (ice_frame p (set_channel (Some (length (p_channels (new_pc p)))) (p_channels (new_pc p) ++ [DcConnecting]) (new_pc p)))
      as [Hi' E]; [done..|]. rewrite <- E. by apply suspend_candidates.
  - injection Hp as <-. unfold handleOffer. rewrite app_nil_r. destruct (p_pc p) as [pc|].
    + by apply set_remote_candidates.
    + destruct (ice_frame p (new_pc p)) as [Hi' E]; [done..|]. rewrite <- E. by apply set_remote_candidates.
  - injection Hp as <-. unfold handleAnswer. rewrite app_nil_r.
    destruct (p_pc p) as [pc|]; [by apply set_remote_candidates|done].
  - injection Hp as <-. unfold handleIceCandidate. destruct (p_pc p) as [pc|]; cbn [is_some andb]; [|by apply Hframe].
    destruct (truthy (Some c)); cbn [negb]; [|by apply Hframe]. destruct Hi as [H1 H2].
    destruct (p_remoteDescriptionSet p) eqn:Er; cbn [negb].
    + split; [split; cbn; [by rewrite Er|auto]|]. unfold all_candidates. rewrite in_flight_suspend.
      change (handed (suspend ?t ?q)) with (handed q). change (dropped (suspend ?t ?q)) with (dropped q).
      rewrite handed_put, dropped_put. cbn. rewrite !app_nil_r. solve_Permutation.
    + destruct (H1 eq_refl) as (E1 & E2 & E3). split; [split; cbn; [|done]|].
      * intros _. by split_and!.
      * unfold all_candidates. cbn. change (handed (set_candidates _ _ p)) with (handed p).
        change (dropped (set_candidates _ _ p)) with (dropped p). change (in_flight (set_candidates _ _ p)) with (in_flight p).
        solve_Permutation.
  - rewrite app_nil_r. by eapply resume_candidates.
  - injection Hp as <-. apply Hframe. unfold addLocalStream. destruct (p_pc p); [apply ice_add_tracks|done].
  - injection Hp as <-. apply Hframe. unfold removeLocalStream. destruct (p_pc p) as [pc|]; [|done].
    rewrite ice_put; [done|]. by induction (p_senders p).
  - injection Hp as <-. apply Hframe. unfold send. repeat (case_match; try done). by apply ice_put.
  - injection Hp as <-. apply Hframe, ice_close.
  - destruct (can_fire e p); [|done]. injection Hp as <-.
    destruct (negotiation_dec e) as [->|He]; [|by apply Hframe, ice_event].
    rewrite app_nil_r. cbn. destruct (p_pc p); [by apply suspend_candidates|done].
Qed.

Lemma peer_run_candidates p ls p' :
  peer_inv p → peer_run p ls = Some p' → peer_inv p' ∧ all_candidates p' ≡ₚ all_candidates p ++ taken p ls.
Proof.
  revert p. induction ls as [|l ls IH]; intros p Hi; cbn [peer_run taken].
  - intros [= <-]. by rewrite app_nil_r.
  - intros (p1 & E1 & Hr)%bind_Some. rewrite E1.
    destruct (peer_exec_candidates _ _ _ Hi E1) as [Hi1 P1]. destruct (IH p1 Hi1 Hr) as [Hi2 P2].
    split; [done|]. by rewrite P2, P1, <- app_assoc.
Qed.

Lemma peer_inv_new : peer_inv new_peer.
Proof. by split. Qed.

(** While nobody closes the connection, it is there as soon as a call runs,
    and no candidate is dropped. *)
Definition open_inv (p : peer) : Prop := dropped p = [] ∧ (p_pc p = None → p_tasks p = []).

Lemma open_frame p p' :
  dropped p' = dropped p → p_pc p' = p_pc p → p_tasks p' = p_tasks p → open_inv p → open_inv p'.
Proof. unfold open_inv. by intros -> -> ->. Qed.

Lemma open_ice p p' : ice p' = ice p → p_pc p' = p_pc p → open_inv p → open_inv p'.
Proof. intros [= _ E _ E' _] Hpc. by apply open_frame. Qed.

Lemma segment_open t ok p :
  p_pc p ≠ None → dropped (segment t ok p).2 = dropped p ∧ p_pc (segment t ok p).2 = p_pc p.
Proof.
  intros Hpc. assert (∀ cs k q, p_pc q = p_pc p → dropped q = dropped p →
    dropped (flush_loop cs k q).2 = dropped p ∧ p_pc (flush_loop cs k q).2 = p_pc p) as Hfl.
  { intros cs k q E1 E2. destruct (flush_loop_candidates cs k q) as (_ & _ & _ & E3 & _ & E4).
    rewrite E3, E4 by (by rewrite E1). done. }
  assert (∀ e, dropped (fail e p).2 = dropped p ∧ p_pc (fail e p).2 = p_pc p) as Hfail.
  { intros [|]; unfold fail; cbn [snd]; [|done]. by rewrite dropped_put, app_nil_r. }
  destruct (p_pc p) as [pc|] eqn:E; [|done].
  destruct t as [e|e|k|rest k|[]| | |]; cbn [segment]; unfold need_pc; rewrite ?E; try done;
    try (destruct ok; [|exact (Hfail _)]); cbn [snd]; try done; try (by rewrite dropped_put, app_nil_r).
  - pose proof (Hfl (p_pendingCandidates p) k (set_candidates true [] p) E eq_refl) as H. by destruct (flush_loop _ _ _).
  - pose proof (Hfl rest k p E eq_refl) as H. by destruct (flush_loop _ _ _).
Qed.

Lemma set_remote_open d k p : p_pc p ≠ None → open_inv p → open_inv (set_remote d k p).
Proof.
  unfold set_remote, open_inv. intros Hpc [H1 H2]. destruct (p_pc p) as [pc|] eqn:E; [|done].
  split; [|by cbn; rewrite E]. change (dropped (suspend _ ?q)) with (dropped q). by rewrite dropped_put, app_nil_r.
Qed.

Lemma open_step p l p' : l ≠ LClose → open_inv p → peer_exec p l = Some p' → open_inv p'.
Proof.
  intros Hl Hi. destruct l as [|d|d|c|i ok|tracks| |data| |e]; cbn [peer_exec]; try done; intros Hp;
    try injection Hp as <-.
  - by destruct Hi.
  - unfold handleOffer. destruct (p_pc p) eqn:E; apply set_remote_open; try done; [by rewrite E|]. by destruct Hi.
  - unfold handleAnswer. destruct (p_pc p) eqn:E; [apply set_remote_open; [by rewrite E|done]|done].
  - unfold handleIceCandidate. destruct (p_pc p) eqn:E; [|done]. destruct (negb _); [done|]. destruct (negb _); [by destruct Hi|].
    destruct Hi as [H1 H2]. split; [|by cbn; rewrite E]. change (dropped (suspend _ ?q)) with (dropped q).
    by rewrite dropped_put, app_nil_r.
  - unfold resume in Hp. destruct (p_tasks p !! i) as [[t|]|] eqn:Ei; [|done..].
    destruct Hi as [H1 H2]. assert (p_pc p ≠ None) as Hpc by (intros Hn; by rewrite H2 in Ei).
    destruct (segment_open t ok p Hpc) as [E1 E2]. destruct (segment t ok p) as [t' q]. injection Hp as <-.
    cbn [snd] in *. split; [by change (dropped (set_tasks _ ?q)) with (dropped q); rewrite E1|cbn; by rewrite E2].
  - unfold addLocalStream. destruct (p_pc p) as [pc|] eqn:E; [|done]. eapply open_ice; [apply ice_add_tracks| |exact Hi].
    apply pc_add_tracks.
  - unfold removeLocalStream. destruct (p_pc p) as [pc|] eqn:E; [|done]. eapply open_ice; [|by cbn|exact Hi].
    rewrite ice_put; [done|]. by induction (p_senders p).
  - unfold send. destruct (p_dc p) as [dc|]; [|done]. destruct (p_channels p !! dc) as [[]|]; try done.
    eapply open_ice; [by apply ice_put|done|done].
  - destruct (can_fire e p) eqn:Hf; [|done]. injection Hp as <-.
    destruct (negotiation_dec e) as [->|He].
    + cbn. destruct (p_pc p) eqn:E; [|done]. destruct Hi as [H1 _]. split; [exact H1|by cbn; rewrite E].
    + eapply open_ice; [by apply ice_event| |exact Hi].
      destruct e as [c|st|[s|]| | |dc|dc|dc data]; cbn in *; try done; repeat (case_match; try done).
Qed.

Lemma open_inv_new : open_inv new_peer.
Proof. done. Qed.

Lemma open_run p ls p' : LClose ∉ ls → open_inv p → peer_run p ls = Some p' → open_inv p'.
Proof.
  revert p. induction ls as [|l ls IH]; intros p Hn Hi; cbn; [by intros [= <-]|].
  apply not_elem_of_cons in Hn as [Hl Hn]. intros (p1 & E1 & Hr)%bind_Some.
  eapply IH, Hr; [done|]. by eapply open_step.
Qed.

(** ** Correctness of the peer connection *)

(** C12: every ICE candidate a peer takes is, at any moment and exactly once,
    handed to the platform (which may refuse it), waiting for the remote
    description, still to be added by a flush, or dropped; none is handed over
    before the remote description is set, none waits after, and none is dropped
    unless the connection was closed. *)
Theorem ice_conserved ls p :
  peer_run new_peer ls = Some p →
  handed p ++ dropped p ++ p_pendingCandidates p ++ in_flight p ≡ₚ taken new_peer ls ∧
  (p_remoteDescriptionSet p = false → handed p = []) ∧
  (p_remoteDescriptionSet p = true → p_pendingCandidates p = []) ∧
  (LClose ∉ ls → dropped p = []).
Proof.
  intros Hr. destruct (peer_run_candidates _ _ _ peer_inv_new Hr) as [Hi Hp]. split_and!.
  - exact Hp.
  - intros Hf. by destruct (pi_before _ Hi Hf).
  - apply (pi_after _ Hi).
  - intros Hn. by destruct (open_run _ _ _ Hn open_inv_new Hr).
Qed.

Lemma flushing_run cs k i (p : peer) pc oks :
  p_pc p = Some pc → p_tasks p !! i = Some (Some (Flushing cs k)) → length oks = S (length cs) →
  ∃ p', peer_run p (LResume i <$> oks) = Some p' ∧ handed p' = handed p ++ cs ∧
        p_tasks p' = <[i := Some (Flushed k)]> (p_tasks p) ∧ p_pc p' = Some pc.
Proof.
  revert p oks. induction cs as [|c cs IH]; intros p [|ok oks] Hpc Hi Hl; try done; injection Hl as Hl;
    cbn [fmap list_fmap peer_run peer_exec]; unfold resume at 1; rewrite Hi; cbn [segment flush_loop].
  - destruct oks; [|done]. eexists. split_and!; [reflexivity|by rewrite app_nil_r|done|done].
  - rewrite Hpc. cbn [mbind option_bind].
    destruct (IH (set_tasks (<[i:=Some (Flushing cs k)]> (p_tasks (put [AddCandidate pc c] p))) (put [AddCandidate pc c] p)) oks)
      as (p' & Hr & Hh & Ht & Hpc'); [done| |done|].
    { cbn. apply list_lookup_insert_eq, lookup_lt_is_Some_1. by eexists. }
    exists p'. split_and!; [exact Hr| | |done].
    + rewrite Hh. change (handed (set_tasks _ ?q)) with (handed q). rewrite handed_put, <- app_assoc. done.
    + rewrite Ht. cbn. apply list_insert_insert_eq.
Qed.

(** C26: when the remote description is accepted, the waiting candidates are
    handed to the platform in the order they came, the call goes on after
    one settlement for each of them, and the candidates the connection
    refuses stop nothing. *)
Theorem early_candidates_added i k (p : peer) pc oks :
  p_tasks p !! i = Some (Some (RemoteSet k)) → p_pc p = Some pc →
  length oks = length (p_pendingCandidates p) →
  ∃ p', peer_run p (LResume i true :: (LResume i <$> oks)) = Some p' ∧
        handed p' = handed p ++ p_pendingCandidates p ∧
        p_tasks p' !! i = Some (Some (Flushed k)) ∧ p_pc p' = Some pc.
Proof.
  intros Hi Hpc Hl. assert (i < length (p_tasks p)) as Hlt by (apply lookup_lt_is_Some_1; by eexists).
  cbn [peer_run peer_exec]. unfold resume at 1. rewrite Hi. cbn [segment].
  destruct (p_pendingCandidates p) as [|c cs] eqn:Ec; cbn [flush_loop].
  - destruct oks; [|done]. cbn. eexists. split_and!; [reflexivity|by rewrite app_nil_r|by apply list_lookup_insert_eq|done].
  - change (p_pc (set_candidates true [] p)) with (p_pc p). rewrite Hpc. cbn [mbind option_bind].
    set (q := put [AddCandidate pc c] (set_candidates true [] p)).
    destruct (flushing_run cs k i (set_tasks (<[i:=Some (Flushing cs k)]> (p_tasks q)) q) pc oks)
      as (p' & Hr & Hh & Ht & Hpc'); [done|by apply list_lookup_insert_eq|done|].
    exists p'. split_and!; [exact Hr| | |done].
    + rewrite Hh. unfold q. change (handed (set_tasks _ ?q)) with (handed q). rewrite handed_put, <- app_assoc. done.
    + rewrite Ht. apply list_lookup_insert_eq. cbn. by rewrite length_insert.
Qed.

(** ** The mesh *)

Inductive mesh_label :=
  | MAdd (peerId : jsstr) (isInitiator : bool)
  | MRemove (peerId : jsstr)
  | MSignal (fromPeerId : jsstr) (signal : json)
  | MBroadcast (tracks : list nat)
  | MUnstream
  | MSend (peerId data : jsstr)           (** [getConnection(peerId).send(data)] *)
  | MCloseAll
  | MResume (r : nat) (i : nat) (ok : bool)   (** a call of a connection goes on *)
  | MEvent (r : nat) (e : rtc_event).         (** the platform fires an event of a connection *)

Definition step_peer (r : nat) (l : peer_label) (m : mesh) : option mesh :=
  p ← m_peers m !! r;
  p' ← peer_exec p l;
  Some (at_peer r (λ _, p') m).

Definition mesh_exec (m : mesh) (l : mesh_label) : option mesh :=
  match l with
  | MAdd peerId isInitiator => Some (addPeer peerId isInitiator m)
  | MRemove peerId => Some (removePeer peerId m)
  | MSignal from signal => Some (handleSignal from signal m)
  | MBroadcast tracks => Some (broadcastStream tracks m).2
  | MUnstream => Some (removeAllStreams m)
  | MSend peerId data => r ← getConnection peerId m; step_peer r (LSend data) m
  | MCloseAll => Some (closeAll m)
  | MResume r i ok => step_peer r (LResume i ok) m
  | MEvent r e => step_peer r (LEvent e) m
  end.

Fixpoint mesh_run (m : mesh) (ls : list mesh_label) : option mesh :=
  match ls with
  | [] => Some m
  | l :: ls => m' ← mesh_exec m l; mesh_run m' ls
  end.

(** The connections of the map are distinct objects, and a connection object
    that left the map holds no [RTCPeerConnection]. *)
Record mesh_inv (m : mesh) : Prop := {
  mi_wf : map_wf (m_connections m);
  mi_nodup : NoDup (map_values (m_connections m));
  mi_range : Forall (λ r, r < length (m_peers m)) (map_values (m_connections m));
  mi_closed : ∀ r p, m_peers m !! r = Some p → r ∉ map_values (m_connections m) → p_pc p = None
}.

Lemma mesh_inv_new : mesh_inv new_mesh.
Proof. split; cbn; [apply map_wf_nil|constructor|constructor|done]. Qed.

Lemma mesh_inv_at r f m :
  (r ∈ map_values (m_connections m) ∨ ∀ p, m_peers m !! r = Some p → p_pc p = None → p_pc (f p) = None) →
  mesh_inv m → mesh_inv (at_peer r f m).
Proof.
  intros Hf [H1 H2 H3 H4]. split; cbn; [done..|by rewrite length_alter|]. intros r' p Hp Hr'.
  destruct (decide (r = r')) as [<-|Hne]; [|by rewrite list_lookup_alter_ne in Hp; eauto].
  rewrite list_lookup_alter_eq in Hp. apply fmap_Some in Hp as (q & Hq & ->).
  destruct Hf as [Hf|Hf]; [done|]. apply Hf, (H4 r); done.
Qed.

Lemma get_value m id r : map_get (m_connections m) id = Some r → r ∈ map_values (m_connections m).
Proof. intros H%map_get_Some_elem. apply list_elem_of_fmap. by eexists (_, _). Qed.

Lemma map_values_delete {V} (c : list (jsstr * V)) id r :
  map_get c id = Some r → map_values c ≡ₚ r :: map_values (map_delete c id).
Proof.
  induction c as [|[k v] c IH]; cbn; [done|]. case_decide as E; cbn.
  - by intros [= ->].
  - intros H. unfold map_values in *. cbn. rewrite (IH H). apply Permutation_swap.
Qed.

Lemma fold_at_connections f rs m : m_connections (fold_left (λ m r, at_peer r f m) rs m) = m_connections m.
Proof. revert m. induction rs as [|r rs IH]; intros m; [done|]. cbn. by rewrite IH. Qed.

Lemma fold_at_lookup f rs m r :
  NoDup rs → m_peers (fold_left (λ m r, at_peer r f m) rs m) !! r =
             (if decide (r ∈ rs) then f <$> m_peers m !! r else m_peers m !! r).
Proof.
  revert m. induction rs as [|r' rs IH]; intros m; [done|]. intros [Hr' Hn]%NoDup_cons. cbn [fold_left].
  rewrite (IH _ Hn). cbn [at_peer m_peers]. destruct (decide (r = r')) as [->|Hne].
  - rewrite decide_False by done. rewrite decide_True by set_solver. apply list_lookup_alter_eq.
  - rewrite list_lookup_alter_ne by done. repeat case_decide; set_solver.
Qed.

Lemma for_all_lookup f m r : NoDup (map_values (m_connections m)) →
  m_peers (for_all_peers f m) !! r =
  (if decide (r ∈ map_values (m_connections m)) then f <$> m_peers m !! r else m_peers m !! r).
Proof. apply fold_at_lookup. Qed.

Lemma mesh_inv_for_all f m : mesh_inv m → mesh_inv (for_all_peers f m).
Proof.
  unfold for_all_peers. intros Hi. assert (∀ r, r ∈ map_values (m_connections m) → r ∈ map_values (m_connections m)) as Hs by done.
  revert Hs. generalize (map_values (m_connections m)) at 1 3. intros rs. revert m Hi.
  induction rs as [|r rs IH]; intros m Hi Hs; [done|]. cbn [fold_left]. apply IH; [|set_solver].
  apply mesh_inv_at; [left; set_solver|done].
Qed.

Lemma close_no_pc p : p_pc (close p) = None.
Proof. destruct p as [pc dc cn r cs s st ch n ts lg]. by destruct pc, dc. Qed.

Lemma mesh_inv_removePeer id m : mesh_inv m → mesh_inv (removePeer id m).
Proof.
  intros [H1 H2 H3 H4]. unfold removePeer. destruct (map_get (m_connections m) id) as [r|] eqn:E; [|done].
  pose proof (map_values_delete _ _ _ E) as Hp. rewrite Hp in H2, H3.
  apply NoDup_cons in H2 as [Hr H2]. apply Forall_cons in H3 as [_ H3].
  split; cbn; [by apply map_wf_delete|done|by rewrite length_alter|]. intros r' p Hp' Hr'.
  destruct (decide (r = r')) as [<-|Hne].
  - rewrite list_lookup_alter_eq in Hp'. apply fmap_Some in Hp' as (q & _ & ->). apply close_no_pc.
  - rewrite list_lookup_alter_ne in Hp' by done. apply (H4 r' p Hp'). rewrite Hp. set_solver.
Qed.

Lemma mesh_inv_addPeer id b m : mesh_inv m → mesh_inv (addPeer id b m).
Proof.
  intros [H1 H2 H3 H4]. unfold addPeer. destruct (map_has (m_connections m) id) eqn:E; [done|].
  apply map_has_false in E. split; cbn; rewrite map_set_fresh by done.
  - rewrite <- map_set_fresh by done. by apply map_wf_set.
  - unfold map_values. rewrite fmap_app. cbn. apply NoDup_snoc; [done|]. intros Hin.
    eapply Forall_forall in H3; [|exact Hin]. lia.
  - unfold map_values. rewrite fmap_app, length_app. cbn. apply Forall_snoc; [|lia].
    eapply Forall_impl; [exact H3|]. cbn. lia.
  - unfold map_values. rewrite fmap_app. cbn. intros r p [Hp|[Hl Hp]]%lookup_app_Some Hr.
    + apply (H4 r p Hp). set_solver.
    + apply list_lookup_singleton_Some in Hp as [Hp _]. exfalso. apply Hr. apply elem_of_app. right.
      apply list_elem_of_singleton. lia.
Qed.

(** What runs inside a connection never opens one. *)
Lemma segment_pc t ok p : p_pc (segment t ok p).2 = p_pc p.
Proof.
  assert (∀ e, p_pc (fail e p).2 = p_pc p) as Hfail by (by intros []).
  destruct t as [e|e|k|rest k|[]| | |]; cbn [segment]; unfold need_pc;
    try (destruct ok; [|exact (Hfail _)]); try (destruct (p_pc p) eqn:E; [exact E|exact (Hfail _)]); try done.
  - destruct (flush_loop_candidates (p_pendingCandidates p) k (set_candidates true [] p)) as (_ & _ & _ & E & _).
    by destruct (flush_loop _ _ _).
  - destruct (flush_loop_candidates rest k p) as (_ & _ & _ & E & _). by destruct (flush_loop _ _ _).
Qed.

Lemma internal_pc p l p' :
  match l with LResume _ _ | LEvent _ | LSend _ => True | _ => False end →
  peer_exec p l = Some p' → p_pc p' = p_pc p.
Proof.
  destruct l as [| | | |i ok| | |data| |e]; try done; intros _; cbn [peer_exec].
  - unfold resume. destruct (p_tasks p !! i) as [[t|]|]; [|done..]. intros H. pose proof (segment_pc t ok p) as E.
    destruct (segment t ok p) as [t' q]. by injection H as <-.
  - intros [= <-]. unfold send. repeat (case_match; try done).
  - destruct (can_fire e p); [|done]. intros [= <-].
    destruct e as [c|st|[s|]| | |dc|dc|dc d]; cbn; try done; repeat (case_match; try done).
Qed.

Lemma mesh_inv_step_peer r l m m' :
  match l with LResume _ _ | LEvent _ | LSend _ => True | _ => False end →
  mesh_inv m → step_peer r l m = Some m' → mesh_inv m'.
Proof.
  intros Hl Hi (p & Hp & (p' & Hp' & [= <-])%bind_Some)%bind_Some.
  apply mesh_inv_at; [|done]. right. intros q Hq. rewrite Hq in Hp. injection Hp as ->.
  by rewrite (internal_pc _ _ _ Hl Hp').
Qed.

Lemma mesh_inv_broadcast tracks rs m :
  (∀ r, r ∈ rs → r ∈ map_values (m_connections m)) → mesh_inv m → mesh_inv (broadcast tracks rs m).2.
Proof.
  revert m. induction rs as [|r rs IH]; intros m Hs Hi; [done|]. cbn [broadcast].
  assert (mesh_inv (at_peer r (λ p, (addLocalStream tracks p).2) m)) as Hi'
    by (apply mesh_inv_at; [left; set_solver|done]).
  destruct (addLocalStream _ _).1; [|done]. apply IH; [|done]. set_solver.
Qed.

Lemma closeAll_lookup m r p :
  mesh_inv m → m_peers (closeAll m) !! r = Some p → p_pc p = None.
Proof.
  intros [_ H2 _ H4]. cbn. rewrite for_all_lookup by done. case_decide as Hr.
  - intros (q & _ & ->)%fmap_Some. apply close_no_pc.
  - intros Hp. by apply (H4 r p).
Qed.

Lemma mesh_inv_closeAll m : mesh_inv m → mesh_inv (closeAll m).
Proof.
  intros Hi. split; [apply map_wf_nil|constructor|constructor|]. intros r p Hp _. by eapply closeAll_lookup.
Qed.

Lemma mesh_inv_exec m l m' : mesh_inv m → mesh_exec m l = Some m' → mesh_inv m'.
Proof.
  intros Hi. destruct l as [id b|id|id sg|tracks| |id data| |r i ok|r e]; cbn [mesh_exec]; try intros [= <-].
  - by apply mesh_inv_addPeer.
  - by apply mesh_inv_removePeer.
  - unfold handleSignal. destruct (map_get _ id) as [r|] eqn:E; [|done]. apply get_value in E.
    repeat (case_match; [apply mesh_inv_at; [by left|done]|]). done.
  - by apply mesh_inv_broadcast.
  - by apply mesh_inv_for_all.
  - intros (r & _ & H)%bind_Some. by eapply mesh_inv_step_peer in H.
  - by apply mesh_inv_closeAll.
  - intros H. by eapply mesh_inv_step_peer in H.
  - intros H. by eapply mesh_inv_step_peer in H.
Qed.

Lemma mesh_inv_run m ls m' : mesh_inv m → mesh_run m ls = Some m' → mesh_inv m'.
Proof.
  revert m. induction ls as [|l ls IH]; intros m Hi; cbn; [by intros [= <-]|].
  intros (m1 & E1 & Hr)%bind_Some. eapply IH, Hr. by eapply mesh_inv_exec.
Qed.

(** Whatever happens to a mesh (peers added and removed, signals, streams,
    suspended calls going on after their connection was closed, platform
    events), an [RTCPeerConnection] is only held for a peer the mesh knows, no
    two peers share one, and after [closeAll] none is held at all. *)
Theorem mesh_no_leak ls m :
  mesh_run new_mesh ls = Some m →
  (∀ r p, m_peers m !! r = Some p → p_pc p ≠ None → ∃ id, map_get (m_connections m) id = Some r) ∧
  (∀ id id' r, map_get (m_connections m) id = Some r → map_get (m_connections m) id' = Some r → id = id') ∧
  (∀ r p, m_peers (closeAll m) !! r = Some p → p_pc p = None).
Proof.
  intros Hr. pose proof (mesh_inv_run _ _ _ mesh_inv_new Hr) as Hi. split_and!.
  - intros r p Hp Hn. destruct (decide (r ∈ map_values (m_connections m))) as [Hin|Hout].
    + apply list_elem_of_fmap in Hin as ([id r'] & -> & Hin). exists id. by apply map_elem_get; [apply mi_wf|].
    + by destruct Hn; apply (mi_closed _ Hi r p).
  - intros id id' r H1%map_get_Some_elem H2%map_get_Some_elem.
    apply list_elem_of_lookup in H1 as [i H1]. apply list_elem_of_lookup in H2 as [j H2].
    assert (i = j) as <-; [|by rewrite H2 in H1; injection H1].
    eapply NoDup_lookup; [apply (mi_nodup _ Hi)| |]; unfold map_values; rewrite list_lookup_fmap, ?H1, ?H2; done.
  - intros r p. by apply closeAll_lookup.
Qed.

(** ** A connection at work *)

Module WebRTCExamples.
Definition cand (n : Z) : json := JObj [(lit "sdpMLineIndex", JNum n)].
Definition description : json := JObj [(lit "sdp", JStr (lit "v=0"))].

(** The answerer gets two candidates before the offer's description is
    accepted, and one while the first of them is being added. *)
Definition answerer : list peer_label :=
  [LHandleOffer description; LIce (cand 1); LIce (cand 2); LResume 0 true; LIce (cand 3);
   LResume 0 true; LResume 0 false; LResume 0 true; LResume 0 true; LResume 0 true].

Example answerer_log :
  p_log <$> peer_run new_peer answerer =
  Some [SetRemote 0 description; AddCandidate 0 (cand 1); AddCandidate 0 (cand 3); AddCandidate 0 (cand 2);
        Signal (lit "answer") 0].
Proof. vm_compute. reflexivity. Qed.

Lemma ice_conserved_witness :
  ∃ p, peer_run new_peer answerer = Some p ∧ handed p = [cand 1; cand 3; cand 2] ∧
       handed p ++ dropped p ++ p_pendingCandidates p ++ in_flight p ≡ₚ [cand 1; cand 2; cand 3].
Proof.
  eexists. split; [vm_compute; reflexivity|]. split; [vm_compute; reflexivity|].
  apply (ice_conserved answerer). vm_compute. reflexivity.
Defined.

Lemma early_candidates_added_witness :
  ∃ p p', peer_run new_peer (take 3 answerer) = Some p ∧ p_pendingCandidates p = [cand 1; cand 2] ∧
    peer_run p [LResume 0 true; LResume 0 false; LResume 0 true] = Some p' ∧ handed p' = [cand 1; cand 2].
Proof.
  assert (∃ p, peer_run new_peer (take 3 answerer) = Some p ∧ p_pendingCandidates p = [cand 1; cand 2] ∧ handed p = [] ∧
    p_tasks p !! 0%nat = Some (Some (RemoteSet ThenAnswer)) ∧ p_pc p = Some 0%nat) as (p & H1 & H2 & H3 & H4 & H5).
  { eexists. split; [vm_compute; reflexivity|]. by split_and!. }
  destruct (early_candidates_added 0 ThenAnswer p 0 [false; true]) as (p' & Hr & Hh & _); [exact H4|exact H5|by rewrite H2|].
  exists p, p'. split_and!; [exact H1|exact H2|exact Hr|by rewrite Hh, H2, H3].
Defined.

Lemma mesh_no_leak_witness :
  ∃ m, mesh_run new_mesh [MAdd (lit "a") true; MAdd (lit "b") false; MSignal (lit "b") (JObj [(lit "signalType", JStr (lit "offer"))]);
                          MRemove (lit "a"); MResume 0 0 true] = Some m ∧
       (p_pc <$> m_peers m) = [None; Some 0%nat] ∧ ∀ r p, m_peers (closeAll m) !! r = Some p → p_pc p = None.
Proof.
  eexists. split; [vm_compute; reflexivity|]. split; [vm_compute; reflexivity|].
  refine (proj2 (proj2 (mesh_no_leak
    [MAdd (lit "a") true; MAdd (lit "b") false; MSignal (lit "b") (JObj [(lit "signalType", JStr (lit "offer"))]);
     MRemove (lit "a"); MResume 0 0 true] _ _))). vm_compute. reflexivity.
Defined.
End WebRTCExamples.
