(* ===== verification/MeshHook.v ===== *)
(** * hooks/useWebRTCMesh.js: one mesh per room

    [peerMeshRef] maps a room to its [PeerMesh], a reference into the heap of
    the meshes the hook created, because suspended calls and closed meshes
    outlive the map. The offer of the initiator is a 500 ms timer. A call
    suspended at [await mesh.addPeer(...)] is a [hook_call]; whether the offer
    of the initiator fails is the platform's ([ok]). Peer ids are strings. The
    React callbacks [updateRoomState] and [setRemoteStreams] are the log
    [mh_p2p] and the connections' own logs. *)

From S2P Require Import Prelude JsLib Json Typing Timers Client WebRTC.

Local Open Scope Z_scope.

Definition OFFER_DELAY_MS : Z := 500.

(** [a < b] on strings: code units, lexicographically. *)
Fixpoint str_lt (a b : jsstr) : bool :=
  match a, b with
  | _, [] => false
  | [], _ :: _ => true
  | x :: a, y :: b => (x <? y) || ((x =? y) && str_lt a b)
  end.

Inductive hook_call :=
  | Offering (room : jsstr)                          (** the timer's call awaits [addPeer(..., true)] *)
  | Answering (mesh : nat) (from : jsstr) (signal : json).   (** [handleSignal] awaits [addPeer(..., false)] *)

Record mesh_hook := MeshHook {
  mh_meshes : list mesh;
  mh_refs : list (jsstr * nat);
  mh_prev : list (jsstr * json);
  mh_clock : timers (jsstr * jsstr);      (** the offers to make: room and peer *)
  mh_calls : list (option hook_call);
  mh_p2p : list (jsstr * bool)
}.

Definition new_mesh_hook (now : Z) : mesh_hook := MeshHook [] [] [] (timers_init now) [] [].

Definition set_meshes (meshes : list mesh) (refs : list (jsstr * nat)) (h : mesh_hook) : mesh_hook :=
  MeshHook meshes refs (mh_prev h) (mh_clock h) (mh_calls h) (mh_p2p h).
Definition set_prev (prev : list (jsstr * json)) (h : mesh_hook) : mesh_hook :=
  MeshHook (mh_meshes h) (mh_refs h) prev (mh_clock h) (mh_calls h) (mh_p2p h).
Definition set_offers (clock : timers (jsstr * jsstr)) (h : mesh_hook) : mesh_hook :=
  MeshHook (mh_meshes h) (mh_refs h) (mh_prev h) clock (mh_calls h) (mh_p2p h).
Definition set_calls (calls : list (option hook_call)) (h : mesh_hook) : mesh_hook :=
  MeshHook (mh_meshes h) (mh_refs h) (mh_prev h) (mh_clock h) calls (mh_p2p h).
Definition log_p2p (room : jsstr) (b : bool) (h : mesh_hook) : mesh_hook :=
  MeshHook (mh_meshes h) (mh_refs h) (mh_prev h) (mh_clock h) (mh_calls h) (mh_p2p h ++ [(room, b)]).

Definition room_mesh (room : jsstr) (h : mesh_hook) : option mesh :=
  r ← map_get (mh_refs h) room; mh_meshes h !! r.

Definition at_mesh (r : nat) (f : mesh → mesh) (h : mesh_hook) : mesh_hook :=
  set_meshes (alter f r (mh_meshes h)) (mh_refs h) h.

(** The new mesh's reference, and the hook that holds it. *)
Definition createMesh (room : jsstr) (h : mesh_hook) : nat * mesh_hook :=
  let r := length (mh_meshes h) in
  (r, set_meshes (mh_meshes h ++ [new_mesh]) (map_set (mh_refs h) room r) h).

(** ** Signals and messages of the peers *)

Section Signals.
Context (randomUUID : nat → jsstr).

Definition signal_message (id room to : jsstr) (payload : json) (now : Z) : jsstr :=
  JSON_stringify (JObj [(lit "id", JStr id); (lit "type", JStr (lit "signal")); (lit "room", JStr room);
                        (lit "to", JStr to); (lit "payload", JStr (JSON_stringify payload));
                        (lit "timestamp", JNum now)]).

(** The function [makeSignalSender(room, remotePeerId)] returns, applied. *)
Definition signal_sender (room remotePeerId : jsstr) (payload : json) (c : client) : client :=
  let msg := signal_message (randomUUID (cl_uuids c)) room remotePeerId payload (cl_now c) in
  let c := draw_uuids 1 c in
  if connected c then (sendRaw msg c).2 else c.
End Signals.

(** [{ ...v, room }]: the own properties of [v], then the room. *)
Definition spread (v : json) : list (jsstr * json) :=
  match v with
  | JObj fs => fs
  | JArr l => imap (λ i x, (dec_nat (Z.of_nat i), x)) l
  | JStr s => imap (λ i c, (dec_nat (Z.of_nat i), JStr [c])) s
  | _ => []
  end.

(** The mesh's [onMessage]: data of a peer becomes the client's event. *)
Definition mesh_event (room : jsstr) (d : jsstr) : result json :=
  v ← JSON_parse d; mret (JObj (map_set (spread v) (lit "room") (JStr room))).

Definition mesh_message (room : jsstr) (d : jsstr) (c : client) : client :=
  match mesh_event room d with
  | Ok v => emitP2P (lit "message") (Some v) c
  | Throw _ => c
  end.

(** ** Presence *)

(** The peer the presence names besides ourselves. *)
Definition remote_peer (peers : option json) (selfId : option jsstr) : option jsstr :=
  head (filter (λ pid, Some pid ≠ selfId) (match peers with Some v => map_keys (spread v) | None => [] end)).

(** Whether we make the offer: ids are non-empty, and the smaller one offers. *)
Definition initiates (selfId remotePid : option jsstr) : bool :=
  match selfId, remotePid with
  | Some (c :: self), Some (d :: remote) => str_lt (c :: self) (d :: remote)
  | _, _ => false
  end.

Definition is_two (count : json) : bool := match count with JNum n => n =? 2 | _ => false end.

Definition handlePresenceMesh (room : jsstr) (count : json) (peers : option json) (selfId : option jsstr)
    (h : mesh_hook) : mesh_hook :=
  let prevCount := default (JNum 0) (map_get (mh_prev h) room) in
  let h := set_prev (map_set (mh_prev h) room count) h in
  if is_two count && negb (is_two prevCount) then
    let remotePid := remote_peer peers selfId in
    if initiates selfId remotePid
    then set_offers (setTimeout (mh_clock h) (room, default [] remotePid) OFFER_DELAY_MS).2 h
    else h
  else match map_get (mh_refs h) room with
  | Some r =>
      if negb (is_two count)
      then log_p2p room false (set_meshes (alter closeAll r (mh_meshes h)) (map_delete (mh_refs h) room) h)
      else h
  | None => h
  end.

(** The timer of an offer fires. *)
Definition offer_timer (id : nat) (h : mesh_hook) : option mesh_hook :=
  '(room, remotePid) ← due (mh_clock h) id;
  let h := set_offers (clearTimeout (mh_clock h) id) h in
  Some (if map_has (mh_refs h) room then h
        else let '(r, h) := createMesh room h in
             let h := at_mesh r (addPeer remotePid true) h in
             set_calls (mh_calls h ++ [Some (Offering room)]) h).

(** ** Signals *)

(** Rejections are caught by the caller, which only logs them. *)
Definition handleSignal (data : json) (room : jsstr) (h : mesh_hook) : option mesh_hook :=
  match payload_value (json_get data (lit "payload")) with
  | Throw _ => Some h
  | Ok signalData =>
      let '(r, h) := match map_get (mh_refs h) room with
                     | Some r => (r, h)
                     | None => createMesh room h
                     end in
      match signalData with
      | None | Some JNull => Some h
      | Some signal =>
          from ← as_str (json_get data (lit "id"));
          Some (if is_str (json_get signal (lit "signalType")) (lit "offer")
                then let h := at_mesh r (addPeer from false) h in
                     set_calls (mh_calls h ++ [Some (Answering r from signal)]) h
                else at_mesh r (WebRTC.handleSignal from signal) h)
      end
  end.

Definition resume_call (i : nat) (ok : bool) (h : mesh_hook) : option mesh_hook :=
  match mh_calls h !! i with
  | Some (Some c) =>
      let h := set_calls (<[i := None]> (mh_calls h)) h in
      Some match c with
           | Offering room => if ok then h else set_meshes (mh_meshes h) (map_delete (mh_refs h) room) h
           | Answering r from signal => at_mesh r (WebRTC.handleSignal from signal) h
           end
  | _ => None
  end.

Definition cleanupRoom (room : jsstr) (h : mesh_hook) : mesh_hook :=
  let h := match map_get (mh_refs h) room with
           | Some r => set_meshes (alter closeAll r (mh_meshes h)) (map_delete (mh_refs h) room) h
           | None => h
           end in
  set_prev (map_delete (mh_prev h) room) h.

Definition cleanupAll (h : mesh_hook) : mesh_hook :=
  set_prev [] (set_meshes (fold_left (λ ms r, alter closeAll r ms) (map_values (mh_refs h)) (mh_meshes h)) [] h).

(** ** Runs *)

Inductive hook_label :=
  | HPresence (room : jsstr) (count : json) (peers : option json) (selfId : option jsstr)
  | HSignal (data : json) (room : jsstr)
  | HOffer (id : nat)
  | HResume (i : nat) (ok : bool)
  | HCleanup (room : jsstr)
  | HCleanupAll
  | HMesh (r : nat) (l : mesh_label)      (** inside a mesh: calls going on, platform events *)
  | HRoomMesh (room : jsstr) (l : mesh_label)   (** the application uses the room's mesh *)
  | HWait (d : Z).

(** What happens inside a mesh of itself, and what the application calls. *)
Definition internal (l : mesh_label) : bool := match l with MResume _ _ _ | MEvent _ _ => true | _ => false end.
Definition usable (l : mesh_label) : bool := match l with MSend _ _ | MBroadcast _ | MUnstream => true | _ => false end.

Definition step_mesh (r : nat) (l : mesh_label) (h : mesh_hook) : option mesh_hook :=
  m ← mh_meshes h !! r; m' ← mesh_exec m l; Some (at_mesh r (λ _, m') h).

Definition hook_exec (h : mesh_hook) (l : hook_label) : option mesh_hook :=
  match l with
  | HPresence room count peers selfId => Some (handlePresenceMesh room count peers selfId h)
  | HSignal data room => handleSignal data room h
  | HOffer id => offer_timer id h
  | HResume i ok => resume_call i ok h
  | HCleanup room => Some (cleanupRoom room h)
  | HCleanupAll => Some (cleanupAll h)
  | HMesh r l => if internal l then step_mesh r l h else None
  | HRoomMesh room l => if usable l then r ← map_get (mh_refs h) room; step_mesh r l h else None
  | HWait d => if d <? 0 then None else Some (set_offers (advance (mh_clock h) d) h)
  end.

Fixpoint hook_run (h : mesh_hook) (ls : list hook_label) : option mesh_hook :=
  match ls with
  | [] => Some h
  | l :: ls => h' ← hook_exec h l; hook_run h' ls
  end.

(** ** Who makes the offer *)

Lemma str_lt_total a b : a ≠ b → str_lt a b = negb (str_lt b a).
Proof.
  revert b. induction a as [|x a IH]; intros [|y b] Hne; cbn; try done.
  destruct (Z.lt_trichotomy x y) as [Hlt|[<-|Hlt]].
  - rewrite (proj2 (Z.ltb_lt x y)), (proj2 (Z.ltb_ge y x)), (proj2 (Z.eqb_neq y x)) by lia. done.
  - rewrite Z.ltb_irrefl, Z.eqb_refl. cbn. apply IH. congruence.
  - rewrite (proj2 (Z.ltb_ge x y)), (proj2 (Z.eqb_neq x y)), (proj2 (Z.ltb_lt y x)) by lia. done.
Qed.

Lemma remote_peer_pair peers a b :
  a ≠ b → (∀ k, k ∈ map_keys (spread peers) ↔ k = a ∨ k = b) → remote_peer (Some peers) (Some a) = Some b.
Proof.
  intros Hne Hk. unfold remote_peer. set (f := filter _ _).
  assert (∀ k, k ∈ f ↔ k = b) as Hf by (intros k; unfold f; rewrite list_elem_of_filter, Hk; naive_solver).
  destruct f as [|k f]; [exfalso; by apply (not_elem_of_nil b), Hf|]. cbn. f_equal. apply Hf. set_solver.
Qed.

(** An offer to [remote] is due in 500 ms, and nothing else was decided. *)
Definition will_offer (room remote : jsstr) (h h' : mesh_hook) : Prop :=
  mh_clock h' = (setTimeout (mh_clock h) (room, remote) OFFER_DELAY_MS).2 ∧ mh_refs h' = mh_refs h.
Definition waits_offer (h h' : mesh_hook) : Prop := mh_clock h' = mh_clock h ∧ mh_refs h' = mh_refs h.

(** When a second member comes into a room and both are told of it, exactly
    one of them, the one with the smaller id, sets out to make the offer. *)
Theorem one_initiator room a b peers (ha hb : mesh_hook) :
  a ≠ b → a ≠ [] → b ≠ [] → (∀ k, k ∈ map_keys (spread peers) ↔ k = a ∨ k = b) →
  is_two (default (JNum 0) (map_get (mh_prev ha) room)) = false →
  is_two (default (JNum 0) (map_get (mh_prev hb) room)) = false →
  let ha' := handlePresenceMesh room (JNum 2) (Some peers) (Some a) ha in
  let hb' := handlePresenceMesh room (JNum 2) (Some peers) (Some b) hb in
  if str_lt a b then will_offer room b ha ha' ∧ waits_offer hb hb'
  else will_offer room a hb hb' ∧ waits_offer ha ha'.
Proof.
  intros Hne Ha Hb Hk Hpa Hpb. cbn zeta. unfold handlePresenceMesh, will_offer, waits_offer. rewrite Hpa, Hpb.
  rewrite (remote_peer_pair peers a b) by done.
  rewrite (remote_peer_pair peers b a); [|congruence|naive_solver].
  cbn [is_two Z.eqb Pos.eqb andb negb default].
  assert (initiates (Some a) (Some b) = str_lt a b) as -> by (by destruct a, b).
  assert (initiates (Some b) (Some a) = str_lt b a) as -> by (by destruct a, b).
  rewrite (str_lt_total a b) by done. by destruct (str_lt b a).
Qed.

(** ** Meshes and connections *)

Record hook_inv (h : mesh_hook) : Prop := {
  hi_wf : map_wf (mh_refs h);
  hi_nodup : NoDup (map_values (mh_refs h));
  hi_range : Forall (λ r, r < length (mh_meshes h))%nat (map_values (mh_refs h));
  hi_meshes : Forall mesh_inv (mh_meshes h);
  hi_closed : ∀ r m, mh_meshes h !! r = Some m → r ∉ map_values (mh_refs h) → m_connections m = []
}.

Lemma hook_inv_frame h h' :
  mh_meshes h' = mh_meshes h → mh_refs h' = mh_refs h → hook_inv h → hook_inv h'.
Proof. intros E1 E2 [H1 H2 H3 H4 H5]. by split; rewrite ?E1, ?E2. Qed.

Lemma hook_inv_new now : hook_inv (new_mesh_hook now).
Proof. split; cbn; [apply map_wf_nil|constructor..|done]. Qed.

Lemma ref_value (refs : list (jsstr * nat)) room r : map_get refs room = Some r → r ∈ map_values refs.
Proof. intros H%map_get_Some_elem. apply list_elem_of_fmap. by eexists (_, _). Qed.

(** An operation of the room's mesh, or one that connects nobody. *)
Lemma hook_inv_at r f h :
  (∀ m, mesh_inv m → mesh_inv (f m)) →
  (r ∈ map_values (mh_refs h) ∨ ∀ m, m_connections m = [] → m_connections (f m) = []) →
  hook_inv h → hook_inv (at_mesh r f h).
Proof.
  intros Hf Hr [H1 H2 H3 H4 H5]. split; cbn; [done..|by rewrite length_alter| |].
  - apply Forall_lookup. intros r' m. destruct (decide (r = r')) as [<-|Hne].
    + rewrite list_lookup_alter_eq. intros (q & Hq & ->)%fmap_Some. apply Hf. by eapply Forall_lookup_1 in H4.
    + rewrite list_lookup_alter_ne by done. by apply Forall_lookup_1.
  - intros r' m Hm Hr'. destruct (decide (r = r')) as [<-|Hne].
    + rewrite list_lookup_alter_eq in Hm. apply fmap_Some in Hm as (q & Hq & ->).
      destruct Hr as [Hr|Hr]; [done|]. apply Hr. by apply (H5 r).
    + rewrite list_lookup_alter_ne in Hm by done. by apply (H5 r').
Qed.

Lemma hook_inv_create room h :
  map_has (mh_refs h) room = false → hook_inv h →
  hook_inv (createMesh room h).2 ∧ (createMesh room h).1 ∈ map_values (mh_refs (createMesh room h).2).
Proof.
  intros Hn%map_has_false [H1 H2 H3 H4 H5]. unfold createMesh. cbn [fst snd set_meshes mh_refs].
  rewrite map_set_fresh by done. split; [split; cbn|].
  - rewrite <- map_set_fresh by done. by apply map_wf_set.
  - unfold map_values. rewrite fmap_app. apply NoDup_snoc; [done|]. intros Hin.
    cbn in Hin. eapply Forall_forall in H3; [|exact Hin]. cbn in H3. lia.
  - unfold map_values. rewrite fmap_app, length_app. cbn. apply Forall_snoc; [|lia].
    eapply Forall_impl; [exact H3|]. cbn. lia.
  - apply Forall_snoc; [done|apply mesh_inv_new].
  - unfold map_values. rewrite fmap_app. intros r m [Hm|[Hl Hm]]%lookup_app_Some Hr.
    + apply (H5 r m Hm). set_solver.
    + apply list_lookup_singleton_Some in Hm as [_ <-]. done.
  - unfold map_values. rewrite fmap_app. set_solver.
Qed.

(** A mesh leaves the map when it is closed. *)
Lemma hook_inv_close room r h :
  map_get (mh_refs h) room = Some r → hook_inv h →
  hook_inv (set_meshes (alter closeAll r (mh_meshes h)) (map_delete (mh_refs h) room) h).
Proof.
  intros E Hi. destruct (hook_inv_at r closeAll h) as [H1 H2 H3 H4 H5];
    [apply mesh_inv_closeAll|left; by eapply ref_value|done|].
  cbn in *. pose proof (map_values_delete _ _ _ E) as Hp. rewrite Hp in H2, H3.
  apply NoDup_cons in H2 as [Hr H2]. apply Forall_cons in H3 as [_ H3].
  split; cbn; [by apply map_wf_delete|done|done|done|]. intros r' m Hm Hr'.
  destruct (decide (r = r')) as [<-|Hne].
  - rewrite list_lookup_alter_eq in Hm. by apply fmap_Some in Hm as (q & _ & ->).
  - apply (H5 r' m Hm). rewrite Hp. set_solver.
Qed.

Lemma handleSignal_unknown from signal m : m_connections m = [] → WebRTC.handleSignal from signal m = m.
Proof. unfold WebRTC.handleSignal. by intros ->. Qed.

Lemma mesh_inv_handleSignal from signal m : mesh_inv m → mesh_inv (WebRTC.handleSignal from signal m).
Proof. intros Hi. by apply (mesh_inv_exec m (MSignal from signal)). Qed.

Lemma exec_connections m l m' :
  internal l || usable l = true → mesh_exec m l = Some m' → m_connections m' = m_connections m.
Proof.
  assert (∀ r l, step_peer r l m = Some m' → m_connections m' = m_connections m) as Hstep.
  { by intros r l' (p & _ & (p' & _ & [= <-])%bind_Some)%bind_Some. }
  destruct l as [id b|id|id sg|tracks| |id data| |r i ok|r e]; try done; intros _; cbn [mesh_exec].
  - intros [= <-]. unfold broadcastStream. generalize (map_values (m_connections m)). intros rs.
    clear Hstep. revert m. induction rs as [|r rs IH]; intros m; [done|]. cbn [broadcast].
    destruct (addLocalStream _ _).1; [by rewrite IH|done].
  - intros [= <-]. apply fold_at_connections.
  - intros (r & _ & H)%bind_Some. by eapply Hstep.
  - by apply Hstep.
  - by apply Hstep.
Qed.

Lemma hook_inv_step_mesh r l h h' :
  internal l || usable l = true → hook_inv h → step_mesh r l h = Some h' → hook_inv h'.
Proof.
  intros Hl Hi (m & Hm & (m' & Hm' & [= <-])%bind_Some)%bind_Some.
  destruct Hi as [H1 H2 H3 H4 H5]. split; cbn; [done..|by rewrite length_alter| |].
  - apply Forall_lookup. intros r' q. destruct (decide (r = r')) as [<-|Hne].
    + rewrite list_lookup_alter_eq, Hm. intros [= <-]. eapply mesh_inv_exec, Hm'. by eapply Forall_lookup_1 in H4.
    + rewrite list_lookup_alter_ne by done. by apply Forall_lookup_1.
  - intros r' q Hq Hr'. destruct (decide (r = r')) as [<-|Hne].
    + rewrite list_lookup_alter_eq, Hm in Hq. injection Hq as <-.
      rewrite (exec_connections _ _ _ Hl Hm'). by apply (H5 r).
    + rewrite list_lookup_alter_ne in Hq by done. by apply (H5 r').
Qed.

Definition no_failed_offer (l : hook_label) : bool := match l with HResume _ false => false | _ => true end.

Lemma fold_alter_lookup {A} (f : A → A) rs (l : list A) r :
  NoDup rs → fold_left (λ l r, alter f r l) rs l !! r = (if decide (r ∈ rs) then f <$> l !! r else l !! r).
Proof.
  revert l. induction rs as [|r' rs IH]; intros l; [done|]. intros [Hr' Hn]%NoDup_cons. cbn [fold_left].
  rewrite (IH _ Hn). destruct (decide (r = r')) as [->|Hne].
  - rewrite decide_False by done. rewrite decide_True by set_solver. apply list_lookup_alter_eq.
  - rewrite list_lookup_alter_ne by done. repeat case_decide; set_solver.
Qed.

Lemma hook_inv_cleanupAll h : hook_inv h → hook_inv (cleanupAll h).
Proof.
  intros [H1 H2 H3 H4 H5]. split; cbn; [apply map_wf_nil|constructor..| |].
  - apply Forall_lookup. intros r m. rewrite fold_alter_lookup by done. rewrite Forall_lookup in H4.
    case_decide; [intros (q & Hq & ->)%fmap_Some|]; eauto using mesh_inv_closeAll.
  - intros r m. rewrite fold_alter_lookup by done. case_decide; [by intros (q & _ & ->)%fmap_Some|]. eauto.
Qed.

Lemma hook_inv_exec h l h' : no_failed_offer l = true → hook_inv h → hook_exec h l = Some h' → hook_inv h'.
Proof.
  intros Hl Hi. destruct l as [room count peers self|data room|id|i ok|room| |r l|room l|d]; cbn [hook_exec].
  - intros [= <-]. unfold handlePresenceMesh. destruct (is_two count && _).
    + by destruct (initiates _ _); apply (hook_inv_frame h).
    + cbn [mh_refs set_prev]. destruct (map_get (mh_refs h) room) as [r|] eqn:E; [|by apply (hook_inv_frame h)].
      destruct (negb _); [|by apply (hook_inv_frame h)].
      eapply hook_inv_frame; [| |by eapply hook_inv_close]; done.
  - unfold handleSignal. destruct (payload_value _) as [sd|e]; [|by intros [= <-]].
    assert (∃ r h1, (match map_get (mh_refs h) room with Some r => (r, h) | None => createMesh room h end) = (r, h1) ∧
              hook_inv h1 ∧ r ∈ map_values (mh_refs h1)) as (r & h1 & -> & Hi1 & Hr).
    { destruct (map_get (mh_refs h) room) as [r|] eqn:E.
      - exists r, h. split_and!; [done..|]. by eapply ref_value.
      - destruct (hook_inv_create room h) as [H1 H2]; [by unfold map_has; rewrite E|done|].
        eexists _, _. split; [apply surjective_pairing|]. done. }
    assert (∀ (b : bool) from sg, hook_inv (if b then set_calls (mh_calls (at_mesh r (addPeer from false) h1) ++ [Some (Answering r from sg)])
        (at_mesh r (addPeer from false) h1) else at_mesh r (WebRTC.handleSignal from sg) h1)) as Hgo.
    { intros [] from sg.
      - eapply hook_inv_frame; [| |apply (hook_inv_at r (addPeer from false) h1)]; try done;
          [intros; by apply mesh_inv_addPeer|by left].
      - apply hook_inv_at; [intros; by apply mesh_inv_handleSignal|by left|done]. }
    destruct sd as [[]|]; try (by intros [= <-]); intros (from & _ & H)%bind_Some; injection H as <-;
      first [apply (Hgo false)|apply Hgo].
  - unfold offer_timer. intros ([room remote] & _ & [= <-])%bind_Some. cbn [mh_refs set_offers].
    destruct (map_has (mh_refs h) room) eqn:E; [by apply (hook_inv_frame h)|].
    set (h0 := set_offers (clearTimeout (mh_clock h) id) h).
    destruct (hook_inv_create room h0) as [H1 H2]; [done|by apply (hook_inv_frame h)|].
    apply (hook_inv_frame (at_mesh (createMesh room h0).1 (addPeer remote true) (createMesh room h0).2)); [done..|].
    apply (hook_inv_at (createMesh room h0).1 (addPeer remote true) (createMesh room h0).2);
      [intros; by apply mesh_inv_addPeer|by left|done].
  - unfold resume_call. destruct (mh_calls h !! i) as [[c|]|]; [|done..]. intros [= <-]. destruct c as [room|r from sg].
    + destruct ok; [|done]. by apply (hook_inv_frame h).
    + apply hook_inv_at; [intros; by apply mesh_inv_handleSignal|right|by apply (hook_inv_frame h)].
      intros m Hm. by rewrite handleSignal_unknown.
  - intros [= <-]. unfold cleanupRoom. destruct (map_get (mh_refs h) room) as [r|] eqn:E.
    + eapply hook_inv_frame; [| |by eapply hook_inv_close]; done.
    + by apply (hook_inv_frame h).
  - intros [= <-]. by apply hook_inv_cleanupAll.
  - destruct (internal l) eqn:E; [|done]. apply hook_inv_step_mesh; [by rewrite E|done].
  - destruct (usable l) eqn:E; [|done]. intros (r & _ & H)%bind_Some.
    eapply hook_inv_step_mesh; [|done|exact H]. by rewrite E, orb_true_r.
  - destruct (d <? 0); [done|]. intros [= <-]. by apply (hook_inv_frame h).
Qed.

Lemma hook_inv_run h ls h' :
  Forall (λ l, no_failed_offer l = true) ls → hook_inv h → hook_run h ls = Some h' → hook_inv h'.
Proof.
  revert h. induction ls as [|l ls IH]; intros h Hl Hi; cbn; [by intros [= <-]|].
  apply Forall_cons in Hl as [Hl1 Hl]. intros (h1 & E1 & Hr)%bind_Some. eapply IH, Hr; [done|]. by eapply hook_inv_exec.
Qed.

(** C28: unless an offer fails, a room's mesh is its own, an
    [RTCPeerConnection] is only held by the mesh of a room, and after
    [cleanupRoom] the room has no mesh and the mesh it had holds none. *)
Theorem hook_no_leak now ls (h : mesh_hook) :
  Forall (λ l, no_failed_offer l = true) ls → hook_run (new_mesh_hook now) ls = Some h →
  (∀ r m p, mh_meshes h !! r = Some m → p ∈ m_peers m → p_pc p ≠ None → ∃ room, map_get (mh_refs h) room = Some r) ∧
  (∀ room room' r, map_get (mh_refs h) room = Some r → map_get (mh_refs h) room' = Some r → room = room') ∧
  (∀ room r m p, map_get (mh_refs h) room = Some r → mh_meshes (cleanupRoom room h) !! r = Some m →
     p ∈ m_peers m → p_pc p = None ∧ room_mesh room (cleanupRoom room h) = None).
Proof.
  intros Hl Hr. pose proof (hook_inv_run _ _ _ Hl (hook_inv_new now) Hr) as [H1 H2 H3 H4 H5].
  assert (∀ m p, mesh_inv m → m_connections m = [] → p ∈ m_peers m → p_pc p = None) as Hno.
  { intros m p Hm E [r Hp]%list_elem_of_lookup. apply (mi_closed m Hm r p Hp). rewrite E. apply not_elem_of_nil. }
  rewrite Forall_lookup in H4. split_and!.
  - intros r m p Hm Hp Hpc. destruct (decide (r ∈ map_values (mh_refs h))) as [Hin|Hout].
    + apply list_elem_of_fmap in Hin as ([room r'] & -> & Hin). exists room. by apply map_elem_get.
    + destruct Hpc. apply (Hno m); eauto.
  - intros room room' r E1%map_get_Some_elem E2%map_get_Some_elem.
    apply list_elem_of_lookup in E1 as [i E1]. apply list_elem_of_lookup in E2 as [j E2].
    assert (i = j) as <-; [|by rewrite E2 in E1; injection E1].
    eapply NoDup_lookup; [exact H2| |]; unfold map_values; rewrite list_lookup_fmap, ?E1, ?E2; done.
  - intros room r m p E Hm Hp. unfold cleanupRoom, room_mesh in *. rewrite E in *. cbn in *. split.
    + rewrite list_lookup_alter_eq in Hm. apply fmap_Some in Hm as (q & Hq & ->).
      apply (Hno (closeAll q)); [|done|done]. apply mesh_inv_closeAll. eauto.
    + by rewrite map_get_delete_eq.
Qed.

(** ** Runs of the hook *)

Module MeshHookExamples.
Definition room : jsstr := lit "swift-wolf-7".
Definition two : json := JObj [(lit "alice", JStr (lit "Alice")); (lit "bob", JStr (lit "Bob"))].
Definition three : json :=
  JObj [(lit "alice", JStr (lit "Alice")); (lit "bob", JStr (lit "Bob")); (lit "carol", JStr (lit "Carol"))].

Lemma one_initiator_witness :
  let h := new_mesh_hook 0 in
  str_lt (lit "alice") (lit "bob") = true ∧
  will_offer room (lit "bob") h (handlePresenceMesh room (JNum 2) (Some two) (Some (lit "alice")) h) ∧
  waits_offer h (handlePresenceMesh room (JNum 2) (Some two) (Some (lit "bob")) h).
Proof.
  cbn zeta. split; [reflexivity|].
  apply (one_initiator room (lit "alice") (lit "bob") two (new_mesh_hook 0) (new_mesh_hook 0)); try done.
  intros k. unfold two. cbn. set_solver.
Defined.

(** Alice connects to Bob, and Bob leaves. *)
Definition meeting : list hook_label :=
  [HPresence room (JNum 2) (Some two) (Some (lit "alice")); HWait 500; HOffer 0;
   HMesh 0 (MResume 0 0 true); HMesh 0 (MResume 0 0 true); HResume 0 true;
   HPresence room (JNum 1) None (Some (lit "alice"))].

Lemma hook_no_leak_witness :
  ∃ h, hook_run (new_mesh_hook 0) meeting = Some h ∧ (length (mh_meshes h) = 1)%nat ∧
       ∀ r m p, mh_meshes h !! r = Some m → p ∈ m_peers m → p_pc p ≠ None → ∃ room, map_get (mh_refs h) room = Some r.
Proof.
  eexists. split; [vm_compute; reflexivity|]. split; [reflexivity|].
  refine (proj1 (hook_no_leak 0 meeting _ _ _)); [repeat constructor|vm_compute; reflexivity].
Defined.

(** How many [RTCPeerConnection]s the room's mesh holds. *)
Definition held (room : jsstr) (h : mesh_hook) : nat :=
  match room_mesh room h with
  | Some m => length (filter (λ p, p_pc p ≠ None) (m_peers m))
  | None => 0
  end.

(** The timer of an offer is not cancelled: when a third member arrives, or
    the room is left, within half a second, the offer is made all the same. *)
Theorem stale_offer_connects :
  (held room <$> hook_run (new_mesh_hook 0)
     [HPresence room (JNum 2) (Some two) (Some (lit "alice")); HWait 400;
      HPresence room (JNum 3) (Some three) (Some (lit "alice")); HWait 100; HOffer 0]) = Some 1%nat ∧
  (held room <$> hook_run (new_mesh_hook 0)
     [HPresence room (JNum 2) (Some two) (Some (lit "alice")); HWait 400; HCleanup room; HWait 100; HOffer 0]) = Some 1%nat.
Proof. split; vm_compute; reflexivity. Qed.

(** An offer that fails leaves its connection open in a mesh nobody holds. *)
Example failed_offer_leaks :
  ((λ h, (held room h, length (filter (λ p, p_pc p ≠ None) (mh_meshes h ≫= m_peers)))) <$>
     hook_run (new_mesh_hook 0)
       [HPresence room (JNum 2) (Some two) (Some (lit "alice")); HWait 500; HOffer 0; HMesh 0 (MResume 0 0 false); HResume 0 false])
  = Some (0%nat, 1%nat).
Proof. vm_compute. reflexivity. Qed.
End MeshHookExamples.
