(* ===== verification/View.v ===== *)
(** * App.jsx's room names and components/ChatView.jsx: what the view keeps

    The names the join form proposes, the countdown of a room with a time to
    live, and the canvas. Random numbers are the 32-bit integers
    [getRandomValues] gives. React runs an effect after the render that mounts
    the component, and again, after the cleanup, when a dependency changed;
    the countdown depends on [onLeave], a new function in every render of
    [App]. The rest of the view shows the state and is left out. *)

From S2P Require Import Prelude JsLib Text Json Timers Uri Rooms.

Local Open Scope Z_scope.

(** ** Names *)

Definition ADJECTIVES : list jsstr :=
  lit <$> ["swift"; "silent"; "shadow"; "neon"; "ghost"; "lunar"; "cosmic"; "cyber";
             "arctic"; "ember"; "crystal"; "iron"; "velvet"; "crimson"; "golden"; "hidden";
             "storm"; "frost"; "dark"; "wild"; "rogue"; "phantom"; "mystic"; "chrome";
             "atomic"; "blazing"; "hollow"; "vivid"; "ancient"; "static"; "turbo"; "solar"]%string.

Definition NOUNS : list jsstr :=
  lit <$> ["wolf"; "hawk"; "viper"; "fox"; "panther"; "cobra"; "raven"; "tiger";
             "falcon"; "lynx"; "orca"; "jaguar"; "phoenix"; "dragon"; "serpent"; "mantis";
             "spark"; "bolt"; "pulse"; "flare"; "drift"; "wave"; "blade"; "echo";
             "cipher"; "nexus"; "vertex"; "orbit"; "prism"; "wraith"; "spectre"; "sigma"]%string.

Definition secureRandom (r max : Z) : Z := r mod max.

Definition pick (words : list jsstr) (r : Z) : jsstr :=
  default [] (words !! Z.to_nat (secureRandom r (Z.of_nat (length words)))).

Definition generateRoomName (r1 r2 r3 : Z) : jsstr :=
  pick ADJECTIVES r1 ++ [45] ++ pick NOUNS r2 ++ [45] ++ dec_nat (secureRandom r3 1000).

(** [toUpperCase] of an ASCII letter. *)
Definition upper (c : Z) : Z := if (97 <=? c) && (c <=? 122) then c - 32 else c.

Definition generateNickname (r1 r2 : Z) : jsstr :=
  pick ADJECTIVES r1 ++ match pick NOUNS r2 with c :: s => upper c :: s | [] => [] end.

(** The room the join form starts with; [fresh] is a generated name. *)
Definition initial_room (hash fresh : jsstr) : result jsstr :=
  match split_char 47 hash with
  | (c :: roomName) :: _ :: _ => decodeURIComponent (c :: roomName)
  | _ => Ok fresh
  end.

(** [requestNotificationPermission]: what it resolves to, and whether the user is
    asked; [permission] is missing where there are no notifications. *)
Definition requestNotificationPermission (permission : option jsstr) (answer : jsstr) : jsstr * bool :=
  match permission with
  | None => (lit "unsupported", false)
  | Some p => if bool_decide (p = lit "granted") || bool_decide (p = lit "denied") then (p, false) else (answer, true)
  end.

(** ** The countdown *)

Definition TICK_MS : Z := 1000.

Definition pad2 (s : jsstr) : jsstr := match s with [] => [48; 48] | [c] => [48; c] | _ => s end.

Definition formatTimeRemaining (ms : Z) : jsstr :=
  if ms <=? 0 then lit "expired"
  else
    let totalSec := ms / 1000 in
    let h := totalSec / 3600 in
    let m := totalSec mod 3600 / 60 in
    let s := totalSec mod 60 in
    if h >? 0 then dec_nat h ++ lit "h " ++ dec_nat m ++ lit "m"
    else dec_nat m ++ [58] ++ pad2 (dec_nat s).

(** The callbacks of the effect's timers. *)
Inductive countdown_call :=
  | Forget
  | Update (expiresAt : Z).

(** [cd_left]: when [onLeave] was called, and for which expiry. [cd_crashed]:
    an effect threw, and React has taken the application down. *)
Record countdown := Countdown {
  cd_expiresAt : option Z;
  cd_timeRemaining : option Z;
  cd_timer : option nat;
  cd_clock : timers countdown_call;
  cd_left : list (Z * Z);
  cd_crashed : bool
}.

Definition new_countdown (now : Z) : countdown := Countdown None None None (timers_init now) [] false.

(** The effect. Its first [update] runs before [id] is declared: with no time
    left, [clearInterval(id)] throws a [ReferenceError] and nothing after it
    runs. *)
Definition countdown_effect (expiresAt : option Z) (s : countdown) : countdown :=
  let now := t_now (cd_clock s) in
  match expiresAt with
  | None | Some 0 =>
      let '(id, clock) := setTimeout (cd_clock s) Forget 0 in
      Countdown expiresAt (cd_timeRemaining s) (Some id) clock (cd_left s) false
  | Some e =>
      if e - now <=? 0 then Countdown expiresAt (Some (e - now)) None (cd_clock s) (cd_left s) true
      else let '(id, clock) := setTimeout (cd_clock s) (Update e) TICK_MS in
           Countdown expiresAt (Some (e - now)) (Some id) clock (cd_left s) false
  end.

(** A render that changes the dependencies: the cleanup, then the effect. *)
Definition render (expiresAt : option Z) (s : countdown) : countdown :=
  if cd_crashed s then s
  else countdown_effect expiresAt
         (Countdown (cd_expiresAt s) (cd_timeRemaining s) None (clear_opt (cd_clock s) (cd_timer s)) (cd_left s) false).

Definition countdown_fires (id : nat) (s : countdown) : option countdown :=
  call ← due (cd_clock s) id;
  let now := t_now (cd_clock s) in
  Some match call with
       | Forget =>
           Countdown (cd_expiresAt s) None (cd_timer s) (clearTimeout (cd_clock s) id) (cd_left s) (cd_crashed s)
       | Update e =>
           if e - now <=? 0
           then Countdown (cd_expiresAt s) (Some (e - now)) (cd_timer s) (clearTimeout (cd_clock s) id)
                          (cd_left s ++ [(now, e)]) (cd_crashed s)
           else Countdown (cd_expiresAt s) (Some (e - now)) (cd_timer s) (rearm (cd_clock s) id (Update e) TICK_MS)
                          (cd_left s) (cd_crashed s)
       end.

Inductive view_event := Render (expiresAt : option Z) | Fires (id : nat) | Passes (d : Z).

Definition view_do (s : countdown) (e : view_event) : option countdown :=
  match e with
  | Render expiresAt => Some (render expiresAt s)
  | Fires id => countdown_fires id s
  | Passes d =>
      if d <? 0 then None
      else Some (Countdown (cd_expiresAt s) (cd_timeRemaining s) (cd_timer s) (advance (cd_clock s) d)
                           (cd_left s) (cd_crashed s))
  end.

Definition view_run (s : countdown) (evs : list view_event) : option countdown :=
  foldl (λ o e, s ← o; view_do s e) (Some s) evs.

(** ** The canvas *)

Inductive stroke := MoveTo (x y : Z) | LineTo (x y : Z).

(** [cv_listening]: the canvas on the page has the listeners. [cv_ref] is the
    path and the segments drawn on the canvas that is there now, if any. *)
Record canvas_view := CanvasView {
  cv_visible : bool;
  cv_listening : bool;
  cv_drawing : bool;
  cv_strokes : list stroke
}.

(** The component mounts with the canvas hidden, so that [canvasRef] is null
    when the effect of [useCanvasDrawing] runs; its dependencies never change. *)
Definition canvas_effect (s : canvas_view) : canvas_view :=
  CanvasView (cv_visible s) (cv_visible s) false (cv_strokes s).

Definition mount_canvas : canvas_view := canvas_effect (CanvasView false false false []).

Inductive pointer := Toggle | Down (x y : Z) | Move (x y : Z) | Up | Clear.

Definition canvas_do (s : canvas_view) (p : pointer) : canvas_view :=
  match p with
  | Toggle => CanvasView (negb (cv_visible s)) false (cv_drawing s) []
  | Clear => CanvasView (cv_visible s) (cv_listening s) (cv_drawing s) []
  | _ =>
      if negb (cv_visible s && cv_listening s) then s
      else match p with
           | Down x y => CanvasView true true true (cv_strokes s ++ [MoveTo x y])
           | Move x y => if cv_drawing s then CanvasView true true true (cv_strokes s ++ [LineTo x y]) else s
           | _ => CanvasView true true false (cv_strokes s)
           end
  end.

(** ** Lemmas *)

(** A character of a generated name. *)
Definition name_char (c : Z) : Prop := 97 ≤ c ≤ 122 ∨ 48 ≤ c ≤ 57 ∨ c = 45.
Global Instance name_char_dec c : Decision (name_char c).
Proof. unfold name_char; apply _. Defined.

Definition short_name (n : nat) (s : jsstr) : Prop := Forall name_char s ∧ s ≠ [] ∧ (length s ≤ n)%nat.

Lemma pick_In words r : words ≠ [] → pick words r ∈ words.
Proof.
  intros Hw. unfold pick, secureRandom. destruct words as [|w ws]; [done|].
  set (l := w :: ws). assert (0 < Z.of_nat (length l)) as Hl by (cbn; lia).
  pose proof (Z.mod_pos_bound r _ Hl) as Hb.
  destruct (lookup_lt_is_Some_2 l (Z.to_nat (r mod Z.of_nat (length l)))) as [x Hx]; [lia|].
  rewrite Hx. by eapply list_elem_of_lookup_2.
Qed.

Lemma pick_short words n r : words ≠ [] → Forall (short_name n) words → short_name n (pick words r).
Proof. intros Hw Hs. rewrite Forall_forall in Hs. by apply Hs, pick_In. Qed.

Lemma words_short : Forall (short_name 7) ADJECTIVES ∧ Forall (short_name 7) NOUNS.
Proof. unfold short_name. decided. Qed.

Lemma number_short r : short_name 3 (dec_nat (secureRandom r 1000)).
Proof.
  assert (Forall (λ n, short_name 3 (dec_nat (Z.of_nat n))) (seq 0 1000)) as Hall by (unfold short_name; decided).
  rewrite Forall_forall in Hall. unfold secureRandom. pose proof (Z.mod_pos_bound r 1000) as Hb.
  rewrite <- (Z2Nat.id (r mod 1000)) by lia. apply Hall, elem_of_seq. lia.
Qed.

Lemma generated_short r1 r2 r3 : short_name 19 (generateRoomName r1 r2 r3).
Proof.
  destruct (pick_short ADJECTIVES 7 r1) as (H1 & H2 & H3); [done|apply words_short|].
  destruct (pick_short NOUNS 7 r2) as (K1 & K2 & K3); [done|apply words_short|].
  destruct (number_short r3) as (L1 & L2 & L3). unfold generateRoomName. split_and!.
  - repeat (apply Forall_app; split); try done; constructor; [right; by right|constructor|right; by right|constructor].
  - by destruct (pick ADJECTIVES r1).
  - rewrite !length_app. cbn [length]. lia.
Qed.

Lemma trim_start_id s : Forall name_char s → trim_start s = s.
Proof.
  intros H. destruct H as [|c s H _]; [done|]. cbn. replace (js_space c) with false; [done|].
  unfold js_space, name_char in *. symmetry. repeat (apply orb_false_iff; split); cbn; try lia.
Qed.

Lemma trim_id s : Forall name_char s → trim s = s.
Proof.
  intros H. unfold trim. rewrite (trim_start_id s) by done. rewrite trim_start_id; [apply rev_involutive|].
  by apply Forall_rev.
Qed.

Lemma name_char_unreserved c : name_char c → uri_unreserved c = true.
Proof.
  unfold name_char, uri_unreserved. intros H. cbn. lia.
Qed.

(** A generated name stands in a link as it is. *)
Lemma encode_name s : Forall name_char s → encodeURIComponent s = Ok s.
Proof.
  intros H. assert (Forall is_ascii s) as Ha by (eapply Forall_impl; [exact H|]; unfold name_char, is_ascii; lia).
  unfold encodeURIComponent, TextEncoder_encode.
  assert (usv s = s ∧ isWellFormed s = true) as [Hu ->].
  { clear H. induction Ha as [|c s Hc _ [IH1 IH2]]; [done|]. cbn. unfold is_ascii in Hc.
    replace (is_high c) with false by (unfold is_high; lia). replace (is_low c) with false by (unfold is_low; lia).
    by rewrite IH1, IH2. }
  rewrite Hu. f_equal. clear Hu Ha. induction H as [|c s Hc _ IH]; [done|]. cbn.
  unfold utf8 at 1. replace (c <? 128) with true by (unfold name_char in Hc; lia). cbn.
  rewrite name_char_unreserved by done. cbn. by rewrite IH.
Qed.

Record countdown_inv (s : countdown) : Prop := {
  ci_clock : timers_wf (cd_clock s);
  ci_owned : ∀ id p, map_get (t_pending (cd_clock s)) id = Some p → cd_timer s = Some id;
  ci_left : Forall (λ x, x.2 ≤ x.1) (cd_left s);
  ci_counting : ∀ e, cd_crashed s = false → cd_expiresAt s = Some e → e ≠ 0 →
    (∃ t, (t, e) ∈ cd_left s) ∨
    ∃ id t, map_get (t_pending (cd_clock s)) id = Some (t, Update e) ∧ t ≤ t_now (cd_clock s) + TICK_MS;
  ci_crashed : cd_crashed s = true →
    cd_timer s = None ∧ ∃ e, cd_expiresAt s = Some e ∧ e ≤ t_now (cd_clock s)
}.

Lemma clear_opt_now {A} (c : timers A) h : t_now (clear_opt c h) = t_now c.
Proof. by destruct h. Qed.

(** Starting over from a clock where nothing is pending. *)
Lemma effect_inv expiresAt s :
  timers_wf (cd_clock s) → (∀ id, map_get (t_pending (cd_clock s)) id = None) → cd_crashed s = false →
  Forall (λ x, x.2 ≤ x.1) (cd_left s) → countdown_inv (countdown_effect expiresAt s).
Proof.
  intros Hw Hn Hc Hl. unfold countdown_effect.
  assert (∀ call d, timers_wf (setTimeout (cd_clock s) call d).2) as Hs by (intros; by apply timers_wf_set).
  assert (∀ call d id p, map_get (t_pending (setTimeout (cd_clock s) call d).2) id = Some p →
    Some (t_next (cd_clock s)) = Some id) as Ho.
  { intros call d id p [[-> _]|[_ Hp]]%pending_setTimeout; [done|]. by rewrite Hn in Hp. }
  destruct (decide (default 0 expiresAt = 0)) as [E0|E0].
  - assert (∀ (A : Type) (x : A) f, match expiresAt with None | Some 0 => x | Some e => f e end = x) as ->
      by (intros; destruct expiresAt as [[]|]; done).
    specialize (Hs Forget 0). specialize (Ho Forget 0). cbn in Hs, Ho |- *. split; cbn; try done.
    intros e _ -> Hz. by cbn in E0.
  - destruct expiresAt as [e|]; [|done]. cbn in E0.
    replace (match e with 0 => _ | _ => _ end) with
      (if e - t_now (cd_clock s) <=? 0
       then Countdown (Some e) (Some (e - t_now (cd_clock s))) None (cd_clock s) (cd_left s) true
       else let '(id, clock) := setTimeout (cd_clock s) (Update e) TICK_MS in
            Countdown (Some e) (Some (e - t_now (cd_clock s))) (Some id) clock (cd_left s) false)
      by (destruct e; done).
    destruct (e - t_now (cd_clock s) <=? 0) eqn:E.
    + split; cbn; try done.
      * intros id p Hp. by rewrite Hn in Hp.
      * intros _. split; [done|]. exists e. split; [done|]. apply Z.leb_le in E. lia.
    + specialize (Hs (Update e) TICK_MS). specialize (Ho (Update e) TICK_MS). cbn in Hs, Ho |- *. split; cbn; try done.
      intros e' _ [= <-] _. right. exists (t_next (cd_clock s)), (t_now (cd_clock s) + TICK_MS).
      split; [apply map_get_set_eq|lia].
Qed.

Lemma render_inv expiresAt s : countdown_inv s → countdown_inv (render expiresAt s).
Proof.
  intros Hi. unfold render. destruct (cd_crashed s) eqn:E; [done|]. destruct Hi as [H1 H2 H3 H4 H5].
  apply effect_inv; cbn; [by apply timers_wf_clear_opt| |done|done].
  intros id. destruct (map_get _ id) as [p|] eqn:Hp; [|done]. apply pending_clear_opt in Hp as [Hne Hp]; [|done].
  by apply H2 in Hp.
Qed.

Lemma fires_inv id s s' : countdown_inv s → countdown_fires id s = Some s' → countdown_inv s'.
Proof.
  intros [H1 H2 H3 H4 H5] E. apply bind_Some in E as (call & (t & Hp & Ht)%due_Some & [= <-]).
  apply H2 in Hp as Htm. destruct (cd_crashed s) eqn:Ec; [destruct H5 as [Hno _]; [done|congruence]|].
  assert (∀ id' p, map_get (t_pending (clearTimeout (cd_clock s) id)) id' = Some p → cd_timer s = Some id') as Hcl.
  { intros id' p [Hne Hp']%pending_clear; [|done]. by apply H2 in Hp'. }
  assert (∀ e, cd_expiresAt s = Some e → e ≠ 0 → (∃ t, (t, e) ∈ cd_left s) ∨ call = Update e) as Hk.
  { intros e He Hz. destruct (H4 e eq_refl He Hz) as [Hl|(id' & t' & Hp' & _)]; [by left|right].
    apply H2 in Hp' as Htm'. rewrite Htm in Htm'. injection Htm' as ->. congruence. }
  destruct call as [|e]; [|destruct (e - _ <=? 0) eqn:Ee]; split; cbn; try done; try (by apply timers_wf_clear).
  - intros e _ He Hz. destruct (Hk e He Hz); [by left|done].
  - apply Forall_snoc; [done|]. cbn. apply Z.leb_le in Ee. lia.
  - intros e' _ He Hz. left. destruct (Hk e' He Hz) as [[t' Hl]|[= ->]].
    + exists t'. apply elem_of_app. by left.
    + eexists. apply elem_of_app. right. by apply list_elem_of_singleton.
  - by eapply timers_wf_rearm.
  - intros id' p [[-> _]|[_ Hp']]%(pending_rearm (cd_clock s)); [done|]. by apply H2 in Hp'.
  - intros e' _ He Hz. destruct (Hk e' He Hz) as [Hl|[= ->]]; [by left|right].
    exists id, (t_now (cd_clock s) + TICK_MS). split; [apply map_get_set_eq|lia].
Qed.

Lemma view_inv s e s' : countdown_inv s → view_do s e = Some s' → countdown_inv s'.
Proof.
  intros Hi. destruct e as [expiresAt|id|d]; cbn [view_do].
  - intros [= <-]. by apply render_inv.
  - by apply fires_inv.
  - destruct (d <? 0) eqn:E; [done|]. intros [= <-]. apply Z.ltb_ge in E. destruct Hi as [H1 H2 H3 H4 H5].
    split; cbn; try done.
    + intros e Hc He Hz. destruct (H4 e Hc He Hz) as [Hl|(id & t & Hp & Ht)]; [by left|right].
      exists id, t. split; [done|lia].
    + intros Hc. destruct (H5 Hc) as (Hn & e & He & Hle). split; [done|]. exists e. split; [done|lia].
Qed.

Lemma view_run_inv s evs s' : countdown_inv s → view_run s evs = Some s' → countdown_inv s'.
Proof.
  intros Hi. revert s'. induction evs as [|e evs IH] using rev_ind; intros s'; [by intros [= <-]|].
  unfold view_run. rewrite foldl_snoc. intros (s1 & H1 & H2)%bind_Some. eapply view_inv; [by apply IH|done].
Qed.

Lemma new_countdown_inv now : countdown_inv (new_countdown now).
Proof. split; cbn; try done. apply timers_wf_init. Qed.

(** ** Properties *)

(** C39: a room with a time to live is left when its time is up: never before,
    and, as long as no render took the application down, by the next tick,
    which is at most a second away. A crash leaves no timer behind, so that
    nobody leaves the room any more. *)
Theorem countdown_leaves now evs s e :
  view_run (new_countdown now) evs = Some s → cd_expiresAt s = Some e → e ≠ 0 →
  Forall (λ x, x.2 ≤ x.1) (cd_left s) ∧
  if cd_crashed s then e ≤ t_now (cd_clock s) ∧ ∀ id, map_get (t_pending (cd_clock s)) id = None
  else (∃ t, (t, e) ∈ cd_left s) ∨
    ∃ id t, map_get (t_pending (cd_clock s)) id = Some (t, Update e) ∧ t ≤ t_now (cd_clock s) + TICK_MS ∧
      ∀ d, 0 ≤ d → t ≤ t_now (cd_clock s) + d → e ≤ t_now (cd_clock s) + d →
        ∃ s', (view_do s (Passes d) ≫= λ s, view_do s (Fires id)) = Some s' ∧
          (t_now (cd_clock s) + d, e) ∈ cd_left s'.
Proof.
  intros Hr He Hz. apply view_run_inv in Hr as [H1 H2 H3 H4 H5]; [|apply new_countdown_inv]. split; [done|].
  destruct (cd_crashed s) eqn:Ec.
  - destruct (H5 eq_refl) as (Hn & e' & He' & Hle). split; [congruence|].
    intros id. destruct (map_get _ id) as [p|] eqn:Hp; [|done]. apply H2 in Hp. congruence.
  - destruct (H4 e eq_refl He Hz) as [Hl|(id & t & Hp & Ht)]; [by left|right]. exists id, t. split_and!; [done..|].
    intros d Hd Htd Hed. cbn. replace (d <? 0) with false by lia. cbn. unfold countdown_fires, due. cbn.
    rewrite Hp, bool_decide_true by done. cbn. replace (e - (t_now (cd_clock s) + d) <=? 0) with true by lia.
    eexists. split; [done|]. cbn. apply elem_of_app. right. by apply list_elem_of_singleton.
Qed.

(** The canvas a user shares is blank. The listeners are looked for when the
    chat opens, when there is no canvas yet, and never again: whatever the
    user does with the pointer, nothing is drawn. *)
Theorem shared_canvas_blank ps : cv_strokes (foldl canvas_do mount_canvas ps) = [].
Proof.
  assert (∀ s, cv_listening s = false → cv_strokes s = [] →
    cv_listening (foldl canvas_do s ps) = false ∧ cv_strokes (foldl canvas_do s ps) = []) as H; [|by apply H].
  induction ps as [|p ps IH]; intros s H1 H2; cbn [foldl]; [done|].
  apply IH; destruct p; cbn; rewrite ?H1, ?andb_false_r; done.
Qed.

(** A name the join form proposes can be joined and shared. It passes the
    form's checks unchanged, it stands in a link as it is, and the form of
    whoever opens the link starts with it. *)
Theorem generated_room_joins r1 r2 r3 exported fresh :
  let name := generateRoomName r1 r2 r3 in
  trim name = name ∧ name ≠ [] ∧ (length name ≤ MAX_ROOM_NAME_LEN)%nat ∧
  link_hash name exported = Ok (name ++ [47] ++ exported) ∧
  initial_room (name ++ [47] ++ exported) fresh = Ok name.
Proof.
  destruct (generated_short r1 r2 r3) as (H1 & H2 & H3). cbn zeta. set (name := generateRoomName r1 r2 r3) in *.
  pose proof (encode_name name H1) as He. split_and!.
  - by apply trim_id.
  - done.
  - unfold MAX_ROOM_NAME_LEN. lia.
  - unfold link_hash. by rewrite He.
  - unfold initial_room. cbn [app]. rewrite split_char_app.
    + destruct (split_char_head exported) as [rest ->]. destruct name as [|c name]; [done|].
      apply decodeURIComponent_encode; [|done]. eapply Forall_impl; [exact H1|]. unfold name_char, is_unit. lia.
    + intros Hin. rewrite Forall_forall in H1. apply H1 in Hin. unfold name_char in Hin. lia.
Qed.

Module ViewExamples.
Definition ticking : list view_event := [Render (Some 1500); Passes 1000; Fires 0].

Definition waiting : countdown :=
  Countdown (Some 1500) (Some 500) (Some 0%nat) (Timers 1000 1 [(0%nat, (2000, Update 1500))]) [] false.

Lemma countdown_leaves_witness :
  view_run (new_countdown 0) ticking = Some waiting ∧
  ∃ s', (view_do waiting (Passes 1000) ≫= λ s, view_do s (Fires 0)) = Some s' ∧ (2000, 1500) ∈ cd_left s'.
Proof.
  split; [reflexivity|].
  destruct (countdown_leaves 0 ticking waiting 1500 eq_refl eq_refl) as [_ H]; [lia|]. cbn in H.
  destruct H as [[t H]|(id & t & Hp & Ht & H)]; [by apply not_elem_of_nil in H|].
  case_decide as Ei; [|discriminate Hp]. injection Hp as <-. subst id.
  destruct (H 1000) as (s' & Hs' & Hl); [lia..|]. exists s'. split; [exact Hs'|exact Hl].
Defined.

(** A render after a room has expired and before the next tick, when a
    message comes in for instance, takes the application down, and the room is
    not left. *)
Theorem late_render_crashes :
  ∃ s, view_run (new_countdown 0) (ticking ++ [Passes 600; Render (Some 1500)]) = Some s ∧
    cd_crashed s = true ∧ cd_left s = [] ∧ t_pending (cd_clock s) = [].
Proof. eexists. split; [reflexivity|]. split_and!; reflexivity. Qed.

Example shown_times :
  formatTimeRemaining <$> [0; 999; 65000; 3599999; 3661000] =
  [lit "expired"; lit "0:00"; lit "1:05"; lit "59:59"; lit "1h 1m"].
Proof. vm_compute. reflexivity. Qed.

Example a_name : generateRoomName 0 32 1999 = lit "swift-wolf-999" ∧ generateNickname 1 1 = lit "silentHawk".
Proof. split; vm_compute; reflexivity. Qed.
End ViewExamples.
