(* ===== verification/CallManager.v ===== *)
(** * hooks/useCallManager.js: voice and video calls

    [cm_now] is the React state, [cm_seen] the state of the last render: the
    callbacks close over the latter, [commit_call] makes it the former. Tracks
    are mutable objects, a stream is a list of references into the heap
    [cm_tracks]. A call suspended at [getUserMedia] is a [request]; the
    platform answers it. The client and the meshes are the ones the rest of
    the application uses. The browser's notification and the element that plays
    the local stream are functions of that state, which does not depend on
    them. *)

From S2P Require Import Prelude JsLib Json Typing Client WebRTC MeshHook.

Inductive track_kind := Audio | Video.

Global Instance track_kind_eq_dec : EqDecision track_kind.
Proof. solve_decision. Defined.

Record track := Track { tk_kind : track_kind; tk_enabled : bool; tk_live : bool }.

Record call_state := CallState {
  cs_active : bool;
  cs_type : option json;
  cs_local : option (list nat);
  cs_remote : list (jsstr * list nat);
  cs_muted : bool;
  cs_videoOff : bool
}.

Definition no_call : call_state := CallState false None None [] false false.

(** A call of [startCall] or [handleIncomingCall] waiting for the devices. *)
Inductive request :=
  | Starting (room : jsstr) (type : json)
  | Joining (room : jsstr) (type : json).

Record call_manager := CallManager {
  cm_now : call_state;
  cm_seen : call_state;
  cm_tracks : list track;
  cm_requests : list (option request);
  cm_alerts : list jsstr
}.

Definition new_call_manager : call_manager := CallManager no_call no_call [] [] [].

Definition set_call (s : call_state) (m : call_manager) : call_manager :=
  CallManager s (cm_seen m) (cm_tracks m) (cm_requests m) (cm_alerts m).
Definition set_media (tracks : list track) (m : call_manager) : call_manager :=
  CallManager (cm_now m) (cm_seen m) tracks (cm_requests m) (cm_alerts m).
Definition set_requests (rs : list (option request)) (m : call_manager) : call_manager :=
  CallManager (cm_now m) (cm_seen m) (cm_tracks m) rs (cm_alerts m).
Definition alert (msg : jsstr) (m : call_manager) : call_manager :=
  CallManager (cm_now m) (cm_seen m) (cm_tracks m) (cm_requests m) (cm_alerts m ++ [msg]).
Definition commit_call (m : call_manager) : call_manager :=
  CallManager (cm_now m) (cm_now m) (cm_tracks m) (cm_requests m) (cm_alerts m).

(** ** Devices *)

(** How [getUserMedia] ends: with a stream, missing, or with an error. *)
Inductive media_answer :=
  | Granted
  | NoMediaDevices
  | MediaError (name message : jsstr).

Definition is_video (type : json) : bool := is_str (Some type) (lit "video").

(** The message of the error [requestMediaPermissions] throws. *)
Definition media_error (type : json) (answer : media_answer) : jsstr :=
  match answer with
  | Granted => []
  | NoMediaDevices => lit "Media devices not available. Ensure you are using HTTPS or localhost."
  | MediaError name message =>
      if includes [lit "NotAllowedError"; lit "PermissionDeniedError"] name then
        if is_video type
        then lit "Camera and microphone access was denied. Click the lock icon in your address bar to allow access, then try again."
        else lit "Microphone access was denied. Click the lock icon in your address bar to allow access, then try again."
      else if includes [lit "NotFoundError"; lit "DevicesNotFoundError"] name then
        if is_video type then lit "No camera or microphone found. Please connect a device and try again."
        else lit "No microphone found. Please connect one and try again."
      else if includes [lit "NotReadableError"; lit "TrackStartError"] name then
        lit "Your media device is already in use by another application."
      else message
  end.

(** The stream's tracks, and the heap that holds them. *)
Definition new_stream (type : json) (m : call_manager) : list nat * call_manager :=
  let kinds := Audio :: (if is_video type then [Video] else []) in
  (seq (length (cm_tracks m)) (length kinds),
   set_media (cm_tracks m ++ ((λ k, Track k true true) <$> kinds)) m).

Definition stop_track (t : track) : track := Track (tk_kind t) (tk_enabled t) false.

Definition stop_tracks (refs : list nat) (m : call_manager) : call_manager :=
  set_media (fold_left (λ ts r, alter stop_track r ts) refs (cm_tracks m)) m.

(** ** Calls *)

Definition call_payload (type : json) : option json :=
  Some (JStr (JSON_stringify (JObj [(lit "callType", type)]))).

(** [setLocalStream], [setCallActive] and [setCallType] of an answered request. *)
Definition in_call (type : json) (stream : list nat) (s : call_state) : call_state :=
  CallState true (Some type) (Some stream) (cs_remote s) (cs_muted s) (cs_videoOff s).

(** [mesh.broadcastStream(stream)] of the room's mesh, if it has one: whether
    it was fulfilled, too. *)
Definition broadcast_to (room : jsstr) (stream : list nat) (h : mesh_hook) : bool * mesh_hook :=
  match map_get (mh_refs h) room with
  | Some r =>
      match mh_meshes h !! r with
      | Some ms => ((broadcastStream stream ms).1, at_mesh r (λ ms, (broadcastStream stream ms).2) h)
      | None => (true, h)
      end
  | None => (true, h)
  end.

(** ** The local video *)

(** The element that plays the local stream is on the page during a call;
    inside, its [srcObject]. A commit mounts or unmounts it, and then the effect
    runs, if the stream is another one than before. *)
Abbreviation video_element := (option (option (list nat))).

Definition mount_video (s : call_state) (el : video_element) : video_element :=
  if cs_active s then Some (default None el) else None.

Definition video_effect (seen s : call_state) (el : video_element) : video_element :=
  if decide (cs_local s = cs_local seen) then el
  else match cs_local s, el with Some stream, Some _ => Some (Some stream) | _, _ => el end.

Definition commit_video (seen s : call_state) (el : video_element) : video_element :=
  video_effect seen s (mount_video s el).

(** The element plays the local stream. *)
Definition plays (s : call_state) (el : video_element) : Prop :=
  ∀ stream, cs_active s = true → cs_local s = Some stream → el = Some (Some stream).

Section Calls.
(** [twice_error] is the platform's message when a track is added twice. *)
Context (randomUUID : nat → jsstr) (twice_error : jsstr).

Definition send_if_connected (type room : jsstr) (payload : option json) (c : client) : client :=
  if connected c then (Client.send randomUUID type room payload None c).2 else c.

Definition startCall (activeRoom : jsstr) (type : json) (m : call_manager) : call_manager :=
  if cs_active (cm_seen m) || str_empty activeRoom then m
  else set_requests (cm_requests m ++ [Some (Starting activeRoom type)]) m.

Definition endCall (activeRoom : jsstr) (m : call_manager) (c : client) (h : mesh_hook)
    : call_manager * client * mesh_hook :=
  let s := cm_seen m in
  let m := match cs_local s with
           | Some stream =>
               let m := stop_tracks stream m in
               set_call (CallState (cs_active (cm_now m)) (cs_type (cm_now m)) None (cs_remote (cm_now m))
                                   (cs_muted (cm_now m)) (cs_videoOff (cm_now m))) m
           | None => m
           end in
  let h := fold_left (λ h r, at_mesh r removeAllStreams h) (map_values (mh_refs h)) h in
  let c := if str_empty activeRoom then c else send_if_connected (lit "call_end") activeRoom (Some JNull) c in
  let m := fold_left (λ m stream, stop_tracks stream m) (map_values (cs_remote s)) m in
  (set_call (CallState false None (cs_local (cm_now m)) [] false false) m, c, h).

(** The type an offer's payload names. *)
Definition incoming_type (payload : option json) : json :=
  match payload_value payload with
  | Ok (Some p) => if truthy (json_get p (lit "callType")) then default JNull (json_get p (lit "callType"))
                   else JStr (lit "audio")
  | _ => JStr (lit "audio")
  end.

(** The notification of an incoming call, where the user allows them: its title,
    its text and its tag. *)
Definition incoming_notification (permission room : jsstr) (type : json) : option (jsstr * jsstr * jsstr) :=
  if bool_decide (permission = lit "granted")
  then Some (lit "Incoming call", lit (if is_video type then "Video" else "Voice") ++ lit " call in " ++ room, lit "incoming-call")
  else None.

Definition handleIncomingCall (room : jsstr) (payload : option json) (m : call_manager) : call_manager :=
  set_requests (cm_requests m ++ [Some (Joining room (incoming_type payload))]) m.

(** [err.message || fallback]. *)
Definition media_answered (i : nat) (answer : media_answer) (m : call_manager) (c : client) (h : mesh_hook)
    : option (call_manager * client * mesh_hook) :=
  match cm_requests m !! i with
  | Some (Some r) =>
      let m := set_requests (<[i := None]> (cm_requests m)) m in
      let '(room, type) := match r with Starting room type | Joining room type => (room, type) end in
      let fallback := match r with
                      | Starting _ _ => lit "Failed to start call"
                      | Joining _ _ => lit "Failed to answer call " ++ [8212%Z] ++ lit " check your device permissions"
                      end in
      Some match answer with
           | Granted =>
               let '(stream, m) := new_stream type m in
               let m := set_call (in_call type stream (cm_now m)) m in
               match r with
               | Starting _ _ =>
                   let c := send_if_connected (lit "call_offer") room (call_payload type) c in
                   let '(ok, h) := broadcast_to room stream h in
                   (if ok then m else alert twice_error m, c, h)
               | Joining _ _ =>
                   let '(ok, h) := broadcast_to room stream h in
                   if ok then (m, send_if_connected (lit "call_answer") room (call_payload type) c, h)
                   else (alert twice_error m, c, h)
               end
           | _ => (alert (str_or (media_error type answer) fallback) m, c, h)
           end
  | _ => None
  end.
End Calls.

(** A peer's stream arrives. *)
Definition setRemoteStream (pid : jsstr) (stream : list nat) (m : call_manager) : call_manager :=
  let s := cm_now m in
  set_call (CallState (cs_active s) (cs_type s) (cs_local s) (map_set (cs_remote s) pid stream)
                      (cs_muted s) (cs_videoOff s)) m.

Definition toggle_track (t : track) : track := Track (tk_kind t) (negb (tk_enabled t)) (tk_live t).

(** The first track of a kind the local stream has. *)
Definition first_track (k : track_kind) (m : call_manager) : option nat :=
  stream ← cs_local (cm_seen m);
  head (filter (λ r, tk_kind <$> cm_tracks m !! r = Some k) stream).

Definition toggleMute (m : call_manager) : call_manager :=
  match first_track Audio m with
  | Some r =>
      let m := set_media (alter toggle_track r (cm_tracks m)) m in
      let s := cm_now m in
      set_call (CallState (cs_active s) (cs_type s) (cs_local s) (cs_remote s)
                          (negb (default false (tk_enabled <$> cm_tracks m !! r))) (cs_videoOff s)) m
  | None => m
  end.

Definition toggleVideo (m : call_manager) : call_manager :=
  match first_track Video m with
  | Some r =>
      let m := set_media (alter toggle_track r (cm_tracks m)) m in
      let s := cm_now m in
      set_call (CallState (cs_active s) (cs_type s) (cs_local s) (cs_remote s)
                          (cs_muted s) (negb (default false (tk_enabled <$> cm_tracks m !! r)))) m
  | None => m
  end.

(** ** Ending a call *)

Lemma stop_tracks_lookup refs m r :
  cm_tracks (stop_tracks refs m) !! r =
  (if decide (r ∈ refs) then stop_track <$> cm_tracks m !! r else cm_tracks m !! r).
Proof.
  unfold stop_tracks. cbn. generalize (cm_tracks m). clear m. induction refs as [|r' refs IH]; intros ts; [done|].
  cbn [fold_left]. rewrite IH. destruct (decide (r = r')) as [->|Hne].
  - rewrite list_lookup_alter_eq. rewrite (decide_True (P := r' ∈ r' :: refs)) by set_solver.
    case_decide; [|done]. by destruct (ts !! r').
  - rewrite list_lookup_alter_ne by done. repeat case_decide; set_solver.
Qed.

Lemma stop_streams_lookup streams m r :
  cm_tracks (fold_left (λ m s, stop_tracks s m) streams m) !! r =
  (if decide (r ∈ mjoin streams) then stop_track <$> cm_tracks m !! r else cm_tracks m !! r).
Proof.
  revert m. induction streams as [|s streams IH]; intros m; [done|]. cbn [fold_left mjoin list_join].
  rewrite IH, stop_tracks_lookup. destruct (decide (r ∈ s)) as [H1|H1], (decide (r ∈ mjoin streams)) as [H2|H2].
  - rewrite decide_True by (apply elem_of_app; by left). by destruct (cm_tracks m !! r).
  - rewrite decide_True by (apply elem_of_app; by left). done.
  - rewrite decide_True by (apply elem_of_app; by right). done.
  - rewrite decide_False; [done|]. by intros [?|?]%elem_of_app.
Qed.

Lemma stop_streams_frame streams m :
  cm_now (fold_left (λ m s, stop_tracks s m) streams m) = cm_now m ∧
  cm_seen (fold_left (λ m s, stop_tracks s m) streams m) = cm_seen m ∧
  cm_requests (fold_left (λ m s, stop_tracks s m) streams m) = cm_requests m.
Proof. revert m. induction streams as [|s streams IH]; intros m; [done|]. cbn. apply (IH (stop_tracks s m)). Qed.

(** The tracks of the call: ours and the peers'. *)
Definition call_tracks (s : call_state) : list nat := default [] (cs_local s) ++ mjoin (map_values (cs_remote s)).

(** The element goes on playing the local stream, when no call starts without a stream of its own. *)
Lemma commit_video_plays seen s el :
  (cs_active seen = false → cs_active s = true → cs_local s ≠ cs_local seen) → plays seen el → plays s (commit_video seen s el).
Proof.
  intros Hnew Hp stream Ha Hl. unfold commit_video, video_effect, mount_video. rewrite Ha, Hl.
  case_decide as E; [|done]. destruct (cs_active seen) eqn:Es; [|by destruct (Hnew eq_refl Ha); rewrite Hl].
  by rewrite (Hp stream Es (eq_sym E)).
Qed.

Section CallFacts.
Context (randomUUID : nat → jsstr).

Lemma send_connected type room payload c :
  type ≠ lit "join" → type ≠ lit "leave" → connected c = true →
  ∃ s msg, open_ws c = Some s ∧ cl_log (Client.send randomUUID type room payload None c).2 = cl_log c ++ [WsSend s msg] ∧
    open_ws (Client.send randomUUID type room payload None c).2 = Some s ∧
    msg = message (randomUUID (cl_uuids c)) (randomUUID (S (cl_uuids c))) type room payload (cl_now c).
Proof.
  intros Hj Hl Hc. unfold connected in Hc. apply bool_decide_eq_true in Hc as [s Hs].
  unfold Client.send, track_room. rewrite !bool_decide_false by done.
  change (open_ws (draw_uuids 2 c)) with (open_ws c). rewrite Hs.
  exists s. eexists. split_and!; [done|reflexivity|exact Hs|reflexivity].
Qed.

(** [endCall] stops every track of the call it was rendered with, ours and
    the peers', forgets the call, and tells the room, whether or not there was
    a call. *)
Theorem endCall_spec room m c h :
  cm_seen m = cm_now m → room ≠ [] → connected c = true →
  let '(m', c', h') := endCall randomUUID room m c h in
  (∀ r t, cm_tracks m' !! r = Some t → r ∈ call_tracks (cm_now m) → tk_live t = false) ∧
  (∀ r, r ∉ call_tracks (cm_now m) → cm_tracks m' !! r = cm_tracks m !! r) ∧
  cm_now m' = no_call ∧
  (∃ s msg, open_ws c = Some s ∧ cl_log c' = cl_log c ++ [WsSend s msg] ∧
     msg = message (randomUUID (cl_uuids c)) (randomUUID (S (cl_uuids c))) (lit "call_end") room (Some JNull) (cl_now c)).
Proof.
  intros Hseen Hroom Hc. unfold endCall. rewrite Hseen. set (s := cm_now m).
  set (m1 := match cs_local s with Some _ => _ | None => m end).
  assert ((∀ r, cm_tracks m1 !! r = if decide (r ∈ default [] (cs_local s)) then stop_track <$> cm_tracks m !! r else cm_tracks m !! r) ∧
          cs_local (cm_now m1) = None) as [H1 Hl1].
  { unfold m1. destruct (cs_local s) as [stream|] eqn:E; cbn [default].
    - split; [|done]. intros r. apply (stop_tracks_lookup stream m).
    - split; [done|exact E]. }
  destruct (stop_streams_frame (map_values (cs_remote s)) m1) as (Hnow & _ & _).
  assert (∀ r, cm_tracks (fold_left (λ m s, stop_tracks s m) (map_values (cs_remote s)) m1) !! r =
    if decide (r ∈ call_tracks s) then stop_track <$> cm_tracks m !! r else cm_tracks m !! r) as Htr.
  { intros r. rewrite stop_streams_lookup, H1. unfold call_tracks.
    destruct (decide (r ∈ default [] (cs_local s))) as [D1|D1], (decide (r ∈ mjoin (map_values (cs_remote s)))) as [D2|D2].
    - rewrite decide_True by (apply elem_of_app; by left). by destruct (cm_tracks m !! r).
    - by rewrite decide_True by (apply elem_of_app; by left).
    - by rewrite decide_True by (apply elem_of_app; by right).
    - rewrite decide_False; [done|]. by intros [?|?]%elem_of_app. }
  split_and!.
  - intros r t Ht Hr. cbn [cm_tracks set_call] in Ht. rewrite Htr, decide_True in Ht by done.
    by apply fmap_Some in Ht as (u & _ & ->).
  - intros r Hr. cbn [cm_tracks set_call]. by rewrite Htr, decide_False.
  - cbn [cm_now set_call]. rewrite Hnow, Hl1. done.
  - destruct room as [|ch room]; [done|]. cbn [str_empty]. unfold send_if_connected. rewrite Hc.
    destruct (send_connected (lit "call_end") (ch :: room) (Some JNull) c) as (sk & msg & E1 & E2 & _ & E3); [done..|].
    by exists sk, msg.
Qed.

(** Two members of a room, each ending the call when the other's ['call_end']
    arrives: [n] rounds. *)
Fixpoint rounds (n : nat) (room : jsstr) (a b : call_manager * client * mesh_hook)
    : (call_manager * client * mesh_hook) * (call_manager * client * mesh_hook) :=
  match n with
  | 0 => (a, b)
  | S n =>
      let a := endCall randomUUID room a.1.1 a.1.2 a.2 in
      let b := endCall randomUUID room b.1.1 b.1.2 b.2 in
      rounds n room (commit_call a.1.1, a.1.2, a.2) (commit_call b.1.1, b.1.2, b.2)
  end.

Definition is_send (e : effect) : bool := match e with WsSend _ _ => true | _ => false end.
Definition sends (c : client) : nat := length (filter (λ e, is_send e = true) (cl_log c)).

Lemma endCall_sends room m c h :
  room ≠ [] → connected c = true →
  sends (endCall randomUUID room m c h).1.2 = S (sends c) ∧ connected (endCall randomUUID room m c h).1.2 = true.
Proof.
  intros Hroom Hc. unfold endCall. destruct room as [|ch room]; [done|]. cbn [str_empty fst snd].
  unfold send_if_connected. rewrite Hc.
  destruct (send_connected (lit "call_end") (ch :: room) (Some JNull) c) as (s & msg & _ & E & Ho & _); [done..|].
  split; [unfold sends; rewrite E, filter_app, length_app;
    change (length (filter (λ e, is_send e = true) [WsSend s msg])) with 1%nat; lia|].
  unfold connected. apply bool_decide_eq_true. by eexists.
Qed.

(** A call that is ended never stops being ended: each ['call_end'] a
    member receives makes it send another, so after any number of rounds both
    have sent one more for each. *)
Theorem call_end_storm n room a b :
  room ≠ [] → connected a.1.2 = true → connected b.1.2 = true →
  let '(a', b') := rounds n room a b in
  sends a'.1.2 = (n + sends a.1.2)%nat ∧ sends b'.1.2 = (n + sends b.1.2)%nat ∧
  connected a'.1.2 = true ∧ connected b'.1.2 = true.
Proof.
  intros Hroom. revert a b. induction n as [|n IH]; intros [[ma ca] ha] [[mb cb] hb] Ha Hb; [done|]. cbn [rounds fst snd] in *.
  destruct (endCall_sends room ma ca ha) as [Sa Ca]; [done..|]. destruct (endCall_sends room mb cb hb) as [Sb Cb]; [done..|].
  set (a1 := endCall randomUUID room ma ca ha) in *. set (b1 := endCall randomUUID room mb cb hb) in *.
  specialize (IH (commit_call a1.1.1, a1.1.2, a1.2) (commit_call b1.1.1, b1.1.2, b1.2) Ca Cb).
  destruct (rounds n room _ _) as [a' b']. cbn [fst snd] in IH. destruct IH as (E1 & E2 & E3 & E4).
  split_and!; [lia|lia|done|done].
Qed.
End CallFacts.

(** ** Runs *)

Module CallExamples.
Definition uuid (n : nat) : jsstr := lit "u" ++ dec_nat (Z.of_nat n).
Definition room : jsstr := lit "swift-wolf-7".

Definition online : client :=
  default (new_client 0) (cl_run uuid (new_client 0) [CConnect; COpen 0; CSend (lit "join") room None None]).

(** A video call, as rendered. *)
Definition calling : call_manager :=
  commit_call (setRemoteStream (lit "bob") [2%nat] (set_media (Track Audio true true :: Track Video true true :: [Track Audio true true])
    (set_call (in_call (JStr (lit "video")) [0; 1]%nat no_call) new_call_manager))).

Lemma endCall_spec_witness :
  cm_now calling = cm_seen calling ∧
  let '(m', _, _) := endCall uuid room calling online (new_mesh_hook 0) in
  cm_now m' = no_call ∧ ∀ r t, cm_tracks m' !! r = Some t → r ∈ call_tracks (cm_now calling) → tk_live t = false.
Proof.
  split; [reflexivity|].
  pose proof (endCall_spec uuid room calling online (new_mesh_hook 0) eq_refl ltac:(discriminate) ltac:(vm_compute; reflexivity)) as H.
  destruct (endCall uuid room calling online (new_mesh_hook 0)) as [[m' c'] h']. destruct H as (H1 & _ & H3 & _).
  split; [exact H3|exact H1].
Defined.

Lemma call_end_storm_witness :
  let '(a', b') := rounds uuid 3 room (calling, online, new_mesh_hook 0) (calling, online, new_mesh_hook 0) in
  sends a'.1.2 = 4%nat ∧ sends b'.1.2 = 4%nat.
Proof.
  pose proof (call_end_storm uuid 3 room (calling, online, new_mesh_hook 0) (calling, online, new_mesh_hook 0)
    ltac:(discriminate) ltac:(vm_compute; reflexivity) ltac:(vm_compute; reflexivity)) as H.
  destruct (rounds uuid 3 room _ _) as [a' b']. destruct H as (E1 & E2 & _). split; [exact E1|exact E2].
Defined.

(** The microphone of a call: its tracks that are live. *)
Definition live_tracks (m : call_manager) : list nat :=
  filter (λ r, default false (tk_live <$> cm_tracks m !! r) = true) (seq 0 (length (cm_tracks m))).

(** A call that ends while the browser still asks for the microphone starts
    when the user allows it: the microphone is live in a call that is over.
    And of two offers accepted one after the other, ending the call only stops
    the second one's microphone. *)
Theorem late_grant_keeps_microphone :
  let offer m := handleIncomingCall room None m in
  let finish m := commit_call (endCall uuid room m online (new_mesh_hook 0)).1.1 in
  let grant i m := default m ((λ x, commit_call x.1.1) <$> media_answered uuid [] i Granted m online (new_mesh_hook 0)) in
  let late := grant 0%nat (finish (offer new_call_manager)) in
  let twice := finish (grant 1%nat (grant 0%nat (offer (offer new_call_manager)))) in
  (cs_active (cm_now late), live_tracks late) = (true, [0%nat]) ∧
  (cs_active (cm_now twice), live_tracks twice) = (false, [0%nat]).
Proof. split; vm_compute; reflexivity. Qed.
End CallExamples.
