(* ===== verification/Dom.v ===== *)
(** * The document of a page, and its events

    What React renders: elements with attributes, children and the handlers of
    the synthetic events, over a type of the calls a handler makes. An event
    runs the handlers from its target outwards until one stops it; clicking a
    submit button, or pressing enter in a field, submits the form around it. *)

From S2P Require Import Prelude JsLib Json.

Local Open Scope Z_scope.

Inductive dom_event := OnClick | OnChange | OnSubmit.

Definition same_event (ev ev' : dom_event) : bool :=
  match ev, ev' with OnClick, OnClick | OnChange, OnChange | OnSubmit, OnSubmit => true | _, _ => false end.

Fixpoint str_eqb (s t : jsstr) : bool :=
  match s, t with
  | [], [] => true
  | c :: s, d :: t => (c =? d) && str_eqb s t
  | _, _ => false
  end.

#[global] Arguments str_eqb : simpl never.

Section Dom.
Context {A : Type}.

(** [h_stops]: the handler calls [stopPropagation]. Its calls are given
    [e.target.value]. *)
Record handler := Handler { h_stops : bool; h_calls : jsstr → list A }.

Record element := Element {
  el_tag : string;
  el_attrs : list (string * jsstr);
  el_on : list (dom_event * handler)
}.

Inductive node :=
  | TextNode (s : jsstr)
  | Node (e : element) (children : list node).

(** Induction through the children. *)
Lemma node_ind' (P : node → Prop) :
  (∀ s, P (TextNode s)) → (∀ e ns, Forall P ns → P (Node e ns)) → ∀ n, P n.
Proof.
  intros Ht Hn. fix rec 1. intros [s|e ns]; [apply Ht|]. apply Hn. induction ns as [|n ns IH]; constructor; [apply rec|exact IH].
Qed.

(** The value the first key that passes the test has. *)
Fixpoint first_value {K B} (test : K → bool) (l : list (K * B)) : option B :=
  match l with [] => None | (k, v) :: l => if test k then Some v else first_value test l end.

Definition attr (k : string) (e : element) : option jsstr := first_value (String.eqb k) (el_attrs e).
Definition has_attr (k : string) (e : element) : bool := match attr k e with Some _ => true | None => false end.

Definition handler_of (ev : dom_event) (e : element) : option handler := first_value (same_event ev) (el_on e).

(** ** Elements *)

(** An element and what is around it, from the inside out. *)
Fixpoint chains (around : list element) (n : node) : list (list element) :=
  match n with
  | TextNode _ => []
  | Node e ns => (e :: around) :: flat_map (chains (e :: around)) ns
  end.

Definition elements (n : node) : list element := omap head (chains [] n).

(** The text on display. *)
Fixpoint text_of (n : node) : jsstr :=
  match n with TextNode s => s | Node _ ns => flat_map text_of ns end.

(** The addresses the document loads or links to. *)
Fixpoint addresses (n : node) : list jsstr :=
  match n with
  | TextNode _ => []
  | Node e ns => omap (λ k, attr k e) ["src"; "href"]%string ++ flat_map addresses ns
  end.

(** ** Events *)

Fixpoint bubble (ev : dom_event) (value : jsstr) (chain : list element) : list A :=
  match chain with
  | [] => []
  | e :: around =>
      match handler_of ev e with
      | Some h => h_calls h value ++ (if h_stops h then [] else bubble ev value around)
      | None => bubble ev value around
      end
  end.

Definition is_tag (t : string) (e : element) : bool := String.eqb t (el_tag e).

(** A [<button>] submits its form unless it has another [type]. *)
Definition is_submit (e : element) : bool :=
  is_tag "button" e && match attr "type" e with Some t => str_eqb t (lit "submit") | None => true end.

(** The part of a chain from its form outwards. *)
Fixpoint form_around (chain : list element) : option (list element) :=
  match chain with
  | [] => None
  | e :: around => if is_tag "form" e then Some (e :: around) else form_around around
  end.

Definition submit (chain : list element) : list A :=
  match form_around chain with Some form => bubble OnSubmit [] form | None => [] end.

Definition enter (chain : list element) : list A :=
  match form_around chain with Some form => bubble OnClick [] form ++ bubble OnSubmit [] form | None => [] end.

(** The activation behaviour of a click: the innermost button's. *)
Fixpoint activation (chain : list element) : list A :=
  match chain with
  | [] => []
  | e :: around => if is_tag "button" e then if is_submit e then submit around else [] else activation around
  end.

Definition click (chain : list element) : list A := bubble OnClick [] chain ++ activation chain.

Definition is_field (e : element) : bool :=
  is_tag "input" e && negb (has_attr "readOnly" e) &&
  match attr "type" e with Some t => str_eqb t (lit "text") || str_eqb t (lit "password") | None => true end.

(** A number written in decimal digits. *)
Definition Number (s : jsstr) : Z := fold_left (λ n c, 10 * n + (c - 48)) s 0.

(** What a user can enter: the browser keeps to [maxLength]. *)
Definition may_enter (e : element) (value : jsstr) : bool :=
  is_field e && match attr "maxLength" e with Some m => Z.of_nat (length value) <=? Number m | None => true end.

(** Where the browser's dialog for files puts what was chosen. *)
Definition is_file_field (e : element) : bool :=
  is_tag "input" e && match attr "type" e with Some t => str_eqb t (lit "file") | None => false end.

Inductive user_event :=
  | Click
  | Enter
  | Input (value : jsstr)
  | Choose
  | ChooseFile.

(** The calls of a user's event on an element: [None] when the element does
    not take it. An option is chosen in its [select]. Enter clicks the form's submit button; every form of the
    application has one, a child of the form without a handler of its own. *)
Definition user_calls (u : user_event) (chain : list element) : option (list A) :=
  match chain with
  | [] => None
  | e :: around =>
      match u with
      | Click => Some (click chain)
      | Enter => if is_field e then Some (enter chain) else None
      | Input value => if may_enter e value then Some (bubble OnChange value chain) else None
      | Choose =>
          match around with
          | sel :: _ => if is_tag "option" e && is_tag "select" sel
                        then Some (bubble OnChange (default [] (attr "value" e)) around) else None
          | [] => None
          end
      | ChooseFile => if is_file_field e then Some (bubble OnChange [] chain) else None
      end
  end.

(** ** Children *)

(** [b && <...>] among the children. *)
Definition when (b : bool) (ns : list node) : list node := if b then ns else [].

(** A value among the children. *)
Definition not_a_child : jsstr := lit "Objects are not valid as a React child".

Fixpoint child (v : json) : result (list node) :=
  match v with
  | JNull | JBool _ => Ok []
  | JNum n => Ok [TextNode (dec_int n)]
  | JStr s => Ok [TextNode s]
  | JArr l =>
      (fix go (l : list json) : result (list node) :=
         match l with
         | [] => Ok []
         | x :: l => ns ← child x; ns' ← go l; Ok (ns ++ ns')
         end) l
  | JObj _ => Throw not_a_child
  end.

(** A value without an object can be a child. *)
Fixpoint showable (v : json) : bool :=
  match v with JObj _ => false | JArr l => forallb showable l | _ => true end.
End Dom.

#[global] Arguments submit : simpl never.
#[global] Arguments enter : simpl never.
Arguments handler : clear implicits.
Arguments element : clear implicits.
Arguments node : clear implicits.

(** Handlers as JSX has them: [() => ...], [e => ... e.target.value], and one
    that stops the event. *)
Definition does {A} (a : A) : handler A := Handler false (λ _, [a]).
Definition takes {A} (f : jsstr → A) : handler A := Handler false (λ v, [f v]).
Definition stops {A} (l : list A) : handler A := Handler true (λ _, l).

(** An element of a class, as most are. *)
Definition el {A} (tag : string) (class : string) (attrs : list (string * jsstr)) (on : list (dom_event * handler A)) :
    list (node A) → node A :=
  Node (Element tag (("className"%string, lit class) :: attrs) on).
Definition bare {A} (tag : string) (attrs : list (string * jsstr)) (on : list (dom_event * handler A)) :
    list (node A) → node A := Node (Element tag attrs on).
Definition txt {A} (s : string) : node A := TextNode (lit s).

(** ** Lemmas *)

Section Lemmas.
Context {A : Type}.
Implicit Types (n : node A) (c around : list (element A)).

(** Every chain of a tree ends with what is around the tree. *)
Lemma chains_around n around c : c ∈ chains around n → ∃ inner, c = inner ++ around ∧ inner ≠ [].
Proof.
  revert around c. induction n as [s|e ns IH] using node_ind'; intros around c; cbn; [by intros ?%not_elem_of_nil|].
  intros [->|Hin]%elem_of_cons; [by exists [e]|]. apply list_elem_of_In, in_flat_map in Hin as (n & Hn & Hc).
  apply list_elem_of_In in Hc. apply list_elem_of_In in Hn. rewrite Forall_forall in IH.
  destruct (IH n Hn _ _ Hc) as (inner & -> & _). exists (inner ++ [e]). by rewrite <- app_assoc; split; [|destruct inner].
Qed.

(** The chains of a tree somewhere in a document are those of the tree alone. *)
Lemma chains_shift n around : chains around n = (λ c, c ++ around) <$> chains [] n.
Proof.
  enough (∀ inner, chains (inner ++ around) n = (λ c, c ++ around) <$> chains inner n) as H by exact (H []).
  induction n as [s|e ns IH] using node_ind'; intros inner; [done|]. cbn. f_equal.
  induction IH as [|n ns Hn _ IHns]; [done|]. cbn. specialize (Hn (e :: inner)). cbn in Hn.
  by rewrite Hn, fmap_app, IHns.
Qed.

Lemma bubble_app ev v c around :
  Forall (λ e, ∀ h, handler_of ev e = Some h → h_stops h = false) c →
  bubble ev v (c ++ around) = bubble ev v c ++ bubble ev v around.
Proof.
  induction 1 as [|e c He _ IH]; [done|]. cbn. destruct (handler_of ev e) as [h|] eqn:E; [|done].
  rewrite (He h eq_refl), IH. by rewrite app_assoc.
Qed.

(** A stopped event does not get further. *)
Lemma bubble_stopped ev v c e h around around' :
  handler_of ev e = Some h → h_stops h = true → bubble ev v (c ++ e :: around) = bubble ev v (c ++ e :: around').
Proof.
  intros He Hs. induction c as [|e' c IH]; cbn; [by rewrite He, Hs|]. by rewrite IH.
Qed.

Lemma bubble_quiet ev v c : Forall (λ e, handler_of ev e = None) c → bubble ev v c = [].
Proof. induction 1 as [|e c He _ IH]; [done|]. cbn. by rewrite He. Qed.

(** What every handler of a chain satisfies, the event satisfies. *)
Lemma bubble_Forall (P : A → Prop) ev v c :
  Forall (λ e, ∀ h, handler_of ev e = Some h → Forall P (h_calls h v)) c → Forall P (bubble ev v c).
Proof.
  induction 1 as [|e c He _ IH]; cbn; [constructor|]. destruct (handler_of ev e) as [h|]; [|done].
  apply Forall_app. split; [by apply He|]. by destruct (h_stops h).
Qed.

(** ** The events of a part of the document *)

(** What a user's event inside a tree can do. *)
Definition events (P : list A → Prop) around n : Prop :=
  ∀ c u l, c ∈ chains around n → user_calls u c = Some l → P l.

Definition own_events (P : list A → Prop) (c : list (element A)) : Prop := ∀ u l, user_calls u c = Some l → P l.

Lemma events_text P around s : events P around (TextNode s).
Proof. intros c u l Hc. by apply not_elem_of_nil in Hc. Qed.

Lemma events_node P around e ns :
  own_events P (e :: around) → Forall (events P (e :: around)) ns → events P around (Node e ns).
Proof.
  intros He Hns c u l [->|Hc]%elem_of_cons; [apply He|]. apply list_elem_of_In, in_flat_map in Hc as (n & Hn & Hc).
  apply list_elem_of_In in Hc. apply list_elem_of_In in Hn. rewrite Forall_forall in Hns. by apply (Hns n).
Qed.

(** Around a tree, nothing hears its clicks and changes, and submitting makes
    the calls [l]. *)
Record inside (l : list A) around : Prop := Inside {
  in_click v : bubble OnClick v around = [];
  in_change v : bubble OnChange v around = [];
  in_activation : activation around = [];
  in_submit : submit around = l;
  in_enter : enter around = l
}.

Lemma inside_nil : inside [] [].
Proof. done. Qed.

Definition plain (e : element A) : bool :=
  match el_on e with [] => true | _ => false end && negb (is_tag "button" e) && negb (is_tag "form" e).

Lemma inside_cons l e around : plain e = true → inside l around → inside l (e :: around).
Proof.
  intros Hp [H1 H2 H3 H4 H5]. unfold plain in Hp. repeat apply andb_true_iff in Hp as [Hp ?].
  rewrite !negb_true_iff in *. assert (∀ ev v, bubble ev v (e :: around) = bubble ev v around) as Hb.
  { intros ev v. cbn [bubble]. unfold handler_of. revert Hp. by destruct (el_on e). }
  split; [by intros v; rewrite Hb..| | |]; [cbn [activation]; by rewrite H0| |];
    unfold submit, enter in *; cbn [form_around]; by rewrite H.
Qed.

Lemma inside_form a attrs around :
  inside [] around → (∀ v, bubble OnSubmit v around = []) →
  inside [a] (Element "form" attrs [(OnSubmit, does a)] :: around).
Proof.
  intros [H1 H2 H3 _ _] Hs. split; cbn; unfold submit, enter; cbn; by rewrite ?H1, ?H2, ?Hs.
Qed.

(** A click that stops here leaves the surroundings quiet. *)
Lemma inside_stop tag attrs around :
  String.eqb "button" tag = false → String.eqb "form" tag = false →
  (∀ v, bubble OnChange v around = []) → activation around = [] → form_around around = None →
  inside [] (Element tag attrs [(OnClick, stops [])] :: around).
Proof.
  intros Hb Hf H2 H3 H4. split; [done|exact H2| | |]; unfold submit, enter;
    cbn [activation form_around]; unfold is_tag; cbn [el_tag]; by rewrite ?Hb, ?Hf, ?H4.
Qed.

(** A tree that only shows something. *)
Definition inert (e : element A) : bool := plain e && negb (is_tag "input" e) && negb (is_tag "option" e).

Fixpoint static n : bool :=
  match n with TextNode _ => true | Node e ns => inert e && forallb static ns end.

Lemma events_static P around l n : static n = true → inside l around → P [] → events P around n.
Proof.
  intros Hs Hq HP. revert Hs. revert around Hq. induction n as [s|e ns IH] using node_ind'; intros around Hq; [intros _; apply events_text|].
  cbn. intros [He Hns]%andb_true_iff. apply andb_true_iff in He as [[He Hi]%andb_true_iff Ho].
  rewrite negb_true_iff in Hi, Ho. apply (inside_cons l e) in Hq as Hq'; [|done]. apply events_node.
  - destruct Hq' as [Q1 _ Q2 _ _]. intros [| |value| |] l'; cbn [user_calls].
    + intros [= <-]. unfold click. by rewrite Q1, Q2.
    + unfold is_field. by rewrite Hi.
    + unfold may_enter, is_field. by rewrite Hi.
    + rewrite Ho. by destruct around.
    + unfold is_file_field. by rewrite Hi.
  - rewrite forallb_forall in Hns. rewrite Forall_forall in IH |- *. intros n Hn. apply IH; [done|done|by apply Hns, list_elem_of_In].
Qed.

Lemma child_showable v : showable v = true → ∃ ns : list (node A), child v = Ok ns.
Proof.
  induction v as [| | | |l IH|] using json_ind'; cbn; try (intros _; by eexists); [|done].
  induction IH as [|x l Hx _ IHl]; [by eexists|]. cbn. intros [H1 H2]%andb_true_iff.
  destruct (Hx H1) as [ns1 ->]. destruct (IHl H2) as [ns2 E]. cbn [mbind result_bind] in *. rewrite E. by eexists.
Qed.

Lemma addresses_child v (ns : list (node A)) : child v = Ok ns → flat_map addresses ns = [].
Proof.
  revert ns. induction v as [| | | |l IH|] using json_ind'; intros ns; cbn [child]; try (intros [= <-]; done); try done.
  revert ns. induction IH as [|x l Hx _ IHl]; intros ns; [intros [= <-]; done|].
  intros (ns1 & E1 & (ns2 & E2 & [= <-])%bind_Ok)%bind_Ok. by rewrite flat_map_app, (Hx _ E1), (IHl _ E2).
Qed.

Lemma addresses_fmap {B} (f : B → node A) l : (∀ x, addresses (f x) = []) → flat_map addresses (f <$> l) = [].
Proof. intros Hf. induction l as [|x l IH]; [done|]. cbn. by rewrite Hf. Qed.

Lemma addresses_when b ns : flat_map addresses (when (A := A) b ns) = if b then flat_map addresses ns else [].
Proof. by destruct b. Qed.

Lemma events_when P around b ns : (b = true → Forall (events P around) ns) → Forall (events P around) (when b ns).
Proof. destruct b; cbn; [auto|constructor]. Qed.

(** A user can make the calls [l] inside a tree. *)
Definition offered around n (l : list A) : Prop := ∃ c u, c ∈ chains around n ∧ user_calls u c = Some l.

Lemma offered_here u e around ns l : user_calls u (e :: around) = Some l → offered around (Node e ns) l.
Proof. intros E. exists (e :: around), u. split; [by left|exact E]. Qed.

Lemma offered_node e around ns l : Exists (λ n, offered (e :: around) n l) ns → offered around (Node e ns) l.
Proof.
  intros (n & Hn & c & u & Hc & E)%Exists_exists. exists c, u. split; [|exact E]. right.
  apply list_elem_of_In, in_flat_map. exists n. by rewrite <- !list_elem_of_In.
Qed.

Lemma Exists_when (P : node A → Prop) b ns : b = true → Exists P ns → Exists P (when b ns).
Proof. by intros ->. Qed.

Lemma events_offered P around n l : events P around n → offered around n l → P l.
Proof. intros He (c & u & Hc & E). by apply (He c u). Qed.
End Lemmas.

(** The calls of an event on one of a component's own elements. *)
Ltac dom_calls :=
  cbn; unfold click, may_enter, is_field, is_file_field, is_submit, has_attr; cbn;
  repeat match goal with
  | |- context [enter (?e :: ?r)] => change (enter (e :: r)) with (enter r)
  | |- context [submit (?e :: ?r)] => change (submit (e :: r)) with (submit r)
  | H : inside _ ?r |- context [bubble OnClick _ ?r] => rewrite !(in_click _ _ H)
  | H : inside _ ?r |- context [bubble OnChange _ ?r] => rewrite !(in_change _ _ H)
  | H : inside _ ?r |- context [activation ?r] => rewrite !(in_activation _ _ H)
  | H : inside _ ?r |- context [submit ?r] => rewrite !(in_submit _ _ H)
  | H : inside _ ?r |- context [enter ?r] => rewrite !(in_enter _ _ H)
  | |- context [str_eqb (lit ?s) (lit ?t)] =>
      let b := eval vm_compute in (str_eqb (lit s) (lit t)) in change (str_eqb (lit s) (lit t)) with b
  end; cbn.

(** An event on one of a component's own elements. *)
Ltac own_event :=
  let u := fresh "u" in let l := fresh "l" in let E := fresh "E" in
  intros u l; destruct u; dom_calls; intros E; try discriminate E; try (injection E as <-);
  try (match type of E with match ?x with _ => _ end = _ => destruct x; discriminate E end).

(** Find the element whose event [u] makes the calls. *)
Ltac offers u :=
  lazymatch goal with
  | |- Exists _ (_ ++ _) => apply Exists_app; first [left; offers u | right; offers u]
  | |- Exists _ (_ :: _) => first [apply Exists_cons_hd; offers u | apply Exists_cons_tl; offers u]
  | |- Exists _ (when _ _) => apply Exists_when; [done|offers u]
  | |- offered _ _ _ => first [apply (offered_here u); solve [dom_calls; eauto] | apply offered_node; offers u]
  end.

Ltac dom_events :=
  repeat first
    [ apply events_text
    | eapply events_static; [ reflexivity | solve [repeat (apply inside_cons; [reflexivity|]); eassumption] | ]
    | apply events_when; intros ?
    | apply events_node; [ own_event | ]
    | apply Forall_cons_2 | apply Forall_nil_2
    | apply Forall_app_2 ].
