(* ===== verification/JoinView.v ===== *)
(** * components/JoinView.jsx: the form to join a room

    The form of the first page and of the modal, over the callbacks of its
    props. The state of [PassphraseToggle] is a prop here: the page that shows
    the form keeps it (AppUi.v). *)

From S2P Require Import Prelude JsLib Json Dom.

Local Open Scope Z_scope.

Definition MAX_ROOM_NAME_LEN : Z := 64.
Definition MAX_NICKNAME_LEN : nat := 32.

(** The choices of the room's time to live, in seconds. *)
Definition ttl_options : list (Z * jsstr) :=
  [(0, lit "no expiry"); (900, lit "15 minutes"); (3600, lit "1 hour"); (14400, lit "4 hours"); (86400, lit "24 hours")].

Section JoinView.
Context {A : Type}.

Record join_props := JoinProps {
  jp_room : jsstr;
  jp_setRoom : jsstr → A;
  jp_nickname : jsstr;
  jp_setNickname : jsstr → A;
  jp_passphrase : jsstr;
  jp_setPassphrase : jsstr → A;
  jp_ttl : Z;
  jp_setTtl : Z → A;
  jp_onJoin : A;
  jp_status : jsstr;
  jp_isModal : bool;
  jp_onClose : option A;
  jp_onRandomizeName : option A;
  jp_showField : bool;
  jp_setShowField : bool → A
}.

Definition FeatureCard (icon title desc : jsstr) : node A :=
  el "div" "feature-card" [] []
    [el "span" "feature-icon" [] [] [TextNode icon];
     bare "div" [] [] [bare "strong" [] [] [TextNode title]; bare "p" [] [] [TextNode desc]]].

Definition step (n : string) (title : string) (text : jsstr) : node A :=
  el "div" "step" [] []
    [el "span" "step-num" [] [] [txt n];
     bare "div" [] [] [bare "strong" [] [] [txt title]; bare "p" [] [] [TextNode text]]].

Definition HowItWorks : node A :=
  el "div" "how-it-works" [] []
    [bare "h2" [] [] [txt "how it works"];
     el "div" "steps" [] []
       [step "1" "create or join a room"
          (lit "Enter any room name. If no one else is there yet, you created it. Share the room name or invite link with others.");
        step "2" "messages are encrypted"
          (lit "A unique encryption key is generated for your room. Only people with the key can read messages. Use a passphrase for a shared secret, or share the auto-generated invite link.");
        step "3" "chat, call, share"
          (lit "Send text, images, files, or start voice/video calls. When two people are in a room, traffic goes peer-to-peer " ++
           [8212] ++ lit " never touching our servers.")];
     bare "h2" [] [] [txt "features"];
     el "div" "features-grid" [] []
       [FeatureCard [128274] (lit "end-to-end encryption") (lit "AES-GCM encryption with keys that never leave your device.");
        FeatureCard [128257] (lit "peer-to-peer")
          (lit "When 2 users are in a room, data flows directly between browsers via WebRTC.");
        FeatureCard [9202] (lit "ephemeral rooms")
          (lit "Set a time limit and the room self-destructs " ++ [8212] ++ lit " no traces left behind.");
        FeatureCard [127908] (lit "voice & video calls")
          (lit "One-click voice or video calls with anyone in your room. No plugins needed.");
        FeatureCard [128206] (lit "file & media sharing")
          (lit "Send images, videos, and files " ++ [8212] ++ lit " encrypted and chunked for large transfers.");
        FeatureCard [128100] (lit "no accounts") (lit "No sign-up, no email, no phone number. Just pick a name and go.")];
     el "div" "privacy-note" [] []
       [bare "strong" [] [] [txt "your privacy:"];
        txt " no messages are stored on our servers. Encryption keys exist only in your browser. We cannot read your messages even if we wanted to. When you leave, it's gone."]].

(** The button that removes the passphrase makes two calls. *)
Definition PassphraseToggle (p : join_props) : node A :=
  if negb (jp_showField p) then
    el "button" "passphrase-toggle" [("type", lit "button")%string] [(OnClick, does (jp_setShowField p true))]
      [txt "+ add passphrase"]
  else
    el "div" "passphrase-row" [] []
      [bare "input" [("type", lit "password"); ("value", jp_passphrase p)]%string [(OnChange, takes (jp_setPassphrase p))] [];
       el "button" "passphrase-remove" [("type", lit "button")%string]
         [(OnClick, Handler false (λ _, [jp_setPassphrase p []; jp_setShowField p false]))] [TextNode [215]]].

Definition room_field (p : join_props) : node A :=
  el "div" "room-name-row" [] []
    (bare "input" [("type", lit "text"); ("value", jp_room p); ("maxLength", dec_int MAX_ROOM_NAME_LEN)]%string
       [(OnChange, takes (jp_setRoom p))] [] ::
     match jp_onRandomizeName p with
     | Some randomize =>
         [el "button" "randomize-btn" [("type", lit "button")%string] [(OnClick, does randomize)] [TextNode [8635]]]
     | None => []
     end).

Definition nickname_field (p : join_props) : node A :=
  bare "input" [("type", lit "text"); ("value", jp_nickname p); ("maxLength", dec_int (Z.of_nat MAX_NICKNAME_LEN))]%string
    [(OnChange, takes (λ v, jp_setNickname p (take MAX_NICKNAME_LEN v)))] [].

Definition ttl_select (p : join_props) : node A :=
  el "select" "ttl-select" [("value", dec_int (jp_ttl p))]%string [(OnChange, takes (λ v, jp_setTtl p (Number v)))]
    ((λ o, bare "option" [("value", dec_int o.1)]%string [] [TextNode o.2]) <$> ttl_options).

Definition join_form (p : join_props) : node A :=
  el "form" "join-form" [] [(OnSubmit, does (jp_onJoin p))]
    [room_field p; nickname_field p; PassphraseToggle p; ttl_select p;
     bare "button" [("type", lit "submit")]%string [] [txt "join room"]].

Definition modal_header (p : join_props) : node A :=
  el "div" "join-modal-header" [] []
    [bare "h2" [] [] [txt "join another room"];
     el "button" "join-modal-close" [("type", lit "button")%string]
       (match jp_onClose p with Some close => [(OnClick, does close)] | None => [] end) [TextNode [215]]].

Definition JoinView (p : join_props) : node A :=
  let page := negb (jp_isModal p) in
  el "div" (if jp_isModal p then "join-modal-inner" else "container join-page") [("role", lit "main")%string] []
    (when page [bare "h1" [] [] [txt "trapchat"]; el "p" "subtitle" [] [] [txt "anonymous. ephemeral. encrypted."]] ++
     when (jp_isModal p) [modal_header p] ++
     [join_form p] ++
     when page [el "p" "form-hint" [] []
                  [TextNode (lit "no account needed " ++ [8212] ++ lit " hit join to start chatting instantly")]] ++
     [el "p" "status" [] [] [TextNode (jp_status p)]] ++
     when page [HowItWorks]).

(** ** What the form can do *)

(** The calls of a user's event on the form, apart from what is around it. *)
Inductive form_calls (p : join_props) : list A → Prop :=
  | fc_nothing : form_calls p []
  | fc_room v : Z.of_nat (length v) ≤ MAX_ROOM_NAME_LEN → form_calls p [jp_setRoom p v]
  | fc_random a : jp_onRandomizeName p = Some a → form_calls p [a]
  | fc_nickname v : (length v ≤ MAX_NICKNAME_LEN)%nat → form_calls p [jp_setNickname p v]
  | fc_show : jp_showField p = false → form_calls p [jp_setShowField p true]
  | fc_passphrase v : jp_showField p = true → form_calls p [jp_setPassphrase p v]
  | fc_remove : jp_showField p = true → form_calls p [jp_setPassphrase p []; jp_setShowField p false]
  | fc_ttl n : n ∈ ttl_options.*1 → form_calls p [jp_setTtl p n]
  | fc_join : form_calls p [jp_onJoin p]
  | fc_close a : jp_isModal p = true → jp_onClose p = Some a → form_calls p [a].

Create HintDb form.
#[local] Arguments MAX_NICKNAME_LEN : simpl never.
#[local] Arguments lit : simpl never.
#[local] Arguments Number : simpl never.
#[local] Arguments dec_int : simpl never.
#[local] Hint Constructors form_calls : form.

Section Fields.
Context (p : join_props) (around : list (element A)) (Q : inside [jp_onJoin p] around).

Lemma room_events : events (form_calls p) around (room_field p).
Proof.
  unfold room_field. dom_events; eauto with form.
  - destruct (_ <=? _) eqn:Em in E; [|done]. injection E as <-. constructor. by apply Z.leb_le.
  - destruct (jp_onRandomizeName p) as [a|] eqn:Ea; dom_events; eauto with form.
Qed.

Lemma nickname_events : events (form_calls p) around (nickname_field p).
Proof.
  unfold nickname_field. dom_events; eauto with form.
  destruct (_ <=? _) in E; [|done]. injection E as <-. apply fc_nickname, firstn_le_length.
Qed.

Lemma passphrase_events : events (form_calls p) around (PassphraseToggle p).
Proof. unfold PassphraseToggle. destruct (jp_showField p) eqn:Ef; cbn [negb]; dom_events; eauto with form. Qed.

Lemma ttl_events : events (form_calls p) around (ttl_select p).
Proof.
  unfold ttl_select. dom_events; eauto with form.
  all: match goal with |- form_calls _ [jp_setTtl _ (Number (dec_int ?n))] =>
         change (Number (dec_int n)) with n; apply fc_ttl; decided end.
Qed.
End Fields.

Lemma form_events p around :
  inside [] around → (∀ v, bubble OnSubmit v around = []) → events (form_calls p) around (join_form p).
Proof.
  intros Q Qs. assert (inside [jp_onJoin p] (Element "form" [("className"%string, lit "join-form")]
    [(OnSubmit, does (jp_onJoin p))] :: around)) as Qf by (by apply inside_form).
  apply events_node; [own_event; constructor|].
  repeat apply Forall_cons_2; [by apply room_events|by apply nickname_events|by apply passphrase_events|by apply ttl_events| |constructor].
  dom_events; first [apply fc_nothing|apply fc_join].
Qed.

(** The form loads nothing. *)
Lemma join_addresses p : addresses (JoinView p) = [].
Proof.
  unfold JoinView, join_form, room_field, PassphraseToggle, modal_header.
  destruct (jp_isModal p), (jp_onRandomizeName p), (jp_onClose p), (jp_showField p); reflexivity.
Qed.

(** Whatever a user does with the form, in quiet surroundings, is one call
    of its props: a room name within the limit, a nickname of at most 32 units,
    one of the times to live on offer, the passphrase while its field is shown,
    joining, or closing the modal. *)
Lemma join_view_events p around :
  inside [] around → (∀ v, bubble OnSubmit v around = []) → events (form_calls p) around (JoinView p).
Proof.
  intros Q Qs. unfold JoinView. apply events_node; [own_event; constructor|].
  assert (inside [] (Element "div" [("className"%string, lit (if jp_isModal p then "join-modal-inner" else "container join-page"));
    ("role", lit "main")%string] [] :: around)) as Q' by (apply inside_cons; [done|exact Q]).
  apply Forall_app_2; [dom_events; apply fc_nothing|]. apply Forall_app_2.
  { apply events_when. intros Hm. destruct (jp_onClose p) as [a|] eqn:Ec; unfold modal_header; rewrite ?Ec;
      dom_events; eauto with form. }
  apply Forall_app_2; [apply Forall_cons_2; [by apply form_events|constructor]|].
  dom_events; apply fc_nothing.
Qed.
(** And all of those calls are there to be made. *)
Lemma join_view_offered p around l :
  inside [] around → (∀ v, bubble OnSubmit v around = []) → form_calls p l → offered around (JoinView p) l.
Proof.
  intros Q Qs Hl. unfold JoinView. apply offered_node. set (a1 := _ :: around).
  assert (inside [] a1) as Q1 by (apply inside_cons; [done|exact Q]).
  set (a2 := Element "form" [("className"%string, lit "join-form")] [(OnSubmit, does (jp_onJoin p))] :: a1).
  assert (inside [jp_onJoin p] a2) as Q2 by (by apply inside_form).
  assert (Exists (λ n, offered a2 n l) [room_field p; nickname_field p; PassphraseToggle p; ttl_select p;
            bare "button" [("type", lit "submit")]%string [] [txt "join room"]] → 
          Exists (λ n, offered a1 n l) [join_form p]) as Hf by (intros H; by apply Exists_cons_hd, offered_node).
  destruct Hl as [|v Hv|a Ha|v Hv|Hs|v Hs|Hs|n Hn| |a Hm Ha].
  10: { apply Exists_app. right. apply Exists_app. left. rewrite Hm. unfold modal_header. rewrite Ha. offers Click. }
  all: apply Exists_app; right; apply Exists_app; right; apply Exists_app; left; apply Hf.
  - offers Click.
  - apply Z.leb_le in Hv. unfold room_field. apply Exists_cons_hd, offered_node, Exists_cons_hd, (offered_here (Input v)). dom_calls.
    change (Number (dec_int MAX_ROOM_NAME_LEN)) with MAX_ROOM_NAME_LEN. by rewrite Hv.
  - unfold room_field. rewrite Ha. offers Click.
  - apply Exists_cons_tl. apply Exists_cons_hd, (offered_here (Input v)). dom_calls.
    change (Number (dec_int (Z.of_nat MAX_NICKNAME_LEN))) with (Z.of_nat MAX_NICKNAME_LEN).
    rewrite (proj2 (Z.leb_le _ _)) by lia. by rewrite take_ge.
  - unfold PassphraseToggle. rewrite Hs. offers Click.
  - unfold PassphraseToggle. rewrite Hs. offers (Input v).
  - unfold PassphraseToggle. rewrite Hs. offers Click.
  - do 3 apply Exists_cons_tl. apply Exists_cons_hd, offered_node, Exists_exists.
    apply list_elem_of_fmap in Hn as (o & -> & Ho).
    exists (bare "option" [("value", dec_int o.1)]%string [] [TextNode o.2]). split; [apply list_elem_of_fmap; by exists o|].
    apply (offered_here Choose). dom_calls. do 2 f_equal.
    clear -Ho. revert o Ho. apply Forall_forall. unfold ttl_options. repeat constructor.
  - offers Click.
Qed.
End JoinView.

Arguments join_props : clear implicits.
