(* ===== verification/ChatView.v ===== *)
(** * components/ChatView.jsx and AudioVisualizer.jsx: what the page shows

    The document a room is shown with, over the callbacks of the props. React
    throws for an object among the children: the page is a [result]. The state
    the component keeps ([timeRemaining], [canvasVisible]) is among the props;
    View.v has the countdown and the canvas. A message's time is the
    platform's. Left out: the inline styles, labels for assistive technology,
    and the streams the video elements play. *)

From S2P Require Import Prelude JsLib Json Rooms Typing MeshHook View Dom JoinView.

Local Open Scope Z_scope.

Definition ACCEPTED_FILE_TYPES : jsstr := lit "image/*,video/*,application/pdf".

Section ChatView.
Context {A : Type}.

Record chat_props := ChatProps {
  cp_room : jsstr;
  cp_rooms : list jsstr;
  cp_activeRoom : jsstr;
  cp_onSwitchRoom : jsstr → A;
  cp_onAddRoom : A;
  cp_onLeaveRoom : jsstr → A;
  cp_status : jsstr;
  cp_peerCount : json;
  cp_peerNicknames : json;
  cp_timeRemaining : option Z;
  cp_p2p : bool;
  cp_messages : list ui_message;
  cp_time : ui_message → jsstr;
  cp_input : jsstr;
  cp_onInputChange : jsstr → A;
  cp_onSend : A;
  cp_onLeave : A;
  cp_shareLink : jsstr;
  cp_copied : bool;
  cp_onCopyShareLink : A;
  cp_showQR : bool;
  cp_qrDataURL : jsstr;
  cp_onToggleQR : A;
  cp_uploadProgress : option (Z * Z);
  cp_downloadProgress : option (Z * Z);
  cp_typingText : jsstr;
  cp_messageReceipts : list (jsstr * json);
  cp_selectLink : A;             (** [e.target.select()] *)
  cp_pickFile : A;               (** [fileInputRef.current?.click()] *)
  cp_onFileSelect : A;
  cp_onCanvasShare : A;
  cp_unreadCounts : list (jsstr * Z);
  cp_joinModal : option (join_props A);   (** [joinModalProps], when [showJoinModal] *)
  cp_onClose : A;
  cp_callActive : bool;
  cp_callType : option json;
  cp_remoteStreams : list jsstr;          (** the peers *)
  cp_onStartCall : string → A;
  cp_onEndCall : A;
  cp_onToggleMute : A;
  cp_onToggleVideo : A;
  cp_callMuted : bool;
  cp_callVideoOff : bool;
  cp_canvasVisible : bool;
  cp_setCanvasVisible : bool → A;
  cp_clearCanvas : A
}.

(** ** AudioVisualizer *)

Definition AudioVisualizer (label : jsstr) : node A :=
  el "div" "audio-visualizer" [] []
    (when (negb (str_empty label)) [el "span" "visualizer-label" [] [] [TextNode label]] ++
     [el "canvas" "visualizer-canvas" [] [] []]).

(** ** Tabs and header *)

Definition class_if (b : bool) (c : string) : string := if b then c else ""%string.

(** The close button of a tab is a part of the tab. *)
Definition room_tab (p : chat_props) (r : jsstr) : node A :=
  let active := bool_decide (r = cp_activeRoom p) in
  let unread := default 0 (map_get (cp_unreadCounts p) r) in
  el "button" ("room-tab " ++ class_if active "active")%string [] [(OnClick, does (cp_onSwitchRoom p r))]
    ([txt "#"; TextNode r] ++
     when ((unread >? 0) && negb active) [el "span" "unread-badge" [] [] [TextNode (dec_int unread)]] ++
     [el "span" "room-tab-close" [] [(OnClick, stops [cp_onLeaveRoom p r])] [TextNode [215]]]).

Definition room_tabs (p : chat_props) : list (node A) :=
  match cp_rooms p with
  | [] => []
  | rooms =>
      [el "div" "room-tabs" [] []
         ((room_tab p <$> rooms) ++
          [el "button" "room-tab add-room-tab" [] [(OnClick, does (cp_onAddRoom p))] [txt "+"]])]
  end.

Definition status_color (status : jsstr) : string :=
  if bool_decide (status = lit "connected") then "green"%string
  else if starts_with (lit "reconnecting") status then "yellow"%string else "red"%string.

(** [Object.values(peerNicknames).filter(Boolean).join(', ')]. *)
Definition peer_title (peerNicknames : json) : result jsstr :=
  names ← mapM js_String (filter (λ v, truthy (Some v) = true) ((spread peerNicknames).*2));
  Ok (comma_join names).

Definition chat_header (p : chat_props) : result (node A) :=
  title ← peer_title (cp_peerNicknames p);
  count ← child (cp_peerCount p);
  Ok (el "header" "chat-header" [] []
        ([el "span" ("status-dot " ++ status_color (cp_status p))%string [] [] [];
          el "span" "room-name" [] [] [txt "#"; TextNode (cp_room p)];
          el "span" "peer-count" [("title"%string, title)] [] (count ++ [txt " online"])] ++
         when (cp_p2p p) [el "span" "p2p-badge" [] [] [txt "p2p"]] ++
         match cp_timeRemaining p with
         | Some ms => [el "span" "ttl-countdown" [] [] [TextNode (formatTimeRemaining ms)]]
         | None => []
         end ++
         when (negb (cp_callActive p))
           [el "button" "call-btn" [("title"%string, lit "Voice call")] [(OnClick, does (cp_onStartCall p "audio"))]
              [TextNode [127908]];
            el "button" "call-btn" [("title"%string, lit "Video call")] [(OnClick, does (cp_onStartCall p "video"))]
              [TextNode [128249]]] ++
         [el "button" "leave-btn" [] [(OnClick, does (cp_onLeave p))] [txt "leave"]])).

(** ** The call *)

Definition viz_button (on : bool) (a : A) (label_on label_off : string) (icon_on icon_off : Z) : node A :=
  el "button" ("viz-control-btn " ++ class_if on "active")%string [("title"%string, lit (if on then label_on else label_off))]
    [(OnClick, does a)] [TextNode [if on then icon_on else icon_off]].

Definition call_overlay (p : chat_props) : node A :=
  el "div" "call-overlay" [] []
    [el "div" "call-videos" [] []
       (el "video" "local-video" [] [] [] ::
        ((λ peerId, el "video" "remote-video" [] [] []) <$> cp_remoteStreams p) ++
        match cp_remoteStreams p with
        | [] => [el "div" "call-waiting" [] [] [txt "waiting for others to join..."]]
        | _ => []
        end);
     el "div" "call-visualizers" [] []
       (el "div" "visualizer-row" [] []
          ([AudioVisualizer (lit "you");
            viz_button (cp_callMuted p) (cp_onToggleMute p) "Unmute" "Mute" 128263 127908] ++
           when (is_str (cp_callType p) (lit "video"))
             [viz_button (cp_callVideoOff p) (cp_onToggleVideo p) "Turn on camera" "Turn off camera" 128683 128249]) ::
        ((λ peerId, el "div" "visualizer-row" [] [] [AudioVisualizer peerId]) <$> cp_remoteStreams p));
     el "div" "call-controls" [] []
       [el "button" "call-control-btn end-call" [] [(OnClick, does (cp_onEndCall p))] [txt "end"]]].

(** ** The share link *)

Definition share_section (p : chat_props) : node A :=
  el "div" "share-section" [] []
    ([el "div" "share-link-display" [] []
        [el "p" "share-label" [] [] [txt "send this link to invite others:"];
         el "div" "share-url-row" [] []
           [el "input" "share-url-input" [("type", lit "text"); ("value", cp_shareLink p); ("readOnly", [])]%string
              [(OnClick, does (cp_selectLink p))] [];
            el "button" ("share-copy-btn " ++ class_if (cp_copied p) "copied")%string [("type", lit "button")%string]
              [(OnClick, does (cp_onCopyShareLink p))] [txt (if cp_copied p then "copied!" else "copy")]]]] ++
     when (negb (str_empty (cp_qrDataURL p)))
       [el "button" "qr-toggle" [("type", lit "button")%string] [(OnClick, does (cp_onToggleQR p))]
          [txt (if cp_showQR p then "hide QR" else "show QR")]] ++
     when (cp_showQR p && negb (str_empty (cp_qrDataURL p)))
       [el "div" "qr-container" [] []
          [el "img" "qr-code" [("src", cp_qrDataURL p); ("alt", lit "Room share QR code")]%string [] []]]).

Definition progress_view (dir verb : string) (progress : option (Z * Z)) : list (node A) :=
  match progress with
  | Some (done, total) =>
      [el "div" (dir ++ "-progress")%string [] []
         [el "div" (dir ++ "-progress-bar")%string [] [] [];
          el "span" (dir ++ "-progress-text")%string [] []
            [TextNode (lit verb ++ [32] ++ dec_int done ++ [47] ++ dec_int total ++ lit " chunks")]]]
  | None => []
  end.

(** ** Messages *)

Definition media_view (m : media_ref) : node A :=
  el "div" "media-preview" [] []
    [if starts_with (lit "image/") (mr_mimeType m) then
       bare "img" [("src", mr_url m); ("alt", mr_fileName m)]%string [] []
     else if starts_with (lit "video/") (mr_mimeType m) then bare "video" [("src", mr_url m)]%string [] []
     else el "a" "media-download" [("href", mr_url m); ("download", mr_fileName m)]%string []
            [TextNode (mr_fileName m); txt " (";
             TextNode (match mr_fileSize m with Some n => toFixed1 n 1024 | None => lit "NaN" end); txt "KB)"];
     el "span" "media-filename" [] [] [TextNode (mr_fileName m)]].

Definition message_view (p : chat_props) (msg : ui_message) : result (node A) :=
  sender ← (if negb (um_system msg) && truthy (um_senderNickname msg)
            then ns ← child (default JNull (um_senderNickname msg)); Ok [el "span" "msg-sender" [] [] ns]
            else Ok []);
  Ok (el "div" ("message " ++ class_if (um_own msg) "own" ++ " " ++ class_if (um_error msg) "error" ++ " " ++
                class_if (um_queued msg) "queued")%string
        [("data-msg-id"%string, um_id msg)] []
        (sender ++
         [match um_media msg with
          | Some m => media_view m
          | None => el "span" "msg-text" [] [] [TextNode (default [] (um_text msg))]
          end] ++
         when (um_queued msg) [el "span" "msg-queued" [] [] [txt "queued"]] ++
         [el "span" "msg-time" [] [] [TextNode (cp_time p msg)]] ++
         when (um_own msg)
           [el "span" "msg-receipt" [] []
              [TextNode (if is_str (map_get (cp_messageReceipts p) (um_id msg)) (lit "read") then [10003; 10003] else [10003])]])).

Definition message_list (p : chat_props) : result (node A) :=
  ms ← mapM (message_view p) (cp_messages p);
  Ok (el "div" "messages" [] [] (ms ++ [bare "div" [] [] []])).

(** ** Writing *)

Definition send_form (p : chat_props) : node A :=
  el "form" "send-form" [] [(OnSubmit, does (cp_onSend p))]
    ([bare "input" [("type", lit "file"); ("accept", ACCEPTED_FILE_TYPES); ("hidden", [])]%string
        [(OnChange, does (cp_onFileSelect p))] [];
      el "button" "attach-btn" [("type", lit "button")%string] [(OnClick, does (cp_pickFile p))] [txt "+"];
      el "button" "canvas-btn" [("type", lit "button")%string]
        [(OnClick, does (cp_setCanvasVisible p (negb (cp_canvasVisible p))))]
        [txt (if cp_canvasVisible p then "hide canvas" else "canvas")]] ++
     when (cp_canvasVisible p)
       [el "button" "canvas-btn" [("type", lit "button")%string] [(OnClick, does (cp_onCanvasShare p))] [txt "share"]] ++
     [bare "input" [("type", lit "text"); ("value", cp_input p)]%string [(OnChange, takes (cp_onInputChange p))] [];
      bare "button" [("type", lit "submit")]%string [] [txt "send"]]).

Definition canvas_section (p : chat_props) : list (node A) :=
  when (cp_canvasVisible p)
    [el "canvas" "share-canvas" [] [] [];
     el "button" "canvas-clear-btn" [("type", lit "button")%string] [(OnClick, does (cp_clearCanvas p))] [txt "clear"]].

Definition join_modal (p : chat_props) (j : join_props A) : node A :=
  el "div" "join-modal-backdrop" [] [(OnClick, does (cp_onClose p))]
    [el "div" "join-modal" [] [(OnClick, stops [])] [JoinView j]].

Definition ChatView (p : chat_props) : result (node A) :=
  header ← chat_header p;
  messages ← message_list p;
  Ok (el "div" "container chat-container" [("role", lit "main")%string] []
        (room_tabs p ++ [header] ++
         when (cp_callActive p) [call_overlay p] ++
         when (negb (str_empty (cp_shareLink p))) [share_section p] ++
         progress_view "upload" "sending" (cp_uploadProgress p) ++
         progress_view "download" "receiving" (cp_downloadProgress p) ++
         [messages] ++
         when (negb (str_empty (cp_typingText p)))
           [el "div" "typing-indicator" [] [] [TextNode (cp_typingText p)]] ++
         canvas_section p ++ [send_form p] ++
         match cp_joinModal p with Some j => [join_modal p j] | None => [] end)).

(** ** What the page can do *)

(** The calls of a user's event on the page. *)
Inductive chat_calls (p : chat_props) : list A → Prop :=
  | cc_nothing : chat_calls p []
  | cc_switch r : r ∈ cp_rooms p → chat_calls p [cp_onSwitchRoom p r]
  | cc_leave_room r : r ∈ cp_rooms p → chat_calls p [cp_onLeaveRoom p r]
  | cc_add : cp_rooms p ≠ [] → chat_calls p [cp_onAddRoom p]
  | cc_leave : chat_calls p [cp_onLeave p]
  | cc_start_call t : cp_callActive p = false → t ∈ ["audio"; "video"]%string → chat_calls p [cp_onStartCall p t]
  | cc_end_call : cp_callActive p = true → chat_calls p [cp_onEndCall p]
  | cc_mute : cp_callActive p = true → chat_calls p [cp_onToggleMute p]
  | cc_video : cp_callActive p = true → is_str (cp_callType p) (lit "video") = true → chat_calls p [cp_onToggleVideo p]
  | cc_select : cp_shareLink p ≠ [] → chat_calls p [cp_selectLink p]
  | cc_copy : cp_shareLink p ≠ [] → chat_calls p [cp_onCopyShareLink p]
  | cc_qr : cp_shareLink p ≠ [] → cp_qrDataURL p ≠ [] → chat_calls p [cp_onToggleQR p]
  | cc_pick : chat_calls p [cp_pickFile p]
  | cc_file : chat_calls p [cp_onFileSelect p]
  | cc_input v : chat_calls p [cp_onInputChange p v]
  | cc_send : chat_calls p [cp_onSend p]
  | cc_canvas : chat_calls p [cp_setCanvasVisible p (negb (cp_canvasVisible p))]
  | cc_share : cp_canvasVisible p = true → chat_calls p [cp_onCanvasShare p]
  | cc_clear : cp_canvasVisible p = true → chat_calls p [cp_clearCanvas p]
  | cc_form j l : cp_joinModal p = Some j → form_calls j l → chat_calls p l
  | cc_close j : cp_joinModal p = Some j → chat_calls p [cp_onClose p].

Create HintDb chat.
#[local] Hint Constructors chat_calls : chat.
#[local] Arguments lit : simpl never.

Implicit Types (p : chat_props) (around : list (element A)).

Lemma tab_events p around r : inside [] around → r ∈ cp_rooms p → events (chat_calls p) around (room_tab p r).
Proof. intros Q Hr. unfold room_tab. dom_events; eauto with chat. Qed.

Lemma tabs_events p around : inside [] around → Forall (events (chat_calls p) around) (room_tabs p).
Proof.
  intros Q. unfold room_tabs. destruct (cp_rooms p) as [|r rs] eqn:E; [constructor|]. assert (cp_rooms p ≠ []) as Hne by (by rewrite E).
  rewrite <- E. apply Forall_cons_2; [|constructor]. apply events_node; [own_event; constructor|].
  apply Forall_app_2; [|dom_events; eauto with chat].
  apply Forall_fmap, Forall_forall. intros r' Hr'. apply tab_events; [by apply inside_cons|done].
Qed.

(** What [child] makes of a value is only shown. *)
Lemma child_static v (ns : list (node A)) : child v = Ok ns → forallb static ns = true.
Proof.
  revert ns. induction v as [| | | |l IH|] using json_ind'; intros ns; cbn [child]; try (intros [= <-]; done); try done.
  revert ns. induction IH as [|x l Hx _ IHl]; intros ns; [intros [= <-]; done|].
  intros (ns1 & E1 & (ns2 & E2 & [= <-])%bind_Ok)%bind_Ok. rewrite forallb_app. by rewrite (Hx _ E1), (IHl _ E2).
Qed.

Lemma static_events (P : list A → Prop) around l ns :
  forallb static ns = true → inside l around → P [] → Forall (events P around) ns.
Proof.
  rewrite forallb_forall. intros H Q HP. apply Forall_forall. intros n Hn. eapply events_static; [|exact Q|exact HP].
  by apply H, list_elem_of_In.
Qed.

Lemma header_events p around n :
  inside [] around → chat_header p = Ok n → events (chat_calls p) around n.
Proof.
  intros Q (title & _ & (count & Hc & [= <-])%bind_Ok)%bind_Ok. apply child_static in Hc.
  apply events_node; [own_event; constructor|].
  set (out := _ :: around). assert (inside [] out) as Q' by (by apply inside_cons).
  apply Forall_cons_2; [dom_events; constructor|]. apply Forall_cons_2; [dom_events; constructor|].
  apply Forall_cons_2; [|apply Forall_app_2; [|apply Forall_app_2; [|apply Forall_app_2]]].
  - eapply events_static; [|exact Q'|constructor]. cbn. by rewrite forallb_app, Hc.
  - dom_events; constructor.
  - destruct (cp_timeRemaining p); dom_events; constructor.
  - apply events_when. intros Hc'. apply negb_true_iff in Hc'. dom_events; try constructor; try done; set_solver.
  - dom_events; eauto with chat.
Qed.

Lemma static_fmap {B} (f : B → node A) l : (∀ x, static (f x) = true) → forallb static (f <$> l) = true.
Proof. intros H. induction l as [|x l IH]; [done|]. cbn. by rewrite H. Qed.

Lemma visualizer_static label : static (AudioVisualizer label) = true.
Proof. unfold AudioVisualizer. by destruct label. Qed.

Lemma overlay_events p around :
  inside [] around → cp_callActive p = true → events (chat_calls p) around (call_overlay p).
Proof.
  intros Q Ha. apply events_node; [own_event; constructor|].
  set (out := _ :: around). assert (inside [] out) as Q' by (by apply inside_cons).
  apply Forall_cons_2; [|apply Forall_cons_2; [|apply Forall_cons_2; [dom_events; eauto with chat|constructor]]].
  - eapply events_static; [|exact Q'|constructor]. cbn. rewrite forallb_app, static_fmap by done.
    by destruct (cp_remoteStreams p).
  - apply events_node; [own_event; constructor|]. set (out' := _ :: out).
    assert (inside [] out') as Q2 by (by apply inside_cons). apply Forall_cons_2.
    + apply events_node; [own_event; constructor|]. apply Forall_cons_2.
      { eapply events_static; [apply visualizer_static|by apply inside_cons|constructor]. }
      apply Forall_cons_2; [dom_events; eauto with chat|]. apply events_when. intros Hv. dom_events; eauto with chat.
    + eapply static_events; [|exact Q2|constructor]. apply static_fmap. by intros [].
Qed.

Lemma share_events p around : inside [] around → cp_shareLink p ≠ [] → events (chat_calls p) around (share_section p).
Proof.
  intros Q Hl. unfold share_section. dom_events; eauto with chat.
  apply negb_true_iff in H. apply cc_qr; [done|]. by destruct (cp_qrDataURL p).
Qed.

Lemma progress_static dir verb progress : forallb static (progress_view dir verb progress) = true.
Proof. by destruct progress as [[]|]. Qed.

Lemma media_static m : static (media_view m) = true.
Proof. unfold media_view. destruct (starts_with _ _); [done|]. by destruct (starts_with _ _). Qed.

Lemma message_static p msg n : message_view p msg = Ok n → static n = true.
Proof.
  unfold message_view. intros (sender & Hs & [= <-])%bind_Ok. cbn. rewrite !forallb_app.
  assert (forallb static sender = true) as ->.
  { destruct (negb _ && _); [|by injection Hs as <-]. apply bind_Ok in Hs as (ns & Hc%child_static & [= <-]). cbn. by rewrite Hc. }
  cbn. assert (static match um_media msg with Some m => media_view m | None => el "span" "msg-text" [] [] [TextNode (default [] (um_text msg))] end = true)
    as -> by (destruct (um_media msg); [apply media_static|done]).
  by destruct (um_queued msg), (um_own msg).
Qed.

Lemma mapM_Ok {B C} (f : B → result C) l k : mapM f l = Ok k → Forall2 (λ x y, f x = Ok y) l k.
Proof.
  revert k. induction l as [|x l IH]; intros k; cbn; [intros [= <-]; constructor|].
  intros (y & Hy & (k' & Hk & [= <-])%bind_Ok)%bind_Ok. constructor; [done|by apply IH].
Qed.

Lemma messages_static p n : message_list p = Ok n → static n = true.
Proof.
  intros (ms & Hm & [= <-])%bind_Ok. apply mapM_Ok in Hm. cbn. rewrite forallb_app. apply andb_true_iff. split; [|done].
  induction Hm as [|msg n l ns Hn _ IH]; [done|]. cbn. by rewrite (message_static _ _ _ Hn).
Qed.

Lemma send_events p around :
  inside [] around → (∀ v, bubble OnSubmit v around = []) → events (chat_calls p) around (send_form p).
Proof.
  intros Q Qs. assert (inside [cp_onSend p] (Element "form" [("className"%string, lit "send-form")]
    [(OnSubmit, does (cp_onSend p))] :: around)) as Qf by (by apply inside_form).
  apply events_node; [own_event; constructor|]. dom_events; eauto with chat.
Qed.

Lemma modal_events p j around :
  inside [] around → (∀ v, bubble OnSubmit v around = []) → form_around around = None → cp_joinModal p = Some j →
  events (chat_calls p) around (join_modal p j).
Proof.
  intros Q Qs Qf Hj. apply events_node; [own_event; eauto with chat|]. apply Forall_cons_2; [|constructor].
  apply events_node; [own_event; constructor|]. apply Forall_cons_2; [|constructor].
  intros c u l Hc Hu. apply (cc_form p j); [done|]. revert c u l Hc Hu. apply join_view_events.
  - apply inside_stop; cbn; [done|done|apply Q|apply Q|done].
  - intros v. cbn. apply Qs.
Qed.

(** ** When the page can be shown, and what it loads *)

Lemma mapM_total {B C} (f : B → result C) l : Forall (λ x, ∃ y, f x = Ok y) l → ∃ k, mapM f l = Ok k.
Proof. induction 1 as [|x l [y Hy] _ [k Hk]]; [by eexists|]. cbn. rewrite Hy. cbn. rewrite Hk. by eexists. Qed.

Lemma chat_view_total p :
  showable (cp_peerCount p) = true → (∃ title, peer_title (cp_peerNicknames p) = Ok title) →
  Forall (λ msg, truthy (um_senderNickname msg) = true → showable (default JNull (um_senderNickname msg)) = true) (cp_messages p) →
  ∃ n, ChatView p = Ok n.
Proof.
  intros Hc [title Ht] Hm. unfold ChatView, chat_header. rewrite Ht. destruct (child_showable (A := A) _ Hc) as [count ->]. cbn [mbind result_bind].
  assert (∃ ms, mapM (message_view p) (cp_messages p) = Ok ms) as [ms E].
  { apply mapM_total. eapply Forall_impl; [exact Hm|]. intros msg Hs. cbn in Hs. unfold message_view.
    destruct (negb _ && truthy _) eqn:Et; [|by eexists]. apply andb_true_iff in Et as [_ Et].
    destruct (child_showable (A := A) _ (Hs Et)) as [ns ->]. by eexists. }
  unfold message_list. rewrite E. by eexists.
Qed.

Lemma media_addresses m x : x ∈ addresses (media_view m) → x = mr_url m.
Proof.
  unfold media_view. destruct (starts_with _ _); [cbn; set_solver|]. destruct (starts_with _ _); cbn; set_solver.
Qed.

Lemma message_addresses p msg n x :
  message_view p msg = Ok n → x ∈ addresses n → ∃ m, um_media msg = Some m ∧ x = mr_url m.
Proof.
  unfold message_view. intros (sender & Hs & [= <-])%bind_Ok.
  cbn -[when media_view]. rewrite !flat_map_app. assert (flat_map addresses sender = []) as ->.
  { destruct (negb _ && _); [|by injection Hs as <-]. apply bind_Ok in Hs as (ns & Hc%addresses_child & [= <-]). cbn. by rewrite Hc. }
  destruct (um_media msg) as [m|].
  - cbn -[media_view]. intros Hx. exists m. split; [done|]. apply media_addresses.
    destruct (um_queued msg), (um_own msg); cbn -[media_view] in Hx; by rewrite !app_nil_r in Hx.
  - cbn. destruct (um_queued msg), (um_own msg); by intros ?%not_elem_of_nil.
Qed.

Lemma tabs_addresses p : flat_map addresses (room_tabs p) = [].
Proof.
  unfold room_tabs. destruct (cp_rooms p) as [|r rs]; [done|]. cbn -[room_tab fmap]. rewrite flat_map_app, addresses_fmap; [done|].
  intros r'. unfold room_tab. cbn. by destruct (_ && _).
Qed.

Lemma header_addresses p n : chat_header p = Ok n → addresses n = [].
Proof.
  intros (title & _ & (count & Hc%addresses_child & [= <-])%bind_Ok)%bind_Ok. cbn -[when]. rewrite !flat_map_app, Hc. cbn.
  by destruct (cp_p2p p), (cp_timeRemaining p), (cp_callActive p).
Qed.

Lemma overlay_addresses p : addresses (call_overlay p) = [].
Proof.
  unfold call_overlay. cbn -[fmap when AudioVisualizer]. rewrite !flat_map_app, !addresses_fmap; [|by intros []|done].
  cbn. by destruct (cp_remoteStreams p), (is_str _ _).
Qed.

Lemma share_addresses p x : x ∈ addresses (share_section p) → x = cp_qrDataURL p ∧ x ≠ [].
Proof.
  unfold share_section. destruct (cp_showQR p), (cp_qrDataURL p); cbn; set_solver.
Qed.

Lemma progress_addresses dir verb progress : flat_map addresses (progress_view dir verb progress) = [].
Proof. by destruct progress as [[]|]. Qed.

Lemma messages_addresses p n x :
  message_list p = Ok n → x ∈ addresses n → ∃ msg m, msg ∈ cp_messages p ∧ um_media msg = Some m ∧ x = mr_url m.
Proof.
  intros (ms & Hm & [= <-])%bind_Ok. apply mapM_Ok in Hm. cbn. rewrite flat_map_app, app_nil_r.
  intros (n & Hn & Hx)%list_elem_of_In%in_flat_map. apply list_elem_of_In in Hn, Hx.
  apply list_elem_of_lookup in Hn as [i Hi]. destruct (Forall2_lookup_r _ _ _ _ _ Hm Hi) as (msg & Hmsg & E).
  destruct (message_addresses p msg n x E Hx) as (m & H1 & H2). exists msg, m. split; [by eapply list_elem_of_lookup_2|done].
Qed.

(** The addresses of the page are those of its messages' files and of the QR
    code. *)
Lemma chat_addresses p n x :
  ChatView p = Ok n → x ∈ addresses n →
  (x = cp_qrDataURL p ∧ x ≠ []) ∨ ∃ msg m, msg ∈ cp_messages p ∧ um_media msg = Some m ∧ x = mr_url m.
Proof.
  unfold ChatView. intros (header & Hh & (messages & Hm & [= <-])%bind_Ok)%bind_Ok.
  set (parts := _ ++ _). change (x ∈ flat_map addresses parts → (x = cp_qrDataURL p ∧ x ≠ []) ∨
    ∃ msg m, msg ∈ cp_messages p ∧ um_media msg = Some m ∧ x = mr_url m). subst parts.
  assert (∀ (n : node A) ns, flat_map addresses (n :: ns) = addresses n ++ flat_map addresses ns) as Hcons by done.
  repeat (rewrite flat_map_app || rewrite Hcons). rewrite tabs_addresses, (header_addresses _ _ Hh), !progress_addresses.
  rewrite !addresses_when, !Hcons, overlay_addresses.
  assert (flat_map addresses (canvas_section p) = []) as -> by (unfold canvas_section; by destruct (cp_canvasVisible p)).
  assert (addresses (send_form p) = []) as -> by (unfold send_form; by destruct (cp_canvasVisible p)).
  assert (flat_map addresses match cp_joinModal p with Some j => [join_modal p j] | None => [] end = []) as ->.
  { destruct (cp_joinModal p) as [j|]; [|done]. cbn -[JoinView]. by rewrite join_addresses. }
  cbn [app flat_map]. intros Hx.
  assert (x ∈ addresses (share_section p) ∨ x ∈ addresses messages) as [Hs|Hs].
  { revert Hx. destruct (cp_callActive p), (negb (str_empty (cp_shareLink p))), (negb (str_empty (cp_typingText p))); cbn -[share_section]; set_solver. }
  - left. by apply share_addresses.
  - right. by eapply messages_addresses.
Qed.

Lemma chat_events p n : ChatView p = Ok n → events (chat_calls p) [] n.
Proof.
  unfold ChatView. intros (header & Hh & (messages & Hm & [= <-])%bind_Ok)%bind_Ok.
  apply events_node; [own_event; constructor|].
  set (out := [_]). assert (inside [] out) as Q by (apply inside_cons, inside_nil; done).
  assert (∀ v, bubble OnSubmit v out = []) as Qs by done.
  apply Forall_app_2; [by apply tabs_events|]. apply Forall_cons_2; [by eapply header_events|].
  apply Forall_app_2; [apply events_when; intros Ha; apply Forall_cons_2; [by apply overlay_events|constructor]|].
  apply Forall_app_2; [apply events_when; intros Hl; apply Forall_cons_2; [apply share_events; [done|by destruct (cp_shareLink p)]|constructor]|].
  do 2 (apply Forall_app_2; [eapply static_events; [apply progress_static|exact Q|constructor]|]).
  apply Forall_cons_2; [eapply events_static; [by eapply messages_static|exact Q|constructor]|].
  apply Forall_app_2; [dom_events; constructor|].
  apply Forall_app_2; [unfold canvas_section; dom_events; eauto with chat|].
  apply Forall_cons_2; [by apply send_events|].
  destruct (cp_joinModal p) as [j|] eqn:Ej; [|constructor]. apply Forall_cons_2; [by apply modal_events|constructor].
Qed.

Lemma result_Ok_inj {B} (x y : B) : Ok x = Ok y → x = y.
Proof. by intros [= ->]. Qed.

Lemma tabs_offered p around r l :
  r ∈ cp_rooms p → offered (Element "div" [("className"%string, lit "room-tabs")] [] :: around) (room_tab p r) l →
  Exists (λ n, offered around n l) (room_tabs p).
Proof.
  intros Hr Ho. unfold room_tabs. destruct (cp_rooms p) as [|r' rs] eqn:E; [by apply not_elem_of_nil in Hr|]. rewrite <- E in Hr |- *.
  apply Exists_cons_hd, offered_node, Exists_app. left. apply Exists_exists. exists (room_tab p r). split; [by apply list_elem_of_fmap_2|done].
Qed.

(** The rest of the page. *)
Lemma chat_offers p n l : ChatView p = Ok n → chat_calls p l → offered [] n l.
Proof.
  unfold ChatView. intros (header & (title & _ & (count & _ & <-%result_Ok_inj)%bind_Ok)%bind_Ok & (messages & Hm & <-%result_Ok_inj)%bind_Ok)%bind_Ok Hl.
  apply offered_node. set (out := [_]). assert (inside [] out) as Q by (apply inside_cons, inside_nil; done).
  assert (∀ v, bubble OnSubmit v out = []) as Qs by done.
  assert (inside [cp_onSend p] (Element "form" [("className"%string, lit "send-form")] [(OnSubmit, does (cp_onSend p))] :: out))
    as Q2 by (by apply inside_form).
  destruct Hl as [|r Hr|r Hr|Hr| |t Hc Ht|Hc|Hc|Hc Ht|Hs|Hs|Hs Hq| | |v| | |Hv|Hv|j l Hj Hl|j Hj].
  1: { offers Click. }
  1-2: apply Exists_app; left; apply (tabs_offered _ _ r); [done|unfold room_tab; offers Click].
  1: { apply Exists_app; left. unfold room_tabs. destruct (cp_rooms p); [done|]. offers Click. }
  1: { offers Click. }
  1: { rewrite Hc. cbn [negb when]. apply list_elem_of_In in Ht as [<-|[<-|[]]]; offers Click. }
  1-2: rewrite Hc; offers Click.
  1: { rewrite Hc. cbn [when]. unfold call_overlay. rewrite Ht. offers Click. }
  1-2: destruct (cp_shareLink p) eqn:El; [done|]; cbn [str_empty negb when]; unfold share_section; rewrite El; offers Click.
  1: { destruct (cp_shareLink p) eqn:El; [done|]; destruct (cp_qrDataURL p) eqn:Eq; [done|].
       cbn [str_empty negb when]. unfold share_section. rewrite Eq. cbn [str_empty negb]. offers Click. }
  1: { unfold send_form. offers Click. }
  1: { unfold send_form. offers ChooseFile. }
  1: { unfold send_form. offers (Input v). }
  1-2: unfold send_form; offers Click.
  1-2: unfold send_form, canvas_section; rewrite Hv; offers Click.
  all: do 10 (apply Exists_app; right); rewrite Hj; unfold join_modal.
  - apply Exists_cons_hd, offered_node, Exists_cons_hd, offered_node, Exists_cons_hd. apply join_view_offered; [|by intros v|done].
    apply inside_stop; cbn; [done|done|apply Q|apply Q|done].
  - offers Click.
Qed.

(** C17: the calls an event anywhere in the page can make are the ones its
    elements are for, and each of them is there to be made: the close button of a
    tab leaves that room and does not switch to it, a click or an enter inside
    the modal does what the form does and does not close it, a chosen file is
    given to [onFileSelect], the call's buttons
    are there during a call only, and no event makes two calls but the one that
    removes the passphrase. Messages take no events. *)
Theorem chat_view_events p n : ChatView p = Ok n → ∀ l, offered [] n l ↔ chat_calls p l.
Proof.
  intros E l. split.
  - apply events_offered. by apply chat_events.
  - by apply chat_offers.
Qed.
End ChatView.

Arguments chat_props : clear implicits.

Module ChatExamples.
(** Two rooms are open, a message has come, and the form is not shown. *)
Definition two_rooms : chat_props string :=
  ChatProps (lit "a") [lit "a"; lit "b"] (lit "a") (λ _, "switch"%string) "add"%string (λ _, "leave room"%string)
    (lit "connected") (JNum 2) (JObj [(lit "p", JStr (lit "bob"))]) None true
    [UiMessage (lit "m1") (Some (lit "hi")) false false false false true (Some (JStr (lit "p"))) (Some (JStr (lit "bob"))) None] (λ _, lit "12:00") []
    (λ _, "type"%string) "send"%string "leave"%string (lit "https://t/#a") false "copy"%string false [] "qr"%string None None []
    [] "select"%string "pick"%string "file"%string "draw"%string [(lit "b", 3)] None "close"%string false None []
    (λ _, "call"%string) "end"%string "mute"%string "video"%string false false false (λ _, "canvas"%string) "clear"%string.

Lemma chat_view_events_witness :
  ∃ n, ChatView two_rooms = Ok n ∧ offered [] n ["leave room"%string] ∧ offered [] n ["file"%string] ∧
    ¬ offered [] n ["leave room"; "switch"]%string ∧ ¬ offered [] n ["mute"%string].
Proof.
  destruct (ChatView two_rooms) as [n|] eqn:E; [|discriminate E]. exists n. split; [reflexivity|].
  pose proof (chat_view_events two_rooms n E) as H. split; [|split; [|split]].
  - apply H. apply (cc_leave_room two_rooms (lit "b")). vm_compute. right. left.
  - apply H. apply (cc_file two_rooms).
  - intros Hn%H. remember ["leave room"; "switch"]%string as l eqn:El. destruct Hn; discriminate.
  - intros Hn%H. remember ["mute"%string] as l eqn:El. destruct Hn; discriminate.
Defined.
End ChatExamples.
