(* ===== verification/Visualizer.v ===== *)
(** * components/AudioVisualizer.jsx: the bars of a stream

    An effect makes an audio context for the stream and draws at every frame
    of the browser; its cleanup cancels the frame and closes the context. When
    the component goes, React empties [canvasRef] first and runs the cleanup
    later. Lengths are rationals: the browser's rounding of floats is left
    out. The markup is ChatView.v's. *)

From Stdlib Require Import QArith Qround Lqa.
From S2P Require Import Prelude JsLib.

Local Open Scope Z_scope.

Definition fftSize : Z := 256.
(** [analyser.frequencyBinCount]: half the size of the transform. *)
Definition bufferLength : Z := fftSize / 2.
Definition barCount : Z := Z.min bufferLength 64.

(** ** Drawing *)

Record bar := Bar { bar_x : Q; bar_y : Q; bar_w : Q; bar_h : Q; bar_color : jsstr }.

(** The canvas: its size in device pixels, the scale of its context, and what
    was painted since it was cleared. *)
Record surface := Surface { sf_width : Z; sf_height : Z; sf_scale : Q; sf_bars : list bar }.

Definition new_canvas : surface := Surface 300 150 1 [].

(** What the browser answers during a frame: the box of the canvas, the device
    pixel ratio, and the frequency data. *)
Record frame := Frame { fr_width : Q; fr_height : Q; fr_ratio : Q; fr_data : list Z }.

Definition dpr (f : frame) : Q := if Qeq_bool (fr_ratio f) 0 then 1%Q else fr_ratio f.

(** [Math.round]. *)
Definition js_round (x : Q) : Z := Qfloor (x + (1 # 2))%Q.

(** Setting the size of a canvas clears it and resets the transform. *)
Definition resize (f : frame) (s : surface) : surface :=
  let displayW := js_round (fr_width f * dpr f)%Q in
  let displayH := js_round (fr_height f * dpr f)%Q in
  if negb (sf_width s =? displayW) || negb (sf_height s =? displayH)
  then Surface displayW displayH (dpr f) [] else s.

Definition bar_of (color : jsstr) (f : frame) (i : nat) : bar :=
  let barWidth := (fr_width f / inject_Z barCount)%Q in
  let barHeight := (inject_Z (default 0%Z (fr_data f !! i)) / 255 * fr_height f)%Q in
  Bar (inject_Z (Z.of_nat i) * barWidth)%Q (fr_height f - barHeight)%Q (barWidth - 1)%Q barHeight color.

Definition paint (color : jsstr) (f : frame) (s : surface) : surface :=
  let s := resize f s in
  Surface (sf_width s) (sf_height s) (sf_scale s) (bar_of color f <$> seq 0 (Z.to_nat barCount)).

(** ** The component *)

(** An [AudioContext] made by the effect, with its source; [ac_raf] is the
    [rafId] of the run of the effect that made it. *)
Record audio_ctx := AudioCtx {
  ac_stream : nat;
  ac_resumed : bool;
  ac_connected : bool;
  ac_closed : bool;
  ac_raf : nat
}.

Record visualizer := Visualizer {
  vz_color : jsstr;                 (** [colorRef] *)
  vz_canvas : option surface;       (** [canvasRef] *)
  vz_stream : option nat;           (** the dependency of the last render *)
  vz_ctxs : list audio_ctx;
  vz_running : option nat;          (** the context the cleanup is for *)
  vz_frames : list (nat * nat);     (** the callbacks of [requestAnimationFrame], each with the context it draws *)
  vz_next : nat;
  vz_crashed : bool
}.

Definition mount_visualizer (color : jsstr) : visualizer := Visualizer color (Some new_canvas) None [] None [] 0 false.

Definition set_ctx (k : nat) (g : audio_ctx → audio_ctx) (v : visualizer) : visualizer :=
  Visualizer (vz_color v) (vz_canvas v) (vz_stream v) (alter g k (vz_ctxs v)) (vz_running v) (vz_frames v) (vz_next v) (vz_crashed v).
Definition set_running (r : option nat) (frames : list (nat * nat)) (v : visualizer) : visualizer :=
  Visualizer (vz_color v) (vz_canvas v) (vz_stream v) (vz_ctxs v) r frames (vz_next v) (vz_crashed v).

(** [draw]. *)
Definition draw (k : nat) (f : frame) (v : visualizer) : visualizer :=
  let id := vz_next v in
  let v := set_ctx k (λ c, AudioCtx (ac_stream c) (ac_resumed c) (ac_connected c) (ac_closed c) id) v in
  Visualizer (vz_color v) (paint (vz_color v) f <$> vz_canvas v) (vz_stream v) (vz_ctxs v) (vz_running v)
             (vz_frames v ++ [(id, k)]) (S id) (vz_crashed v).

(** The browser makes no context, a context for a stream, or one that refuses
    the stream, for want of a track to play. *)
Inductive audio_answer := NoContext | Context (suspended : bool) | NoAudio (suspended : bool).

(** A suspended context is resumed at once. *)
Definition audio_effect (stream : nat) (answer : audio_answer) (f : frame) (v : visualizer) : visualizer :=
  let k := length (vz_ctxs v) in
  let made resumed connected crashed :=
    Visualizer (vz_color v) (vz_canvas v) (vz_stream v) (vz_ctxs v ++ [AudioCtx stream resumed connected false 0]) (vz_running v)
               (vz_frames v) (vz_next v) crashed in
  match answer with
  | NoContext => v
  | NoAudio suspended => made suspended false true
  | Context suspended =>
      let v := made suspended true (vz_crashed v) in
      match vz_canvas v with
      | None => v
      | Some _ => draw k f (set_running (Some k) (vz_frames v) v)
      end
  end.

Definition audio_cleanup (v : visualizer) : visualizer :=
  match vz_running v with
  | None => v
  | Some k =>
      let raf := default 0%nat (ac_raf <$> vz_ctxs v !! k) in
      set_running None (filter (λ x, x.1 ≠ raf) (vz_frames v))
        (set_ctx k (λ c, AudioCtx (ac_stream c) (ac_resumed c) false true (ac_raf c)) v)
  end.

(** The effects after a render, [color] and [stream] being the props. *)
Definition render_visualizer (color : jsstr) (stream : option nat) (answer : audio_answer) (f : frame) (v : visualizer)
    : visualizer :=
  let changed := bool_decide (stream ≠ vz_stream v) in
  let v := if changed then audio_cleanup v else v in
  let v := Visualizer color (vz_canvas v) stream (vz_ctxs v) (vz_running v) (vz_frames v) (vz_next v) (vz_crashed v) in
  match stream with
  | Some s => if changed then audio_effect s answer f v else v
  | None => v
  end.

Inductive viz_label :=
  | VRender (color : jsstr) (stream : option nat) (answer : audio_answer) (f : frame)
  | VFrame (id : nat) (f : frame)
  | VDetach
  | VCleanup.

(** A component that is going is rendered no more; a tree that crashed is gone,
    and the effect that threw left no cleanup. *)
Definition viz_exec (v : visualizer) (l : viz_label) : option visualizer :=
  match l with
  | VRender color stream answer f =>
      if vz_crashed v || negb (is_some (vz_canvas v)) then None else Some (render_visualizer color stream answer f v)
  | VFrame id f =>
      k ← map_get (vz_frames v) id;
      Some (draw k f (set_running (vz_running v) (filter (λ x, x.1 ≠ id) (vz_frames v)) v))
  | VDetach =>
      Some (Visualizer (vz_color v) None (vz_stream v) (vz_ctxs v) (vz_running v) (vz_frames v) (vz_next v) (vz_crashed v))
  | VCleanup => if is_some (vz_canvas v) then None else Some (audio_cleanup v)
  end.

Fixpoint viz_run (v : visualizer) (ls : list viz_label) : option visualizer :=
  match ls with [] => Some v | l :: ls => v ← viz_exec v l; viz_run v ls end.

(** ** The bars *)

(** The frequency data are bytes. *)
Definition frame_ok (f : frame) : Prop := (0 <= fr_width f)%Q ∧ (0 <= fr_height f)%Q ∧ Forall (λ d, 0 ≤ d ≤ 255) (fr_data f).

Lemma level_unit (d : Z) : 0 ≤ d ≤ 255 → (0 <= inject_Z d / 255 <= 1)%Q.
Proof.
  intros [H1 H2]. rewrite Zle_Qle in H1, H2. change (inject_Z 0) with 0%Q in H1. change (inject_Z 255) with 255%Q in H2.
  split; [apply Qle_shift_div_l|apply Qle_shift_div_r]; lra.
Qed.

(** The 64 bars stand side by side on the lower edge, inside the canvas. *)
Lemma bars_inside color f s b :
  frame_ok f → b ∈ sf_bars (paint color f s) →
  (bar_y b + bar_h b == fr_height f ∧ 0 <= bar_y b ∧ 0 <= bar_h b ∧ 0 <= bar_x b ∧ bar_x b + bar_w b <= fr_width f)%Q.
Proof.
  intros (Hw & Hh & Hd). cbn [sf_bars paint]. intros (i & -> & Hi)%list_elem_of_fmap. apply elem_of_seq in Hi as [_ Hi].
  change (0 + Z.to_nat barCount)%nat with 64%nat in Hi. cbn [bar_y bar_h bar_x bar_w bar_of].
  assert (0 ≤ default 0 (fr_data f !! i) ≤ 255) as Hv.
  { destruct (fr_data f !! i) as [d|] eqn:E; [|cbn; lia]. rewrite Forall_forall in Hd. apply (Hd d). by eapply list_elem_of_lookup_2. }
  apply level_unit in Hv. set (level := (inject_Z (default 0%Z (fr_data f !! i)) / 255)%Q) in *. clearbody level.
  change (inject_Z barCount) with 64%Q. assert (0 <= inject_Z (Z.of_nat i) <= 63)%Q as Hn.
  { change 63%Q with (inject_Z 63). change 0%Q with (inject_Z 0). rewrite <- !Zle_Qle. lia. }
  set (n := inject_Z (Z.of_nat i)) in *. clearbody n. set (w := fr_width f) in *. set (h := fr_height f) in *. clearbody w h.
  assert (w / 64 == w * (1 # 64))%Q as Hq by (unfold Qdiv; reflexivity).
  split; [ring|]. split; [nra|]. split; [nra|]. split; [rewrite Hq; nra|]. rewrite Hq. nra.
Qed.

(** ** The contexts *)

(** One context is open at most, and one callback pending: the ones of the
    running effect. *)
Record viz_inv (v : visualizer) : Prop := VizInv {
  vi_frames : vz_frames v = match vz_running v with Some k => [(default 0%nat (ac_raf <$> vz_ctxs v !! k), k)] | None => [] end;
  vi_running k : vz_running v = Some k → ∃ c, vz_ctxs v !! k = Some c ∧ ac_closed c = false ∧ Some (ac_stream c) = vz_stream v;
  vi_open i c : vz_crashed v = false → vz_ctxs v !! i = Some c → vz_running v ≠ Some i → ac_closed c = true
}.

Lemma alter_lookup_inv {A} (g : A → A) k (l : list A) i y :
  alter g k l !! i = Some y → ∃ x, l !! i = Some x ∧ y = (if decide (i = k) then g x else x).
Proof.
  destruct (decide (i = k)) as [->|Hne].
  - rewrite list_lookup_alter, decide_True by done. intros (x & Hx & ->)%fmap_Some. eauto.
  - rewrite list_lookup_alter_ne by done. eauto.
Qed.

Lemma cancel_only (raf k : nat) : filter (λ x : nat * nat, x.1 ≠ raf) [(raf, k)] = [].
Proof. unfold filter. cbn. by rewrite decide_False by tauto. Qed.

(** A frame of the running context, when no other is pending. *)
Lemma inv_draw k f v :
  (∃ c, vz_ctxs v !! k = Some c ∧ ac_closed c = false ∧ Some (ac_stream c) = vz_stream v) → vz_running v = Some k → vz_frames v = [] →
  (∀ i c, vz_crashed v = false → vz_ctxs v !! i = Some c → i ≠ k → ac_closed c = true) → viz_inv (draw k f v).
Proof.
  intros (c & Hc & Hopen & Hs) Hr Hf Ho. split; cbn; rewrite Hr, ?Hf, ?list_lookup_alter, ?decide_True, ?Hc by done; cbn.
  - done.
  - intros k' [= <-]. rewrite list_lookup_alter, decide_True, Hc by done. by eexists.
  - intros i c' Hcr (x & Hx & ->)%alter_lookup_inv Hi. rewrite decide_False by congruence. apply (Ho i x Hcr Hx). congruence.
Qed.

Lemma inv_cleanup v : viz_inv v → viz_inv (audio_cleanup v) ∧ vz_running (audio_cleanup v) = None.
Proof.
  intros [H1 H2 H3]. unfold audio_cleanup. destruct (vz_running v) as [k|] eqn:Er; [|by split; [split; rewrite ?Er|]].
  split; [|done]. split; [|done|].
  - change (filter (λ x, x.1 ≠ default 0%nat (ac_raf <$> vz_ctxs v !! k)) (vz_frames v) = []). rewrite H1. apply cancel_only.
  - cbn. intros i c Hcr (x & Hx & ->)%alter_lookup_inv _. case_decide; [done|]. apply (H3 i x Hcr Hx). congruence.
Qed.

Lemma inv_render color stream answer f v :
  is_Some (vz_canvas v) → vz_crashed v = false → viz_inv v → viz_inv (render_visualizer color stream answer f v).
Proof.
  intros [s Hs] Hcr Hv. unfold render_visualizer. case_bool_decide as Hne.
  - apply inv_cleanup in Hv as [Hv Hr]. assert (vz_canvas (audio_cleanup v) = Some s ∧ vz_crashed (audio_cleanup v) = false) as [Es Ec].
    { unfold audio_cleanup. by destruct (vz_running v). }
    revert Hv Hr Es Ec. generalize (audio_cleanup v). clear. intros v [H1 H2 H3] Hr Es Ec. rewrite Hr in *.
    destruct stream as [st|]; [|by split; cbn; rewrite ?Hr]. unfold audio_effect. destruct answer as [|b|b]; cbn [vz_canvas].
    + by split; cbn; rewrite ?Hr.
    + rewrite Es. apply inv_draw; cbn.
      * rewrite list_lookup_middle by done. by eexists.
      * done.
      * done.
      * intros i c Hcr Hi Hne. rewrite lookup_app_l in Hi; [by apply (H3 i c)|]. apply lookup_lt_Some in Hi. rewrite length_app in Hi. cbn in Hi. lia.
    + split; cbn; rewrite ?Hr; done.
  - subst stream. destruct Hv as [H1 H2 H3]. by destruct (vz_stream v); split.
Qed.

Lemma inv_viz v l v' : viz_inv v → viz_exec v l = Some v' → viz_inv v'.
Proof.
  intros Hv. destruct l as [color stream answer f|id f| |]; cbn [viz_exec].
  - destruct (vz_crashed v) eqn:Ec; [done|]. destruct (vz_canvas v) as [s|] eqn:Es; [|done]. intros [= <-].
    apply inv_render; [by rewrite Es|done|done].
  - intros (k & Hk & [= <-])%bind_Some. destruct Hv as [H1 H2 H3]. rewrite H1 in Hk |- *.
    destruct (vz_running v) as [k'|] eqn:Er; [|done]. cbn in Hk. destruct (decide _) as [Hd|]; [|done]. injection Hk as <-.
    apply inv_draw; cbn.
    + by apply H2.
    + done.
    + rewrite Hd. apply cancel_only.
    + intros i c Hcr Hi Hne. apply (H3 i c Hcr Hi). congruence.
  - intros [= <-]. by destruct Hv as [H1 H2 H3].
  - destruct (is_some _); [done|]. intros [= <-]. by apply inv_cleanup.
Qed.

Lemma inv_viz_run v ls v' : viz_inv v → viz_run v ls = Some v' → viz_inv v'.
Proof.
  revert v. induction ls as [|l ls IH]; intros v Hv; cbn; [by intros [= <-]|].
  intros (v1 & E & Hr)%bind_Some. apply (IH v1); [by eapply inv_viz|done].
Qed.

(** As long as the browser takes the streams, whatever streams come and go,
    one audio context is open at most, that of the stream on display, and one
    frame is pending at most; when the component has gone its cleanup leaves
    none. *)
Theorem audio_released color ls v :
  viz_run (mount_visualizer color) ls = Some v → vz_crashed v = false →
  (length (vz_frames v) ≤ 1)%nat ∧
  (∀ i c, vz_ctxs v !! i = Some c → ac_closed c = false → vz_running v = Some i ∧ vz_stream v = Some (ac_stream c)) ∧
  (vz_canvas v = None → ∃ v', viz_exec v VCleanup = Some v' ∧ vz_frames v' = [] ∧ Forall (λ c, ac_closed c = true) (vz_ctxs v')).
Proof.
  intros Hr Hc. assert (viz_inv v) as Hv by (eapply inv_viz_run, Hr; by split).
  split; [|split].
  - rewrite (vi_frames v Hv). by destruct (vz_running v); cbn; lia.
  - intros i c Hi Hopen. destruct (decide (vz_running v = Some i)) as [Er|Hne].
    + destruct (vi_running v Hv i Er) as (c' & Hc' & _ & Es). simplify_eq. by split.
    + by rewrite (vi_open v Hv i c Hc Hi Hne) in Hopen.
  - intros Hg. exists (audio_cleanup v). cbn. rewrite Hg. split; [done|]. apply inv_cleanup in Hv as [Hv Hn].
    assert (vz_crashed (audio_cleanup v) = false) as Hc' by (unfold audio_cleanup; by destruct (vz_running v)).
    split; [by rewrite (vi_frames _ Hv), Hn|]. apply Forall_lookup. intros i c Hi. apply (vi_open _ Hv i c Hc' Hi). by rewrite Hn.
Qed.

Module VisualizerExamples.
Definition box : frame := Frame 200 40 2 (repeat 128 128).
Definition a_call : list viz_label :=
  [VRender [] (Some 1%nat) (Context true) box; VFrame 0 box; VFrame 1 box; VRender [] (Some 2%nat) (Context false) box; VFrame 3 box; VDetach].

Lemma audio_released_witness :
  ∃ v v', viz_run (mount_visualizer []) a_call = Some v ∧ length (vz_ctxs v) = 2%nat ∧ length (vz_frames v) = 1%nat ∧
    viz_exec v VCleanup = Some v' ∧ vz_frames v' = [] ∧ Forall (λ c, ac_closed c = true) (vz_ctxs v').
Proof.
  assert (((λ v, (length (vz_ctxs v), length (vz_frames v), vz_crashed v, is_some (vz_canvas v))) <$> viz_run (mount_visualizer []) a_call) =
          Some (2%nat, 1%nat, false, false)) as Hv by vm_refl.
  destruct (viz_run (mount_visualizer []) a_call) as [v|] eqn:E; [|discriminate Hv].
  apply (Some_inj _ _), pair_equal_spec in Hv as [Hv V4]. apply pair_equal_spec in Hv as [Hv V3]. apply pair_equal_spec in Hv as [V1 V2].
  destruct (audio_released [] a_call v E V3) as (_ & _ & H3). destruct (H3) as (v' & E' & Hf & Ha); [by destruct (vz_canvas v)|].
  exists v, v'. split; [reflexivity|]. split; [exact V1|]. split; [exact V2|]. split; [exact E'|]. split; [exact Hf|exact Ha].
Defined.

(** A stream without a track to play takes the page down, and its context stays
    open. *)
Example no_audio_crashes :
  ((λ v, (vz_crashed v, ac_closed <$> vz_ctxs v)) <$>
     viz_run (mount_visualizer []) [VRender [] (Some 1%nat) (NoAudio false) box; VDetach; VCleanup]) = Some (true, [false]).
Proof. vm_refl. Qed.
End VisualizerExamples.
