(* ===== verification/AppState.v ===== *)
(** * The application's state, hooks/useKeyRotation.js and hooks/useMediaTransfer.js

    [App] owns one instance of every hook. The callbacks a hook returns close
    over the room that was active when they were made: the functions below
    that put a message into "the" room take that room as [scope]. The refs
    ([activeKeyRef], [clientRef]) are the ones of the application. The object
    URLs' lifetime is left out; an object URL is a string the platform gives.
    An upload is suspended wherever [sendMedia] awaits, and other steps come in
    between. *)

From S2P Require Import Prelude JsLib Json Crypto Timers KeyRotator Mime MediaSend MediaAssembler.
From S2P Require Import Client Rooms Typing WebRTC MeshHook CallManager.

Local Open Scope Z_scope.

Definition PROGRESS_MS : Z := 500.

Section AppState.
Context `{WebCrypto}.

(** A call of [sendMedia], with what the hook does with its result: the
    arguments, the IVs that will be drawn, and the address the file has in the
    message. A canvas is shared as its data URL, without a size. *)
Record upload := Upload {
  up_canvas : bool;
  up_room : jsstr;
  up_key : option CryptoKey;
  up_file : file;
  up_url : jsstr;
  up_ivs : Z → bytes
}.

(** The calls of the application suspended at an [await]. What they await is
    computed from the state when they suspend. An upload awaits the canvas'
    blob, the bytes of the file, the encryption of a chunk, or the pause before
    the next one. *)
Inductive app_task :=
  | TSetup (base room : jsstr) (s : setup) (first : bool) (payload : list (jsstr * json))
  | TJoin (room link : jsstr) (sock : nat) (first : bool) (payload : list (jsstr * json))
  | TDerive (room : jsstr) (presence : json) (r : result CryptoKey)
  | TChat (data : json) (room : jsstr) (r : result jsstr) (p2p : bool)
  | TRotateActive (scope : jsstr) (r : result jsstr)
  | TRotateOther (room : jsstr) (r : result jsstr)
  | TSend (room input : jsstr) (r : result jsstr)
  | TBlob (room : jsstr) (key : option CryptoKey) (dataURL : jsstr) (blob : option bytes) (ivs : Z → bytes)
  | TRead (u : upload)
  | TChunk (u : upload) (transferId : jsstr) (seq : Z)
  | TPause (u : upload) (transferId : jsstr) (seq until : Z).

(** What [App] keeps besides its hooks, and the progress [useMediaTransfer]
    shows. [pg_observer]: the elements the [IntersectionObserver] watches, each
    with its [data-msg-id]. *)
Record page := Page {
  pg_status : jsstr;
  pg_chat : bool;                       (** [view] is ['chat'] *)
  pg_showJoinModal : bool;
  pg_joinRoom : jsstr;
  pg_passphrase : jsstr;
  pg_ttl : Z;
  pg_intentional : bool;                (** [intentionalDisconnectRef] *)
  pg_observer : option (list (nat * jsstr));
  pg_upload : option (Z * Z);
  pg_download : option (jsstr * Z * Z);
  pg_clock : timers unit                (** the timers that take the progress away *)
}.

Definition new_page (now : Z) : page := Page (lit "disconnected") false false [] [] 0 false None None None (timers_init now).

Definition set_status (status : jsstr) (p : page) : page :=
  Page status (pg_chat p) (pg_showJoinModal p) (pg_joinRoom p) (pg_passphrase p) (pg_ttl p) (pg_intentional p)
       (pg_observer p) (pg_upload p) (pg_download p) (pg_clock p).
Definition set_view (chat modal : bool) (p : page) : page :=
  Page (pg_status p) chat modal (pg_joinRoom p) (pg_passphrase p) (pg_ttl p) (pg_intentional p)
       (pg_observer p) (pg_upload p) (pg_download p) (pg_clock p).
Definition set_form (joinRoom passphrase : jsstr) (ttl : Z) (p : page) : page :=
  Page (pg_status p) (pg_chat p) (pg_showJoinModal p) joinRoom passphrase ttl (pg_intentional p)
       (pg_observer p) (pg_upload p) (pg_download p) (pg_clock p).
Definition set_intentional (b : bool) (p : page) : page :=
  Page (pg_status p) (pg_chat p) (pg_showJoinModal p) (pg_joinRoom p) (pg_passphrase p) (pg_ttl p) b
       (pg_observer p) (pg_upload p) (pg_download p) (pg_clock p).
Definition set_observer (o : option (list (nat * jsstr))) (p : page) : page :=
  Page (pg_status p) (pg_chat p) (pg_showJoinModal p) (pg_joinRoom p) (pg_passphrase p) (pg_ttl p) (pg_intentional p)
       o (pg_upload p) (pg_download p) (pg_clock p).
Definition set_download (d : option (jsstr * Z * Z)) (clock : timers unit) (p : page) : page :=
  Page (pg_status p) (pg_chat p) (pg_showJoinModal p) (pg_joinRoom p) (pg_passphrase p) (pg_ttl p) (pg_intentional p)
       (pg_observer p) (pg_upload p) d clock.
Definition set_upload (u : option (Z * Z)) (p : page) : page :=
  Page (pg_status p) (pg_chat p) (pg_showJoinModal p) (pg_joinRoom p) (pg_passphrase p) (pg_ttl p) (pg_intentional p)
       (pg_observer p) u (pg_download p) (pg_clock p).

Record app := App {
  a_client : client;
  a_rm : room_manager;
  a_mesh : mesh_hook;
  a_call : call_manager;
  a_typing : typing;
  a_rotator : option nat;            (** [rotatorRef], into the rotators made so far *)
  a_rotators : list (rotator * jsstr);   (** each with the scope its [onRotate] closes over *)
  a_assembler : option assembler;
  a_handlers : option jsstr;         (** the handlers are registered, with this scope *)
  a_pendingKeyRooms : list jsstr;
  a_pendingMessages : list (jsstr * list json);
  a_peerNicknames : json;
  a_nickname : jsstr;
  a_tasks : list (option app_task);
  a_page : page
}.

Definition new_app (nickname : jsstr) (now : Z) : app :=
  App (new_client now) (new_room_manager now) (new_mesh_hook now) new_call_manager (new_typing now)
      None [] None None [] [] (JObj []) nickname [] (new_page now).

Definition with_client (f : client → client) (a : app) : app :=
  App (f (a_client a)) (a_rm a) (a_mesh a) (a_call a) (a_typing a) (a_rotator a) (a_rotators a) (a_assembler a) (a_handlers a)
      (a_pendingKeyRooms a) (a_pendingMessages a) (a_peerNicknames a) (a_nickname a) (a_tasks a) (a_page a).
Definition with_rm (f : room_manager → room_manager) (a : app) : app :=
  App (a_client a) (f (a_rm a)) (a_mesh a) (a_call a) (a_typing a) (a_rotator a) (a_rotators a) (a_assembler a) (a_handlers a)
      (a_pendingKeyRooms a) (a_pendingMessages a) (a_peerNicknames a) (a_nickname a) (a_tasks a) (a_page a).
Definition set_mesh (h : mesh_hook) (a : app) : app :=
  App (a_client a) (a_rm a) h (a_call a) (a_typing a) (a_rotator a) (a_rotators a) (a_assembler a) (a_handlers a)
      (a_pendingKeyRooms a) (a_pendingMessages a) (a_peerNicknames a) (a_nickname a) (a_tasks a) (a_page a).
Definition set_call_manager (m : call_manager) (a : app) : app :=
  App (a_client a) (a_rm a) (a_mesh a) m (a_typing a) (a_rotator a) (a_rotators a) (a_assembler a) (a_handlers a)
      (a_pendingKeyRooms a) (a_pendingMessages a) (a_peerNicknames a) (a_nickname a) (a_tasks a) (a_page a).
Definition set_typing (t : typing) (a : app) : app :=
  App (a_client a) (a_rm a) (a_mesh a) (a_call a) t (a_rotator a) (a_rotators a) (a_assembler a) (a_handlers a)
      (a_pendingKeyRooms a) (a_pendingMessages a) (a_peerNicknames a) (a_nickname a) (a_tasks a) (a_page a).
Definition set_rotators (r : option nat) (rs : list (rotator * jsstr)) (a : app) : app :=
  App (a_client a) (a_rm a) (a_mesh a) (a_call a) (a_typing a) r rs (a_assembler a) (a_handlers a)
      (a_pendingKeyRooms a) (a_pendingMessages a) (a_peerNicknames a) (a_nickname a) (a_tasks a) (a_page a).
Definition set_assembler (s : option assembler) (a : app) : app :=
  App (a_client a) (a_rm a) (a_mesh a) (a_call a) (a_typing a) (a_rotator a) (a_rotators a) s (a_handlers a)
      (a_pendingKeyRooms a) (a_pendingMessages a) (a_peerNicknames a) (a_nickname a) (a_tasks a) (a_page a).
Definition set_handlers (h : option jsstr) (a : app) : app :=
  App (a_client a) (a_rm a) (a_mesh a) (a_call a) (a_typing a) (a_rotator a) (a_rotators a) (a_assembler a) h
      (a_pendingKeyRooms a) (a_pendingMessages a) (a_peerNicknames a) (a_nickname a) (a_tasks a) (a_page a).
Definition set_pendingKeys (rooms : list jsstr) (messages : list (jsstr * list json)) (a : app) : app :=
  App (a_client a) (a_rm a) (a_mesh a) (a_call a) (a_typing a) (a_rotator a) (a_rotators a) (a_assembler a) (a_handlers a)
      rooms messages (a_peerNicknames a) (a_nickname a) (a_tasks a) (a_page a).
Definition set_nicknames (peers : json) (own : jsstr) (a : app) : app :=
  App (a_client a) (a_rm a) (a_mesh a) (a_call a) (a_typing a) (a_rotator a) (a_rotators a) (a_assembler a) (a_handlers a)
      (a_pendingKeyRooms a) (a_pendingMessages a) peers own (a_tasks a) (a_page a).
Definition set_app_tasks (ts : list (option app_task)) (a : app) : app :=
  App (a_client a) (a_rm a) (a_mesh a) (a_call a) (a_typing a) (a_rotator a) (a_rotators a) (a_assembler a) (a_handlers a)
      (a_pendingKeyRooms a) (a_pendingMessages a) (a_peerNicknames a) (a_nickname a) ts (a_page a).

Definition with_page (f : page → page) (a : app) : app :=
  App (a_client a) (a_rm a) (a_mesh a) (a_call a) (a_typing a) (a_rotator a) (a_rotators a) (a_assembler a) (a_handlers a)
      (a_pendingKeyRooms a) (a_pendingMessages a) (a_peerNicknames a) (a_nickname a) (a_tasks a) (f (a_page a)).

Definition add_task (t : app_task) (a : app) : app := set_app_tasks (a_tasks a ++ [Some t]) a.

(** The key a reference holds, where a [CryptoKey] is needed: the platform
    refuses a string as it refuses [null]. *)
Definition key_opt (k : option keyref) : option CryptoKey :=
  match k with Some (Key k) => Some k | _ => None end.

Context (randomUUID : nat → jsstr).

(** [crypto.randomUUID()], drawn from the stream the client draws from. *)
Definition next_uuid (a : app) : jsstr := randomUUID (cl_uuids (a_client a)).

(** Append a message made with a fresh id. *)
Definition append_fresh (room : jsstr) (mk : jsstr → ui_message) (a : app) : app :=
  with_rm (appendMessageToRoom room (mk (next_uuid a))) (with_client (draw_uuids 1) a).

Definition notice (text : jsstr) (system error : bool) (id : jsstr) : ui_message :=
  UiMessage id (Some text) false system error false false None None None.

Definition client_send (type room : jsstr) (payload : option json) (msgId : option jsstr) (a : app) : app :=
  with_client (λ c, (Client.send randomUUID type room payload msgId c).2) a.

(** ** useKeyRotation *)

(** [env] is [parseInt(VITE_KEY_ROTATION_INTERVAL || '1800000', 10)], [None] for [NaN]. *)
Definition KEY_ROTATION_INTERVAL (env : option Z) : Z :=
  Z.max 60000 (match env with Some n => if n =? 0 then 1800000 else n | None => 1800000 end).

Definition rotated_text : jsstr := lit "[key rotated " ++ [8212] ++ lit " encryption key updated]".
Definition rotated_by_peer_text : jsstr := lit "[key rotated by peer " ++ [8212] ++ lit " encryption key updated]".
Definition rotation_failed_text : jsstr := lit "[key rotation failed " ++ [8212] ++ lit " could not decrypt new key]".

(** [rotatorRef.current.stop()], when there is one. *)
Definition stop_current (a : app) : list (rotator * jsstr) :=
  match a_rotator a with
  | Some i => alter (λ x, (KeyRotator.stop x.1, x.2)) i (a_rotators a)
  | None => a_rotators a
  end.

Definition startRotation (env : option Z) (scope : jsstr) (key : option keyref) (a : app) : app :=
  let r := new_rotator (Some (KEY_ROTATION_INTERVAL env)) true (cl_now (a_client a)) in
  let rs := stop_current a in
  set_rotators (Some (length rs)) (rs ++ [(KeyRotator.start (key_opt key) r, scope)]) a.

(** The callback [onRotate]; [iv] is the IV drawn for the new key. *)
Definition onRotate (scope : jsstr) (iv : bytes) (call : rotate_call) (a : app) : app :=
  match rc_exported call with
  | Throw _ => a
  | Ok exportedKey =>
      let a := with_rm (set_activeKey (Key <$> rc_new call)) a in
      let a := match encrypt (rc_old call) iv exportedKey with
               | Ok encryptedNewKey => client_send (lit "key_rotation") scope (Some (JStr encryptedNewKey)) None a
               | Throw _ => a
               end in
      append_fresh scope (notice rotated_text true false) a
  end.

Definition stopRotation (a : app) : app := set_rotators None (stop_current a) a.

Definition current_rotator (a : app) : option rotator := i ← a_rotator a; fst <$> a_rotators a !! i.

Definition decryptWithRotation (ciphertext : jsstr) (a : app) : result jsstr :=
  match current_rotator a with
  | Some r => rotator_decrypt ciphertext r
  | None => decrypt (key_opt (rm_activeKey (a_rm a))) ciphertext
  end.

(** [handleKeyRotationMessage] up to its [await], and after it. *)
Definition handleKeyRotationMessage (scope : jsstr) (payload : option jsstr) (a : app) : app :=
  add_task (TRotateActive scope (match payload with Some p => decryptWithRotation p a | None => Throw (lit "TypeError") end)) a.

Definition accept_rotation (scope : jsstr) (r : result jsstr) (a : app) : app :=
  match exported ← r; importKey exported with
  | Ok newKey =>
      let a := with_rm (set_activeKey (Some (Key newKey))) a in
      let a := match a_rotator a with
               | Some i => set_rotators (Some i) (alter (λ x, (acceptKey newKey x.1, x.2)) i (a_rotators a)) a
               | None => a
               end in
      append_fresh scope (notice rotated_by_peer_text true false) a
  | Throw _ => append_fresh scope (notice rotation_failed_text false true) a
  end.

(** ** useMediaTransfer *)

Definition initAssembler (a : app) : app :=
  set_assembler (Some (new_assembler true (cl_now (a_client a)))) a.

Definition destroyAssembler (a : app) : app := set_assembler None a.

Definition file_message (url mimeType fileName : jsstr) (fileSize : option Z) (own : bool) (id : jsstr) : ui_message :=
  UiMessage id None own false false false false None None (Some (MediaRef url mimeType fileName fileSize)).

Definition media_text (own : bool) (text : jsstr) (id : jsstr) : ui_message :=
  UiMessage id (Some text) own false true false false None None None.

(** The callback [onProgress]. *)
Definition onProgress (call : jsstr * Z * Z) (p : page) : page :=
  let clock := if call.1.2 =? call.2 then (setTimeout (pg_clock p) tt PROGRESS_MS).2 else pg_clock p in
  set_download (Some call) clock p.

Definition progress_expired (id : nat) (p : page) : option page :=
  _ ← due (pg_clock p) id; Some (set_download None (clearTimeout (pg_clock p) id) p).

Definition resetProgress (p : page) : page := set_download None (pg_clock p) (set_upload None p).

(** [handleMediaChunk(data)], when nothing else runs during its awaits; [url]
    is the object URL of a complete file. *)
Definition handleMediaChunk (scope url : jsstr) (payload : payload) (a : app) : app :=
  match a_assembler a with
  | None => a
  | Some asm0 =>
      let '(asm, r) := handleChunk payload (key_opt (rm_activeKey (a_rm a))) asm0 in
      let calls := drop (length (progress_calls asm0)) (progress_calls asm) in
      let a := with_page (λ p, fold_left (λ p call, onProgress call p) calls p) (set_assembler (Some asm) a) in
      match r with
      | Ok (RError _ message) => append_fresh scope (media_text false message) a
      | Ok (RComplete _ mimeType fileName fileSize _) =>
          append_fresh scope (file_message url mimeType (default [] (as_str (Some fileName))) (as_num fileSize) false) a
      | _ => a
      end
  end.

(** *** Uploads *)

Definition up_mimeType (u : upload) : jsstr := detectMimeType (file_type (up_file u)) (file_bytes (up_file u)).
Definition up_total (u : upload) : Z := chunk_count CHUNK_SIZE (Z.of_nat (length (file_bytes (up_file u)))).
Definition up_payload (u : upload) (transferId : jsstr) : Z → result jsstr :=
  chunk_payload CHUNK_SIZE (up_key u) (up_file u) (up_mimeType u) transferId (up_total u) (up_ivs u).

(** The two ends of [handleFileSelect] and [handleCanvasShare]. *)
Definition finish_upload (u : upload) (a : app) : app :=
  append_fresh (up_room u)
    (file_message (up_url u) (up_mimeType u) (file_name (up_file u))
       (if up_canvas u then None else Some (file_size (up_file u))) true)
    (with_page (set_upload None) a).

Definition fail_upload (canvas : bool) (room e : jsstr) (a : app) : app :=
  append_fresh room
    (media_text true (lit (if canvas then "[canvas share failed: " else "[upload failed: ") ++ e ++ lit "]"))
    (with_page (set_upload None) a).

(** [sendMedia], from one [await] to the next. *)
Definition start_upload (u : upload) (a : app) : app :=
  if file_size (up_file u) >? MAX_FILE_SIZE then fail_upload (up_canvas u) (up_room u) (too_large (up_file u)) a
  else add_task (TRead u) a.

Definition upload_read (u : upload) (a : app) : app :=
  let transferId := next_uuid a in
  let a := with_client (draw_uuids 1) a in
  if up_total u >? 0 then add_task (TChunk u transferId 0) a else finish_upload u a.

Definition upload_chunk (u : upload) (transferId : jsstr) (seq : Z) (a : app) : app :=
  match up_payload u transferId seq with
  | Throw e => fail_upload (up_canvas u) (up_room u) e a
  | Ok p =>
      let a := client_send (lit "media") (up_room u) (Some (JStr p)) None a in
      let a := with_page (set_upload (Some (seq + 1, up_total u))) a in
      if seq <? up_total u - 1
      then add_task (TPause u transferId (seq + 1) (cl_now (a_client a) + SEND_THROTTLE_MS)) a
      else finish_upload u a
  end.

Definition upload_pause (u : upload) (transferId : jsstr) (seq until : Z) (a : app) : option app :=
  if cl_now (a_client a) <? until then None else Some (add_task (TChunk u transferId seq) a).

(** [handleFileSelect] with the chosen file. *)
Definition handleFileSelect (room url : jsstr) (f : file) (ivs : Z → bytes) (a : app) : app :=
  start_upload (Upload false room (key_opt (rm_activeKey (a_rm a))) f url ivs) (with_page (set_upload (Some (0, 1))) a).

(** [handleCanvasShare]: [dataURL] is what the canvas gives as a data URL in
    the end, [blob] what it gives as a picture. *)
Definition handleCanvasShare (room dataURL : jsstr) (blob : option bytes) (ivs : Z → bytes) (a : app) : app :=
  add_task (TBlob room (key_opt (rm_activeKey (a_rm a))) dataURL blob ivs) (with_page (set_upload (Some (0, 1))) a).

Definition canvas_blob (room : jsstr) (key : option CryptoKey) (dataURL : jsstr) (blob : option bytes) (ivs : Z → bytes)
    (a : app) : app :=
  match blob with
  | None => fail_upload true room (lit "canvas toBlob failed") a
  | Some b =>
      let f := File (lit "canvas-" ++ dec_int (cl_now (a_client a)) ++ lit ".png") (lit "image/png") (Z.of_nat (length b)) b in
      start_upload (Upload true room key f dataURL ivs) a
  end.
End AppState.
