(* ===== verification/App.v ===== *)
(** * App.jsx: the application's handlers

    The handlers of App.jsx over the state of AppState.v. A callback reads the
    React state of the last render ([rm_roomsRef], [rm_activeRoomRef], [cm_seen])
    and the refs as they are. The handlers [setupGlobalHandlers] registers
    close over the hooks' callbacks of one render: their scope is the room
    that was active then. A handler that awaits leaves a task, [resume_task]
    goes on with it.

    A message outside the protocol the gateway speaks (a room, message id or
    salt that is neither missing nor a string) is outside the model: [None].
    An exception stands for its message in the status line. The page the user
    sees is AppUi.v's. *)

From S2P Require Import Prelude JsLib Base64 Text Json Crypto Uri Timers KeyRotator Mime MediaSend MediaAssembler.
From S2P Require Import Client Rooms Typing WebRTC MeshHook CallManager AppState.

Local Open Scope Z_scope.

Definition MAX_TEXT_LENGTH : Z := 50000.
Definition mismatch_text : jsstr := lit "[encrypted message " ++ [8212] ++ lit " key mismatch]".
Definition encrypt_failed_text : jsstr := lit "[failed to encrypt message]".

(** A room: missing, or a string. *)
Definition room_name (v : option json) : option (option jsstr) :=
  if truthy v then match v with Some (JStr s) => Some (Some s) | _ => None end else Some None.

Definition or_else (v w : option json) : option json := if truthy v then v else w.

Definition with_input (v : jsstr) (s : room_state) : room_state :=
  RoomState (rs_messages s) v (rs_expiresAt s) (rs_peerCount s) (rs_peerNicknames s) (rs_messageReceipts s)
            (rs_isP2P s) (rs_shareLink s) (rs_copied s) (rs_showQR s) (rs_qrDataURL s) (rs_unreadCount s) (rs_salt s).
Definition with_shareLink (link : jsstr) (s : room_state) : room_state :=
  RoomState (rs_messages s) (rs_input s) (rs_expiresAt s) (rs_peerCount s) (rs_peerNicknames s) (rs_messageReceipts s)
            (rs_isP2P s) (str_or link (rs_shareLink s)) (rs_copied s) (rs_showQR s) (rs_qrDataURL s) (rs_unreadCount s)
            (rs_salt s).
Definition with_p2p (b : bool) (s : room_state) : room_state :=
  RoomState (rs_messages s) (rs_input s) (rs_expiresAt s) (rs_peerCount s) (rs_peerNicknames s) (rs_messageReceipts s)
            b (rs_shareLink s) (rs_copied s) (rs_showQR s) (rs_qrDataURL s) (rs_unreadCount s) (rs_salt s).
Definition with_receipt (id : jsstr) (status : json) (s : room_state) : room_state :=
  RoomState (rs_messages s) (rs_input s) (rs_expiresAt s) (rs_peerCount s) (rs_peerNicknames s)
            (map_set (rs_messageReceipts s) id status)
            (rs_isP2P s) (rs_shareLink s) (rs_copied s) (rs_showQR s) (rs_qrDataURL s) (rs_unreadCount s) (rs_salt s).
Definition with_presence (p : json) (s : room_state) : room_state :=
  RoomState (rs_messages s) (rs_input s)
            (or_else (json_get p (lit "expiresAt")) (rs_expiresAt s))
            (default (JNum 0) (or_else (json_get p (lit "count")) (Some (JNum 0))))
            (default JNull (or_else (json_get p (lit "peers")) (Some (rs_peerNicknames s))))
            (rs_messageReceipts s) (rs_isP2P s) (rs_shareLink s) (rs_copied s) (rs_showQR s) (rs_qrDataURL s)
            (rs_unreadCount s) (or_else (json_get p (lit "salt")) (rs_salt s)).

(** [setRooms] with an updater that leaves an unknown room alone. *)
Definition update_known `{WebCrypto} (room : jsstr) (f : room_state → room_state) (m : room_manager) : room_manager :=
  match map_get (rm_rooms m) room with
  | Some current => set_rooms (map_set (rm_rooms m) room (f current)) m
  | None => m
  end.

Section App.
Context `{WebCrypto} (randomUUID : nat → jsstr) (twice_error : jsstr).

Abbreviation client_send := (client_send randomUUID).
Abbreviation append_fresh := (append_fresh randomUUID).
Abbreviation next_uuid := (next_uuid randomUUID).

Definition activeRoom (a : app) : jsstr := rm_activeRoomRef (a_rm a).

(** An operation of the mesh hook, with the room updates it makes. *)
Definition on_mesh (f : mesh_hook → mesh_hook) (a : app) : app :=
  let h := f (a_mesh a) in
  let updates := drop (length (mh_p2p (a_mesh a))) (mh_p2p h) in
  with_rm (λ m, fold_left (λ m x, updateRoomState x.1 (with_p2p x.2) m) updates m) (set_mesh h a).

Definition send_typing (b : bool) (a : app) : app :=
  let room := activeRoom a in
  if str_empty room then a
  else let '(p, t) := sendTypingIndicator b (a_nickname a) (a_typing a) in
       let a := set_typing t a in
       match p with Some p => client_send (lit "typing") room (Some (JStr p)) None a | None => a end.

(** ** Chat messages *)

(** The text the message decrypts to, with the keys there are when it comes. *)
Definition chat_decrypt (room : jsstr) (payload : option jsstr) (a : app) : result jsstr :=
  match payload with
  | None => Throw (lit "InvalidCharacterError")
  | Some p =>
      match map_get (rm_keys (a_rm a)) room with
      | Some (Fragment []) | None => decryptWithRotation p a
      | k => decrypt (key_opt k) p
      end
  end.

Definition start_chat (data : json) (room : jsstr) (p2p : bool) (a : app) : app :=
  add_task (TChat data room (chat_decrypt room (as_str (json_get data (lit "payload"))) a) p2p) a.

Definition chat_text (r : result jsstr) : jsstr :=
  match r with
  | Ok text => if Z.of_nat (length text) >? MAX_TEXT_LENGTH
               then take (Z.to_nat MAX_TEXT_LENGTH) text ++ lit "... [truncated]" else text
  | Throw _ => mismatch_text
  end.

(** [o[key]]: a property of its own, or what an object inherits. An inherited
    function is true and shows nothing, as does the empty array that stands for
    it here. *)
Definition prototype_functions : list jsstr :=
  lit <$> ["constructor"; "hasOwnProperty"; "isPrototypeOf"; "propertyIsEnumerable"; "toLocaleString"; "toString";
           "valueOf"; "__defineGetter__"; "__defineSetter__"; "__lookupGetter__"; "__lookupSetter__"]%string.

Definition read_key (o : json) (key : jsstr) : option json :=
  match o with
  | JObj fs =>
      match map_get fs key with
      | Some v => Some v
      | None => if bool_decide (key = lit "__proto__") then Some (JObj [])
                else if set_has prototype_functions key then Some (JArr []) else None
      end
  | _ => None
  end.

(** [nicknames[data.id] || (data.id ? data.id.slice(0, 8) : '')]. *)
Definition sender_nickname (nicknames : json) (id : option json) : result (option json) :=
  key ← match id with Some v => js_String v | None => Ok (lit "undefined") end;
  let name := read_key nicknames key in
  if truthy name then Ok name
  else match id with
       | Some (JStr s) => Ok (Some (JStr (take 8 s)))
       | Some (JArr l) => Ok (Some (JArr (take 8 l)))
       | _ => if truthy id then Throw (lit "TypeError") else Ok (Some (JStr []))
       end.

Definition nicknames_of (room : jsstr) (a : app) : json :=
  match map_get (rm_roomsRef (a_rm a)) room with Some s => rs_peerNicknames s | None => a_peerNicknames a end.

Definition receipt_payload (status : string) (msgId : jsstr) : json :=
  JStr (JSON_stringify (JObj [(lit "messageId", JStr msgId); (lit "status", JStr (lit status))])).

Definition finish_chat (data : json) (room : jsstr) (r : result jsstr) (p2p : bool) (a : app) : app :=
  let text := chat_text r in
  let '(msgId, a) :=
    match json_get data (lit "msgId") with
    | Some (JStr (c :: s)) => (c :: s, a)
    | _ => (next_uuid a, with_client (draw_uuids 1) a)
    end in
  match sender_nickname (nicknames_of room a) (json_get data (lit "id")) with
  | Throw _ => a
  | Ok nickname =>
      let a := with_rm (appendMessageToRoom room
                 (UiMessage msgId (Some text) false false (bool_decide (text = mismatch_text)) false p2p
                            (json_get data (lit "id")) nickname None)) a in
      if p2p then a else client_send (lit "receipt") room (Some (receipt_payload "delivered" msgId)) None a
  end.

Definition on_chat (data : json) (a : app) : option app :=
  room ← room_name (json_get data (lit "room"));
  _ ← room_name (json_get data (lit "msgId"));
  Some match room with
       | None => a
       | Some room =>
           if set_has (a_pendingKeyRooms a) room then
             set_pendingKeys (a_pendingKeyRooms a)
               (map_set (a_pendingMessages a) room (default [] (map_get (a_pendingMessages a) room) ++ [data])) a
           else start_chat data room false a
       end.

(** ** Presence *)

Definition apply_presence (room : jsstr) (presence : json) (a : app) : app :=
  let peers := json_get presence (lit "peers") in
  let a := with_rm (update_known room (with_presence presence)) a in
  let a := if bool_decide (room = activeRoom a) && truthy peers
           then set_nicknames (default JNull peers) (a_nickname a) a else a in
  let count := default (JNum 0) (or_else (json_get presence (lit "count")) (Some (JNum 0))) in
  on_mesh (handlePresenceMesh room count peers (as_str (cl_peerId (a_client a)))) a.

(** The server's salt is another one: derive the key anew, and queue the
    room's messages until it is there. *)
Definition start_derive (room : jsstr) (presence : json) (pp : jsstr) (serverSalt : bytes) (a : app) : app :=
  let a := set_pendingKeys (set_add (a_pendingKeyRooms a) room) (a_pendingMessages a) a in
  let a := with_rm (λ m, set_refs (rm_keys m) (map_set (rm_salts m) room serverSalt) (rm_passphrases m) m) a in
  add_task (TDerive room presence (deriveRoomKey room pp (Some serverSalt))) a.

Definition on_presence (data : json) (a : app) : option app :=
  match payload_value (json_get data (lit "payload")) with
  | Throw _ | Ok None | Ok (Some JNull) => Some a
  | Ok (Some presence) =>
      room ← room_name (or_else (json_get presence (lit "room")) (json_get data (lit "room")));
      match room with
      | None => Some a
      | Some room =>
          if truthy (json_get presence (lit "salt")) then
            salt ← as_str (json_get presence (lit "salt"));
            Some match base64ToUint8 salt with
                 | Throw _ => a
                 | Ok serverSalt =>
                     if decide (map_get (rm_salts (a_rm a)) room = Some serverSalt) then apply_presence room presence a
                     else match map_get (rm_passphrases (a_rm a)) room with
                          | Some (c :: pp) => start_derive room presence (c :: pp) serverSalt a
                          | _ => apply_presence room presence a
                          end
                 end
          else Some (apply_presence room presence a)
      end
  end.

(** ** The other messages *)

Definition on_signal (data : json) (a : app) : option app :=
  room ← as_str (json_get data (lit "room"));
  h ← MeshHook.handleSignal data room (a_mesh a);
  Some (on_mesh (λ _, h) a).

Definition on_typing (data : json) (a : app) : option app :=
  if is_str (json_get data (lit "room")) (activeRoom a)
  then t ← handleTypingMessage data (a_typing a); Some (set_typing t a)
  else Some a.

(** A receipt never replaces a ['read']. *)
Definition record_receipt (id : jsstr) (status : json) (room : jsstr) (m : room_manager) : room_manager :=
  match map_get (rm_rooms m) room with
  | Some current =>
      if is_str (map_get (rs_messageReceipts current) id) (lit "read") then m
      else set_rooms (map_set (rm_rooms m) room (with_receipt id status current)) m
  | None => m
  end.

Definition on_receipt (data : json) (a : app) : option app :=
  match payload_value (json_get data (lit "payload")) with
  | Throw _ | Ok None | Ok (Some JNull) => Some a
  | Ok (Some rp) =>
      let status := json_get rp (lit "status") in
      room ← room_name (json_get data (lit "room"));
      match room with
      | None => Some a
      | Some room =>
          if truthy (json_get rp (lit "messageId")) && truthy status then
            id ← as_str (json_get rp (lit "messageId"));
            Some (with_rm (record_receipt id (default JNull status) room) a)
          else Some a
      end
  end.

Definition on_key_rotation (scope : jsstr) (data : json) (a : app) : option app :=
  room ← room_name (json_get data (lit "room"));
  Some match room with
       | None => a
       | Some room =>
           let payload := as_str (json_get data (lit "payload")) in
           if bool_decide (room = activeRoom a) then handleKeyRotationMessage scope payload a
           else match map_get (rm_keys (a_rm a)) room with
                | Some (Fragment []) | None => a
                | k => add_task (TRotateOther room
                         (match payload with Some p => decrypt (key_opt k) p | None => Throw (lit "TypeError") end)) a
                end
       end.

Definition finish_rotate_other (room : jsstr) (r : result jsstr) (a : app) : app :=
  match exported ← r; importKey exported with
  | Ok newKey =>
      append_fresh room (notice rotated_by_peer_text true false)
        (with_rm (λ m, set_keys (map_set (rm_keys m) room (Key newKey)) m) a)
  | Throw _ => append_fresh room (notice rotation_failed_text false true) a
  end.

Definition media_payload (data : json) : payload :=
  match json_get data (lit "payload") with
  | Some (JStr s) => PText s
  | Some v => PValue v
  | None => PValue JNull
  end.

Definition on_call_offer (data : json) (a : app) : option app :=
  room ← room_name (json_get data (lit "room"));
  Some match room with
       | Some room =>
           if cs_active (cm_seen (a_call a)) then a
           else set_call_manager (handleIncomingCall room (json_get data (lit "payload")) (a_call a)) a
       | None => a
       end.

Definition end_call (a : app) : app :=
  let '(m, c, h) := endCall randomUUID (activeRoom a) (a_call a) (a_client a) (a_mesh a) in
  with_client (λ _, c) (set_mesh h (set_call_manager m a)).

(** The handler of ['message']; [scope] is the room its callbacks close over,
    [url] the object URL of a file that is complete. Reading the room of
    [null] throws. *)
Definition on_message (scope url : jsstr) (data : json) (a : app) : option app :=
  let type := json_get data (lit "type") in
  match data with
  | JObj _ =>
      if is_str type (lit "presence") then on_presence data a
      else if is_str type (lit "signal") then on_signal data a
      else if is_str type (lit "typing") then on_typing data a
      else if is_str type (lit "receipt") then on_receipt data a
      else if is_str type (lit "chat") then on_chat data a
      else if is_str type (lit "key_rotation") then on_key_rotation scope data a
      else if is_str type (lit "media") then Some (handleMediaChunk randomUUID scope url (media_payload data) a)
      else if is_str type (lit "call_offer") then on_call_offer data a
      else if is_str type (lit "call_end") then Some (end_call a)
      else Some a
  | _ => Some a
  end.

(** The handler, when one is registered. *)
Definition dispatch (url : jsstr) (data : json) (a : app) : option app :=
  match a_handlers a with Some scope => on_message scope url data a | None => Some a end.

(** The handler of ['p2p:message']. *)
Definition on_p2p (scope url : jsstr) (data : json) (a : app) : option app :=
  room ← room_name (json_get data (lit "room"));
  let room := match room with Some r => r | None => activeRoom a end in
  _ ← room_name (json_get data (lit "msgId"));
  let type := json_get data (lit "type") in
  Some (if is_str type (lit "chat") then start_chat data room true a
        else if is_str type (lit "media") then handleMediaChunk randomUUID scope url (media_payload data) a
        else a).

(** [client.emit('message', qData)] of the queued messages. *)
Fixpoint emit_queued (queued : list json) (a : app) : option app :=
  match queued with
  | [] => Some a
  | data :: queued =>
      a ← dispatch [] data (with_client (emit (lit "message") (Some data)) a);
      emit_queued queued a
  end.

Definition finish_derive (room : jsstr) (presence : json) (r : result CryptoKey) (a : app) : option app :=
  match r with
  | Throw _ => Some a
  | Ok newKey =>
      let a := with_rm (λ m, set_keys (map_set (rm_keys m) room (Key newKey)) m) a in
      let a := if bool_decide (room = activeRoom a) then with_rm (set_activeKey (Some (Key newKey))) a else a in
      let a := with_rm (λ m, set_refs (rm_keys m) (rm_salts m) (map_delete (rm_passphrases m) room) m) a in
      let a := set_pendingKeys (set_delete (a_pendingKeyRooms a) room) (a_pendingMessages a) a in
      a ← match map_get (a_pendingMessages a) room with
          | Some (q :: queued) =>
              emit_queued (q :: queued)
                (set_pendingKeys (a_pendingKeyRooms a) (map_delete (a_pendingMessages a) room) a)
          | _ => Some a
          end;
      Some (apply_presence room presence a)
  end.

(** ** The status line *)

(** The listeners of ['close'], ['reconnecting'] and ['open']. *)
Definition on_status (event : jsstr) (data : option json) (p : page) : page :=
  if bool_decide (event = lit "close") then
    set_status (if pg_intentional p then lit "disconnected" else lit "reconnecting") p
  else if bool_decide (event = lit "reconnecting") then
    let attempt := match data with Some d => json_get d (lit "attempt") | None => None end in
    match match attempt with Some v => js_String v | None => Ok (lit "undefined") end with
    | Ok text => set_status (lit "reconnecting (attempt " ++ text ++ lit ")") p
    | Throw _ => p
    end
  else if bool_decide (event = lit "open") then set_status (lit "connected") p
  else p.

Definition show_effect (p : page) (e : effect) : page :=
  match e with Emitted event data (_ :: _) => on_status event data p | _ => p end.

(** The client has become [c], and what it emitted on the way has been heard. *)
Definition hear (c : client) (a : app) : app :=
  let emitted := drop (length (cl_log (a_client a))) (cl_log c) in
  with_page (λ p, fold_left show_effect emitted p) (with_client (λ _, c) a).

Definition join_failed (e : jsstr) : page → page := set_status (lit "error: " ++ e).

(** ** Joining *)

(** [unsubsRef]: the listeners of the handlers, and their removal. *)
Definition handler_events : list (jsstr * nat) :=
  [(lit "message", 0%nat); (lit "close", 1%nat); (lit "reconnecting", 2%nat); (lit "open", 3%nat);
   (lit "p2p:message", 4%nat)].

Definition unsubscribe_all (a : app) : app :=
  match a_handlers a with
  | Some _ => set_handlers None (with_client (λ c, fold_left (λ c e, unsubscribe e.1 e.2 c) handler_events c) a)
  | None => a
  end.

Definition setupGlobalHandlers (env : option Z) (a : app) : app :=
  let scope := activeRoom a in
  let a := unsubscribe_all a in
  let a := startRotation env scope (rm_activeKey (a_rm a)) a in
  let a := initAssembler a in
  set_handlers (Some scope) (with_client (λ c, fold_left (λ c e, on e.1 e.2 c) handler_events c) a).

Definition finish_join (env : option Z) (room link : jsstr) (first : bool) (fields : list (jsstr * json)) (a : app) : app :=
  let a := with_page (set_status (lit "connected")) a in
  let a := with_rm (updateRoomState room (with_shareLink link)) a in
  let a := if first && negb (is_some (a_handlers a)) then setupGlobalHandlers env a else a in
  let a := with_page (λ p, match pg_observer p with Some _ => p | None => set_observer (Some []) p end) a in
  match match map_get (rm_salts (a_rm a)) room with
        | Some salt => b ← uint8ToBase64 salt; mret (fields ++ [(lit "salt", JStr b)])
        | None => mret fields
        end with
  | Throw e => with_page (join_failed e) a
  | Ok fields =>
      let payload := match fields with [] => JNull | _ => JStr (JSON_stringify (JObj fields)) end in
      with_page (λ p, set_view true false (set_form (pg_joinRoom p) [] (pg_ttl p) p))
        (with_rm (set_activeRoom room) (client_send (lit "join") room (Some payload) None a))
  end.

(** [handleJoinRoom] up to the first [await] of [setupRoomKey]; what it reads
    of the render it was made in is what the last commit showed. *)
Definition handleJoinRoom (base : jsstr) (fresh_salt : bytes) (fresh_key : CryptoKey)
    (joinRoom passphrase : jsstr) (ttl : Z) (a : app) : app :=
  let trimmed := trim joinRoom in
  let rooms := rm_roomsRef (a_rm a) in
  if str_empty trimmed || Nat.ltb MAX_ROOM_NAME_LEN (length trimmed) then a
  else if Nat.leb Rooms.MAX_ROOMS (length rooms) && negb (map_has rooms trimmed) then a
  else
    let a := with_page (λ p, set_status (lit "connecting") (set_intentional false p)) a in
    let '(m, s) := setup_begin fresh_salt fresh_key trimmed passphrase (a_rm a) in
    let fields := (if str_empty (trim (a_nickname a)) then [] else [(lit "nickname", JStr (trim (a_nickname a)))]) ++
                  (if ttl >? 0 then [(lit "ttlSeconds", JNum ttl)] else []) in
    let first := match rooms with [] => true | _ => false end in
    add_task (TSetup base trimmed s first fields) (with_rm (λ _, m) a).

(** And on, once the key is there, up to [await client.connect()]. *)
Definition setup_settled (env : option Z) (room : jsstr) (r : result (CryptoKey * jsstr)) (first : bool)
    (fields : list (jsstr * json)) (a : app) : app :=
  match r with
  | Throw e => with_page (join_failed e) a
  | Ok (_, link) =>
      if connected (a_client a) then finish_join env room link first fields a
      else add_task (TJoin room link (length (cl_sockets (a_client a))) first fields) (with_client connect a)
  end.

Definition resume_setup (env : option Z) (base room : jsstr) (s : setup) (first : bool) (fields : list (jsstr * json))
    (a : app) : app :=
  let '(m, next) := setup_next base room s (a_rm a) in
  let a := with_rm (λ _, m) a in
  match next with
  | inl s => add_task (TSetup base room s first fields) a
  | inr r => setup_settled env room r first fields a
  end.

(** ** Sending and leaving *)

(** [nickname] is the [ownNickname]. *)
Definition own_message (text : jsstr) (error queued : bool) (nickname : option json) (id : jsstr) : ui_message :=
  UiMessage id (Some text) true false error queued false None nickname None.

Definition sendMessage (iv : bytes) (a : app) : app :=
  let room := activeRoom a in
  match map_get (rm_roomsRef (a_rm a)) room with
  | None => a
  | Some s =>
      if str_empty (trim (rs_input s)) then a
      else
        let a := send_typing false a in
        match map_get (rm_keys (a_rm a)) room with
        | Some (Fragment []) | None => a
        | k => add_task (TSend room (rs_input s) (encrypt (key_opt k) iv (rs_input s))) a
        end
  end.

Definition p2p_message (id msgId room encrypted : jsstr) (now : Z) : jsstr :=
  JSON_stringify (JObj [(lit "id", JStr id); (lit "msgId", JStr msgId); (lit "type", JStr (lit "chat"));
                        (lit "room", JStr room); (lit "payload", JStr encrypted); (lit "timestamp", JNum now)]).

(** Over the data channel of the first connected peer, if there is one. *)
Definition send_p2p (room msgId encrypted : jsstr) (a : app) : bool * app :=
  match mesh ← room_mesh room (a_mesh a); peer ← head (connectedPeers mesh); getConnection peer mesh with
  | None => (false, a)
  | Some conn =>
      let msg := p2p_message (next_uuid a) msgId room encrypted (cl_now (a_client a)) in
      let a := with_client (draw_uuids 1) a in
      let h := a_mesh a in
      let mesh := default new_mesh (room_mesh room h) in
      let '(sent, p) := WebRTC.send msg (default new_peer (m_peers mesh !! conn)) in
      (sent, set_mesh (at_mesh (default 0%nat (map_get (mh_refs h) room)) (at_peer conn (λ _, p)) h) a)
  end.

Definition finish_send (room input : jsstr) (r : result jsstr) (a : app) : app :=
  match r with
  | Throw _ => append_fresh room (own_message encrypt_failed_text true false None) a
  | Ok encrypted =>
      let msgId := next_uuid a in
      let a := with_client (draw_uuids 1) a in
      let '(sent, a) := send_p2p room msgId encrypted a in
      let '(sent, a) :=
        if sent then (true, a)
        else let '(b, c) := Client.send randomUUID (lit "chat") room (Some (JStr encrypted)) (Some msgId) (a_client a) in
             (b, with_client (λ _, c) a) in
      let a := with_rm (appendMessageToRoom room (own_message input false (negb sent)
                 (Some (if str_empty (a_nickname a) then JNull else JStr (a_nickname a))) msgId)) a in
      with_rm (updateRoomState room (with_input [])) a
  end.

Definition leaveRoom (room : jsstr) (a : app) : app :=
  let active := activeRoom a in
  let rooms := map_keys (rm_roomsRef (a_rm a)) in
  let a := client_send (lit "leave") room (Some JNull) None a in
  let a := on_mesh (cleanupRoom room) a in
  let a := with_rm (removeRoom room) a in
  if bool_decide (room = active) then
    match filter (λ r, r ≠ room) rooms with
    | r :: _ => with_rm (set_activeRoom r) a
    | [] =>
        let a := with_client disconnect (with_page (set_intentional true) a) in
        let a := unsubscribe_all (stopRotation (destroyAssembler a)) in
        let a := with_rm (set_activeRoom []) a in
        let a := set_typing (clearTyping (a_typing a)) (set_nicknames (a_peerNicknames a) [] a) in
        with_page (λ p, resetProgress (set_status (lit "disconnected")
                          (set_form (pg_joinRoom p) (pg_passphrase p) 0
                            (set_view false (pg_showJoinModal p) (set_observer None p))))) a
    end
  else a.

Definition handleInputChange (value : jsstr) (a : app) : app :=
  let a := with_rm (updateRoomState (activeRoom a) (with_input value)) a in
  if str_empty value then a else send_typing true a.

(** ** Read receipts *)

(** [observerRef.current.observe(el)], and what it watches. *)
Definition observe (el : nat) (msgId : jsstr) (p : page) : page :=
  match pg_observer p with
  | Some watched => set_observer (Some (filter (λ x, x.1 ≠ el) watched ++ [(el, msgId)])) p
  | None => p
  end.

Definition unobserve (el : nat) (p : page) : page :=
  set_observer ((λ watched, filter (λ x, x.1 ≠ el) watched) <$> pg_observer p) p.

Definition watched (p : page) : list (nat * jsstr) := default [] (pg_observer p).

(** The observer's callback on one entry: an element it watches, and whether
    that is in view. *)
Definition in_view (entry : nat * bool) (a : app) : app :=
  match map_get (watched (a_page a)) entry.1 with
  | Some (c :: msgId) =>
      if entry.2 then
        with_page (unobserve entry.1)
          (client_send (lit "receipt") (activeRoom a) (Some (receipt_payload "read" (c :: msgId))) None a)
      else a
  | _ => a
  end.

(** ** The QR code, and the end of the page *)

Definition toggle_qr (s : room_state) : room_state :=
  RoomState (rs_messages s) (rs_input s) (rs_expiresAt s) (rs_peerCount s) (rs_peerNicknames s) (rs_messageReceipts s)
            (rs_isP2P s) (rs_shareLink s) (rs_copied s) (negb (rs_showQR s)) (rs_qrDataURL s) (rs_unreadCount s) (rs_salt s).
Definition with_qr (url : jsstr) (s : room_state) : room_state :=
  RoomState (rs_messages s) (rs_input s) (rs_expiresAt s) (rs_peerCount s) (rs_peerNicknames s) (rs_messageReceipts s)
            (rs_isP2P s) (rs_shareLink s) (rs_copied s) (rs_showQR s) url (rs_unreadCount s) (rs_salt s).

(** The cleanup when the component goes: [clientRef] is emptied, the meshes
    stay in their map. *)
Definition unmount (a : app) : app :=
  let a := unsubscribe_all a in
  let a := destroyAssembler (stopRotation a) in
  let a := with_client disconnect a in
  let a := with_page (set_observer None) a in
  let h := a_mesh a in
  set_mesh (set_meshes (fold_left (λ ms r, alter closeAll r ms) (map_values (mh_refs h)) (mh_meshes h)) (mh_refs h) h) a.

(** ** Tasks and runs *)

(** Whether the promise [connect] gave for a socket is settled, and how. *)
Definition settled (sock : nat) (c : client) : option bool :=
  head (omap (λ e, match e with
                   | Resolved s => if Nat.eqb s sock then Some true else None
                   | Rejected s _ => if Nat.eqb s sock then Some false else None
                   | _ => None
                   end) (cl_log c)).

Definition resume_task (env : option Z) (i : nat) (a : app) : option app :=
  match a_tasks a !! i with
  | Some (Some t) =>
      let a := set_app_tasks (<[i := None]> (a_tasks a)) a in
      match t with
      | TSetup base room s first fields => Some (resume_setup env base room s first fields a)
      | TJoin room link sock first fields =>
          ok ← settled sock (a_client a);
          Some (if (ok : bool) then finish_join env room link first fields a
                else with_page (join_failed (lit "[object Event]")) a)
      | TDerive room presence r => finish_derive room presence r a
      | TChat data room r p2p => Some (finish_chat data room r p2p a)
      | TRotateActive scope r => Some (accept_rotation randomUUID scope r a)
      | TRotateOther room r => Some (finish_rotate_other room r a)
      | TSend room input r => Some (finish_send room input r a)
      | TBlob room key dataURL blob ivs => Some (canvas_blob randomUUID room key dataURL blob ivs a)
      | TRead u => Some (upload_read randomUUID u a)
      | TChunk u transferId seq => Some (upload_chunk randomUUID u transferId seq a)
      | TPause u transferId seq until => upload_pause u transferId seq until a
      end
  | _ => None
  end.

(** A step of a rotator of its own: its timers and its rotation. *)
Definition rotator_exec (k : nat) (l : rot_label) (iv : bytes) (a : app) : option app :=
  x ← a_rotators a !! k;
  let set r a := set_rotators (a_rotator a) (<[k := (r, x.2)]> (a_rotators a)) a in
  match l with
  | LInterval id =>
      match due (KeyRotator.clock x.1) id with Some RotInterval => Some (set (rotate_begin id x.1) a) | _ => None end
  | LGenerated i key => r ← rotate_generated i key x.1; Some (set r a)
  | LExported i _ =>
      '(r, call) ← rotate_exported i x.1;
      Some (match call with Some call => onRotate randomUUID x.2 iv call (set r a) | None => set r a end)
  | LGrace id =>
      match due (KeyRotator.clock x.1) id with Some RotGrace => Some (set (grace_expired id x.1) a) | _ => None end
  | _ => None
  end.

Definition wait (d : Z) (a : app) : app :=
  let a := with_client (λ c, set_timer (cl_timer c) (advance (cl_clock c) d) c) a in
  let a := with_rm (λ m, set_clock (advance (rm_clock m) d) m) a in
  let a := set_mesh (set_offers (advance (mh_clock (a_mesh a)) d) (a_mesh a)) a in
  let t := a_typing a in
  let a := set_typing (Typing (ty_peers t) (ty_timers t) (ty_lastSent t) (advance (ty_clock t) d)) a in
  let a := set_rotators (a_rotator a)
             ((λ x : rotator * jsstr,
                 let r := x.1 in
                 (Rotator (KeyRotator.currentKey r) (KeyRotator.previousKey r) (timer r) (graceTimer r) (interval r)
                          (hasOnRotate r) (advance (KeyRotator.clock r) d) (rotations r), x.2)) <$> a_rotators a) a in
  let a := set_assembler ((λ s, Assembler (transfers s) (timer_ids s) (objs s) (advance (asm_clock s) d) (hasOnProgress s)
                                          (progress_calls s)) <$> a_assembler a) a in
  with_page (λ p, set_download (pg_download p) (advance (pg_clock p) d) p) a.

Inductive app_label :=
  (** The user. *)
  | AJoin (base : jsstr) (fresh_salt : bytes) (fresh_key : CryptoKey) (joinRoom passphrase : jsstr) (ttl : Z)
  | AInput (value : jsstr)
  | ASend (iv : bytes)
  | AFile (url : jsstr) (f : file) (ivs : Z → bytes)
  | ACanvas (dataURL : jsstr) (blob : option bytes) (ivs : Z → bytes)
  | ASwitch (room : jsstr)
  | ALeave (room : jsstr)
  | ACopy
  | AToggleQR
  | AStartCall (type : json)
  | AEndCall
  | AMute
  | AVideo
  | ANickname (name : jsstr)
  | AForm (joinRoom passphrase : jsstr) (ttl : Z)
  | AModal (b : bool)
  | AObserve (el : nat) (msgId : jsstr)
  | AInView (el : nat) (intersecting : bool)
  (** React renders. *)
  | ACommit
  (** Promises settle, timers fire, time passes. *)
  | AResume (i : nat)
  | ARotator (k : nat) (l : rot_label) (iv : bytes)
  | AMedia (i : nat) (answer : media_answer)
  | ACopied (id : nat)
  | ATyping (id : nat)
  | AStale (id : nat)
  | AProgress (id : nat)
  | AQR (room url : jsstr)
  | AWait (d : Z)
  (** The network: sockets, messages, peers. *)
  | ASocket (l : cl_label)
  | AReceive (s : nat) (text url : jsstr)
  | AMesh (l : hook_label)
  | AP2P (room d url : jsstr)
  | AIsP2P (room : jsstr) (b : bool)
  | AStream (pid : jsstr) (stream : list nat).

(** What happens to a socket of itself. *)
Definition socket_event (l : cl_label) : bool :=
  match l with COpen _ | CEnd _ _ _ _ | CTimer _ => true | _ => false end.
Definition mesh_event_label (l : hook_label) : bool :=
  match l with HOffer _ | HResume _ _ | HMesh _ _ => true | _ => false end.

Definition app_exec (env : option Z) (a : app) (l : app_label) : option app :=
  match l with
  | AJoin base salt key room pp ttl => Some (handleJoinRoom base salt key room pp ttl a)
  | AInput value => Some (handleInputChange value a)
  | ASend iv => Some (sendMessage iv a)
  | AFile url f ivs => Some (handleFileSelect randomUUID (activeRoom a) url f ivs a)
  | ACanvas dataURL blob ivs => Some (handleCanvasShare (activeRoom a) dataURL blob ivs a)
  | ASwitch room => Some (with_rm (switchRoom room) a)
  | ALeave room => Some (leaveRoom room a)
  | ACopy => Some (with_rm copyShareLink a)
  | AToggleQR => Some (with_rm (updateRoomState (activeRoom a) toggle_qr) a)
  | AStartCall type => Some (set_call_manager (startCall (activeRoom a) type (a_call a)) a)
  | AEndCall => Some (end_call a)
  | AMute => Some (set_call_manager (toggleMute (a_call a)) a)
  | AVideo => Some (set_call_manager (toggleVideo (a_call a)) a)
  | ANickname name => Some (set_nicknames (a_peerNicknames a) name a)
  | AForm joinRoom passphrase ttl => Some (with_page (set_form joinRoom passphrase ttl) a)
  | AModal b => Some (with_page (λ p, set_view (pg_chat p) b p) a)
  | AObserve el msgId => Some (with_page (observe el msgId) a)
  | AInView el b => Some (in_view (el, b) a)
  | AQR room url => Some (with_rm (updateRoomState room (with_qr url)) a)
  | ACommit => Some (set_call_manager (commit_call (a_call a)) (with_rm commit a))
  | AResume i => resume_task env i a
  | ARotator k l iv => rotator_exec k l iv a
  | AMedia i answer =>
      '(m, c, h) ← media_answered randomUUID twice_error i answer (a_call a) (a_client a) (a_mesh a);
      Some (with_client (λ _, c) (set_mesh h (set_call_manager m a)))
  | ACopied id => m ← copied_expired id (a_rm a); Some (with_rm (λ _, m) a)
  | ATyping id => t ← typing_expired id (a_typing a); Some (set_typing t a)
  | AStale id =>
      s ← a_assembler a; tid ← due (asm_clock s) id; Some (set_assembler (Some (stale_expired id tid s)) a)
  | AProgress id => p ← progress_expired id (a_page a); Some (with_page (λ _, p) a)
  | AWait d => if d <? 0 then None else Some (wait d a)
  | ASocket l => if socket_event l then c ← cl_exec randomUUID (a_client a) l; Some (hear c a) else None
  | AReceive s text url =>
      c ← cl_exec randomUUID (a_client a) (CMessage s text);
      dispatch url (match JSON_parse text with Ok v => v | Throw _ => JStr text end) (hear c a)
  | AMesh l =>
      if mesh_event_label l then h ← hook_exec (a_mesh a) l; Some (on_mesh (λ _, h) a) else None
  | AP2P room d url =>
      match mesh_event room d with
      | Throw _ => Some a
      | Ok v =>
          let a := with_client (mesh_message room d) a in
          match a_handlers a with Some scope => on_p2p scope url v a | None => Some a end
      end
  | AIsP2P room b => Some (with_rm (updateRoomState room (with_p2p b)) a)
  | AStream pid stream => Some (set_call_manager (setRemoteStream pid stream (a_call a)) a)
  end.

Fixpoint app_run (env : option Z) (a : app) (ls : list app_label) : option app :=
  match ls with
  | [] => Some a
  | l :: ls => a' ← app_exec env a l; app_run env a' ls
  end.
End App.
