(* ===== verification/AppFacts.v ===== *)
(** * What the application's handlers guarantee

    Joining with another salt, delivering chat messages, and the runs that
    show what the handlers do not guarantee. *)

From S2P Require Import Prelude JsLib Base64 Text Json Crypto Uri Timers KeyRotator Mime MediaSend MediaAssembler.
From S2P Require Import Client Rooms Typing WebRTC MeshHook CallManager AppState App.

Local Open Scope Z_scope.

(** A chat message of a room, with a message id or without, and its text's
    ciphertext. *)
Definition chat_of (room : jsstr) (data : json) : Prop :=
  (∃ fs, data = JObj fs) ∧ json_get data (lit "type") = Some (JStr (lit "chat")) ∧
  json_get data (lit "room") = Some (JStr room) ∧ is_Some (room_name (json_get data (lit "msgId"))).

Definition cipher (data : json) : option jsstr := as_str (json_get data (lit "payload")).

Section AppFacts.
Context `{WebCrypto} (randomUUID : nat → jsstr) (twice_error : jsstr) (env : option Z).

Abbreviation on_message := (on_message randomUUID).
Abbreviation dispatch := (App.dispatch randomUUID).
Abbreviation app_exec := (app_exec randomUUID twice_error env).

(** Several messages, one after the other. *)
Fixpoint receive_all (scope : jsstr) (ds : list json) (a : app) : option app :=
  match ds with
  | [] => Some a
  | d :: ds => a ← on_message scope [] d a; receive_all scope ds a
  end.

Lemma room_name_str room : room ≠ [] → room_name (Some (JStr room)) = Some (Some room).
Proof. by destruct room. Qed.

Lemma on_message_chat scope url d room a :
  chat_of room d → room ≠ [] → on_message scope url d a = on_chat d a.
Proof. intros ((fs & ->) & Ht & Hr & _) Hne. unfold App.on_message. rewrite Ht. reflexivity. Qed.

Lemma on_chat_room d room a :
  chat_of room d → room ≠ [] →
  on_chat d a = Some (if set_has (a_pendingKeyRooms a) room
                      then set_pendingKeys (a_pendingKeyRooms a)
                             (map_set (a_pendingMessages a) room (default [] (map_get (a_pendingMessages a) room) ++ [d])) a
                      else start_chat d room false a).
Proof. intros (_ & _ & Hr & [o Ho]) Hne. unfold on_chat. rewrite Hr, room_name_str, Ho by done. done. Qed.

(** ** Frames *)

Lemma fold_updates_refs (l : list (jsstr * bool)) (m : room_manager) :
  let m' := fold_left (λ m x, updateRoomState x.1 (with_p2p x.2) m) l m in
  rm_keys m' = rm_keys m ∧ rm_salts m' = rm_salts m ∧ rm_passphrases m' = rm_passphrases m ∧
  rm_activeKey m' = rm_activeKey m.
Proof. revert m. induction l as [|x l IH]; intros m; [done|]. cbn. destruct (IH (updateRoomState x.1 (with_p2p x.2) m)) as (-> & -> & -> & ->). done. Qed.

(** What [on_mesh] and [apply_presence] leave alone. *)
Definition core (a : app) : list (jsstr * keyref) * list (jsstr * bytes) * list (jsstr * jsstr) * option keyref *
    list jsstr * list (jsstr * list json) * list (option app_task) * option jsstr * client :=
  (rm_keys (a_rm a), rm_salts (a_rm a), rm_passphrases (a_rm a), rm_activeKey (a_rm a), a_pendingKeyRooms a,
   a_pendingMessages a, a_tasks a, a_handlers a, a_client a).

Lemma core_eq a a' : core a = core a' →
  rm_keys (a_rm a) = rm_keys (a_rm a') ∧ rm_salts (a_rm a) = rm_salts (a_rm a') ∧
  rm_passphrases (a_rm a) = rm_passphrases (a_rm a') ∧ rm_activeKey (a_rm a) = rm_activeKey (a_rm a') ∧
  a_pendingKeyRooms a = a_pendingKeyRooms a' ∧ a_pendingMessages a = a_pendingMessages a' ∧
  a_tasks a = a_tasks a' ∧ a_handlers a = a_handlers a' ∧ a_client a = a_client a'.
Proof. intros E. unfold core in E. by injection E. Qed.

Lemma core_on_mesh f a : core (on_mesh f a) = core a.
Proof.
  unfold core, on_mesh. cbn.
  destruct (fold_updates_refs (drop (length (mh_p2p (a_mesh a))) (mh_p2p (f (a_mesh a)))) (a_rm a)) as (E1 & E2 & E3 & E4).
  cbn in E1, E2, E3, E4. by rewrite E1, E2, E3, E4.
Qed.

Lemma core_apply_presence room presence a : core (apply_presence room presence a) = core a.
Proof.
  unfold apply_presence. rewrite core_on_mesh.
  assert (core (with_rm (update_known room (with_presence presence)) a) = core a) as E.
  { unfold update_known, core. cbn. by destruct (map_get (rm_rooms (a_rm a)) room). }
  case_bool_decide; cbn [andb]; [|exact E]. destruct (truthy _); exact E.
Qed.

(** ** Keys that follow the server's salt *)

Lemma receive_pending scope room ds a :
  room ≠ [] → Forall (chat_of room) ds → set_has (a_pendingKeyRooms a) room = true →
  receive_all scope ds a =
  Some (match ds with
        | [] => a
        | _ => set_pendingKeys (a_pendingKeyRooms a)
                 (map_set (a_pendingMessages a) room (default [] (map_get (a_pendingMessages a) room) ++ ds)) a
        end).
Proof.
  intros Hne Hds. revert a. induction Hds as [|d ds Hd Hds IH]; intros a Hp; [done|]. cbn [receive_all].
  rewrite (on_message_chat scope [] d room), (on_chat_room d room), Hp by done. cbn [mbind option_bind].
  rewrite IH by done. destruct ds as [|d' ds]; [done|]. cbn [a_pendingKeyRooms a_pendingMessages set_pendingKeys].
  rewrite map_get_set_eq. unfold default, id; cbn [from_option]. rewrite <- app_assoc. f_equal.
  assert (∀ m v w, map_set (map_set (m : list (jsstr * list json)) room v) room w = map_set m room w) as Hss.
  { clear. intros m v w. induction m as [|[k x] m IH]; cbn; [by rewrite decide_True|].
    case_decide as E; cbn; [by rewrite E, decide_True|]. by rewrite decide_False, IH. }
  by rewrite Hss.
Qed.

Lemma emit_all_sockets event ds c :
  cl_sockets (fold_left (λ c d, emit event (Some d) c) ds c) = cl_sockets c.
Proof. revert c. induction ds as [|d ds IH]; intros c; [done|]. cbn. by rewrite IH. Qed.

(** The queued messages start to be decrypted, in order, under the key there is. *)
Definition flushed (room : jsstr) (ds : list json) (a : app) : app :=
  set_app_tasks (a_tasks a ++ ((λ d, Some (TChat d room (chat_decrypt room (cipher d) a) false)) <$> ds))
    (with_client (λ c, fold_left (λ c d, emit (lit "message") (Some d) c) ds c) a).

Lemma emit_queued_flushed scope room ds a :
  a_handlers a = Some scope → room ≠ [] → Forall (chat_of room) ds → set_has (a_pendingKeyRooms a) room = false →
  emit_queued randomUUID ds a = Some (flushed room ds a).
Proof.
  intros Hh Hne Hds. revert a Hh. induction Hds as [|d ds Hd Hds IH]; intros a Hh Hp.
  - cbn. unfold flushed. cbn. rewrite app_nil_r. by destruct a.
  - cbn [emit_queued]. unfold App.dispatch at 1. cbn [a_handlers with_client]. rewrite Hh.
    rewrite (on_message_chat scope [] d room), (on_chat_room d room) by done.
    cbn [a_pendingKeyRooms with_client]. rewrite Hp. cbn [mbind option_bind]. rewrite IH by done. f_equal.
    unfold flushed, start_chat, add_task. cbn. by rewrite <- app_assoc.
Qed.

(** The presence of a room, with the salt the server keeps for it. *)
Definition presence_of (room : jsstr) (salt : bytes) (presence data : json) : Prop :=
  (∃ fs, data = JObj fs) ∧ json_get data (lit "type") = Some (JStr (lit "presence")) ∧
  payload_value (json_get data (lit "payload")) = Ok (Some presence) ∧
  json_get presence (lit "room") = Some (JStr room) ∧
  ∃ b, json_get presence (lit "salt") = Some (JStr b) ∧ b ≠ [] ∧ base64ToUint8 b = Ok salt.

(** The key is derived anew when the salt is another one and the passphrase
    is still there. *)
Lemma on_message_rekey scope room salt presence data c pp a :
  presence_of room salt presence data → room ≠ [] → map_get (rm_salts (a_rm a)) room ≠ Some salt →
  map_get (rm_passphrases (a_rm a)) room = Some (c :: pp) →
  on_message scope [] data a = Some (start_derive room presence (c :: pp) salt a).
Proof.
  intros ((fs & ->) & Ht & Hp & Hr & (b & Hb & Hbne & Hs)) Hne Hsalt Hpp.
  unfold App.on_message. rewrite Ht.
  change (on_presence (JObj fs) a = Some (start_derive room presence (c :: pp) salt a)).
  unfold on_presence. rewrite Hp. destruct presence; try done. rewrite Hr. unfold or_else at 1.
  assert (truthy (Some (JStr room)) = true) as Htr by (by destruct room).
  rewrite Htr, room_name_str by done. cbn [mbind option_bind]. rewrite Hb.
  assert (truthy (Some (JStr b)) = true) as -> by (by destruct b).
  cbn [as_str mbind option_bind]. rewrite Hs, decide_False, Hpp by done. done.
Qed.

Lemma start_derive_pending room presence pp salt a :
  set_has (a_pendingKeyRooms (start_derive room presence pp salt a)) room = true.
Proof. apply set_has_true. change (room ∈ set_add (a_pendingKeyRooms a) room). apply set_add_elem. by left. Qed.

(** The queue of a room, empty when there is none. *)
Definition queue_of (room : jsstr) (a : app) : list json := default [] (map_get (a_pendingMessages a) room).

Lemma receive_pending_state scope room ds a :
  room ≠ [] → Forall (chat_of room) ds → set_has (a_pendingKeyRooms a) room = true → map_wf (a_pendingMessages a) →
  ∃ a1, receive_all scope ds a = Some a1 ∧ a_rm a1 = a_rm a ∧ a_handlers a1 = a_handlers a ∧ a_tasks a1 = a_tasks a ∧
    a_pendingKeyRooms a1 = a_pendingKeyRooms a ∧ queue_of room a1 = queue_of room a ++ ds ∧ map_wf (a_pendingMessages a1).
Proof.
  intros Hne Hds Hp Hwf. rewrite (receive_pending scope room ds a) by done. eexists. split; [reflexivity|]. destruct ds as [|d ds].
  - by rewrite app_nil_r.
  - unfold queue_of. cbn. rewrite map_get_set_eq. split_and!; try done. by apply map_wf_set.
Qed.

(** The derivation is over: the new key, and the queue on its way. *)
Lemma finish_derive_spec scope room presence key a :
  a_handlers a = Some scope → room ≠ [] → Forall (chat_of room) (queue_of room a) →
  map_wf (rm_passphrases (a_rm a)) → map_wf (a_pendingMessages a) → NoDup (a_pendingKeyRooms a) →
  ∃ a2, finish_derive randomUUID room presence (Ok key) a = Some a2 ∧
    rm_keys (a_rm a2) = map_set (rm_keys (a_rm a)) room (Key key) ∧ rm_salts (a_rm a2) = rm_salts (a_rm a) ∧
    map_get (rm_passphrases (a_rm a2)) room = None ∧ room ∉ a_pendingKeyRooms a2 ∧ queue_of room a2 = [] ∧
    a_tasks a2 = a_tasks a ++
      ((λ d, Some (TChat d room (match cipher d with Some p => decrypt (Some key) p
                                 | None => Throw (lit "InvalidCharacterError") end) false)) <$> queue_of room a) ∧
    a_handlers a2 = a_handlers a ∧ cl_sockets (a_client a2) = cl_sockets (a_client a).
Proof.
  intros Hh Hne Hds Hwp Hwq Hnd. unfold finish_derive.
  set (b1 := with_rm (λ m, set_keys _ m) a). set (b2 := if bool_decide _ then _ else b1).
  set (b3 := with_rm _ b2). set (b4 := set_pendingKeys _ _ b3).
  assert (rm_keys (a_rm b4) = map_set (rm_keys (a_rm a)) room (Key key) ∧ rm_salts (a_rm b4) = rm_salts (a_rm a) ∧
          rm_passphrases (a_rm b4) = map_delete (rm_passphrases (a_rm a)) room ∧
          a_pendingKeyRooms b4 = set_delete (a_pendingKeyRooms a) room ∧ a_pendingMessages b4 = a_pendingMessages a ∧
          a_handlers b4 = Some scope ∧ a_tasks b4 = a_tasks a ∧ a_client b4 = a_client a) as (E1 & E2 & E3 & E4 & E5 & E6 & E7 & E8).
  { unfold b4, b3, b2. by case_bool_decide. }
  clearbody b4. clear b1 b2 b3.
  assert (set_has (a_pendingKeyRooms b4) room = false) as Hnp.
  { rewrite E4. apply not_true_iff_false. rewrite set_has_true, set_delete_elem by done. naive_solver. }
  set (b5 := match map_get (a_pendingMessages b4) room with
             | Some (q :: queued) => set_pendingKeys (a_pendingKeyRooms b4) (map_delete (a_pendingMessages b4) room) b4
             | _ => b4 end).
  assert (rm_keys (a_rm b5) = rm_keys (a_rm b4) ∧ a_rm b5 = a_rm b4 ∧ a_tasks b5 = a_tasks b4 ∧ a_handlers b5 = Some scope ∧
          a_pendingKeyRooms b5 = a_pendingKeyRooms b4 ∧ queue_of room b5 = [] ∧ a_client b5 = a_client b4) as (F1 & F2 & F3 & F4 & F5 & F6 & F7).
  { unfold b5, queue_of. destruct (map_get (a_pendingMessages b4) room) as [[|q qs]|] eqn:Eq; cbn; rewrite ?Eq; try done.
    split_and!; try done. by rewrite map_get_delete_eq by (by rewrite E5). }
  assert (queue_of room b4 = queue_of room a) as Eqq by (unfold queue_of; by rewrite E5).
  exists (apply_presence room presence (flushed room (queue_of room a) b5)). split.
  - rewrite <- Eqq in *. unfold queue_of in *. unfold b5 in *.
    destruct (map_get (a_pendingMessages b4) room) as [[|q qs]|]; cbn [from_option] in *; unfold id in *.
    + cbn [mbind option_bind]. unfold flushed. cbn. rewrite app_nil_r. by destruct b4.
    + by rewrite (emit_queued_flushed scope room).
    + cbn [mbind option_bind]. unfold flushed. cbn. rewrite app_nil_r. by destruct b4.
  - assert (core (apply_presence room presence (flushed room (queue_of room a) b5)) = core (flushed room (queue_of room a) b5))
      as Hc by apply core_apply_presence.
    apply core_eq in Hc as (C1 & C2 & C3 & C4 & C5 & C6 & C7 & C8 & C9). rewrite C1, C2, C3, C5, C7, C8, C9.
    assert (queue_of room (apply_presence room presence (flushed room (queue_of room a) b5)) = []) as ->
      by (rewrite <- F6; unfold queue_of at 1 3; by rewrite C6).
    cbn. rewrite F2, F3, F5, E1, E2, E3, E4, E7, map_get_delete_eq by done. split_and!; try done.
    + rewrite set_delete_elem by done. naive_solver.
    + f_equal. apply list_fmap_ext. intros _ d _. do 2 f_equal. unfold chat_decrypt. destruct (cipher d); [|done].
      by rewrite F2, E1, map_get_set_eq.
    + change (a_handlers b5 = a_handlers a). congruence.
    + rewrite <- E8, <- F7. change (a_client (flushed room (queue_of room a) b5)) with
        (fold_left (λ c d, emit (lit "message") (Some d) c) (queue_of room a) (a_client b5)).
      apply emit_all_sockets.
Qed.
End AppFacts.

Section Rekey.
Context `{!WebCrypto} `{!WebCryptoLaws} (randomUUID : nat → jsstr) (env : option Z).

(** C10: when the presence of a room brings another salt than ours, of 32
    bytes, and the room's passphrase has not been forgotten yet, the key is
    derived from the passphrase and that salt, so it is the key of the member
    whose salt it is; the messages that arrive in the meantime wait behind
    those that already do, and are then decrypted, in the order they came,
    under the new key; the passphrase is forgotten. A salt that comes once it
    is forgotten is ignored ([second_salt_ignored]), one of another length
    blocks the room ([bad_salt_blocks_room]). *)
Theorem rekey_spec scope room c pp salt presence data ds (a : app) :
  a_handlers a = Some scope → room ≠ [] → length salt = 32%nat →
  presence_of room salt presence data → Forall (chat_of room) ds →
  map_get (rm_salts (a_rm a)) room ≠ Some salt → map_get (rm_passphrases (a_rm a)) room = Some (c :: pp) →
  map_wf (rm_passphrases (a_rm a)) → map_wf (a_pendingMessages a) → NoDup (a_pendingKeyRooms a) →
  Forall (chat_of room) (queue_of room a) →
  ∃ key a1 a2,
    deriveRoomKey room (c :: pp) (Some salt) = Ok key ∧
    receive_all randomUUID scope (data :: ds) a = Some a1 ∧
    a_tasks a1 = a_tasks a ++ [Some (TDerive room presence (Ok key))] ∧
    resume_task randomUUID env (length (a_tasks a)) a1 = Some a2 ∧
    map_get (rm_keys (a_rm a2)) room = Some (Key key) ∧ map_get (rm_salts (a_rm a2)) room = Some salt ∧
    map_get (rm_passphrases (a_rm a2)) room = None ∧ room ∉ a_pendingKeyRooms a2 ∧ queue_of room a2 = [] ∧
    a_tasks a2 = a_tasks a ++ None ::
      ((λ d, Some (TChat d room (match cipher d with Some p => decrypt (Some key) p
                                 | None => Throw (lit "InvalidCharacterError") end) false)) <$> queue_of room a ++ ds).
Proof.
  intros Hh Hne Hl Hp Hds Hsalt Hpp Hwp Hwq Hnd Hq.
  destruct (deriveRoomKey room (c :: pp) (Some salt)) as [key|e] eqn:Ek; [|by rewrite deriveRoomKey_Ok in Ek].
  set (a0 := start_derive room presence (c :: pp) salt a).
  destruct (receive_pending_state randomUUID scope room ds a0) as (a1 & H1 & Hrm & Hh1 & Ht & Hpk & Hq1 & Hw1);
    [done|done|apply start_derive_pending|done|].
  change (a_pendingKeyRooms a0) with (set_add (a_pendingKeyRooms a) room) in Hpk.
  change (a_tasks a0) with (a_tasks a ++ [Some (TDerive room presence (deriveRoomKey room (c :: pp) (Some salt)))]) in Ht.
  change (queue_of room a0) with (queue_of room a) in Hq1. rewrite Ek in Ht.
  set (b := set_app_tasks (<[length (a_tasks a):=None]> (a_tasks a1)) a1).
  destruct (finish_derive_spec randomUUID scope room presence key b) as (a2 & H2 & K1 & K2 & K3 & K4 & K5 & K6 & _);
    [by rewrite <- Hh|done|change (queue_of room b) with (queue_of room a1); by rewrite Hq1; by apply Forall_app|by cbn; rewrite Hrm|done|
     cbn; rewrite Hpk; by apply set_add_NoDup|].
  exists key, a1, a2. split_and!; try done.
  - cbn [receive_all]. by rewrite (on_message_rekey randomUUID scope room salt presence data c pp a).
  - assert (a_tasks a1 !! length (a_tasks a) = Some (Some (TDerive room presence (Ok key)))) as Hi
      by (by rewrite Ht, lookup_app_r, Nat.sub_diag by done).
    unfold resume_task. rewrite Hi. exact H2.
  - by rewrite K1, map_get_set_eq.
  - rewrite K2. cbn. rewrite Hrm. cbn. by rewrite map_get_set_eq.
  - rewrite K6. change (queue_of room b) with (queue_of room a1). rewrite Hq1. cbn [a_tasks set_app_tasks b].
    rewrite Ht, insert_app_r_alt, Nat.sub_diag by lia. cbn. by rewrite <- app_assoc.
Qed.
End Rekey.

(** ** A chat message from one member to another *)

Section Chat.
Context `{!WebCrypto} (randomUUID : nat → jsstr) (env : option Z).

(** What [message] puts on the wire, read back. *)
Definition envelope (id mid type room : jsstr) (payload : option json) (t : Z) : json :=
  obj [(lit "id", Some (JStr id)); (lit "msgId", Some (JStr mid)); (lit "type", Some (JStr type));
       (lit "room", Some (JStr room)); (lit "payload", payload); (lit "timestamp", Some (JNum t))].

Lemma parse_message id mid type room payload t :
  Forall is_unit id → Forall is_unit mid → Forall is_unit type → Forall is_unit room →
  (∀ v, payload = Some v → json_wf v = true) →
  JSON_parse (message id mid type room payload t) = Ok (envelope id mid type room payload t) ∧
  ∀ k, json_get (envelope id mid type room payload t) k =
       map_get [(lit "id", Some (JStr id)); (lit "msgId", Some (JStr mid)); (lit "type", Some (JStr type));
                (lit "room", Some (JStr room)); (lit "payload", payload); (lit "timestamp", Some (JNum t))] k ≫= Datatypes.id.
Proof.
  intros H1 H2 H3 H4 H5.
  assert (NoDup [lit "id"; lit "msgId"; lit "type"; lit "room"; lit "payload"; lit "timestamp"]) as Hn by decided.
  split; [|intros k; by apply json_get_obj]. apply JSON_parse_stringify, obj_wf; [done|].
  repeat apply Forall_cons_2; try apply Forall_nil_2; (split; [decided|]); intros v; try (intros [= <-]); cbn;
    rewrite ?bool_decide_eq_true; auto.
Qed.

(** Where the sender's message goes when no peer is connected directly. *)
Lemma finish_send_wire room input ct s (a : app) :
  (mesh ← room_mesh room (a_mesh a); head (connectedPeers mesh)) = None → open_ws (a_client a) = Some s →
  randomUUID (cl_uuids (a_client a)) ≠ [] →
  cl_log (a_client (finish_send randomUUID room input (Ok ct) a)) =
  cl_log (a_client a) ++ [WsSend s (message (randomUUID (S (cl_uuids (a_client a)))) (randomUUID (cl_uuids (a_client a)))
                                     (lit "chat") room (Some (JStr ct)) (cl_now (a_client a)))].
Proof.
  intros Hp Hs Hu. unfold finish_send, send_p2p.
  assert (∀ b : app, a_mesh b = a_mesh a →
    (mesh ← room_mesh room (a_mesh b); peer ← head (connectedPeers mesh); getConnection peer mesh) = None) as Hnone.
  { intros b ->. destruct (room_mesh room (a_mesh a)) as [m|]; [|done]. cbn in *. by rewrite Hp. }
  rewrite Hnone by done. unfold next_uuid. destruct (randomUUID (cl_uuids (a_client a))) as [|c u] eqn:Eu; [done|].
  unfold Client.send, track_room. cbn [bool_decide]. rewrite !bool_decide_false by done.
  change (open_ws (draw_uuids 1 (a_client (with_client (draw_uuids 1) a)))) with (open_ws (a_client a)).
  rewrite Hs. reflexivity.
Qed.

Lemma append_last room msg (m : room_manager) st :
  map_get (rm_rooms m) room = Some st →
  ∃ st', map_get (rm_rooms (appendMessageToRoom room msg m)) room = Some st' ∧ last (rs_messages st') = Some msg.
Proof.
  intros Hst. unfold appendMessageToRoom. rewrite Hst.
  assert (1 ≤ MAX_MESSAGES)%nat as HM by (apply Nat.leb_le; reflexivity). revert HM.
  generalize MAX_MESSAGES. intros M HM. eexists. split; [apply map_get_set_eq|]. cbn [rs_messages set_messages].
  destruct (Nat.ltb M (length (rs_messages st ++ [msg]))); [|apply last_snoc].
  rewrite length_app. cbn [length]. rewrite drop_app_le by lia. apply last_snoc.
Qed.

(** The application shows, last in the room, a message with this id and text. *)
Definition shows (room msgId text : jsstr) (a : app) : Prop :=
  ∃ st m, map_get (rm_rooms (a_rm a)) room = Some st ∧ last (rs_messages st) = Some m ∧
          um_id m = msgId ∧ um_text m = Some text.

Lemma sender_nickname_str nicknames id : ∃ name, sender_nickname nicknames (Some (JStr id)) = Ok name.
Proof. unfold sender_nickname. cbn [mbind result_bind js_String]. destruct (truthy (read_key nicknames id)); by eexists. Qed.

Lemma finish_chat_shows data room text msgId id p2p st (b : app) :
  json_get data (lit "id") = Some (JStr id) → json_get data (lit "msgId") = Some (JStr msgId) → msgId ≠ [] → Z.of_nat (length text) ≤ MAX_TEXT_LENGTH →
  map_get (rm_rooms (a_rm b)) room = Some st → shows room msgId text (finish_chat randomUUID data room (Ok text) p2p b).
Proof.
  intros Hs Hid Hne Hlen Hst. unfold finish_chat. rewrite Hid. destruct msgId as [|c msgId]; [done|].
  assert (chat_text (Ok text) = text) as ->.
  { unfold chat_text. destruct (Z.of_nat (length text) >? MAX_TEXT_LENGTH) eqn:E; [lia|done]. }
  rewrite Hs. destruct (sender_nickname_str (nicknames_of room b) id) as [name ->].
  match goal with |- context [appendMessageToRoom room ?msg] =>
    destruct (append_last room msg (a_rm b) st Hst) as (st' & H1 & H2) end.
  exists st'. destruct p2p; eexists; (split; [exact H1|split; [exact H2|done]]).
Qed.

(** The indicator that stops the typing, as it goes out. *)
Definition typing_stopped (id mid room nickname : jsstr) (now : Z) : jsstr :=
  message id mid (lit "typing") room
    (Some (JStr (JSON_stringify (JObj [(lit "typing", JBool false); (lit "nickname", JStr nickname)])))) now.

Lemma send_typing_wire room sock (a : app) :
  activeRoom a = room → room ≠ [] → open_ws (a_client a) = Some sock →
  ∃ id mid, cl_log (a_client (send_typing randomUUID false a)) =
    cl_log (a_client a) ++ [WsSend sock (typing_stopped id mid room (a_nickname a) (cl_now (a_client a)))].
Proof.
  intros Hact Hne Hs. unfold send_typing. rewrite Hact. destruct room as [|y room]; [done|]. cbn [str_empty].
  unfold sendTypingIndicator. cbn [andb]. unfold client_send. cbn [a_client with_client set_typing].
  unfold Client.send, track_room. rewrite !bool_decide_false by done.
  change (open_ws (draw_uuids 2 (a_client a))) with (open_ws (a_client a)). rewrite Hs. eexists _, _. reflexivity.
Qed.

Lemma sendMessage_task room k text iv s sock ct (a : app) :
  activeRoom a = room → room ≠ [] → map_get (rm_roomsRef (a_rm a)) room = Some s → rs_input s = text → trim text ≠ [] →
  map_get (rm_keys (a_rm a)) room = Some (Key k) → encrypt (Some k) iv text = Ok ct → open_ws (a_client a) = Some sock →
  a_tasks (sendMessage randomUUID iv a) = a_tasks a ++ [Some (TSend room text (Ok ct))] ∧
  a_mesh (sendMessage randomUUID iv a) = a_mesh a ∧ open_ws (a_client (sendMessage randomUUID iv a)) = Some sock ∧
  ∃ id mid, cl_log (a_client (sendMessage randomUUID iv a)) =
    cl_log (a_client a) ++ [WsSend sock (typing_stopped id mid room (a_nickname a) (cl_now (a_client a)))].
Proof.
  intros Hact Hne Hs Hin Htrim Hk Hct Hsock. unfold sendMessage. rewrite Hact, Hs, Hin.
  destruct (trim text) as [|x xs]; [done|]. cbn [str_empty].
  pose proof (send_typing_wire room sock a Hact Hne Hsock) as Hwire.
  set (a1 := send_typing randomUUID false a) in *.
  assert (a_rm a1 = a_rm a ∧ a_tasks a1 = a_tasks a ∧ a_mesh a1 = a_mesh a ∧ open_ws (a_client a1) = Some sock) as (E1 & E2 & E3 & E4).
  { unfold a1, send_typing. rewrite Hact. destruct room as [|y room]; [done|]. cbn [str_empty].
    unfold sendTypingIndicator. cbn [andb]. split_and!; try done. unfold client_send. cbn [a_client with_client set_typing].
    match goal with |- open_ws (Client.send _ _ _ ?p _ _).2 = _ =>
      destruct (send_connected randomUUID (lit "typing") (y :: room) p (a_client a)) as (s' & msg & F1 & _ & F2 & _) end;
      [done|done|apply bool_decide_eq_true; by eexists|]. rewrite F2. congruence. }
  rewrite E1, Hk. cbn [key_opt]. rewrite Hct. unfold add_task. cbn [a_tasks a_mesh a_client set_app_tasks].
  rewrite E2. by split_and!.
Qed.
End Chat.

Section ChatDelivery.
Context `{!WebCrypto} `{!WebCryptoLaws} (randomUUID : nat → jsstr) (env : option Z).

(** What the gateway keeps of a message; it puts the sender's id on it. *)
Definition relays (sent data : json) : Prop :=
  (∃ fs, data = JObj fs) ∧ (∃ id, json_get data (lit "id") = Some (JStr id)) ∧
  Forall (λ f, json_get data f = json_get sent f) [lit "type"; lit "room"; lit "payload"; lit "msgId"].

Lemma sendMessage_now iv a : cl_now (a_client (sendMessage randomUUID iv a)) = cl_now (a_client a).
Proof.
  unfold sendMessage. destruct (map_get (rm_roomsRef (a_rm a)) _) as [s|]; [|done]. destruct (str_empty _); [done|].
  set (a1 := send_typing randomUUID false a). assert (cl_now (a_client a1) = cl_now (a_client a)) as E.
  { unfold a1, send_typing. destruct (str_empty _); [done|]. destruct (sendTypingIndicator _ _ _) as [[p|] t]; [|done].
    unfold client_send. cbn [a_client with_client set_typing]. unfold Client.send, track_room. cbn [bool_decide].
    rewrite !bool_decide_false by done. destruct (open_ws _); [done|]. destruct (queues _); [|done]. by destruct (Nat.ltb _ _). }
  destruct (map_get (rm_keys (a_rm a1)) _) as [[[|c w]|k]|]; exact E.
Qed.

(** What goes out when a member sends a text: one message, with the text under
    the room's key. *)
Lemma chat_sent room k text iv s sock (a : app) :
  room ≠ [] → (∀ n, randomUUID n ≠ []) → plain_text text → trim text ≠ [] → iv_ok iv →
  activeRoom a = room → map_get (rm_roomsRef (a_rm a)) room = Some s → rs_input s = text →
  map_get (rm_keys (a_rm a)) room = Some (Key k) → open_ws (a_client a) = Some sock →
  (mesh ← room_mesh room (a_mesh a); head (connectedPeers mesh)) = None →
  ∃ a2 ct n,
    (let a1 := sendMessage randomUUID iv a in resume_task randomUUID env (length (a_tasks a)) a1) = Some a2 ∧
    WsSend sock (message (randomUUID (S n)) (randomUUID n) (lit "chat") room (Some (JStr ct)) (cl_now (a_client a)))
      ∈ cl_log (a_client a2) ∧
    encrypt (Some k) iv text = Ok ct ∧ decrypt (Some k) ct = Ok text ∧
    ∃ id mid, cl_log (a_client a2) = cl_log (a_client a) ++
      [WsSend sock (typing_stopped id mid room (a_nickname a) (cl_now (a_client a)));
       WsSend sock (message (randomUUID (S n)) (randomUUID n) (lit "chat") room (Some (JStr ct)) (cl_now (a_client a)))].
Proof.
  intros Hne Huu Hplain Htrim Hiv Hact Hs Hin Hka Hsock Hp2p.
  destruct (decrypt_encrypt k iv text Hiv Hplain) as (ct & Hct & Hdec).
  destruct (sendMessage_task randomUUID room k text iv s sock ct a) as (Ht & Hm & Hs1 & id & mid & Hlog); [done..|].
  pose proof (sendMessage_now iv a) as Hnow. set (a1 := sendMessage randomUUID iv a) in *.
  set (a1' := set_app_tasks (<[length (a_tasks a):=None]> (a_tasks a1)) a1).
  exists (finish_send randomUUID room text (Ok ct) a1'), ct, (cl_uuids (a_client a1')).
  pose proof (finish_send_wire randomUUID room text ct sock a1') as Hw. cbn [a_mesh set_app_tasks a1'] in Hw.
  rewrite Hm in Hw. specialize (Hw Hp2p Hs1 (Huu _)). split_and!;
    [|rewrite Hw, <- Hnow; set_solver|done|done|exists id, mid; rewrite Hw, <- Hnow; unfold a1';
      cbn [a_client set_app_tasks]; by rewrite Hlog, <- app_assoc, Hnow].
  assert (a_tasks a1 !! length (a_tasks a) = Some (Some (TSend room text (Ok ct)))) as Hi
    by (by rewrite Ht, lookup_app_r, Nat.sub_diag by done).
  cbn zeta. unfold resume_task. by rewrite Hi.
Qed.

(** A member who has the room's key shows what comes in, once it is decrypted. *)
Lemma chat_shown room k text ct msgId id data url st scope (b : app) :
  room ≠ [] → msgId ≠ [] → Z.of_nat (length text) ≤ MAX_TEXT_LENGTH → decrypt (Some k) ct = Ok text →
  a_handlers b = Some scope → map_get (rm_keys (a_rm b)) room = Some (Key k) →
  map_get (rm_rooms (a_rm b)) room = Some st → set_has (a_pendingKeyRooms b) room = false →
  (∃ fs, data = JObj fs) → json_get data (lit "type") = Some (JStr (lit "chat")) →
  json_get data (lit "room") = Some (JStr room) → json_get data (lit "payload") = Some (JStr ct) →
  json_get data (lit "msgId") = Some (JStr msgId) → json_get data (lit "id") = Some (JStr id) →
  ∃ b2, (b1 ← App.dispatch randomUUID url data b; resume_task randomUUID env (length (a_tasks b)) b1) = Some b2 ∧
        shows room msgId text b2.
Proof.
  intros Hne Hmne Hlen Hdec Hh Hkb Hst Hnp Hobj G G0 Gp Gm Hfrom.
  assert (chat_of room data) as Hchat by (split_and!; [done|exact G|exact G0|rewrite Gm, room_name_str by done; done]).
  unfold App.dispatch. rewrite Hh, (on_message_chat randomUUID scope url data room), (on_chat_room data room), Hnp by done.
  cbn [mbind option_bind]. unfold resume_task, start_chat, add_task.
  cbn [a_tasks set_app_tasks]. rewrite lookup_app_r, Nat.sub_diag by done. cbn [lookup list_lookup].
  eexists. split; [reflexivity|]. unfold chat_decrypt. rewrite Gp. cbn [as_str].
  rewrite Hkb. cbn [key_opt]. rewrite Hdec. eapply finish_chat_shows; [exact Hfrom|exact Gm|done|done|exact Hst].
Qed.

(** What a member types, another member of the room reads: the text is
    encrypted under the room's key and goes out in one message, and, when the
    gateway relays the type, the room, the payload and the message id of it
    under the id of the sender, a
    member who joined the room and has its key shows exactly that text, under
    the sender's message id. *)
Theorem chat_end_to_end room k text iv s st sock scope (a b : app) :
  room ≠ [] → Forall is_unit room → (∀ n, randomUUID n ≠ [] ∧ Forall is_unit (randomUUID n)) →
  plain_text text → trim text ≠ [] → Z.of_nat (length text) ≤ MAX_TEXT_LENGTH → iv_ok iv →
  (* the sender, connected, with the text in its input, and no peer on a data channel *)
  activeRoom a = room → map_get (rm_roomsRef (a_rm a)) room = Some s → rs_input s = text →
  map_get (rm_keys (a_rm a)) room = Some (Key k) → open_ws (a_client a) = Some sock →
  (mesh ← room_mesh room (a_mesh a); head (connectedPeers mesh)) = None →
  (* the receiver *)
  a_handlers b = Some scope → map_get (rm_keys (a_rm b)) room = Some (Key k) →
  map_get (rm_rooms (a_rm b)) room = Some st → set_has (a_pendingKeyRooms b) room = false →
  ∃ a2 msg sent msgId,
    (let a1 := sendMessage randomUUID iv a in resume_task randomUUID env (length (a_tasks a)) a1) = Some a2 ∧
    WsSend sock msg ∈ cl_log (a_client a2) ∧ JSON_parse msg = Ok sent ∧
    ∀ data, relays sent data →
      ∃ b2, (b1 ← App.dispatch randomUUID [] data b; resume_task randomUUID env (length (a_tasks b)) b1) = Some b2 ∧
            shows room msgId text b2.
Proof.
  intros Hne Hru Huu Hplain Htrim Hlen Hiv Hact Hs Hin Hka Hsock Hp2p Hh Hkb Hst Hnp.
  destruct (chat_sent room k text iv s sock a) as (a2 & ct & n & Ha2 & Hw & Hct & Hdec & _); [by try apply Huu..|].
  destruct (parse_message (randomUUID (S n)) (randomUUID n) (lit "chat") room (Some (JStr ct)) (cl_now (a_client a))) as [Hparse Hget];
    [apply Huu|apply Huu|decided|done|intros v [= <-]; apply bool_decide_eq_true; eapply encrypt_shape; [exact Hiv|apply Hplain|exact Hct]|].
  eexists a2, _, _, (randomUUID n). split_and!; [done|exact Hw|exact Hparse|].
  intros data (Hobj & [from Hfrom] & HG). repeat (apply Forall_cons in HG as [?G HG]). rewrite Hget in G, G0, G1, G2.
  eapply (chat_shown room k text ct (randomUUID n) from data [] st scope b); try done; apply Huu.
Qed.
End ChatDelivery.

(** ** Received files *)

Section Media.
Context `{WebCrypto} (randomUUID : nat → jsstr).

Lemma append_unknown room msg (m : room_manager) :
  map_get (rm_rooms m) room = None → appendMessageToRoom room msg m = m.
Proof. intros E. unfold appendMessageToRoom. by rewrite E. Qed.

(** The callback that shows a received file closes over the room that was
    active when the handlers were registered, on the join page, where there is
    none: a complete file, and a file that fails, leave every room as it is. *)
Theorem received_media_dropped scope url data a a' :
  map_get (rm_rooms (a_rm a)) scope = None → json_get data (lit "type") = Some (JStr (lit "media")) →
  App.on_message randomUUID scope url data a = Some a' → a_rm a' = a_rm a.
Proof.
  intros Hn Ht Hm. unfold App.on_message in Hm. rewrite Ht in Hm. destruct data; try (by injection Hm as <-).
  change (Some (handleMediaChunk randomUUID scope url (media_payload (JObj fs)) a) = Some a') in Hm. injection Hm as <-.
  unfold handleMediaChunk. destruct (a_assembler a) as [asm|]; [|done]. destruct (handleChunk _ _ asm) as [asm' r].
  destruct r as [[]|]; try done; unfold append_fresh; cbn; by rewrite append_unknown.
Qed.
End Media.

(** ** Leaving *)

Section Leave.
Context `{WebCrypto} (randomUUID : nat → jsstr).

(** Maps have unique keys. *)
Definition maps_ok (a : app) : Prop :=
  map_wf (rm_keys (a_rm a)) ∧ map_wf (rm_salts (a_rm a)) ∧ map_wf (rm_passphrases (a_rm a)) ∧
  map_wf (rm_rooms (a_rm a)) ∧ map_wf (cl_joined (a_client a)) ∧ map_wf (mh_refs (a_mesh a)).

Lemma joined_leave room payload mid c :
  cl_joined (Client.send randomUUID (lit "leave") room payload mid c).2 = map_delete (cl_joined c) room.
Proof.
  unfold Client.send, track_room. rewrite bool_decide_false by done. rewrite bool_decide_true by done.
  set (c1 := set_joined _ c). assert (∀ n, open_ws (draw_uuids n c1) = open_ws c) as Ho by done.
  destruct mid as [[|ch m]|]; cbn zeta; rewrite Ho; by destruct (open_ws c).
Qed.

Lemma fold_unsubscribe es c :
  let c' := fold_left (λ c e, unsubscribe e.1 e.2 c) es c in cl_joined c' = cl_joined c ∧ cl_ws c' = cl_ws c.
Proof.
  revert c. induction es as [|e es IH]; intros c; [done|]. cbn. destruct (IH (unsubscribe e.1 e.2 c)) as [-> ->].
  unfold unsubscribe. by destruct (map_get _ _).
Qed.

Lemma unsubscribe_all_spec b :
  a_handlers (unsubscribe_all b) = None ∧ a_rm (unsubscribe_all b) = a_rm b ∧ a_mesh (unsubscribe_all b) = a_mesh b ∧
  cl_joined (a_client (unsubscribe_all b)) = cl_joined (a_client b) ∧
  cl_ws (a_client (unsubscribe_all b)) = cl_ws (a_client b) ∧ a_rotator (unsubscribe_all b) = a_rotator b ∧
  a_assembler (unsubscribe_all b) = a_assembler b.
Proof.
  unfold unsubscribe_all. destruct (a_handlers b) eqn:Eh; [|by rewrite Eh].
  destruct (fold_unsubscribe handler_events (a_client b)) as [E1 E2]. by split_and!.
Qed.

(** What leaving a room, even the last one, does not touch: the call and its
    microphone go on, and messages that wait for a key stay. *)
Lemma leave_keeps room a :
  a_call (leaveRoom randomUUID room a) = a_call a ∧
  a_pendingMessages (leaveRoom randomUUID room a) = a_pendingMessages a ∧
  a_pendingKeyRooms (leaveRoom randomUUID room a) = a_pendingKeyRooms a.
Proof.
  unfold leaveRoom. case_bool_decide; [|done]. destruct (filter _ _); [|done].
  unfold unsubscribe_all. by destruct (a_handlers _).
Qed.

End Leave.

(** ** Runs *)

Module AppExamples.
Import Toy.

Definition uuid (n : nat) : jsstr := 117 :: dec_nat (Z.of_nat n).
Abbreviation run := (app_run uuid [] None).
Abbreviation app := (@AppState.app toy).

Definition room : jsstr := lit "swift-wolf-7".
Definition base : jsstr := lit "https://chat.example/".
Definition salt (b : Z) : bytes := replicate 32 b.
Definition k1 : @CryptoKey toy := toy_key Byte.x07.
Definition k2 : @CryptoKey toy := toy_key Byte.x08.

(** A member joins from the join page: with the key [k1], or with a passphrase. *)
Definition joining (pass : jsstr) : list app_label :=
  [AJoin base (salt 1) k1 room pass 0; AResume 0] ++ (if str_empty pass then [AResume 1] else []) ++
  [ASocket (COpen 0); AResume (if str_empty pass then 2 else 1)%nat; ACommit].

Definition joined (name pass : jsstr) : app := default (new_app name 0) (run (new_app name 0) (joining pass)).

Definition message_of (type : string) (payload : json) : json :=
  JObj [(lit "id", JStr (lit "bob")); (lit "type", JStr (lit type)); (lit "room", JStr room); (lit "payload", payload)].

Definition presence (b : Z) : json :=
  JObj [(lit "room", JStr room); (lit "count", JNum 2);
        (lit "peers", JObj [(lit "alice", JStr (lit "Alice")); (lit "bob", JStr (lit "Bob"))]);
        (lit "salt", JStr (b64_encode (salt b)))].

(** What a member put on the wire, and what it shows. *)
Definition wire (a : app) : list json :=
  omap (λ e, match e with WsSend _ m => match JSON_parse m with Ok v => Some v | Throw _ => None end | _ => None end)
       (cl_log (a_client a)).
Definition wire_of (type : string) (a : app) : list json :=
  filter (λ v, is_str (json_get v (lit "type")) (lit type) = true) (wire a).
Definition texts (a : app) : list (option jsstr) := um_text <$> rs_messages (getRoomState room (a_rm a)).

Lemma uuid_ok n : uuid n ≠ [] ∧ Forall is_unit (uuid n).
Proof.
  split; [done|]. unfold uuid. constructor; [unfold is_unit; lia|].
  assert (dec_nat (Z.of_nat n) = dec_int (Z.of_nat n)) as -> by (unfold dec_int; destruct (Z.of_nat n <? 0) eqn:E; [apply Z.ltb_lt in E; lia|done]).
  apply text_ok_dec_int.
Qed.

(** Two members meet with a passphrase; the room has the first one's salt. *)
Definition chat_message (text : string) : json :=
  message_of "chat" (JStr (match encrypt (Some (pbkdf2 (TextEncoder_encode (room ++ lit ":pass"))
      (salt 9 ++ sha256 (TextEncoder_encode (KDF_CONTEXT ++ lit ":" ++ room))) PBKDF2_ITERATIONS)) toy_iv (lit text) with
      Ok c => c | Throw _ => [] end)).

Lemma rekey_spec_witness :
  let a := joined (lit "bob") (lit "pass") in
  let data := message_of "presence" (JStr (JSON_stringify (presence 9))) in
  ∃ key a1 a2, deriveRoomKey room (lit "pass") (Some (salt 9)) = Ok key ∧
    receive_all uuid [] [data; chat_message "hello"] a = Some a1 ∧
    resume_task uuid None (length (a_tasks a)) a1 = Some a2 ∧
    map_get (rm_keys (a_rm a2)) room = Some (Key key) ∧
    last (a_tasks a2) = Some (Some (TChat (chat_message "hello") room (Ok (lit "hello")) false)).
Proof.
  cbn zeta. set (a := joined (lit "bob") (lit "pass")).
  destruct (rekey_spec uuid None [] room 112 (lit "ass") (salt 9) (presence 9)
    (message_of "presence" (JStr (JSON_stringify (presence 9)))) [chat_message "hello"] a)
    as (key & a1 & a2 & H1 & H2 & _ & H3 & H4 & _ & _ & _ & _ & H5).
  - vm_refl.
  - discriminate.
  - reflexivity.
  - split_and!; [by eexists|vm_refl|vm_refl|vm_refl|].
    exists (b64_encode (salt 9)). split_and!; [vm_refl|discriminate|vm_refl].
  - constructor; [|constructor]. split_and!; [by eexists|reflexivity|reflexivity|by eexists].
  - vm_compute. discriminate.
  - vm_refl.
  - vm_compute. repeat constructor. apply not_elem_of_nil.
  - vm_compute. constructor.
  - vm_compute. constructor.
  - apply Forall_nil_2.
  - exists key, a1, a2. split_and!; [exact H1|exact H2|exact H3|exact H4|]. rewrite H5.
    vm_compute in H1. injection H1 as <-. vm_refl.
Defined.

(** Alice has typed a text. *)
Definition typed : app := default (joined (lit "alice") []) (run (joined (lit "alice") []) [AInput (lit "hi bob"); ACommit]).

(** A gateway that relays these four fields under the sender's id. *)
Definition relayed (sent : json) : json :=
  obj ((lit "id", Some (JStr (lit "a"))) :: ((λ f, (f, json_get sent f)) <$> [lit "type"; lit "room"; lit "payload"; lit "msgId"])).

Lemma chat_end_to_end_witness :
  let b := joined (lit "bob") [] in
  ∃ a2 msg sent msgId b2,
    (let a1 := sendMessage uuid toy_iv typed in resume_task uuid None (length (a_tasks typed)) a1) = Some a2 ∧
    WsSend 0 msg ∈ cl_log (a_client a2) ∧ JSON_parse msg = Ok sent ∧ relays sent (relayed sent) ∧
    (b1 ← App.dispatch uuid [] (relayed sent) b; resume_task uuid None (length (a_tasks b)) b1) = Some b2 ∧
    shows room msgId (lit "hi bob") b2.
Proof.
  cbn zeta. set (b := joined (lit "bob") []).
  destruct (chat_end_to_end uuid None room k1 (lit "hi bob") toy_iv (getRoomState room (a_rm typed)) (getRoomState room (a_rm b))
    0 [] typed b) as (a2 & msg & sent & msgId & H1 & H2 & H3 & H4).
  - discriminate.
  - decided.
  - apply uuid_ok.
  - decided.
  - discriminate.
  - vm_compute. discriminate.
  - decided.
  - vm_refl.
  - vm_refl.
  - vm_refl.
  - vm_refl.
  - vm_refl.
  - vm_refl.
  - vm_refl.
  - vm_refl.
  - vm_refl.
  - vm_refl.
  - assert (relays sent (relayed sent)) as Hr.
    { split; [by eexists|]. split; [exists (lit "a"); unfold relayed; by rewrite json_get_obj by decided|]. unfold relayed. repeat (apply Forall_cons_2; [by rewrite json_get_obj by decided|]). constructor. }
    destruct (H4 (relayed sent) Hr) as (b2 & H5 & H6). exists a2, msg, sent, msgId, b2. by split_and!.
Defined.


(** ** What the handlers do not guarantee *)

Definition recv (v : json) : app_label := AReceive 0 (JSON_stringify v) (lit "blob:2").
Definition members (names : list string) : json :=
  JStr (JSON_stringify (JObj [(lit "room", JStr room); (lit "count", JNum (Z.of_nat (length names)));
         (lit "peers", JObj ((λ n, (lit n, JStr (lit n))) <$> names))])).
Definition welcome (name : string) : json := JObj [(lit "type", JStr (lit "welcome")); (lit "id", JStr (lit name))].
Definition small_file : file := File (lit "a.txt") (lit "text/plain") 3 [104; 105; 33].

(** The file is chosen, and nothing else happens until it is sent. *)
Definition uploads : list app_label := [AFile (lit "blob:1") small_file (λ _, toy_iv); AResume 3; AResume 4].

(** The message Bob's file travels in. *)
Definition bob_file : json :=
  default JNull (b ← run (joined (lit "bob") []) uploads; head (wire_of "media" b)).

Lemma received_media_dropped_witness :
  let a := joined (lit "alice") [] in
  (match parse_payload (media_payload bob_file) with Ok _ => true | Throw _ => false end) = true ∧ a_handlers a = Some [] ∧
  ∀ a', App.on_message uuid [] (lit "blob:2") bob_file a = Some a' → a_rm a' = a_rm a.
Proof.
  cbn zeta. split; [vm_refl|]. split; [vm_refl|]. intros a'.
  apply (received_media_dropped uuid [] (lit "blob:2") bob_file (joined (lit "alice") [])); vm_refl.
Defined.

(** Bob's file reaches Alice whole, and she never sees it. *)
Example file_complete_not_shown :
  ((λ a, (texts a, map_keys <$> (transfers <$> a_assembler a), (length ∘ progress_calls) <$> a_assembler a)) <$>
     run (joined (lit "alice") []) [recv bob_file]) = Some ([], Some [], Some 1%nat).
Proof. vm_refl. Qed.

(** Half an hour after joining, the rotator makes a new key. *)
Definition rotating : list app_label :=
  [AWait 1800000; ARotator 0 (LInterval 0) toy_iv; ARotator 0 (LGenerated 0 k2) toy_iv; ARotator 0 (LExported 0 None) toy_iv].

(** A rotation reaches nobody: the rotator was started before the room had
    become the active one, so without a key, and the new key cannot be
    encrypted under the old one; the files sent next are sealed under a key
    the other members do not have. *)
Theorem rotation_reaches_nobody :
  ((λ a, (rm_activeKey (a_rm a), map_get (rm_keys (a_rm a)) room, wire_of "key_rotation" a)) <$>
     run (joined (lit "alice") []) rotating) = Some (Some (Key k2), Some (Key k1), []) ∧
  ((λ a, (λ m, (chunk_accept (media_payload m) ≫= λ c, match c with inr c => decrypt (Some k1) (cm_chunk c) | _ => Ok [] end))
           <$> wire_of "media" a) <$>
     run (joined (lit "alice") []) (rotating ++ uploads)) =
  Some [Throw (lit "OperationError")].
Proof. split; vm_refl. Qed.

(** A third member comes in while the offer to the second is on its way. *)
Definition third : list app_label :=
  [recv (welcome "alice"); recv (message_of "presence" (members ["alice"; "bob"])); AWait 400;
   recv (message_of "presence" (members ["alice"; "bob"; "carol"])); ACommit; AWait 100; AMesh (HOffer 0);
   AMesh (HMesh 0 (MResume 0 0 true)); AMesh (HMesh 0 (MResume 0 0 true)); AMesh (HResume 0 true);
   AMesh (HMesh 0 (MEvent 0 (EvDcOpen 0))); AIsP2P room true; AInput (lit "hello"); ACommit; ASend toy_iv; AResume 3].

Definition channel_sends (a : app) : nat :=
  length (filter (λ e, match e with ChannelSend _ _ => true | _ => false end = true) ((mh_meshes (a_mesh a) ≫= m_peers) ≫= p_log)).

(** In a room of three where a data channel to one member was opened, what
    the user sends goes to that member alone, and is shown as sent. *)
Theorem third_member_misses_chat :
  ((λ a, let s := getRoomState room (a_rm a) in
         (rs_peerCount s, texts a, um_queued <$> rs_messages s, channel_sends a, wire_of "chat" a)) <$>
     run (joined (lit "alice") []) third) = Some (JNum 3, [Some (lit "hello")], [false], 1%nat, []).
Proof. vm_refl. Qed.

(** A salt that is not 32 bytes long leaves the room's messages in the queue. *)
Definition bad_salt : json :=
  JObj [(lit "room", JStr room); (lit "count", JNum 2); (lit "salt", JStr (b64_encode [1; 2; 3]))].

Example bad_salt_blocks_room :
  ((λ a, (texts a, length <$> map_values (a_pendingMessages a))) <$>
     run (joined (lit "bob") (lit "pass"))
       [recv (message_of "presence" (JStr (JSON_stringify bad_salt))); AResume 2; recv (chat_message "hello")]) = Some ([], [1%nat]).
Proof. vm_refl. Qed.

(** A member who once followed another salt cannot follow the next one. *)
Example second_salt_ignored :
  ((λ a, (map_get (rm_keys (a_rm a)) room, length (a_tasks a))) <$>
     run (joined (lit "bob") (lit "pass"))
       [recv (message_of "presence" (JStr (JSON_stringify (presence 9)))); AResume 2;
        recv (message_of "presence" (JStr (JSON_stringify (presence 5))))]) =
  Some (Key <$> (match deriveRoomKey room (lit "pass") (Some (salt 9)) with Ok k => Some k | Throw _ => None end), 3%nat).
Proof. vm_refl. Qed.

(** A derivation that ends after the room was left brings its key back. *)
Example derivation_outlives_room :
  ((λ a, (map_keys (rm_rooms (a_rm a)), map_keys (rm_keys (a_rm a)))) <$>
     run (joined (lit "bob") (lit "pass"))
       [recv (message_of "presence" (JStr (JSON_stringify (presence 9)))); ALeave room; AResume 2]) = Some ([], [room]).
Proof. vm_refl. Qed.
End AppExamples.
