(* ===== verification/AppDelivery.v ===== *)
(** * Every chat message is decrypted exactly once

    A chat message that reaches the handlers is either given to the decryption
    at once or queued while the room's key is derived anew, and then emitted
    again. Whatever else happens, each message is in exactly one place; one
    that is still queued when the derivation ends and no handler is registered
    any more (the last room was left meanwhile) is dropped. *)

From S2P Require Import Prelude JsLib Base64 Text Json Crypto Uri Timers KeyRotator Mime MediaSend MediaAssembler.
From S2P Require Import Client Rooms Typing WebRTC MeshHook CallManager AppState App AppFacts.

Local Open Scope Z_scope.

Section Delivery.
Context `{WebCrypto} (randomUUID : nat → jsstr) (twice_error : jsstr) (env : option Z).

Abbreviation on_message := (on_message randomUUID).
Abbreviation dispatch := (App.dispatch randomUUID).
Abbreviation app_exec := (app_exec randomUUID twice_error env).
Abbreviation app_run := (app_run randomUUID twice_error env).

(** The message a task decrypts. *)
Definition waiting (t : option app_task) : list json := match t with Some (TChat d _ _ _) => [d] | _ => [] end.

Definition in_hand (a : app) : list json := a_tasks a ≫= waiting.
Definition in_queue (a : app) : list json := map_collect Datatypes.id (a_pendingMessages a).

(** A chat message that names its room. *)
Definition room_chat (data : json) : bool :=
  match data with JObj _ => is_str (json_get data (lit "type")) (lit "chat") && truthy (json_get data (lit "room")) | _ => false end.

(** The chat message a step brings, and the one whose decryption it ends. *)
Definition arrives (a : app) (l : app_label) : list json :=
  match l with
  | AReceive _ text _ =>
      match a_handlers a, JSON_parse text with
      | Some _, Ok v => if room_chat v then [v] else []
      | _, _ => []
      end
  | AP2P room d _ =>
      match a_handlers a, mesh_event room d with
      | Some _, Ok v => if is_str (json_get v (lit "type")) (lit "chat") then [v] else []
      | _, _ => []
      end
  | _ => []
  end.

Definition ends (a : app) (l : app_label) : list json :=
  match l with AResume i => match a_tasks a !! i with Some t => waiting t | None => [] end | _ => [] end.

Fixpoint arrived (a : app) (ls : list app_label) : list json :=
  match ls with
  | [] => []
  | l :: ls => arrives a l ++ match app_exec a l with Some a' => arrived a' ls | None => [] end
  end.

Fixpoint ended (a : app) (ls : list app_label) : list json :=
  match ls with
  | [] => []
  | l :: ls => ends a l ++ match app_exec a l with Some a' => ended a' ls | None => [] end
  end.

(** The rooms whose key is being derived, and the room whose derivation has
    failed in a step. *)
Definition derives (t : option app_task) : list jsstr := match t with Some (TDerive room _ _) => [room] | _ => [] end.
Definition deriving (a : app) : list jsstr := a_tasks a ≫= derives.

Definition fails (a : app) (l : app_label) : list jsstr :=
  match l with
  | AResume i => match a_tasks a !! i with Some (Some (TDerive room _ (Throw _))) => [room] | _ => [] end
  | _ => []
  end.

(** The queue a derivation that ends emits to nobody. *)
Definition drops (a : app) (l : app_label) : list json :=
  match l with
  | AResume i =>
      match a_tasks a !! i, a_handlers a with
      | Some (Some (TDerive room _ (Ok _))), None => queue_of room a
      | _, _ => []
      end
  | _ => []
  end.

Fixpoint dropped (a : app) (ls : list app_label) : list json :=
  match ls with
  | [] => []
  | l :: ls => drops a l ++ match app_exec a l with Some a' => dropped a' ls | None => [] end
  end.

Fixpoint failed_rooms (a : app) (ls : list app_label) : list jsstr :=
  match ls with
  | [] => []
  | l :: ls => fails a l ++ match app_exec a l with Some a' => failed_rooms a' ls | None => [] end
  end.

(** What is queued is chat of a room that waits for its key; a room that
    waits has a derivation under way, or one that failed ([F]). *)
Definition queue_ok (F : list jsstr) (a : app) : Prop :=
  Forall (λ x, Forall (λ d, room_chat d = true) x.2) (a_pendingMessages a) ∧
  map_wf (a_pendingMessages a) ∧
  NoDup (a_pendingKeyRooms a) ∧
  (∀ r, queue_of r a ≠ [] → r ∈ a_pendingKeyRooms a) ∧
  (∀ r, r ∈ a_pendingKeyRooms a → r ∈ deriving a ∨ r ∈ F).

(** A step that has nothing to do with chat messages. *)
Definition calm (a a' : app) : Prop :=
  in_hand a' = in_hand a ∧ a_pendingMessages a' = a_pendingMessages a ∧
  (NoDup (a_pendingKeyRooms a) → NoDup (a_pendingKeyRooms a')) ∧
  (∀ r, r ∈ a_pendingKeyRooms a → r ∈ a_pendingKeyRooms a') ∧
  (∀ r, r ∈ a_pendingKeyRooms a' → r ∈ a_pendingKeyRooms a ∨ r ∈ deriving a') ∧
  (∀ r, r ∈ deriving a → r ∈ deriving a').

Lemma calm_same a a' :
  in_hand a' = in_hand a → a_pendingMessages a' = a_pendingMessages a → a_pendingKeyRooms a' = a_pendingKeyRooms a →
  deriving a' = deriving a → calm a a'.
Proof. intros E1 E2 E3 E4. unfold calm. rewrite ?E3, ?E4. split_and!; auto. Qed.

Lemma calm_refl a : calm a a.
Proof. by apply calm_same. Qed.

Lemma calm_trans a1 a2 a3 : calm a1 a2 → calm a2 a3 → calm a1 a3.
Proof.
  intros (E1 & E2 & E3 & E4 & E5 & E6) (F1 & F2 & F3 & F4 & F5 & F6). split_and!; [congruence..|auto|auto| |auto].
  intros r [Hr|Hr]%F5; [|by right]. destruct (E5 r Hr); auto.
Qed.

Lemma calm_core a a' : core a' = core a → calm a a'.
Proof.
  intros (_ & _ & _ & _ & E0 & E1 & E2 & _ & _)%core_eq. apply calm_same; unfold in_hand, deriving; by rewrite ?E2.
Qed.

Lemma deriving_add t a : deriving (add_task t a) = deriving a ++ derives (Some t).
Proof. unfold deriving, add_task. cbn [a_tasks set_app_tasks]. rewrite bind_app. cbn. by rewrite app_nil_r. Qed.

Lemma in_hand_add t a : in_hand (add_task t a) = in_hand a ++ waiting (Some t).
Proof. unfold in_hand, add_task. cbn [a_tasks set_app_tasks]. rewrite bind_app. cbn. by rewrite app_nil_r. Qed.

Lemma calm_task t a : waiting (Some t) = [] → calm a (add_task t a).
Proof.
  intros Ht. split_and!; try done.
  - by rewrite in_hand_add, Ht, app_nil_r.
  - intros r Hr. by left.
  - intros r Hr. rewrite deriving_add. set_solver.
Qed.

Lemma calm_derive room presence pp salt a : calm a (start_derive room presence pp salt a).
Proof.
  unfold start_derive. set (a1 := with_rm _ _).
  split_and!; cbn [add_task set_app_tasks a_pendingMessages a_pendingKeyRooms]; unfold a1; cbn [with_rm set_pendingKeys a_pendingKeyRooms].
  - by rewrite in_hand_add, app_nil_r.
  - done.
  - apply set_add_NoDup.
  - intros r Hr. apply set_add_elem. by right.
  - intros r [->|Hr]%set_add_elem; [right|by left]. rewrite deriving_add. cbn [derives]. set_solver.
  - intros r Hr. rewrite deriving_add. apply elem_of_app. by left.
Qed.

Lemma calm_queue_ok F a a' : calm a a' → queue_ok F a → queue_ok F a'.
Proof.
  intros (E1 & E2 & E3 & E4 & E5 & E6) (H1 & H2 & H3 & H4 & H5). unfold queue_ok. rewrite ?E2. split_and!; auto.
  - intros r Hr. apply E4, H4. unfold queue_of in *. by rewrite <- E2.
  - intros r [Hr|Hr]%E5; [|by left]. destruct (H5 r Hr); auto.
Qed.
End Delivery.

(** Case analysis of a handler down to steps that are calm by computation. *)
Ltac calm_cases :=
  repeat match goal with
  | H : @mbind option _ _ _ _ _ = Some _ |- _ => apply bind_Some in H as (? & ? & H)
  | H : Some _ = Some _ |- _ => injection H as <-
  | H : None = Some _ |- _ => discriminate H
  | H : ?e = Some _ |- _ => match e with context [match ?x with _ => _ end] => destruct x end
  | |- context [match ?x with _ => _ end] => destruct x
  end;
  try exact (calm_refl _); try (apply calm_task; reflexivity); try apply calm_derive; try (apply calm_core, core_apply_presence);
  try (apply calm_core, core_on_mesh).

Section DeliverySteps.
Context `{WebCrypto} (randomUUID : nat → jsstr) (twice_error : jsstr) (env : option Z).

Lemma calm_presence d a a' : on_presence d a = Some a' → calm a a'.
Proof.
  unfold on_presence. intros E. calm_cases.
Qed.

Lemma calm_signal d a a' : on_signal d a = Some a' → calm a a'.
Proof. unfold on_signal. intros E. calm_cases. Qed.

Lemma calm_typing d a a' : on_typing d a = Some a' → calm a a'.
Proof. unfold on_typing. intros E. calm_cases. Qed.

Lemma calm_receipt d a a' : on_receipt d a = Some a' → calm a a'.
Proof. unfold on_receipt. intros E. calm_cases. Qed.

Lemma calm_rotation scope d a a' : on_key_rotation scope d a = Some a' → calm a a'.
Proof. unfold on_key_rotation. intros E. calm_cases. Qed.

Lemma calm_media scope url p a : calm a (handleMediaChunk randomUUID scope url p a).
Proof.
  unfold handleMediaChunk. destruct (a_assembler a); [|apply calm_refl]. destruct (handleChunk _ _ _) as [asm r].
  destruct r as [[]|]; exact (calm_refl _).
Qed.

Lemma calm_call_offer d a a' : on_call_offer d a = Some a' → calm a a'.
Proof. unfold on_call_offer. intros E. calm_cases. Qed.

Lemma calm_end_call a : calm a (end_call randomUUID a).
Proof. unfold end_call. destruct (endCall _ _ _ _ _) as [[]]. exact (calm_refl _). Qed.

(** ** A chat message comes in *)

(** The messages in hand and in the queue, together. *)
Definition held (a : app) : list json := in_hand a ++ in_queue a.

Lemma calm_held a a' : calm a a' → held a' = held a.
Proof. unfold held, in_queue. by intros (-> & -> & _). Qed.

Lemma held_start_chat d room b a : held (start_chat d room b a) ≡ₚ held a ++ [d].
Proof. unfold held, start_chat. rewrite in_hand_add. unfold in_queue. cbn. solve_Permutation. Qed.

Lemma queue_ok_start_chat F d room b a : queue_ok F a → queue_ok F (start_chat d room b a).
Proof.
  intros (H1 & H2 & H3 & H4 & H5). split_and!; try done. unfold start_chat. intros r Hr. rewrite deriving_add. cbn [derives].
  rewrite app_nil_r. by apply H5.
Qed.

(** A message joins the queue of a room that waits for its key. *)
Lemma queue_push F d r a :
  room_chat d = true → queue_ok F a → r ∈ a_pendingKeyRooms a →
  let a' := set_pendingKeys (a_pendingKeyRooms a) (map_set (a_pendingMessages a) r (queue_of r a ++ [d])) a in
  held a' ≡ₚ held a ++ [d] ∧ queue_ok F a'.
Proof.
  intros Hd (H1 & H2 & H3 & H4 & H5) Hr. split.
  - unfold held, in_hand, in_queue, queue_of. cbn [a_tasks set_pendingKeys a_pendingMessages]. rewrite <- app_assoc.
    apply Permutation_app_head. destruct (map_get (a_pendingMessages a) r) as [q|] eqn:Eq; cbn [default from_option].
    + apply (Permutation_app_inv_r (Datatypes.id q)). rewrite map_collect_set_Some by done. unfold Datatypes.id. solve_Permutation.
    + by rewrite map_collect_set_None.
  - split_and!; cbn [a_pendingMessages set_pendingKeys a_pendingKeyRooms]; [|by apply map_wf_set|done| |exact H5].
    + apply Forall_map_set; [done| |done]. cbn. apply Forall_snoc; [|done]. unfold queue_of.
      destruct (map_get (a_pendingMessages a) r) as [q|] eqn:Eq; [|constructor]. apply map_get_Some_elem in Eq.
      rewrite Forall_forall in H1. by apply (H1 _ Eq).
    + intros r' Hq. destruct (decide (r = r')) as [<-|Hne]; [done|]. apply H4. unfold queue_of in *.
      cbn [a_pendingMessages set_pendingKeys] in Hq. by rewrite map_get_set_ne in Hq.
Qed.

Lemma chat_on_chat F d a a' :
  room_chat d = true → queue_ok F a → on_chat d a = Some a' →
  held a' ≡ₚ held a ++ [d] ∧ queue_ok F a' ∧ a_handlers a' = a_handlers a.
Proof.
  intros Hd Hq. unfold on_chat. intros (room & Hr & (_ & _ & [= <-])%bind_Some)%bind_Some.
  assert (∃ r, room = Some r) as [r ->].
  { unfold room_chat in Hd. destruct d; try done. apply andb_true_iff in Hd as [_ Ht]. unfold room_name in Hr.
    rewrite Ht in Hr. repeat case_match; simplify_eq/=; eauto. }
  destruct (set_has (a_pendingKeyRooms a) r) eqn:Ep.
  - apply set_has_true in Ep. destruct (queue_push F d r a Hd Hq Ep) as [P Q]. split_and!; [exact P|exact Q|done].
  - split_and!; [apply held_start_chat|by apply queue_ok_start_chat|done].
Qed.

Lemma chat_on_message F scope url d a a' :
  queue_ok F a → App.on_message randomUUID scope url d a = Some a' →
  held a' ≡ₚ held a ++ (if room_chat d then [d] else []) ∧ queue_ok F a' ∧
  (room_chat d = true → a_handlers a' = a_handlers a).
Proof.
  intros Hq Hm. unfold App.on_message in Hm. destruct d as [| | | | |fs];
    try (injection Hm as <-; by rewrite app_nil_r).
  set (d := JObj fs) in *. destruct (is_str (json_get d (lit "type")) (lit "chat")) eqn:Ec.
  - apply is_str_true in Ec as Et. rewrite Et in Hm.
    change (on_chat d a = Some a') in Hm. destruct (room_chat d) eqn:Er.
    + destruct (chat_on_chat F d a a') as (P1 & P2 & P3); [done..|]. by rewrite P3.
    + unfold room_chat in Er. cbn [d] in Er. fold d in Er. rewrite Ec in Er. cbn [andb] in Er.
      unfold on_chat, room_name in Hm. rewrite Er in Hm.
      cbn [mbind option_bind] in Hm. repeat case_match; simplify_eq/=; by rewrite app_nil_r.
  - assert (room_chat d = false) as -> by (unfold room_chat; cbn [d]; fold d; by rewrite Ec). rewrite app_nil_r.
    assert (calm a a') as Hc.
    { repeat match type of Hm with (if ?b then _ else _) = _ => destruct b end;
        eauto using calm_presence, calm_signal, calm_typing, calm_receipt, calm_rotation, calm_call_offer;
        injection Hm as <-; [apply calm_media|apply calm_end_call|apply calm_refl]. }
    rewrite (calm_held _ _ Hc). split_and!; [done|by eapply calm_queue_ok|done].
Qed.

Lemma chat_dispatch F url d a a' :
  queue_ok F a → App.dispatch randomUUID url d a = Some a' →
  held a' ≡ₚ held a ++ (match a_handlers a with Some _ => if room_chat d then [d] else [] | None => [] end) ∧ queue_ok F a' ∧
  (room_chat d = true → a_handlers a' = a_handlers a).
Proof.
  intros Hq. unfold App.dispatch. destruct (a_handlers a) as [scope|] eqn:Eh.
  - intros Hm. destruct (chat_on_message F scope url d a a') as (P1 & P2 & P3); [done..|]. by rewrite <- Eh.
  - intros [= <-]. by rewrite app_nil_r.
Qed.

Lemma chat_emit_queued F ds a a' :
  queue_ok F a → Forall (λ d, room_chat d = true) ds → emit_queued randomUUID ds a = Some a' →
  held a' ++ (match a_handlers a with Some _ => [] | None => ds end) ≡ₚ held a ++ ds ∧ queue_ok F a'.
Proof.
  intros Hq Hds. revert a Hq. induction Hds as [|d ds Hd Hds IH]; intros a Hq; cbn [emit_queued].
  - intros [= <-]. by destruct (a_handlers a).
  - intros (a1 & Hm & Hr)%bind_Some. set (a0 := with_client _ a) in Hm.
    destruct (chat_dispatch F [] d a0 a1 Hq Hm) as (P1 & P2 & P3). change (held a0) with (held a) in P1.
    change (a_handlers a0) with (a_handlers a) in *. rewrite Hd in P1. specialize (P3 Hd).
    destruct (IH a1) as [Q1 Q2]; [done|done|]. rewrite P3 in Q1. split; [|done]. destruct (a_handlers a).
    + rewrite Q1, P1. solve_Permutation.
    + rewrite app_nil_r in P1. rewrite <- P1. transitivity ((held a' ++ ds) ++ [d]); [solve_Permutation|].
      rewrite Q1. solve_Permutation.
Qed.

(** A derivation is over: the room no longer waits, and has no queue. *)
Lemma queue_released F room a b :
  queue_ok (room :: F) a → a_tasks b = a_tasks a → a_pendingKeyRooms b = set_delete (a_pendingKeyRooms a) room →
  (a_pendingMessages b = map_delete (a_pendingMessages a) room ∨
   a_pendingMessages b = a_pendingMessages a ∧ queue_of room a = []) →
  queue_ok F b.
Proof.
  intros (H1 & H2 & H3 & H4 & H5) Et Ek Em.
  assert (∀ r, queue_of r b ≠ [] → r ≠ room ∧ queue_of r a ≠ []) as Hw.
  { intros r Hr. unfold queue_of in *. destruct Em as [Em|[Em E0]]; rewrite Em in Hr; [|split; congruence].
    destruct (decide (room = r)) as [<-|Hne]; [by rewrite map_get_delete_eq in Hr|].
    by rewrite map_get_delete_ne in Hr. }
  split_and!; rewrite ?Ek.
  - destruct Em as [->|[-> _]]; [by apply Forall_map_delete|done].
  - destruct Em as [->|[-> _]]; [by apply map_wf_delete|done].
  - by apply set_delete_NoDup.
  - intros r [Hne Hr]%Hw. apply set_delete_elem; auto.
  - intros r [Hr Hne]%set_delete_elem; [|done]. unfold deriving. rewrite Et.
    destruct (H5 r Hr) as [|[|]%elem_of_cons]; auto. done.
Qed.

Lemma chat_finish_derive F room presence r a a' :
  queue_ok (room :: F) a → finish_derive randomUUID room presence r a = Some a' →
  held a' ++ (match r, a_handlers a with Ok _, None => queue_of room a | _, _ => [] end) ≡ₚ held a ∧
  queue_ok (match r with Ok _ => F | Throw _ => room :: F end) a'.
Proof.
  intros Hq. unfold finish_derive. destruct r as [key|e]; [|intros [= <-]; by rewrite app_nil_r].
  set (a1 := with_rm _ a). set (a2 := if bool_decide _ then _ else a1). set (a3 := with_rm _ a2).
  assert (a_tasks a3 = a_tasks a ∧ a_pendingKeyRooms a3 = a_pendingKeyRooms a ∧
    a_pendingMessages a3 = a_pendingMessages a ∧ a_handlers a3 = a_handlers a) as (E1 & E2 & E3 & E4).
  { unfold a3, a2. by case_bool_decide. }
  clearbody a3. clear a1 a2. cbn [set_pendingKeys a_pendingMessages a_pendingKeyRooms].
  intros (b & Hb & [= <-])%bind_Some.
  assert (calm b (apply_presence room presence b)) as Hc by apply calm_core, core_apply_presence.
  rewrite (calm_held _ _ Hc).
  enough (held b ++ match a_handlers a with Some _ => [] | None => queue_of room a end ≡ₚ held a ∧ queue_ok F b) as [P Q].
  { split; [exact P|by eapply calm_queue_ok]. }
  rewrite E3 in Hb. destruct (map_get (a_pendingMessages a) room) as [[|q qs]|] eqn:Eq.
  2: { set (a5 := set_pendingKeys _ _ (set_pendingKeys _ _ a3)) in Hb.
    assert (queue_ok F a5) as H5.
    { eapply (queue_released F room a); [exact Hq|exact E1|unfold a5; cbn; by rewrite E2|left; unfold a5; cbn; by rewrite ?E3]. }
    apply map_get_Some_elem in Eq as Hin.
    destruct (chat_emit_queued F (q :: qs) a5 b H5) as [P Q]; [|exact Hb|].
    - destruct Hq as (H1 & _). rewrite Forall_forall in H1. by apply (H1 _ Hin).
    - split; [|done]. change (a_handlers a5) with (a_handlers a3) in P. rewrite E4 in P.
      assert (queue_of room a = q :: qs) as Ea by (unfold queue_of; by rewrite Eq). rewrite Ea, P.
      unfold held, in_hand, in_queue, a5. cbn [a_tasks a_pendingMessages set_pendingKeys].
      rewrite E1, ?E3, <- app_assoc. apply Permutation_app_head. rewrite Permutation_app_comm.
      by apply (map_collect_delete Datatypes.id). }
  all: assert (queue_of room a = []) as Ea by (unfold queue_of; by rewrite Eq); injection Hb as <-; split;
    [rewrite Ea; unfold held, in_hand, in_queue; cbn [a_tasks a_pendingMessages set_pendingKeys];
     rewrite ?E1, ?E3; destruct (a_handlers a); by rewrite app_nil_r
    |eapply (queue_released F room a); [exact Hq|exact E1|cbn; by rewrite ?E2|right; cbn; by rewrite ?E3]].
Qed.

(** ** One step *)

Lemma calm_finish_join room link first fields a : calm a (finish_join randomUUID env room link first fields a).
Proof.
  unfold finish_join. set (a1 := with_rm _ (with_page _ a)). set (a2 := if first && _ then setupGlobalHandlers env a1 else a1).
  assert (calm a a2) as Hcalm.
  { unfold a2. destruct (first && _); [|exact (calm_refl a)].
    unfold setupGlobalHandlers, unsubscribe_all. destruct (a_handlers a1); exact (calm_refl a). }
  clearbody a2. set (a3 := with_page _ a2). change (a_rm a3) with (a_rm a2). destruct (match map_get (rm_salts (a_rm a2)) room with Some _ => _ | None => _ end); exact Hcalm.
Qed.

Lemma calm_join base salt key room pp ttl a : calm a (handleJoinRoom base salt key room pp ttl a).
Proof.
  unfold handleJoinRoom. repeat (case_match; [exact (calm_refl a)|]). destruct (setup_begin _ _ _ _ _) as [m st].
  eapply calm_trans; [|by apply calm_task]. exact (calm_refl a).
Qed.

Lemma calm_setup base room st first fields a : calm a (resume_setup randomUUID env base room st first fields a).
Proof.
  unfold resume_setup. destruct (setup_next _ _ _ _) as [m [st'|r]].
  { eapply calm_trans; [|by apply calm_task]. exact (calm_refl a). }
  unfold setup_settled. destruct r as [[k link]|e]; [|exact (calm_refl a)]. destruct (connected _).
  - eapply calm_trans; [|apply calm_finish_join]. exact (calm_refl a).
  - eapply calm_trans; [|by apply calm_task]. exact (calm_refl a).
Qed.

Lemma calm_send_typing b a : calm a (send_typing randomUUID b a).
Proof.
  unfold send_typing. destruct (str_empty _); [apply calm_refl|].
  destruct (sendTypingIndicator _ _ _) as [[] ]; exact (calm_refl a).
Qed.

Lemma calm_sendMessage iv a : calm a (sendMessage randomUUID iv a).
Proof.
  unfold sendMessage. destruct (map_get _ _) as [s|]; [|apply calm_refl]. destruct (str_empty _); [apply calm_refl|].
  destruct (map_get _ _) as [[[|]|]|]; try apply calm_send_typing;
    (eapply calm_trans; [apply calm_send_typing|by apply calm_task]).
Qed.

Lemma calm_finish_send room input r a : calm a (finish_send randomUUID room input r a).
Proof.
  unfold finish_send. destruct r as [ct|e]; [|exact (calm_refl a)]. unfold send_p2p.
  destruct (_ ≫= _) as [conn|].
  - destruct (WebRTC.send _ _) as [[] p]; [exact (calm_refl a)|]. destruct (Client.send _ _ _ _ _ _) as []; exact (calm_refl a).
  - destruct (Client.send _ _ _ _ _ _) as []; exact (calm_refl a).
Qed.

Lemma calm_start_upload u a : calm a (start_upload randomUUID u a).
Proof. unfold start_upload. destruct (_ >? _); [exact (calm_refl a)|by apply calm_task]. Qed.

Lemma calm_file room url f ivs a : calm a (handleFileSelect randomUUID room url f ivs a).
Proof. eapply calm_trans; [|apply calm_start_upload]. exact (calm_refl a). Qed.

Lemma calm_canvas room url b ivs a : calm a (handleCanvasShare room url b ivs a).
Proof. eapply calm_trans; [|by apply calm_task]. exact (calm_refl a). Qed.

Lemma calm_blob room key url b ivs a : calm a (canvas_blob randomUUID room key url b ivs a).
Proof. unfold canvas_blob. destruct b; [apply calm_start_upload|exact (calm_refl a)]. Qed.

Lemma calm_read u a : calm a (upload_read randomUUID u a).
Proof. unfold upload_read. destruct (_ >? _); [|exact (calm_refl a)]. eapply calm_trans; [|by apply calm_task]. exact (calm_refl a). Qed.

Lemma calm_chunk u id seq a : calm a (upload_chunk randomUUID u id seq a).
Proof.
  unfold upload_chunk. destruct (up_payload _ _ _); [|exact (calm_refl a)].
  destruct (_ <? _); [|exact (calm_refl a)]. eapply calm_trans; [|by apply calm_task]. exact (calm_refl a).
Qed.

Lemma calm_pause u id seq until a a' : upload_pause u id seq until a = Some a' → calm a a'.
Proof. unfold upload_pause. destruct (_ <? _); [done|]. intros [= <-]. by apply calm_task. Qed.

Lemma calm_onRotate scope iv call a : calm a (onRotate randomUUID scope iv call a).
Proof. unfold onRotate. destruct (rc_exported call); [|apply calm_refl]. destruct (encrypt _ _ _); exact (calm_refl a). Qed.

Lemma calm_rotator k l iv a a' : rotator_exec randomUUID k l iv a = Some a' → calm a a'.
Proof.
  unfold rotator_exec. intros ([r sc] & _ & E)%bind_Some. destruct l; try done.
  - destruct (due _ _) as [[]|]; [|done..]. injection E as <-. exact (calm_refl a).
  - apply bind_Some in E as (r' & _ & [= <-]). exact (calm_refl a).
  - apply bind_Some in E as ([r' [oc|]] & _ & [= <-]); [|exact (calm_refl a)].
    eapply calm_trans; [|apply calm_onRotate]. exact (calm_refl a).
  - destruct (due _ _) as [[]|]; [done| |done]. injection E as <-. exact (calm_refl a).
Qed.

(** A task that is over leaves the hand. *)
Lemma held_clear i t a :
  a_tasks a !! i = Some t → held (set_app_tasks (<[i := None]> (a_tasks a)) a) ++ waiting t ≡ₚ held a.
Proof.
  intros Hi. unfold held, in_hand, in_queue. cbn [a_tasks set_app_tasks a_pendingMessages].
  pose proof (bind_insert_Permutation waiting (a_tasks a) i t None Hi) as P. cbn [waiting] in P. rewrite app_nil_r in P.
  rewrite <- P. solve_Permutation.
Qed.

(** A task other than a derivation takes no room off the list. *)
Lemma queue_ok_clear F i t a :
  a_tasks a !! i = Some (Some t) → queue_ok F a →
  queue_ok (derives (Some t) ++ F) (set_app_tasks (<[i := None]> (a_tasks a)) a).
Proof.
  intros Hi (H1 & H2 & H3 & H4 & H5). split_and!; try done. intros r Hr. destruct (H5 r Hr) as [Hd|Hf].
  - pose proof (bind_insert_Permutation derives (a_tasks a) i (Some t) None Hi) as P. unfold deriving in *.
    cbn [derives] in P. rewrite app_nil_r in P. rewrite <- P in Hd. apply elem_of_app in Hd as [Hd|Hd]; [by left|].
    right. apply elem_of_app. by left.
  - right. apply elem_of_app. by right.
Qed.

Lemma held_resume F i a a' :
  queue_ok F a → resume_task randomUUID env i a = Some a' →
  held a' ++ ends a (AResume i) ++ drops a (AResume i) ≡ₚ held a ∧ queue_ok (fails a (AResume i) ++ F) a'.
Proof.
  intros Hq. unfold resume_task, ends, drops, fails. destruct (a_tasks a !! i) as [[t|]|] eqn:Ei; [|done..].
  pose proof (held_clear i (Some t) a Ei) as Hh. pose proof (queue_ok_clear F i t a Ei Hq) as Hq0.
  set (a0 := set_app_tasks _ a) in *. change (a_handlers a) with (a_handlers a0).
  assert (∀ r, queue_of r a = queue_of r a0) as Hqo by done. clearbody a0. rewrite <- Hh.
  assert (derives (Some t) = [] → calm a0 a' →
    held a' ++ waiting (Some t) ++ [] ≡ₚ held a0 ++ waiting (Some t) ∧ queue_ok ([] ++ F) a') as Hcalm.
  { intros Hd Hc. rewrite Hd in Hq0. rewrite app_nil_r, (calm_held _ _ Hc). split; [done|by eapply calm_queue_ok]. }
  destruct t as [base room st first fields|room link sock first fields|room presence r|data room r p2p|scope r|room r|room input r|room key url b ivs|u|u id seq|u id seq until];
    intros E.
  - injection E as <-. apply Hcalm; [done|]. apply calm_setup.
  - apply bind_Some in E as (ok & _ & [= <-]). apply Hcalm; [done|].
    destruct ok; [apply calm_finish_join|exact (calm_refl a0)].
  - cbn [derives] in Hq0. destruct (chat_finish_derive F room presence r a0 a' Hq0 E) as [P Q].
    rewrite <- P, Hqo. cbn [waiting]. rewrite !app_nil_r. split; destruct r; done.
  - injection E as <-. apply Hcalm; [done|]. unfold finish_chat.
    destruct (json_get data (lit "msgId")) as [[| | |[|c s]| |]|], p2p; destruct (sender_nickname _ _); exact (calm_refl _).
  - injection E as <-. apply Hcalm; [done|]. unfold accept_rotation. destruct (_ ≫= _); [|exact (calm_refl _)].
    destruct (a_rotator _); exact (calm_refl _).
  - injection E as <-. apply Hcalm; [done|]. unfold finish_rotate_other. destruct (_ ≫= _); exact (calm_refl _).
  - injection E as <-. apply Hcalm, calm_finish_send. done.
  - injection E as <-. apply Hcalm, calm_blob. done.
  - injection E as <-. apply Hcalm, calm_read. done.
  - injection E as <-. apply Hcalm, calm_chunk. done.
  - by eapply Hcalm, calm_pause.
Qed.

Lemma held_p2p F scope url v a a' :
  queue_ok F a → on_p2p randomUUID scope url v a = Some a' →
  held a' ≡ₚ held a ++ (if is_str (json_get v (lit "type")) (lit "chat") then [v] else []) ∧ queue_ok F a'.
Proof.
  intros Hq. unfold on_p2p. intros (room & _ & (_ & _ & [= <-])%bind_Some)%bind_Some. destruct (is_str _ (lit "chat")).
  - split; [apply held_start_chat|by apply queue_ok_start_chat].
  - rewrite app_nil_r. destruct (is_str _ _); [|done].
    rewrite (calm_held _ _ (calm_media _ _ _ _)). split; [done|]. eapply calm_queue_ok, Hq. apply calm_media.
Qed.

Lemma calm_in_view entry a : calm a (in_view randomUUID entry a).
Proof. unfold in_view. destruct (map_get _ _) as [[|c s]|]; [apply calm_refl| |apply calm_refl].
  destruct entry.2; exact (calm_refl a).
Qed.

(** Leaving a room, and even the last one, leaves its queue where it is. *)
Lemma calm_leave room a : calm a (leaveRoom randomUUID room a).
Proof.
  unfold leaveRoom. set (a1 := on_mesh _ _).
  assert (calm a a1) as H1.
  { eapply calm_trans; [|apply calm_core, core_on_mesh]. exact (calm_refl a). }
  eapply calm_trans; [exact H1|]. clearbody a1. clear H1. case_bool_decide; [|exact (calm_refl a1)].
  destruct (filter _ _) as [|r' rs]; [|exact (calm_refl a1)].
  unfold unsubscribe_all. destruct (a_handlers _); exact (calm_refl a1).
Qed.

Lemma calm_exec a l a' :
  match l with AResume _ | AReceive _ _ _ | AP2P _ _ _ => False | _ => True end →
  app_exec randomUUID twice_error env a l = Some a' → calm a a'.
Proof.
  intros Hl E. destruct l; try done; cbn [app_exec] in E;
    try (injection E as <-; first [exact (calm_refl a)|apply calm_leave|apply calm_join|apply calm_sendMessage|apply calm_file|apply calm_canvas|apply calm_end_call|apply calm_in_view]);
    try (apply calm_rotator in E; exact E);
    try (destruct (_ <? 0) in E; [done|]; injection E as <-; exact (calm_refl a)).
  - injection E as <-. unfold handleInputChange. destruct (str_empty value); [exact (calm_refl a)|].
    eapply calm_trans; [|apply calm_send_typing]. exact (calm_refl a).
  - apply bind_Some in E as ([[m c] h] & _ & [= <-]). exact (calm_refl a).
  - apply bind_Some in E as (m & _ & [= <-]). exact (calm_refl a).
  - apply bind_Some in E as (t & _ & [= <-]). exact (calm_refl a).
  - apply bind_Some in E as (s & _ & (tid & _ & [= <-])%bind_Some). exact (calm_refl a).
  - apply bind_Some in E as (p & _ & [= <-]). exact (calm_refl a).
  - destruct (socket_event l); [|done]. apply bind_Some in E as (c & _ & [= <-]). exact (calm_refl a).
  - destruct (mesh_event_label l); [|done]. apply bind_Some in E as (h & _ & [= <-]). apply calm_core, core_on_mesh.
Qed.

Lemma held_exec F a l a' :
  queue_ok F a → app_exec randomUUID twice_error env a l = Some a' →
  held a' ++ ends a l ++ drops a l ≡ₚ held a ++ arrives a l ∧ queue_ok (fails a l ++ F) a'.
Proof.
  intros Hq E.
  assert (calm a a' → held a' ++ [] ≡ₚ held a ++ [] ∧ queue_ok F a') as Hcalm.
  { intros Hc. rewrite (calm_held _ _ Hc). split; [done|by eapply calm_queue_ok]. }
  destruct l; try (cbn [ends arrives drops fails]; apply Hcalm; eapply calm_exec; [|exact E]; exact I).
  - cbn [app_exec arrives] in *. rewrite app_nil_r. by apply held_resume.
  - cbn [app_exec arrives ends drops fails] in *. apply bind_Some in E as (c & _ & E). rewrite !app_nil_r.
    set (a0 := hear c a) in E. assert (queue_ok F a0) as Hq0 by (eapply calm_queue_ok, Hq; exact (calm_refl a)).
    destruct (chat_dispatch F _ _ a0 a' Hq0 E) as (P & Q & _).
    change (held a0) with (held a) in P. change (a_handlers a0) with (a_handlers a) in P. split; [|done]. rewrite P.
    destruct (a_handlers a); [|done]. by destruct (JSON_parse text).
  - cbn [app_exec arrives ends drops fails] in *. rewrite !app_nil_r. destruct (mesh_event room d) as [v|e] eqn:Em.
    + destruct (a_handlers a) as [scope|] eqn:Eh; change (a_handlers (with_client _ a)) with (a_handlers a) in E; rewrite Eh in E.
      * apply (held_p2p F scope url v (with_client (mesh_message room d) a) a'); [exact Hq|done].
      * injection E as <-. rewrite app_nil_r. by split.
    + injection E as <-. destruct (a_handlers a); rewrite app_nil_r; by split.
Qed.

Lemma held_run F a ls a' :
  queue_ok F a → app_run randomUUID twice_error env a ls = Some a' →
  held a' ++ ended randomUUID twice_error env a ls ++ dropped randomUUID twice_error env a ls ≡ₚ
    held a ++ arrived randomUUID twice_error env a ls ∧
  ∃ F', queue_ok F' a' ∧ ∀ r, r ∈ F' → r ∈ F ∨ r ∈ failed_rooms randomUUID twice_error env a ls.
Proof.
  revert F a. induction ls as [|l ls IH]; intros F a Hq; cbn [app_run ended arrived dropped failed_rooms].
  - intros [= <-]. rewrite !app_nil_r. eauto.
  - intros (a1 & E1 & Hr)%bind_Some. rewrite E1. destruct (held_exec F a l a1 Hq E1) as [P Q].
    destruct (IH _ a1 Q Hr) as [P' (F' & Q' & HF)]. split.
    + transitivity ((ends a l ++ drops a l) ++ (held a' ++ ended randomUUID twice_error env a1 ls ++ dropped randomUUID twice_error env a1 ls)); [solve_Permutation|].
      rewrite P'. transitivity ((held a1 ++ ends a l ++ drops a l) ++ arrived randomUUID twice_error env a1 ls); [solve_Permutation|].
      rewrite P. solve_Permutation.
    + exists F'. split; [done|]. intros r [[Hf|Hf]%elem_of_app|Hf]%HF; set_solver.
Qed.

(** C1: whatever the user, the server, the peers and the timers do, no chat
    message is lost unnoticed or taken twice between the network and its
    decryption. The messages that reached the handlers, by the server or by a
    peer, are exactly those whose decryption ended, those being decrypted,
    those queued, and those dropped, one for one. A message is only queued
    while the key of its room is being derived, or when a derivation of it
    has failed (then it stays, see [bad_salt_blocks_room]); one is only
    dropped when the derivation ends and the handlers are gone because the
    last room was left meanwhile. *)
Theorem chat_exactly_once nickname now ls a :
  app_run randomUUID twice_error env (new_app nickname now) ls = Some a →
  arrived randomUUID twice_error env (new_app nickname now) ls ≡ₚ
    ended randomUUID twice_error env (new_app nickname now) ls ++ in_hand a ++ in_queue a ++
    dropped randomUUID twice_error env (new_app nickname now) ls ∧
  ∀ room, queue_of room a ≠ [] →
    room ∈ deriving a ∨ room ∈ failed_rooms randomUUID twice_error env (new_app nickname now) ls.
Proof.
  intros Hr. destruct (held_run [] (new_app nickname now) ls a) as [P (F & (_ & _ & _ & Hw & Hd) & HF)]; [|done|].
  { split_and!; [constructor|constructor|constructor|done|]. cbn. intros r Hx. by apply elem_of_nil in Hx. }
  split.
  - change (held (new_app nickname now)) with (@nil json) in P. cbn [Datatypes.app] in P. rewrite <- P.
    unfold held. solve_Permutation.
  - intros room Hq. destruct (Hd room (Hw room Hq)) as [|[Hf|]%HF]; auto. by apply elem_of_nil in Hf.
Qed.
End DeliverySteps.

(** ** A run *)

Module DeliveryExamples.
Import Toy AppExamples.

(** Bob joins; a message comes, the salt changes, two more come, the new key is there. *)
Definition busy : list app_label :=
  joining (lit "pass") ++
  [recv (chat_message "early"); recv (message_of "presence" (JStr (JSON_stringify (presence 9))));
   recv (chat_message "one"); recv (chat_message "two"); AResume 2; AResume 3; recv (chat_message "late"); AResume 4].

(** And here he leaves before the new key is there. *)
Definition gone : list app_label :=
  joining (lit "pass") ++
  [recv (message_of "presence" (JStr (JSON_stringify (presence 9)))); recv (chat_message "one"); ALeave room; AResume 2].

Lemma chat_exactly_once_witness :
  ∃ a b, app_run uuid [] None (new_app (lit "bob") 0) busy = Some a ∧
    app_run uuid [] None (new_app (lit "bob") 0) gone = Some b ∧
    texts a = [Some mismatch_text; Some (lit "one")] ∧
    arrived uuid [] None (new_app (lit "bob") 0) busy = chat_message <$> ["early"; "one"; "two"; "late"] ∧
    arrived uuid [] None (new_app (lit "bob") 0) busy ≡ₚ
      ended uuid [] None (new_app (lit "bob") 0) busy ++ in_hand a ++ in_queue a ++ [] ∧
    [chat_message "one"] ≡ₚ [] ++ in_hand b ++ in_queue b ++ [chat_message "one"].
Proof.
  assert ((texts <$> app_run uuid [] None (new_app (lit "bob") 0) busy) =
          Some [Some mismatch_text; Some (lit "one")]) as Ht by vm_refl.
  destruct (app_run uuid [] None (new_app (lit "bob") 0) busy) as [a|] eqn:Ha; [|discriminate Ht].
  assert (is_some (app_run uuid [] None (new_app (lit "bob") 0) gone) = true) as Hg by vm_refl.
  destruct (app_run uuid [] None (new_app (lit "bob") 0) gone) as [b|] eqn:Hb; [|discriminate Hg].
  exists a, b. split; [reflexivity|]. split; [reflexivity|]. split; [exact (Some_inj _ _ Ht)|]. split; [vm_refl|].
  destruct (chat_exactly_once uuid [] None (lit "bob") 0 busy a Ha) as [Pa _].
  destruct (chat_exactly_once uuid [] None (lit "bob") 0 gone b Hb) as [Pb _]. split.
  - replace (dropped uuid [] None (new_app (lit "bob") 0) busy) with (@nil json) in Pa by vm_refl. exact Pa.
  - replace (arrived uuid [] None (new_app (lit "bob") 0) gone) with [chat_message "one"] in Pb by vm_refl.
    replace (ended uuid [] None (new_app (lit "bob") 0) gone) with (@nil json) in Pb by vm_refl.
    replace (dropped uuid [] None (new_app (lit "bob") 0) gone) with [chat_message "one"] in Pb by vm_refl. exact Pb.
Defined.
End DeliveryExamples.
