(* ===== verification/AppKeys.v ===== *)
(** * Agreeing on a key by passphrase

    Every member derives a key with a salt of its own when it joins; the
    gateway keeps the salt of the room's first member and announces it to
    all. Joining and hearing that announcement, over the handlers of App.v:
    members with one passphrase end with one key. *)

From S2P Require Import Prelude JsLib Base64 Text Json Crypto Uri Client Rooms App AppState AppFacts.

Local Open Scope Z_scope.

Section Agreement.
Context `{!WebCrypto} `{!WebCryptoLaws} (randomUUID : nat → jsstr) (env : option Z).
Implicit Types (a : app).

(** ** Joining *)

(** What the form checks before anything happens. *)
Definition may_join (joinRoom room : jsstr) (a : app) : Prop :=
  trim joinRoom = room ∧ room ≠ [] ∧ (length room ≤ MAX_ROOM_NAME_LEN)%nat ∧
  ((length (rm_roomsRef (a_rm a)) < Rooms.MAX_ROOMS)%nat ∨ map_has (rm_roomsRef (a_rm a)) room = true).

(** The member has joined: once the key is derived when the client was
    connected, and else when the connection is made and the call goes on,
    whatever else happened to the client in between. *)
Definition joins (base : jsstr) (fresh_salt : bytes) (fresh_key : CryptoKey) (joinRoom pp : jsstr) (ttl : Z)
    (a a' : app) : Prop :=
  let a0 := handleJoinRoom base fresh_salt fresh_key joinRoom pp ttl a in
  ∃ a1, resume_task randomUUID env (length (a_tasks a)) a0 = Some a1 ∧
  if connected (a_client a) then a' = a1
  else ∃ c, settled (length (cl_sockets (a_client a))) c = Some true ∧
            resume_task randomUUID env (S (length (a_tasks a))) (with_client (λ _, c) a1) = Some a'.

(** The key material of a room, and the state of its queue. *)
Definition material (room : jsstr) (a : app) : option keyref * option bytes * option jsstr :=
  (map_get (rm_keys (a_rm a)) room, map_get (rm_salts (a_rm a)) room, map_get (rm_passphrases (a_rm a)) room).

Definition tidy (room : jsstr) (a : app) : Prop :=
  map_wf (rm_passphrases (a_rm a)) ∧ map_wf (a_pendingMessages a) ∧ NoDup (a_pendingKeyRooms a) ∧ queue_of room a = [].

(** Joining touches the key material only in [setupRoomKey]. *)
Definition refs_of (a : app) : list (jsstr * keyref) * list (jsstr * bytes) * list (jsstr * jsstr) *
    list jsstr * list (jsstr * list json) :=
  (rm_keys (a_rm a), rm_salts (a_rm a), rm_passphrases (a_rm a), a_pendingKeyRooms a, a_pendingMessages a).

Lemma refs_eq a a' : refs_of a = refs_of a' → ∀ room, material room a = material room a' ∧ (tidy room a' → tidy room a).
Proof.
  intros E room. unfold refs_of in E. injection E as E1 E2 E3 E4 E5. unfold material, tidy, queue_of.
  by rewrite E1, E2, E3, E4, E5.
Qed.

Lemma refs_unsubscribe a : refs_of (unsubscribe_all a) = refs_of a.
Proof. unfold unsubscribe_all. by destruct (a_handlers a). Qed.

Lemma refs_finish_join room link first fields a : refs_of (finish_join randomUUID env room link first fields a) = refs_of a.
Proof.
  unfold finish_join. set (b := with_rm (updateRoomState room (with_shareLink link)) (with_page _ a)).
  set (b1 := if first && _ then setupGlobalHandlers env b else b).
  assert (refs_of b1 = refs_of a) as E.
  { unfold b1. destruct (first && _); [|done]. unfold setupGlobalHandlers.
    transitivity (refs_of (unsubscribe_all b)); [done|]. by rewrite refs_unsubscribe. }
  set (b2 := with_page _ b1). change (a_rm b2) with (a_rm b1).
  destruct (match map_get (rm_salts (a_rm b1)) room with Some _ => _ | None => _ end); [|done].
  rewrite <- E. done.
Qed.

(** [setupRoomKey] with a passphrase, for a room that was not opened by a
    link: it awaits the derivation, and then it is over. *)
Lemma setup_passphrase base salt fresh room pp enc (m : room_manager) :
  trim pp ≠ [] → length salt = 32%nat → encodeURIComponent room = Ok enc →
  (∀ c s, map_get (rm_keys m) room ≠ Some (Fragment (c :: s))) →
  ∃ k link, deriveRoomKey room pp (Some salt) = Ok k ∧
    let m1 := set_refs (rm_keys m) (map_set (rm_salts m) room salt) (map_set (rm_passphrases m) room pp) m in
    setup_begin salt fresh room pp m = (m1, SDerive (Ok k)) ∧
    setup_next base room (SDerive (Ok k)) m1 = (set_keys (map_set (rm_keys m) room (Key k)) m1, inr (Ok (k, link))).
Proof.
  intros Hpp Hs He Hf. assert (pp ≠ []) as Hpp' by (intros ->; by apply Hpp).
  destruct (share_link base room []) as [link|e] eqn:El; [|unfold share_link, link_hash in El; by rewrite He in El].
  eexists _, link. split; [by apply deriveRoomKey_Ok|]. unfold setup_begin, setup_next.
  destruct (trim pp) as [|x xs]; [done|]. cbn [str_empty negb]. rewrite deriveRoomKey_Ok by done. rewrite El.
  destruct (map_get (rm_keys m) room) as [[[|c s]|k0]|] eqn:Ek; try done. by destruct (Hf c s).
Qed.

(** What a member says of itself when it joins, besides its salt. *)
Definition join_fields (ttl : Z) (a : app) : list (jsstr * json) :=
  (if str_empty (trim (a_nickname a)) then [] else [(lit "nickname", JStr (trim (a_nickname a)))]) ++
  (if ttl >? 0 then [(lit "ttlSeconds", JNum ttl)] else []).

(** The tasks of a join, when they go on. *)
Lemma resume_setup_task i base room st first fields (b : app) :
  a_tasks b !! i = Some (Some (TSetup base room st first fields)) →
  resume_task randomUUID env i b =
  Some (resume_setup randomUUID env base room st first fields (set_app_tasks (<[i:=None]> (a_tasks b)) b)).
Proof. intros E. unfold resume_task. by rewrite E. Qed.

Lemma resume_join_task i room link sock first fields (b b' : app) :
  a_tasks b !! i = Some (Some (TJoin room link sock first fields)) → settled sock (a_client b) = Some true →
  resume_task randomUUID env i b = Some b' →
  b' = finish_join randomUUID env room link first fields (set_app_tasks (<[i:=None]> (a_tasks b)) b).
Proof.
  intros E Hs. unfold resume_task. rewrite E. set (b0 := set_app_tasks _ b).
  change (a_client b0) with (a_client b). rewrite Hs. by intros [= <-].
Qed.

Lemma resume_setup_ok base room st first fields m k link (b : app) :
  setup_next base room st (a_rm b) = (m, inr (Ok (k, link))) →
  resume_setup randomUUID env base room st first fields b =
  if connected (a_client b) then finish_join randomUUID env room link first fields (with_rm (λ _, m) b)
  else add_task (TJoin room link (length (cl_sockets (a_client b))) first fields) (with_client connect (with_rm (λ _, m) b)).
Proof. intros E. unfold resume_setup. by rewrite E. Qed.

(** A join ends with [finish_join], in a state that has the key material. *)
Lemma joins_shape base salt fresh joinRoom room pp ttl enc a a' :
  joins base salt fresh joinRoom pp ttl a a' → may_join joinRoom room a →
  trim pp ≠ [] → length salt = 32%nat → encodeURIComponent room = Ok enc →
  (∀ c s, map_get (rm_keys (a_rm a)) room ≠ Some (Fragment (c :: s))) → tidy room a →
  ∃ k link first b, deriveRoomKey room pp (Some salt) = Ok k ∧
    a' = finish_join randomUUID env room link first (join_fields ttl a) b ∧
    material room b = (Some (Key k), Some salt, Some pp) ∧ tidy room b.
Proof.
  intros Hj (Ht & Hne & Hl & Hroom) Hpp Hs He Hf Hok.
  destruct (setup_passphrase base salt fresh room pp enc (a_rm a)) as (k & link & Hk & Hset & Hnext); [done..|].
  exists k, link, (match rm_roomsRef (a_rm a) with [] => true | _ => false end).
  set (m1 := set_refs _ _ _ _) in *. set (m := set_keys _ m1) in Hnext.
  assert (∀ b : app, refs_of b = refs_of (with_rm (λ _, m) a) → material room b = (Some (Key k), Some salt, Some pp) ∧ tidy room b) as Hb.
  { intros b E. destruct (refs_eq _ _ E room) as [Hm Ht']. rewrite Hm. split.
    - unfold material. cbn. by rewrite !map_get_set_eq.
    - apply Ht'. destruct Hok as (H1 & H2 & H3 & H4). split_and!; try done. cbn. by apply map_wf_set. }
  revert Hj. unfold joins, handleJoinRoom. rewrite Ht.
  assert (str_empty room = false) as -> by (by destruct room).
  replace (Nat.ltb MAX_ROOM_NAME_LEN (length room)) with false by (symmetry; by apply Nat.ltb_ge).
  replace (Nat.leb _ _ && _) with false; [cbn [orb]|].
  2: { destruct Hroom as [Hlt|Hhas]; [|by rewrite Hhas, andb_false_r].
       by replace (Nat.leb _ _) with false by (symmetry; by apply Nat.leb_gt). }
  cbv zeta. change (a_rm (with_page _ a)) with (a_rm a). rewrite Hset. intros (a1 & Ha1 & Hj).
  set (first := match rm_roomsRef (a_rm a) with [] => true | _ => false end) in *.
  change ((if str_empty _ then _ else _) ++ _) with (join_fields ttl a) in Ha1.
  set (t := TSetup base room (SDerive (Ok k)) first (join_fields ttl a)) in Ha1.
  set (b0 := with_rm (λ _, m1) _) in Ha1.
  assert (a_tasks (add_task t b0) !! length (a_tasks a) = Some (Some t)) as Ht0 by (cbn; by rewrite lookup_app_r, Nat.sub_diag).
  rewrite (resume_setup_task _ _ _ _ _ _ _ Ht0) in Ha1. injection Ha1 as <-.
  set (b1 := set_app_tasks _ (add_task t b0)) in Hj.
  assert (a_tasks b1 = a_tasks a ++ [None]) as Eb1 by (cbn; by rewrite insert_app_r_alt, Nat.sub_diag).
  rewrite (resume_setup_ok base room (SDerive (Ok k)) first (join_fields ttl a) m k link b1 Hnext) in Hj.
  change (a_client b1) with (a_client a) in Hj. destruct (connected (a_client a)).
  - exists (with_rm (λ _, m) b1). split; [done|]. split; [exact Hj|]. by apply Hb.
  - destruct Hj as (c & Hc0 & Hc). set (b2 := with_client (λ _, c) _) in Hc.
    assert (a_tasks b2 !! S (length (a_tasks a)) = Some (Some (TJoin room link (length (cl_sockets (a_client a))) first (join_fields ttl a)))) as Ht2.
    { change (a_tasks b2) with (a_tasks b1 ++ [Some (TJoin room link (length (cl_sockets (a_client a))) first (join_fields ttl a))]).
      rewrite Eb1, lookup_app_r by (rewrite length_app; cbn; lia). by rewrite length_app, Nat.add_1_r, Nat.sub_diag. }
    eexists. split; [done|]. split; [exact (resume_join_task _ _ _ _ _ _ _ _ Ht2 Hc0 Hc)|]. by apply Hb.
Qed.

Lemma joins_material base salt fresh joinRoom room pp ttl enc a a' :
  joins base salt fresh joinRoom pp ttl a a' → may_join joinRoom room a →
  trim pp ≠ [] → length salt = 32%nat → encodeURIComponent room = Ok enc →
  (∀ c s, map_get (rm_keys (a_rm a)) room ≠ Some (Fragment (c :: s))) → tidy room a →
  ∃ k, deriveRoomKey room pp (Some salt) = Ok k ∧ material room a' = (Some (Key k), Some salt, Some pp) ∧ tidy room a'.
Proof.
  intros Hj Hm Hpp Hs He Hf Hok.
  destruct (joins_shape base salt fresh joinRoom room pp ttl enc a a') as (k & link & first & b & Hk & -> & Hb & Ht); [done..|].
  exists k. split; [done|].
  destruct (refs_eq _ _ (refs_finish_join room link first (join_fields ttl a) b) room) as [-> Ht']. split; [done|by apply Ht'].
Qed.

(** ** Hearing the room's salt *)

(** The member's handler on a presence, and the derivation it may start. *)
Definition hears (data : json) (a : app) : option app :=
  a1 ← App.dispatch randomUUID [] data a;
  if Nat.ltb (length (a_tasks a)) (length (a_tasks a1)) then resume_task randomUUID env (length (a_tasks a)) a1 else Some a1.

Lemma on_message_same_salt scope room salt presence data a :
  presence_of room salt presence data → room ≠ [] → map_get (rm_salts (a_rm a)) room = Some salt →
  App.on_message randomUUID scope [] data a = Some (apply_presence room presence a).
Proof.
  intros ((fs & ->) & Ht & Hp & Hr & (b & Hb & Hbne & Hs)) Hne Hsalt.
  unfold App.on_message. rewrite Ht.
  change (on_presence (JObj fs) a = Some (apply_presence room presence a)).
  unfold on_presence. rewrite Hp. destruct presence; try done. rewrite Hr. unfold or_else at 1.
  assert (truthy (Some (JStr room)) = true) as -> by (by destruct room).
  rewrite room_name_str by done. cbn [mbind option_bind]. rewrite Hb.
  assert (truthy (Some (JStr b)) = true) as -> by (by destruct b).
  cbn [as_str mbind option_bind]. by rewrite Hs, decide_True.
Qed.

(** The member has the room's key and goes by the room's salt. *)
Definition agreed (room : jsstr) (salt : bytes) (k : CryptoKey) (a : app) : Prop :=
  map_get (rm_keys (a_rm a)) room = Some (Key k) ∧ map_get (rm_salts (a_rm a)) room = Some salt.

(** The member goes on listening, on the sockets it had. *)
Definition stays (a a' : app) : Prop := a_handlers a' = a_handlers a ∧ cl_sockets (a_client a') = cl_sockets (a_client a).

(** A member that goes by the salt stays with its key. *)
Lemma hears_agreed room salt presence data k a :
  a_handlers a ≠ None → presence_of room salt presence data → room ≠ [] → agreed room salt k a →
  ∃ a', hears data a = Some a' ∧ agreed room salt k a' ∧ stays a a'.
Proof.
  intros Hh Hp Hne [Hk Hs]. destruct (a_handlers a) as [scope|] eqn:Eh; [|done]. unfold hears, App.dispatch. rewrite Eh.
  rewrite (on_message_same_salt scope room salt presence data a) by done. cbn [mbind option_bind].
  pose proof (core_apply_presence room presence a) as Hc.
  apply core_eq in Hc as (C1 & C2 & _ & _ & _ & _ & C7 & C8 & C9).
  rewrite C7, Nat.ltb_irrefl. eexists. split; [done|]. unfold agreed, stays. by rewrite C1, C2, C8, C9.
Qed.

(** One that has a passphrase and a key by it takes the salt over. *)
Lemma hears_key room salt presence data pp k0 salt0 a :
  a_handlers a ≠ None → presence_of room salt presence data → room ≠ [] → length salt = 32%nat → pp ≠ [] →
  material room a = (Some (Key k0), Some salt0, Some pp) → deriveRoomKey room pp (Some salt0) = Ok k0 → tidy room a →
  ∃ k a', deriveRoomKey room pp (Some salt) = Ok k ∧ hears data a = Some a' ∧ agreed room salt k a' ∧ stays a a'.
Proof.
  intros Hh Hp Hne Hs Hpp Hm Hk0 (T1 & T2 & T3 & T4). unfold material in Hm. injection Hm as M1 M2 M3.
  destruct (decide (salt0 = salt)) as [->|Hd]; [exists k0; edestruct hears_agreed as (a' & ? & ? & ?); eauto; by split|].
  destruct (a_handlers a) as [scope|] eqn:Eh; [|done]. unfold hears, App.dispatch. rewrite Eh.
  destruct pp as [|c pp]; [done|]. rewrite (on_message_rekey randomUUID scope room salt presence data c pp a)
    by (done || (rewrite M2; congruence)).
  cbn [mbind option_bind].
  destruct (deriveRoomKey room (c :: pp) (Some salt)) as [k|e] eqn:Ek; [|by rewrite deriveRoomKey_Ok in Ek].
  set (a0 := start_derive room presence (c :: pp) salt a).
  assert (a_tasks a0 = a_tasks a ++ [Some (TDerive room presence (Ok k))]) as Ht
    by (rewrite <- Ek; reflexivity).
  assert (Nat.ltb (length (a_tasks a)) (length (a_tasks a0)) = true) as -> by (rewrite Ht, length_app; apply Nat.ltb_lt; cbn [length]; lia).
  unfold resume_task. rewrite Ht, lookup_app_r, Nat.sub_diag by done. cbn [lookup list_lookup].
  set (b := set_app_tasks _ a0).
  assert (queue_of room b = []) as Hq by exact T4.
  destruct (finish_derive_spec randomUUID scope room presence k b) as (a2 & H2 & K1 & K2 & _ & _ & _ & _ & K3 & K4);
    [exact Eh|exact Hne|rewrite Hq; constructor|exact T1|exact T2|exact (set_add_NoDup _ _ T3)|].
  exists k, a2. split; [reflexivity|]. split; [exact H2|]. split; [split; [by rewrite K1, map_get_set_eq|]|].
  - rewrite K2. apply map_get_set_eq.
  - split; [by rewrite K3|by rewrite K4].
Qed.
End Agreement.

Section Properties.
Context `{!WebCrypto} `{!WebCryptoLaws} (randomUUID : nat → jsstr) (env : option Z).

(** Two members who know one passphrase can talk. Each joins with a salt
    of its own; once both have heard the room's salt, whichever of the two or
    none of them it is, both hold the key derived from the passphrase and that
    salt, and what one encrypts the other decrypts. *)
Theorem passphrase_agreement base saltA saltB saltR keyA keyB nameA nameB room pp enc ttlA ttlB presence data
    (a a1 b b1 : app) :
  (* joining *)
  encodeURIComponent room = Ok enc → trim pp ≠ [] → length saltA = 32%nat → length saltB = 32%nat →
  may_join nameA room a → may_join nameB room b → tidy room a → tidy room b →
  (∀ c s, map_get (rm_keys (a_rm a)) room ≠ Some (Fragment (c :: s))) →
  (∀ c s, map_get (rm_keys (a_rm b)) room ≠ Some (Fragment (c :: s))) →
  joins randomUUID env base saltA keyA nameA pp ttlA a a1 → joins randomUUID env base saltB keyB nameB pp ttlB b b1 →
  (* the announcement, and the members' handlers *)
  presence_of room saltR presence data → length saltR = 32%nat → a_handlers a1 ≠ None → a_handlers b1 ≠ None →
  ∃ k a2 b2, deriveRoomKey room pp (Some saltR) = Ok k ∧
    hears randomUUID env data a1 = Some a2 ∧ hears randomUUID env data b1 = Some b2 ∧
    map_get (rm_keys (a_rm a2)) room = Some (Key k) ∧ map_get (rm_keys (a_rm b2)) room = Some (Key k) ∧
    ∀ iv text, iv_ok iv → plain_text text →
      ∃ ct, encrypt (Some k) iv text = Ok ct ∧ chat_decrypt room (Some ct) b2 = Ok text.
Proof.
  intros He Hpp HsA HsB HmA HmB HtA HtB HfA HfB HjA HjB Hp Hs HhA HhB.
  assert (pp ≠ []) as Hpp' by (intros ->; by apply Hpp). assert (room ≠ []) as Hne by apply HmA.
  destruct (joins_material randomUUID env base saltA keyA nameA room pp ttlA enc a a1) as (kA & EA & MA & TA); [done..|].
  destruct (joins_material randomUUID env base saltB keyB nameB room pp ttlB enc b b1) as (kB & EB & MB & TB); [done..|].
  destruct (hears_key randomUUID env room saltR presence data pp kA saltA a1) as (k & a2 & Ek & Ha & [Ka _] & _); [done..|].
  destruct (hears_key randomUUID env room saltR presence data pp kB saltB b1) as (k' & b2 & Ek' & Hb & [Kb _] & _); [done..|].
  rewrite Ek in Ek'. injection Ek' as <-. exists k, a2, b2. split_and!; [done..|]. intros iv text Hiv Htext.
  destruct (decrypt_encrypt k iv text Hiv Htext) as (ct & Hc & Hd). exists ct. split; [done|].
  unfold chat_decrypt. by rewrite Kb.
Qed.
End Properties.

Module KeysExamples.
Import Toy AppExamples.

(** A member pressed the button; the key is derived, the socket opens, and the
    call goes on. *)
Definition pressed (name : jsstr) (s : Z) : app := handleJoinRoom base (salt s) k1 room (lit "pass") 0 (new_app name 0).
Definition derived (name : jsstr) (s : Z) : app := default (new_app name 0) (resume_task uuid None 0 (pressed name s)).
Definition online (name : jsstr) (s : Z) : client :=
  default (new_client 0) (cl_exec uuid (a_client (derived name s)) (COpen 0)).
Abbreviation going_on name s := (resume_task uuid None 1 (with_client (λ _, online name s) (derived name s))).

Definition announcement (b : Z) : json := message_of "presence" (JStr (JSON_stringify (presence b))).

Lemma announcement_ok : presence_of room (salt 1) (presence 1) (announcement 1).
Proof.
  split_and!; [by eexists|vm_refl|vm_refl|vm_refl|].
  exists (b64_encode (salt 1)). split_and!; [vm_refl|discriminate|vm_refl].
Qed.

Lemma may_join_new name : may_join room room (new_app name 0).
Proof. split_and!; [vm_refl|discriminate|vm_compute; lia|left; vm_compute; lia]. Qed.

Lemma tidy_new name : tidy room (new_app name 0).
Proof. split_and!; constructor. Qed.

Lemma goes_on_joins name s a :
  going_on name s = Some a → is_some (resume_task uuid None 0 (pressed name s)) = true →
  connected (a_client (new_app name 0)) = false → settled 0 (online name s) = Some true →
  joins uuid None base (salt s) k1 room (lit "pass") 0 (new_app name 0) a.
Proof.
  intros Ha Hp E Hs. unfold joins. exists (derived name s). split.
  - unfold derived. fold (pressed name s). by destruct (resume_task uuid None _ (pressed name s)).
  - rewrite E. exists (online name s). split; [exact Hs|exact Ha].
Qed.

Lemma going_on_handlers o : (is_some <$> (a_handlers <$> o)) = Some true → ∃ a : app, o = Some a ∧ a_handlers a ≠ None.
Proof. destruct o as [a|]; [|done]. cbn. intros E. exists a. split; [done|]. intros Eh. by rewrite Eh in E. Qed.

Lemma alice_goes_on : ∃ a, going_on (lit "alice") 1 = Some a ∧ a_handlers a ≠ None.
Proof. apply going_on_handlers. vm_refl. Qed.
Lemma bob_goes_on : ∃ b, going_on (lit "bob") 2 = Some b ∧ a_handlers b ≠ None.
Proof. apply going_on_handlers. vm_refl. Qed.

Lemma passphrase_agreement_witness :
  ∃ a1 b1 k a2 b2, going_on (lit "alice") 1 = Some a1 ∧ going_on (lit "bob") 2 = Some b1 ∧
    hears uuid None (announcement 1) a1 = Some a2 ∧ hears uuid None (announcement 1) b1 = Some b2 ∧
    map_get (rm_keys (a_rm a2)) room = Some (Key k) ∧ map_get (rm_keys (a_rm b2)) room = Some (Key k).
Proof.
  destruct alice_goes_on as (a1 & Ea & HA), bob_goes_on as (b1 & Eb & HB).
  destruct (passphrase_agreement uuid None base (salt 1) (salt 2) (salt 1) k1 k1 room room room (lit "pass") room 0 0
    (presence 1) (announcement 1) (new_app (lit "alice") 0) a1 (new_app (lit "bob") 0) b1)
    as (k & a2 & b2 & _ & H1 & H2 & H3 & H4 & _);
    [vm_refl|discriminate|reflexivity|reflexivity|apply may_join_new|apply may_join_new|apply tidy_new|apply tidy_new
    |intros c s E; discriminate E|intros c s E; discriminate E|apply goes_on_joins; [exact Ea|vm_refl|reflexivity|vm_refl]|apply goes_on_joins; [exact Eb|vm_refl|reflexivity|vm_refl]
    |apply announcement_ok|reflexivity|exact HA|exact HB|].
  exists a1, b1, k, a2, b2. split_and!; [exact Ea|exact Eb|exact H1|exact H2|exact H3|exact H4].
Defined.
End KeysExamples.
