(* ===== verification/AppSafety.v ===== *)
(** * What a room can hold

    The messages and the state of every room in every run of App.v, as far as
    showing them goes: what a peer sends is text, the names and the count come
    from the gateway, and a file's address is one the platform gave. The
    gateway speaks its protocol; a peer on a data channel can put anything
    into a message, and the ids it must not put there are the hypothesis. *)

From S2P Require Import Prelude JsLib Base64 Text Json Crypto Uri Timers KeyRotator Mime MediaSend MediaAssembler.
From S2P Require Import Client Rooms Typing WebRTC MeshHook CallManager Dom ChatView AppState App AppFacts.

Local Open Scope Z_scope.

#[local] Arguments lit : simpl never.

Section Safety.
Context `{WebCrypto} (randomUUID : nat → jsstr) (twice_error : jsstr) (env : option Z).

(** The addresses the platform gives. *)
Context (given : jsstr → Prop).

(** ** Values that can be shown *)

Definition names_ok (v : json) : Prop := ∃ fs, v = JObj fs ∧ Forall (λ f, ∃ s, f.2 = JStr s) fs.
Definition count_ok (v : json) : Prop := ∃ n, v = JNum n.
Definition shows_ok (v : option json) : Prop := truthy v = true → showable (default JNull v) = true.

Definition msg_ok (msg : ui_message) : Prop :=
  shows_ok (um_senderNickname msg) ∧ ∀ m, um_media msg = Some m → given (mr_url m).

Definition room_ok (st : room_state) : Prop :=
  count_ok (rs_peerCount st) ∧ names_ok (rs_peerNicknames st) ∧ Forall msg_ok (rs_messages st) ∧
  (rs_qrDataURL st = [] ∨ given (rs_qrDataURL st)).

Definition rooms_ok (rooms : list (jsstr * room_state)) : Prop := Forall (λ x, room_ok x.2) rooms.

(** ** What comes in *)

(** The sender's id: missing, or a string that is no property of every object. *)
Definition id_ok (data : json) : Prop :=
  match json_get data (lit "id") with
  | None => True
  | Some (JStr s) => s ≠ lit "__proto__"
  | Some _ => False
  end.

Definition presence_ok (p : json) : Prop :=
  (∀ v, json_get p (lit "count") = Some v → truthy (Some v) = true → count_ok v) ∧
  (∀ v, json_get p (lit "peers") = Some v → truthy (Some v) = true → names_ok v).

Definition message_ok (data : json) : Prop :=
  id_ok data ∧ ∀ p, payload_value (json_get data (lit "payload")) = Ok (Some p) → presence_ok p.

Definition label_ok (l : app_label) : Prop :=
  match l with
  | AFile url _ _ | ACanvas url _ _ => given url
  | AQR _ url => url = [] ∨ given url
  | AReceive _ text url => given url ∧ match JSON_parse text with Ok v => message_ok v | Throw _ => True end
  | AP2P room d url => given url ∧ match mesh_event room d with Ok v => id_ok v | Throw _ => True end
  | _ => True
  end.

(** ** The invariant *)

Definition task_ok (t : option app_task) : Prop :=
  match t with
  | Some (TDerive _ presence _) => presence_ok presence
  | Some (TChat data _ _ _) => id_ok data
  | Some (TBlob _ _ url _ _) => given url
  | Some (TRead u) | Some (TChunk u _ _) | Some (TPause u _ _ _) => given (up_url u)
  | _ => True
  end.

Definition queued_ok (data : json) : Prop := id_ok data ∧ is_str (json_get data (lit "type")) (lit "chat") = true.

Record safe (a : app) : Prop := Safe {
  s_rooms : rooms_ok (rm_rooms (a_rm a));
  s_ref : rooms_ok (rm_roomsRef (a_rm a));
  s_names : names_ok (a_peerNicknames a);
  s_tasks : Forall task_ok (a_tasks a);
  s_queued : Forall (λ x, Forall queued_ok x.2) (a_pendingMessages a)
}.

Lemma default_room_ok : room_ok defaultRoomState.
Proof. split_and!; [by eexists|by exists []|constructor|by left]. Qed.

Lemma room_ok_get rooms room st : rooms_ok rooms → map_get rooms room = Some st → room_ok st.
Proof. unfold rooms_ok. rewrite Forall_forall. intros Hr Hst%map_get_Some_elem. by apply (Hr _ Hst). Qed.

Lemma getRoomState_ok room (m : room_manager) : rooms_ok (rm_rooms m) → room_ok (getRoomState room m).
Proof.
  intros Hr. unfold getRoomState. destruct (map_get (rm_rooms m) room) as [st|] eqn:E; [|apply default_room_ok].
  by eapply room_ok_get.
Qed.

(** ** The room manager *)

(** An operation that keeps the rooms in order, and the mirror as it is. *)
Definition keeps (f : room_manager → room_manager) : Prop :=
  ∀ m, rooms_ok (rm_rooms m) → rooms_ok (rm_rooms (f m)) ∧ rm_roomsRef (f m) = rm_roomsRef m.

Lemma keeps_update room f : (∀ st, room_ok st → room_ok (f st)) → keeps (updateRoomState room f).
Proof. intros Hf m Hm. split; [|done]. apply Forall_map_set; [done|by apply Hf, getRoomState_ok|done]. Qed.

Lemma keeps_frame f : (∀ m, rm_rooms (f m) = rm_rooms m ∧ rm_roomsRef (f m) = rm_roomsRef m) → keeps f.
Proof. intros Hf m Hm. by destruct (Hf m) as [-> ->]. Qed.

Lemma keeps_trans f g : keeps f → keeps g → keeps (λ m, g (f m)).
Proof. intros Hf Hg m Hm. destruct (Hf m Hm) as [H1 E1]. destruct (Hg (f m) H1) as [H2 E2]. split; [done|congruence]. Qed.

Lemma keeps_append room msg : msg_ok msg → keeps (appendMessageToRoom room msg).
Proof.
  intros Hmsg m Hm. unfold appendMessageToRoom. destruct (map_get (rm_rooms m) room) as [st|] eqn:E; [|done].
  set (m1 := if Nat.ltb _ _ then revoke _ m else m).
  assert (rm_rooms m1 = rm_rooms m ∧ rm_roomsRef m1 = rm_roomsRef m) as [E1 E2] by (unfold m1; by destruct (Nat.ltb _ _)).
  clearbody m1. cbn [rm_rooms rm_roomsRef set_rooms]. rewrite E1, E2. split; [|done]. apply Forall_map_set; [done| |done].
  destruct (room_ok_get _ _ _ Hm E) as (H1 & H2 & H3 & H4).
  assert (Forall msg_ok (rs_messages st ++ [msg])) as Hall by (apply Forall_snoc; done).
  split_and!; try done. cbn [snd rs_messages set_messages]. destruct (Nat.ltb _ _); [by apply Forall_drop|done].
Qed.

Lemma keeps_remove room : keeps (removeRoom room).
Proof.
  intros m Hm. unfold removeRoom. cbn [rm_rooms set_refs]. destruct (map_get (rm_rooms m) room); split; try done;
    by apply Forall_map_delete.
Qed.

Lemma keeps_receipt id status room : keeps (record_receipt id status room).
Proof.
  intros m Hm. unfold record_receipt. destruct (map_get (rm_rooms m) room) as [st|] eqn:E; [|done].
  destruct (is_str _ _); [done|]. split; [|done]. apply Forall_map_set; [done| |done]. exact (room_ok_get _ _ _ Hm E).
Qed.

Lemma keeps_presence room p : presence_ok p → keeps (update_known room (with_presence p)).
Proof.
  intros [Hc Hp] m Hm. unfold update_known. destruct (map_get (rm_rooms m) room) as [st|] eqn:E; [|done].
  split; [|done]. apply Forall_map_set; [done| |done]. destruct (room_ok_get _ _ _ Hm E) as (H1 & H2 & H3 & H4).
  split_and!; [| |done|done]; cbn; unfold or_else.
  - destruct (truthy (json_get p (lit "count"))) eqn:Et; [|by eexists].
    destruct (json_get p (lit "count")) as [v|] eqn:Ev; [by apply Hc|done].
  - destruct (truthy (json_get p (lit "peers"))) eqn:Et; [|done].
    destruct (json_get p (lit "peers")) as [v|] eqn:Ev; [by apply Hp|done].
Qed.

Lemma keeps_setup salt key room pp (m : room_manager) :
  rooms_ok (rm_rooms m) →
  let m' := (setup_begin salt key room pp m).1 in rm_rooms m' = rm_rooms m ∧ rm_roomsRef m' = rm_roomsRef m.
Proof.
  intros _. unfold setup_begin. repeat case_match; simplify_eq/=; done.
Qed.

Lemma keeps_setup_next base room st (m : room_manager) :
  let m' := (setup_next base room st m).1 in rm_rooms m' = rm_rooms m ∧ rm_roomsRef m' = rm_roomsRef m.
Proof. unfold setup_next. repeat case_match; simplify_eq/=; done. Qed.

(** ** The application *)

Lemma safe_rm f a : keeps f → safe a → safe (with_rm f a).
Proof.
  intros Hf [H1 H2 H3 H4 H5]. destruct (Hf (a_rm a) H1) as [K1 K2]. split; cbn; try done. by rewrite K2.
Qed.

Lemma safe_frame a a' :
  rm_rooms (a_rm a') = rm_rooms (a_rm a) → rm_roomsRef (a_rm a') = rm_roomsRef (a_rm a) →
  a_peerNicknames a' = a_peerNicknames a → a_tasks a' = a_tasks a → a_pendingMessages a' = a_pendingMessages a →
  safe a → safe a'.
Proof. intros E1 E2 E3 E4 E5 [H1 H2 H3 H4 H5]. split; by rewrite ?E1, ?E2, ?E3, ?E4, ?E5. Qed.

Lemma safe_add_task t a : task_ok (Some t) → safe a → safe (add_task t a).
Proof. intros Ht [H1 H2 H3 H4 H5]. split; try done. cbn. by apply Forall_snoc. Qed.

Lemma safe_append_fresh room mk a : (∀ id, msg_ok (mk id)) → safe a → safe (append_fresh randomUUID room mk a).
Proof.
  intros Hm Ha. unfold append_fresh. apply safe_rm; [by apply keeps_append|]. by apply (safe_frame a).
Qed.

Lemma safe_updates (l : list (jsstr * bool)) a : safe a →
  safe (with_rm (λ m, fold_left (λ m x, updateRoomState x.1 (with_p2p x.2) m) l m) a).
Proof.
  apply safe_rm. induction l as [|x l IH]; [by intros m Hm|]. intros m Hm. cbn.
  destruct (keeps_update x.1 (with_p2p x.2)) with (m := m) as [H1 E1]; [done..|].
  destruct (IH _ H1) as [H2 E2]. split; [done|]. by rewrite E2.
Qed.

Lemma safe_on_mesh f a : safe a → safe (on_mesh f a).
Proof. intros Ha. unfold on_mesh. apply safe_updates. by apply (safe_frame a). Qed.

(** A step that leaves the rooms, the names, the tasks and the queue alone. *)
Ltac frame a := apply (safe_frame a); [reflexivity..|].

Lemma safe_send type room payload mid a : safe a → safe (client_send randomUUID type room payload mid a).
Proof. intros Ha. by frame a. Qed.

Lemma safe_send_typing b a : safe a → safe (send_typing randomUUID b a).
Proof.
  intros Ha. unfold send_typing. destruct (str_empty _); [done|]. destruct (sendTypingIndicator _ _ _) as [[p|] t]; by frame a.
Qed.

Lemma safe_apply_presence room p a : presence_ok p → safe a → safe (apply_presence room p a).
Proof.
  intros Hp Ha. unfold apply_presence. apply safe_on_mesh.
  assert (safe (with_rm (update_known room (with_presence p)) a)) as Hs by (by apply safe_rm; [apply keeps_presence|]).
  case_bool_decide; cbn [andb]; [|done]. destruct (truthy (json_get p (lit "peers"))) eqn:Et; [|done].
  destruct Hs as [H1 H2 H3 H4 H5]. split; try done. cbn [a_peerNicknames set_nicknames].
  destruct (json_get p (lit "peers")) as [v|] eqn:Ev; [|done]. by apply Hp.
Qed.

Lemma safe_on_presence d a a' : message_ok d → safe a → on_presence d a = Some a' → safe a'.
Proof.
  intros [_ Hd] Ha. unfold on_presence. destruct (payload_value _) as [[p|]|] eqn:Ep; [|by intros [= <-]..].
  specialize (Hd p eq_refl).
  assert (∀ room pp salt, safe (start_derive room p pp salt a)) as Hder.
  { intros room pp salt. unfold start_derive. apply safe_add_task; [done|]. apply safe_rm; [by apply keeps_frame|]. by frame a. }
  assert (∀ room, safe (apply_presence room p a)) as Hap by (intros; by apply safe_apply_presence).
  destruct p; [by intros [= <-]|..]; intros (room & _ & E)%bind_Some; (destruct room as [room|]; [|by injection E as <-]);
    (destruct (truthy (json_get _ (lit "salt"))); [|injection E as <-; apply Hap]);
    apply bind_Some in E as (salt & _ & [= <-]); (destruct (base64ToUint8 salt); [|done]);
    (case_decide; [apply Hap|]);
    destruct (map_get (rm_passphrases _) _) as [[|c pp]|]; first [apply Hap|apply Hder].
Qed.

Lemma safe_chat_task d room r b a : id_ok d → safe a → safe (add_task (TChat d room r b) a).
Proof. intros Hd. by apply safe_add_task. Qed.

Lemma safe_on_chat d a a' :
  id_ok d → is_str (json_get d (lit "type")) (lit "chat") = true → safe a → on_chat d a = Some a' → safe a'.
Proof.
  intros Hd Ht Ha. unfold on_chat. intros (room & _ & (_ & _ & [= <-])%bind_Some)%bind_Some.
  destruct room as [room|]; [|done]. destruct (set_has _ _); [|by apply safe_chat_task].
  destruct Ha as [H1 H2 H3 H4 H5]. split; try done. cbn [a_pendingMessages set_pendingKeys].
  apply Forall_map_set; [done| |done]. cbn [snd]. apply Forall_snoc; [|by split].
  destruct (map_get (a_pendingMessages a) room) as [q|] eqn:E; [|constructor]. apply map_get_Some_elem in E.
  rewrite Forall_forall in H5. by apply (H5 _ E).
Qed.

Lemma safe_media scope url p a : given url → safe a → safe (handleMediaChunk randomUUID scope url p a).
Proof.
  intros Hu Ha. unfold handleMediaChunk. destruct (a_assembler a); [|done]. destruct (handleChunk _ _ _) as [asm r].
  set (a1 := with_page _ _). assert (safe a1) as H1 by (by frame a). clearbody a1.
  assert (∀ t b id, msg_ok (media_text b t id)) as Ht by (intros; by split).
  destruct r as [[]|]; try done; apply safe_append_fresh; try done. intros id. split; [done|]. by intros m [= <-].
Qed.

Lemma safe_end_call a : safe a → safe (end_call randomUUID a).
Proof. intros Ha. unfold end_call. destruct (endCall _ _ _ _ _) as [[m c] h]. by frame a. Qed.

Lemma safe_on_message scope url d a a' :
  given url → message_ok d → safe a → App.on_message randomUUID scope url d a = Some a' → safe a'.
Proof.
  intros Hu Hd Ha E. unfold App.on_message in E. destruct d as [| | | | |fs]; try (by injection E as <-).
  set (d := JObj fs) in *. repeat match type of E with (if ?b then _ else _) = _ => destruct b eqn:?; [|] end.
  - by eapply safe_on_presence.
  - unfold on_signal in E. apply bind_Some in E as (room & _ & (h & _ & [= <-])%bind_Some). by apply safe_on_mesh.
  - unfold on_typing in E. destruct (is_str _ (activeRoom a)); [|by injection E as <-].
    apply bind_Some in E as (t & _ & [= <-]). by frame a.
  - unfold on_receipt in E. destruct (payload_value _) as [[p|]|]; [|by injection E as <-..].
    destruct p; [by injection E as <-|..]; apply bind_Some in E as (room & _ & E);
      (destruct room as [room|]; [|by injection E as <-]); (destruct (_ && _) in E; [|by injection E as <-]);
      apply bind_Some in E as (id & _ & [= <-]); (apply safe_rm; [apply keeps_receipt|done]).
  - by eapply safe_on_chat; [apply Hd|..].
  - unfold on_key_rotation in E. apply bind_Some in E as (room & _ & [= <-]). destruct room as [room|]; [|done].
    case_bool_decide; [by apply safe_add_task|]. repeat case_match; try done; by apply safe_add_task.
  - injection E as <-. by apply safe_media.
  - unfold on_call_offer in E. apply bind_Some in E as (room & _ & [= <-]). destruct room; [|done].
    destruct (cs_active _); [done|]. by frame a.
  - injection E as <-. by apply safe_end_call.
  - by injection E as <-.
Qed.

Lemma safe_dispatch url d a a' :
  given url → message_ok d → safe a → App.dispatch randomUUID url d a = Some a' → safe a'.
Proof.
  intros Hu Hd Ha. unfold App.dispatch. destruct (a_handlers a); [by apply safe_on_message|by intros [= <-]].
Qed.

Lemma safe_emit_queued ds a a' : Forall queued_ok ds → safe a → emit_queued randomUUID ds a = Some a' → safe a'.
Proof.
  intros Hds. revert a. induction Hds as [|d ds [Hi Ht] _ IH]; intros a Ha; cbn [emit_queued]; [by intros [= <-]|].
  intros (a1 & E & Hr)%bind_Some. eapply IH; [|exact Hr]. revert E. unfold App.dispatch. set (a0 := with_client _ a).
  assert (safe a0) as H0 by (by frame a). destruct (a_handlers a0); [|by intros [= <-]]. unfold App.on_message.
  apply is_str_true in Ht as Et. destruct d as [| | | | |fs]; try (by intros [= <-]). rewrite Et. by apply safe_on_chat.
Qed.

(** The name a message is shown with, when its id is none of the forbidden. *)
Lemma sender_ok nicknames data name :
  names_ok nicknames → id_ok data → sender_nickname nicknames (json_get data (lit "id")) = Ok name → shows_ok name.
Proof.
  intros (fs & -> & Hfs) Hid. unfold sender_nickname, id_ok in *.
  assert (∀ key, key ≠ lit "__proto__" → shows_ok (read_key (JObj fs) key)) as Hread.
  { intros key Hk. unfold read_key. destruct (map_get fs key) as [v|] eqn:E.
    - apply map_get_Some_elem in E. rewrite Forall_forall in Hfs. destruct (Hfs _ E) as [s Hs]. cbn in Hs. subst v.
      intros _. by eexists.
    - rewrite bool_decide_false by done. destruct (set_has _ _); [|done]. done. }
  destruct (json_get data (lit "id")) as [[| | |s| |]|]; try done; cbn [mbind result_bind js_String];
    (destruct (truthy (read_key (JObj fs) _)); intros [= <-]; [apply Hread; done|intros _; by eexists]).
Qed.

Lemma safe_finish_chat d room r b a : id_ok d → safe a → safe (finish_chat randomUUID d room r b a).
Proof.
  intros Hd Ha. unfold finish_chat. destruct (match json_get d (lit "msgId") with Some _ => _ | None => _ end) as [msgId a1] eqn:E.
  assert (safe a1) as H1.
  { revert E. destruct (json_get d (lit "msgId")) as [[| | |[|c s]| |]|]; intros [= <- <-]; first [exact Ha|by frame a]. }
  clear E Ha.
  destruct (sender_nickname _ _) as [name|] eqn:En; [|done].
  assert (names_ok (nicknames_of room a1)) as Hn.
  { unfold nicknames_of. destruct (map_get (rm_roomsRef (a_rm a1)) room) as [st|] eqn:Es; [|apply H1].
    by apply (room_ok_get _ _ _ (s_ref _ H1) Es). }
  eapply sender_ok in En; [|done|done].
  set (a2 := with_rm _ a1). assert (safe a2) as H2 by (apply safe_rm; [apply keeps_append; split; [exact En|done]|done]).
  destruct b; [done|by frame a2].
Qed.

Lemma safe_finish_derive room p r a a' : presence_ok p → safe a → finish_derive randomUUID room p r a = Some a' → safe a'.
Proof.
  intros Hp Ha. unfold finish_derive. destruct r as [key|]; [|by intros [= <-]].
  set (a1 := with_rm _ a). set (a2 := if bool_decide _ then _ else a1). set (a3 := with_rm _ a2). set (a4 := set_pendingKeys _ _ a3).
  assert (safe a4) as H4 by (unfold a4, a3, a2; case_bool_decide; by frame a). clearbody a4. clear a1 a2 a3.
  intros (b & Hb & [= <-])%bind_Some. apply safe_apply_presence; [done|].
  destruct (map_get (a_pendingMessages a4) room) as [[|q qs]|] eqn:Eq; try (by injection Hb as <-).
  apply map_get_Some_elem in Eq. pose proof (s_queued _ H4) as Hq. rewrite Forall_forall in Hq.
  eapply safe_emit_queued; [by apply (Hq _ Eq)| |exact Hb].
  destruct H4 as [K1 K2 K3 K4 K5]. split; try done. cbn. by apply Forall_map_delete.
Qed.

Lemma safe_on_p2p scope url d a a' : given url → id_ok d → safe a → on_p2p randomUUID scope url d a = Some a' → safe a'.
Proof.
  intros Hu Hd Ha. unfold on_p2p. intros (room & _ & (_ & _ & [= <-])%bind_Some)%bind_Some.
  destruct (is_str _ _); [by apply safe_add_task|]. destruct (is_str _ _); [by apply safe_media|done].
Qed.

Lemma safe_finish_join room link first fields a : safe a → safe (finish_join randomUUID env room link first fields a).
Proof.
  intros Ha. unfold finish_join. set (a1 := with_rm _ (with_page _ a)). set (a2 := if first && _ then _ else a1).
  assert (safe a1) as H1 by (apply safe_rm; [apply keeps_update; intros st Hst; exact Hst|by frame a]).
  assert (safe a2) as H2.
  { unfold a2. destruct (first && _); [|done]. unfold setupGlobalHandlers, unsubscribe_all. destruct (a_handlers a1); by frame a1. }
  clearbody a2. set (a3 := with_page _ a2). assert (safe a3) as H3 by (by frame a2).
  destruct (match map_get (rm_salts (a_rm a3)) room with Some _ => _ | None => _ end); by frame a3.
Qed.

Lemma safe_join base salt key room pp ttl a : safe a → safe (handleJoinRoom base salt key room pp ttl a).
Proof.
  intros Ha. unfold handleJoinRoom. destruct (_ || _); [done|]. destruct (_ && _); [done|].
  set (a0 := with_page _ a). assert (safe a0) as H0 by (by frame a).
  pose proof (keeps_setup salt key (trim room) pp (a_rm a0) (s_rooms _ H0)) as Hk.
  destruct (setup_begin salt key (trim room) pp (a_rm a0)) as [m st]. cbn in Hk. destruct Hk as [E1 E2].
  set (a1 := with_rm _ a0). assert (safe a1) as H1 by (by apply (safe_frame a0)). by apply safe_add_task.
Qed.

Lemma safe_setup base room st first fields a : safe a → safe (resume_setup randomUUID env base room st first fields a).
Proof.
  intros Ha. unfold resume_setup. pose proof (keeps_setup_next base room st (a_rm a)) as Hk.
  destruct (setup_next _ _ _ _) as [m next]. cbn in Hk. destruct Hk as [E1 E2].
  set (a1 := with_rm _ a). assert (safe a1) as H1 by (by apply (safe_frame a)). clearbody a1.
  destruct next as [st'|r]; [by apply safe_add_task|]. unfold setup_settled.
  destruct r as [[k link]|]; [|by frame a1]. destruct (connected _); [by apply safe_finish_join|].
  apply safe_add_task; [done|by frame a1].
Qed.

Lemma safe_sendMessage iv a : safe a → safe (sendMessage randomUUID iv a).
Proof.
  intros Ha. unfold sendMessage. destruct (map_get _ _) as [s|]; [|done]. destruct (str_empty _); [done|].
  apply (safe_send_typing false) in Ha. destruct (map_get (rm_keys _) _) as [[[|]|]|]; try done; by apply safe_add_task.
Qed.

Lemma safe_finish_send room input r a : safe a → safe (finish_send randomUUID room input r a).
Proof.
  intros Ha. unfold finish_send. destruct r as [ct|]; [|apply safe_append_fresh; [by split|done]].
  set (a1 := with_client _ a). assert (safe a1) as H1 by (by frame a).
  destruct (send_p2p randomUUID room (next_uuid randomUUID a) ct a1) as [sent a2] eqn:E.
  assert (safe a2) as H2.
  { revert E. unfold send_p2p. destruct (room_mesh room (a_mesh a1) ≫= _) as [conn|]; [|by intros [= <- <-]].
    set (a1' := with_client _ a1). destruct (WebRTC.send _ _). intros [= <- <-]. by frame a1'; frame a1. }
  set (step := if sent then (true, a2) else _). destruct step as [sent' a3] eqn:E3.
  assert (safe a3) as H3.
  { unfold step in E3. destruct sent; [by injection E3 as <- <-|]. destruct (Client.send _ _ _ _ _ _). injection E3 as <- <-. by frame a2. }
  apply safe_rm; [apply keeps_update; intros st Hst; exact Hst|]. apply safe_rm; [|done].
  apply keeps_append. split; [|done]. unfold shows_ok. cbn. destruct (str_empty (a_nickname a3)); [done|]. intros _. by eexists.
Qed.

(** Uploads: the address is the platform's all along. *)
Lemma safe_fail canvas room e a : safe a → safe (fail_upload randomUUID canvas room e a).
Proof. intros Ha. apply safe_append_fresh; [by split|]. by frame a. Qed.

Lemma safe_finish_upload u a : given (up_url u) → safe a → safe (finish_upload randomUUID u a).
Proof. intros Hu Ha. apply safe_append_fresh; [|by frame a]. intros id. split; [done|]. by intros m [= <-]. Qed.

Lemma safe_start_upload u a : given (up_url u) → safe a → safe (start_upload randomUUID u a).
Proof. intros Hu Ha. unfold start_upload. destruct (_ >? _); [by apply safe_fail|by apply safe_add_task]. Qed.

Lemma safe_file room url f ivs a : given url → safe a → safe (handleFileSelect randomUUID room url f ivs a).
Proof. intros Hu Ha. apply safe_start_upload; [done|by frame a]. Qed.

Lemma safe_canvas room url b ivs a : given url → safe a → safe (handleCanvasShare room url b ivs a).
Proof. intros Hu Ha. apply safe_add_task; [done|by frame a]. Qed.

Lemma safe_blob room key url b ivs a : given url → safe a → safe (canvas_blob randomUUID room key url b ivs a).
Proof. intros Hu Ha. unfold canvas_blob. destruct b; [by apply safe_start_upload|by apply safe_fail]. Qed.

Lemma safe_read u a : given (up_url u) → safe a → safe (upload_read randomUUID u a).
Proof.
  intros Hu Ha. unfold upload_read. destruct (_ >? _); [apply safe_add_task|apply safe_finish_upload]; try done; by frame a.
Qed.

Lemma safe_chunk u id seq a : given (up_url u) → safe a → safe (upload_chunk randomUUID u id seq a).
Proof.
  intros Hu Ha. unfold upload_chunk. destruct (up_payload _ _ _); [|by apply safe_fail].
  destruct (_ <? _); [apply safe_add_task|apply safe_finish_upload]; try done; by frame a.
Qed.

Lemma safe_leave room a : safe a → safe (leaveRoom randomUUID room a).
Proof.
  intros Ha. unfold leaveRoom. set (a1 := client_send _ _ _ _ _ a). set (a2 := on_mesh _ a1). set (a3 := with_rm _ a2).
  assert (safe a3) as H3 by (apply safe_rm; [apply keeps_remove|]; apply safe_on_mesh; by frame a).
  case_bool_decide; [|done]. destruct (filter _ _); [|by frame a3].
  set (a4 := with_client _ _). assert (safe a4) as H4 by (by frame a3).
  set (a5 := unsubscribe_all _). assert (safe a5) as H5 by (unfold a5, unsubscribe_all; case_match; by frame a4). by frame a5.
Qed.

Lemma safe_onRotate scope iv call a : safe a → safe (onRotate randomUUID scope iv call a).
Proof.
  intros Ha. unfold onRotate. destruct (rc_exported call); [|done]. apply safe_append_fresh; [by split|].
  destruct (encrypt _ _ _); by frame a.
Qed.

Lemma safe_rotator k l iv a a' : safe a → rotator_exec randomUUID k l iv a = Some a' → safe a'.
Proof.
  intros Ha. unfold rotator_exec. intros (x & _ & E)%bind_Some.
  assert (∀ r rs, safe (set_rotators r rs a)) as Hset by (intros; by frame a).
  destruct l as [| | |id|i key|i call'|id|]; try done.
  - destruct (due _ _) as [[]|]; try done. injection E as <-. apply Hset.
  - apply bind_Some in E as (r & _ & [= <-]). apply Hset.
  - apply bind_Some in E as ([r call] & _ & [= <-]). destruct call; [apply safe_onRotate|]; apply Hset.
  - destruct (due _ _) as [[]|]; try done. injection E as <-. apply Hset.
Qed.

Lemma safe_resume i a a' : safe a → resume_task randomUUID env i a = Some a' → safe a'.
Proof.
  intros Ha. unfold resume_task. destruct (a_tasks a !! i) as [[t|]|] eqn:Ei; [|done..].
  pose proof (s_tasks _ Ha) as Ht. assert (task_ok (Some t)) as Hok.
  { rewrite Forall_forall in Ht. apply Ht. by eapply list_elem_of_lookup_2. }
  set (a0 := set_app_tasks _ a). assert (safe a0) as H0.
  { destruct Ha as [K1 K2 K3 K4 K5]. split; try done. cbn. by apply Forall_insert. }
  destruct t as [base room st first fields|room link sock first fields|room p r|d room r b|scope r|room r|room input r|room key url b ivs|u|u id seq|u id seq until];
    intros E.
  - injection E as <-. by apply safe_setup.
  - apply bind_Some in E as (ok & _ & [= <-]). destruct ok; [by apply safe_finish_join|by frame a0].
  - by eapply safe_finish_derive.
  - injection E as <-. by apply safe_finish_chat.
  - injection E as <-. unfold accept_rotation. destruct (_ ≫= _); (apply safe_append_fresh; [by split|]); [|done].
    destruct (a_rotator _); by frame a0.
  - injection E as <-. unfold finish_rotate_other. destruct (_ ≫= _); (apply safe_append_fresh; [by split|]); [by frame a0|done].
  - injection E as <-. by apply safe_finish_send.
  - injection E as <-. by apply safe_blob.
  - injection E as <-. by apply safe_read.
  - injection E as <-. by apply safe_chunk.
  - unfold upload_pause in E. destruct (_ <? _); [done|]. injection E as <-. by apply safe_add_task.
Qed.

Lemma keeps_switch room : keeps (switchRoom room).
Proof.
  intros m Hm. unfold switchRoom.
  destruct (keeps_update room clear_unread) with (m := set_activeRoom room m) as [H1 E1]; [intros st Hst; exact Hst|done|].
  by split.
Qed.

Lemma keeps_copy : keeps copyShareLink.
Proof.
  intros m Hm. unfold copyShareLink. destruct (map_get _ _) as [s|]; [|done]. destruct (str_empty _); [done|].
  destruct (keeps_update (rm_activeRoom m) (set_copied true)) with (m := m) as [H1 E1]; [intros st Hst; exact Hst|done|].
  by split.
Qed.

Lemma safe_in_view entry a : safe a → safe (in_view randomUUID entry a).
Proof. intros Ha. unfold in_view. destruct (map_get _ _) as [[|c s]|]; [done| |done]. destruct entry.2; [|done]. by frame a. Qed.

Lemma safe_commit a : safe a → safe (set_call_manager (commit_call (a_call a)) (with_rm commit a)).
Proof. intros [H1 H2 H3 H4 H5]. by split. Qed.

Lemma room_ok_input v st : room_ok st → room_ok (with_input v st).
Proof. done. Qed.

Lemma safe_input value a : safe a → safe (handleInputChange randomUUID value a).
Proof.
  intros Ha. unfold handleInputChange. set (a1 := with_rm _ a).
  assert (safe a1) as H1 by (apply safe_rm; [apply keeps_update, room_ok_input|done]).
  destruct (str_empty value); [done|by apply safe_send_typing].
Qed.

Lemma safe_exec l a a' : label_ok l → safe a → app_exec randomUUID twice_error env a l = Some a' → safe a'.
Proof.
  intros Hl Ha E. destruct l; cbn [app_exec label_ok] in *;
    try (injection E as <-; first [by frame a|by apply safe_join|by apply safe_sendMessage|by apply safe_file|
           by apply safe_canvas|by apply safe_leave|by apply safe_end_call|by apply safe_in_view|by apply safe_commit|
           by apply safe_input|by apply safe_rm; [apply keeps_switch|]|by apply safe_rm; [apply keeps_copy|]|
           by apply safe_rm; [apply keeps_update; intros st Hst; exact Hst|]]).
  - by eapply safe_resume.
  - by eapply safe_rotator.
  - apply bind_Some in E as ([[m c] h] & _ & [= <-]). by frame a.
  - apply bind_Some in E as (m & Hm & [= <-]). unfold copied_expired in Hm. apply bind_Some in Hm as (room & _ & [= <-]).
    destruct (keeps_update room (set_copied false)) with (m := set_clock (clearTimeout (rm_clock (a_rm a)) id) (a_rm a)) as [K1 K2];
      [intros st Hst; exact Hst|by apply Ha|]. destruct Ha as [H1 H2 H3 H4 H5]. by split.
  - apply bind_Some in E as (t & _ & [= <-]). by frame a.
  - apply bind_Some in E as (x & _ & (tid & _ & [= <-])%bind_Some). by frame a.
  - apply bind_Some in E as (p & _ & [= <-]). by frame a.
  - injection E as <-. apply safe_rm; [|done]. apply keeps_update. intros st (K1 & K2 & K3 & K4). by split_and!.
  - destruct (_ <? 0); [done|]. injection E as <-. unfold wait. destruct (a_assembler a); by frame a.
  - destruct (socket_event l); [|done]. apply bind_Some in E as (c & _ & [= <-]). by frame a.
  - apply bind_Some in E as (c & _ & E). destruct Hl as [Hu Hd]. assert (safe (hear c a)) as Hs by (by frame a).
    destruct (JSON_parse text) as [v|e]; [by eapply safe_dispatch|]. revert E. unfold App.dispatch.
    destruct (a_handlers _); by intros [= <-].
  - destruct (mesh_event_label l); [|done]. apply bind_Some in E as (h & _ & [= <-]). by apply safe_on_mesh.
  - destruct Hl as [Hu Hd]. destruct (mesh_event room d) as [v|]; [|by injection E as <-].
    set (a1 := with_client _ a) in *. assert (safe a1) as H1 by (by frame a).
    destruct (a_handlers a1); [by eapply safe_on_p2p|by injection E as <-].
Qed.

Lemma safe_run ls a a' : Forall label_ok ls → safe a → app_run randomUUID twice_error env a ls = Some a' → safe a'.
Proof.
  intros Hls. revert a. induction Hls as [|l ls Hl _ IH]; intros a Ha; cbn [app_run]; [by intros [= <-]|].
  intros (a1 & E1 & E)%bind_Some. eapply IH; [|exact E]. by eapply safe_exec.
Qed.

Lemma safe_new nickname now : safe (new_app nickname now).
Proof. split; try constructor. by exists []. Qed.
End Safety.
