(* ===== verification/AppPage.v ===== *)
(** * What the steps of the application leave alone

    The room on display, the form and the elements watched for read receipts
    change in few places: the user's calls, the commit of a render, and leaving
    the last room. All other steps of App.v keep them. *)

From S2P Require Import Prelude JsLib Base64 Text Json Crypto Uri Timers KeyRotator Mime MediaSend MediaAssembler.
From S2P Require Import Client Rooms Typing WebRTC MeshHook CallManager AppState App AppFacts.

Local Open Scope Z_scope.

Section Steady.
Context `{WebCrypto} (randomUUID : nat → jsstr) (twice_error : jsstr) (env : option Z).

(** The room the refs name, the nickname, the time to live, the elements
    watched. *)
Definition face (a : app) : jsstr * jsstr * Z * list (nat * jsstr) :=
  (rm_activeRoomRef (a_rm a), a_nickname a, pg_ttl (a_page a), watched (a_page a)).

(** The calls that are suspended stay so; there may be new ones. *)
Definition steady (a a' : app) : Prop := face a' = face a ∧ a_tasks a `prefix_of` a_tasks a'.

Lemma steady_refl a : steady a a.
Proof. done. Qed.

Lemma steady_trans a1 a2 a3 : steady a1 a2 → steady a2 a3 → steady a1 a3.
Proof. intros [E1 P1] [E2 P2]. split; [congruence|by etrans]. Qed.

Lemma steady_task t a : steady a (add_task t a).
Proof. split; [done|by apply prefix_app_r]. Qed.

Lemma steady_rm f a : rm_activeRoomRef (f (a_rm a)) = rm_activeRoomRef (a_rm a) → steady a (with_rm f a).
Proof. intros E. split; [|done]. unfold face. cbn. by rewrite E. Qed.

(** An operation of the room manager that leaves the refs alone. *)
Definition same_ref (f : room_manager → room_manager) : Prop := ∀ m, rm_activeRoomRef (f m) = rm_activeRoomRef m.

Lemma append_ref room msg : same_ref (appendMessageToRoom room msg).
Proof. intros m. unfold appendMessageToRoom. destruct (map_get _ _); [|done]. by destruct (Nat.ltb _ _). Qed.

Lemma remove_ref room : same_ref (removeRoom room).
Proof. intros m. unfold removeRoom. by destruct (map_get _ _). Qed.

Lemma setup_ref salt key room pp m : rm_activeRoomRef (setup_begin salt key room pp m).1 = rm_activeRoomRef m.
Proof. unfold setup_begin. repeat case_match; simplify_eq/=; done. Qed.

Lemma setup_next_ref base room st m : rm_activeRoomRef (setup_next base room st m).1 = rm_activeRoomRef m.
Proof. unfold setup_next. repeat case_match; simplify_eq/=; done. Qed.

Lemma updates_ref (l : list (jsstr * bool)) : same_ref (λ m, fold_left (λ m x, updateRoomState x.1 (with_p2p x.2) m) l m).
Proof. induction l as [|x l IH]; intros m; [done|]. cbn. by rewrite IH. Qed.

Lemma steady_append_fresh room mk a : steady a (append_fresh randomUUID room mk a).
Proof. unfold append_fresh. eapply steady_trans; [|apply steady_rm, append_ref]. done. Qed.

Lemma steady_on_mesh f a : steady a (on_mesh f a).
Proof. unfold on_mesh. eapply steady_trans; [|apply steady_rm, updates_ref]. done. Qed.

Lemma steady_presence room p a : steady a (apply_presence room p a).
Proof.
  unfold apply_presence. eapply steady_trans; [|apply steady_on_mesh].
  assert (steady a (with_rm (update_known room (with_presence p)) a)) as E.
  { apply steady_rm. unfold update_known. by destruct (map_get _ _). }
  destruct (bool_decide _ && _); [|done]. exact E.
Qed.

Lemma steady_unsubscribe a : steady a (unsubscribe_all a).
Proof. unfold unsubscribe_all. by destruct (a_handlers a). Qed.

Lemma steady_derive room p pp salt a : steady a (start_derive room p pp salt a).
Proof. unfold start_derive. eapply steady_trans; [|apply steady_task]. done. Qed.

Lemma steady_media scope url p a : steady a (handleMediaChunk randomUUID scope url p a).
Proof.
  unfold handleMediaChunk. destruct (a_assembler a) as [asm0|]; [|done]. destruct (handleChunk _ _ _) as [asm r].
  assert (∀ calls p, pg_ttl (fold_left (λ p call, onProgress call p) calls p) = pg_ttl p ∧
    pg_observer (fold_left (λ p call, onProgress call p) calls p) = pg_observer p) as Hp.
  { induction calls as [|call calls IH]; intros pg; [done|]. cbn. by destruct (IH (onProgress call pg)) as [-> ->]. }
  set (a1 := with_page _ _). assert (steady a a1) as H1.
  { split; [|done]. unfold face, a1. cbn. unfold watched.
    by destruct (Hp (drop (length (progress_calls asm0)) (progress_calls asm)) (a_page a)) as [-> ->]. }
  clearbody a1. destruct r as [[]|]; try done; eapply steady_trans; [exact H1|apply steady_append_fresh| |]; try done.
  all: apply steady_append_fresh.
Qed.
End Steady.

(** Case analysis of a handler down to steps that are steady by computation. *)
Ltac steady_cases :=
  repeat match goal with
  | H : @mbind option _ _ _ _ _ = Some _ |- _ => apply bind_Some in H as (? & ? & H)
  | H : Some _ = Some _ |- _ => injection H as <-
  | H : None = Some _ |- _ => discriminate H
  | H : ?e = Some _ |- _ => match e with context [match ?x with _ => _ end] => destruct x end
  | |- context [match ?x with _ => _ end] => destruct x
  end;
  first [split; reflexivity|apply steady_task|apply steady_presence|apply steady_on_mesh|apply steady_append_fresh
        |apply steady_derive|unfold handleKeyRotationMessage; apply steady_task].

Section SteadySteps.
Context `{WebCrypto} (randomUUID : nat → jsstr) (twice_error : jsstr) (env : option Z).

Lemma steady_end_call a : steady a (end_call randomUUID a).
Proof. unfold end_call. by destruct (endCall _ _ _ _ _) as [[]]. Qed.

Lemma steady_receipt d a a' : on_receipt d a = Some a' → steady a a'.
Proof.
  unfold on_receipt. assert (∀ id st room, steady a (with_rm (record_receipt id st room) a)) as Hr.
  { intros id st room. apply steady_rm. unfold record_receipt. destruct (map_get _ _); [|done]. by destruct (is_str _ _). }
  destruct (payload_value _) as [[p|]|]; [|by intros [= <-]..].
  destruct p; [by intros [= <-]|..]; intros (room & _ & E)%bind_Some; (destruct room; [|by injection E as <-]);
    (destruct (_ && _) in E; [|by injection E as <-]); apply bind_Some in E as (id & _ & [= <-]); apply Hr.
Qed.

Lemma steady_on_message scope url d a a' : App.on_message randomUUID scope url d a = Some a' → steady a a'.
Proof.
  unfold App.on_message. destruct d as [| | | | |fs]; try (by intros [= <-]). set (d := JObj fs).
  repeat match goal with |- (if ?b then _ else _) = _ → _ => destruct b end; intros E.
  - unfold on_presence in E. steady_cases.
  - unfold on_signal in E. steady_cases.
  - unfold on_typing in E. steady_cases.
  - by eapply steady_receipt.
  - unfold on_chat in E. steady_cases.
  - unfold on_key_rotation in E. steady_cases.
  - injection E as <-. apply steady_media.
  - unfold on_call_offer in E. steady_cases.
  - injection E as <-. apply steady_end_call.
  - by injection E as <-.
Qed.

Lemma steady_dispatch url d a a' : App.dispatch randomUUID url d a = Some a' → steady a a'.
Proof. unfold App.dispatch. destruct (a_handlers a); [apply steady_on_message|by intros [= <-]]. Qed.

Lemma steady_emit_queued ds a a' : emit_queued randomUUID ds a = Some a' → steady a a'.
Proof.
  revert a. induction ds as [|d ds IH]; intros a; cbn [emit_queued]; [by intros [= <-]|].
  intros (a1 & E & Hr)%bind_Some. apply steady_dispatch in E. eapply steady_trans; [|by apply IH]. exact E.
Qed.

Lemma steady_finish_derive room p r a a' : finish_derive randomUUID room p r a = Some a' → steady a a'.
Proof.
  unfold finish_derive. destruct r as [key|]; [|by intros [= <-]].
  set (a1 := with_rm _ a). set (a2 := if bool_decide _ then _ else a1). set (a3 := with_rm _ a2). set (a4 := set_pendingKeys _ _ a3).
  assert (steady a a4) as H4 by (unfold a4, a3, a2; by case_bool_decide). clearbody a4. clear a1 a2 a3.
  intros (b & Hb & [= <-])%bind_Some. eapply steady_trans; [|apply steady_presence]. eapply steady_trans; [exact H4|].
  destruct (map_get (a_pendingMessages a4) room) as [[|q qs]|]; try (by injection Hb as <-).
  apply steady_emit_queued in Hb. exact Hb.
Qed.

Lemma steady_finish_chat d room r b a : steady a (finish_chat randomUUID d room r b a).
Proof.
  unfold finish_chat. destruct (match json_get d (lit "msgId") with Some _ => _ | None => _ end) as [msgId a1] eqn:E.
  assert (steady a a1) as H1.
  { revert E. destruct (json_get d (lit "msgId")) as [[| | |[|c s]| |]|]; by intros [= <- <-]. }
  eapply steady_trans; [exact H1|]. destruct (sender_nickname _ _) as [name|]; [|done].
  set (a2 := with_rm _ a1). assert (steady a1 a2) as H2 by (apply steady_rm, append_ref). by destruct b.
Qed.

Lemma steady_hear c a : steady a (hear c a).
Proof.
  unfold hear. assert (∀ es p, let p' := fold_left show_effect es p in pg_ttl p' = pg_ttl p ∧ pg_observer p' = pg_observer p) as H0.
  { induction es as [|e es IH]; intros p; [done|]. cbn. destruct (IH (show_effect p e)) as [-> ->].
    destruct e as [|event data [|fn fns]| |]; try done. unfold show_effect, on_status. case_bool_decide; [done|].
    case_bool_decide; [by destruct (match _ with Some _ => _ | None => _ end)|]. by case_bool_decide. }
  split; [|done]. unfold face, watched. cbn. by destruct (H0 (drop (length (cl_log (a_client a))) (cl_log c)) (a_page a)) as [-> ->].
Qed.

Lemma steady_finish_join room link first fields a : steady a (finish_join randomUUID env room link first fields a).
Proof.
  unfold finish_join. set (a1 := with_rm _ (with_page _ a)). set (a2 := if first && _ then _ else a1).
  assert (steady a a2) as H2.
  { unfold a2. destruct (first && _); [|done]. unfold setupGlobalHandlers, unsubscribe_all. by destruct (a_handlers a1). }
  clearbody a2. set (a3 := with_page _ a2). assert (steady a a3) as H3.
  { eapply steady_trans; [exact H2|]. split; [|done]. unfold face, a3, watched. cbn. destruct (pg_observer (a_page a2)) eqn:Eo; cbn; by rewrite ?Eo. }
  clearbody a3. destruct (match map_get (rm_salts (a_rm a3)) room with Some _ => _ | None => _ end); exact H3.
Qed.

Lemma steady_join base salt key room pp ttl a : steady a (handleJoinRoom base salt key room pp ttl a).
Proof.
  unfold handleJoinRoom. destruct (_ || _); [done|]. destruct (_ && _); [done|].
  set (a0 := with_page _ a). pose proof (setup_ref salt key (trim room) pp (a_rm a0)) as Hs.
  destruct (setup_begin salt key (trim room) pp (a_rm a0)) as [m st]. cbn in Hs.
  set (a1 := with_rm _ a0). assert (steady a a1) as H1 by (split; [unfold face; cbn; by rewrite Hs|done]).
  eapply steady_trans; [exact H1|apply steady_task].
Qed.

Lemma steady_setup base room st first fields a : steady a (resume_setup randomUUID env base room st first fields a).
Proof.
  unfold resume_setup. pose proof (setup_next_ref base room st (a_rm a)) as Hs.
  destruct (setup_next _ _ _ _) as [m next]. cbn in Hs.
  set (a1 := with_rm _ a). assert (steady a a1) as H1 by (split; [unfold face; cbn; by rewrite Hs|done]). clearbody a1.
  eapply steady_trans; [exact H1|]. destruct next as [st'|r]; [apply steady_task|]. unfold setup_settled.
  destruct r as [[k link]|]; [|done]. destruct (connected _); [apply steady_finish_join|].
  eapply steady_trans; [|apply steady_task]. done.
Qed.

Lemma steady_send_typing b a : steady a (send_typing randomUUID b a).
Proof. unfold send_typing. destruct (str_empty _); [done|]. by destruct (sendTypingIndicator _ _ _) as [[p|] t]. Qed.

Lemma steady_sendMessage iv a : steady a (sendMessage randomUUID iv a).
Proof.
  unfold sendMessage. destruct (map_get _ _) as [s|]; [|done]. destruct (str_empty _); [done|].
  pose proof (steady_send_typing false a) as Ht. destruct (map_get (rm_keys _) _) as [[[|]|]|]; try exact Ht;
    (eapply steady_trans; [exact Ht|apply steady_task]).
Qed.

Lemma steady_finish_send room input r a : steady a (finish_send randomUUID room input r a).
Proof.
  unfold finish_send. destruct r as [ct|]; [|apply steady_append_fresh]. set (a1 := with_client _ a).
  destruct (send_p2p randomUUID room (next_uuid randomUUID a) ct a1) as [sent a2] eqn:E.
  assert (steady a a2) as H2.
  { revert E. unfold send_p2p. destruct (room_mesh room (a_mesh a1) ≫= _) as [conn|]; [|by intros [= <- <-]].
    destruct (WebRTC.send _ _). by intros [= <- <-]. }
  set (step := if sent then (true, a2) else _). destruct step as [sent' a3] eqn:E3.
  assert (steady a a3) as H3.
  { unfold step in E3. destruct sent; [by injection E3 as <- <-|]. destruct (Client.send _ _ _ _ _ _). by injection E3 as <- <-. }
  eapply steady_trans; [exact H3|]. eapply steady_trans; [apply steady_rm, append_ref|by apply steady_rm].
Qed.

Lemma steady_fail canvas room e a : steady a (fail_upload randomUUID canvas room e a).
Proof. unfold fail_upload. eapply steady_trans; [|apply steady_append_fresh]. done. Qed.

Lemma steady_finish_upload u a : steady a (finish_upload randomUUID u a).
Proof. unfold finish_upload. eapply steady_trans; [|apply steady_append_fresh]. done. Qed.

Lemma steady_start_upload u a : steady a (start_upload randomUUID u a).
Proof. unfold start_upload. destruct (_ >? _); [apply steady_fail|apply steady_task]. Qed.

Lemma steady_file room url f ivs a : steady a (handleFileSelect randomUUID room url f ivs a).
Proof. eapply steady_trans; [|apply steady_start_upload]. done. Qed.

Lemma steady_canvas room url b ivs a : steady a (handleCanvasShare room url b ivs a).
Proof. eapply steady_trans; [|apply steady_task]. done. Qed.

Lemma steady_blob room key url b ivs a : steady a (canvas_blob randomUUID room key url b ivs a).
Proof. unfold canvas_blob. destruct b; [apply steady_start_upload|apply steady_fail]. Qed.

Lemma steady_read u a : steady a (upload_read randomUUID u a).
Proof.
  unfold upload_read. destruct (_ >? _); (eapply steady_trans; [|first [apply steady_task|apply steady_finish_upload]]); done.
Qed.

Lemma steady_chunk u id seq a : steady a (upload_chunk randomUUID u id seq a).
Proof.
  unfold upload_chunk. destruct (up_payload _ _ _); [|apply steady_fail].
  destruct (_ <? _); (eapply steady_trans; [|first [apply steady_task|apply steady_finish_upload]]); done.
Qed.

(** The application when the task is taken up. *)
Definition before (l : app_label) (a : app) : app :=
  match l with AResume i => set_app_tasks (<[i := None]> (a_tasks a)) a | _ => a end.

Lemma steady_resume i a a' : resume_task randomUUID env i a = Some a' → steady (before (AResume i) a) a'.
Proof.
  unfold resume_task. destruct (a_tasks a !! i) as [[t|]|]; [|done..]. cbn [before]. set (a0 := set_app_tasks _ a).
  intros E. clearbody a0.
  destruct t as [base room st first fields|room link sock first fields|room p r|d room r b|scope r|room r|room input r|room key url b ivs|u|u id seq|u id seq until].
  - injection E as <-. apply steady_setup.
  - apply bind_Some in E as (ok & _ & [= <-]). destruct ok; [apply steady_finish_join|done].
  - by eapply steady_finish_derive.
  - injection E as <-. apply steady_finish_chat.
  - injection E as <-. unfold accept_rotation. destruct (_ ≫= _); [|apply steady_append_fresh].
    eapply steady_trans; [|apply steady_append_fresh]. by destruct (a_rotator _).
  - injection E as <-. unfold finish_rotate_other. destruct (_ ≫= _); [|apply steady_append_fresh].
    eapply steady_trans; [|apply steady_append_fresh]. done.
  - injection E as <-. apply steady_finish_send.
  - injection E as <-. apply steady_blob.
  - injection E as <-. apply steady_read.
  - injection E as <-. apply steady_chunk.
  - unfold upload_pause in E. destruct (_ <? _); [done|]. injection E as <-. apply steady_task.
Qed.

Lemma steady_rotator k l iv a a' : rotator_exec randomUUID k l iv a = Some a' → steady a a'.
Proof.
  unfold rotator_exec. intros (x & _ & E)%bind_Some. destruct l as [| | |id|i key|i call'|id|]; try done.
  - destruct (due _ _) as [[]|]; try done. by injection E as <-.
  - by apply bind_Some in E as (r & _ & [= <-]).
  - apply bind_Some in E as ([r call] & _ & [= <-]). destruct call as [call|]; [|done]. unfold onRotate.
    destruct (rc_exported call); [|done]. eapply steady_trans; [|apply steady_append_fresh]. by destruct (encrypt _ _ _).
  - destruct (due _ _) as [[]|]; try done. by injection E as <-.
Qed.

(** The steps that touch the face of the application. *)
Definition touches (l : app_label) : bool :=
  match l with ANickname _ | AForm _ _ _ | AObserve _ _ | AInView _ _ | ACommit | ALeave _ => true | _ => false end.

Lemma steady_exec l a a' : touches l = false → app_exec randomUUID twice_error env a l = Some a' → steady (before l a) a'.
Proof.
  intros Hl E. destruct l; try discriminate Hl; cbn [app_exec] in E; cbn [before];
    try (injection E as <-; first [split; reflexivity|apply steady_join|apply steady_sendMessage|apply steady_file|
           apply steady_canvas|apply steady_end_call]).
  - injection E as <-. unfold handleInputChange. destruct (str_empty value); [done|].
    eapply steady_trans; [|apply steady_send_typing]. done.
  - injection E as <-. apply steady_rm. unfold copyShareLink. destruct (map_get _ _); [|done]. by destruct (str_empty _).
  - by eapply steady_resume.
  - by eapply steady_rotator.
  - apply bind_Some in E as ([[m c] h] & _ & [= <-]). done.
  - apply bind_Some in E as (m & Hm & [= <-]). unfold copied_expired in Hm. by apply bind_Some in Hm as (room & _ & [= <-]).
  - by apply bind_Some in E as (t & _ & [= <-]).
  - by apply bind_Some in E as (x & _ & (tid & _ & [= <-])%bind_Some).
  - apply bind_Some in E as (p & Hp & [= <-]). unfold progress_expired in Hp. apply bind_Some in Hp as (u & _ & [= <-]). done.
  - destruct (_ <? 0); [done|]. injection E as <-. unfold wait. by destruct (a_assembler a).
  - destruct (socket_event l); [|done]. apply bind_Some in E as (c & _ & [= <-]). apply steady_hear.
  - apply bind_Some in E as (c & _ & E). eapply steady_trans; [apply steady_hear|by eapply steady_dispatch].
  - destruct (mesh_event_label l); [|done]. apply bind_Some in E as (h & _ & [= <-]). apply steady_on_mesh.
  - destruct (mesh_event room d) as [v|]; [|by injection E as <-]. set (a1 := with_client _ a) in *.
    assert (steady a a1) as H1 by done. destruct (a_handlers a1) as [scope|]; [|by injection E as <-].
    unfold on_p2p in E. apply bind_Some in E as (r & _ & (_ & _ & [= <-])%bind_Some).
    destruct (is_str _ _); [eapply steady_trans; [exact H1|apply steady_task]|]. destruct (is_str _ _); [|done].
    eapply steady_trans; [exact H1|apply steady_media].
Qed.

Lemma face_exec l a a' : touches l = false → app_exec randomUUID twice_error env a l = Some a' → face a' = face a.
Proof. intros Hl E. apply (steady_exec _ _ _ Hl) in E as [E _]. by destruct l. Qed.

(** Leaving clears the form and the observer, or touches nothing. *)
Lemma face_leave room a :
  let a' := leaveRoom randomUUID room a in
  steady a a' ∨ face a' = (rm_activeRoomRef (a_rm a), [], 0, []).
Proof.
  cbn zeta. unfold leaveRoom. set (a1 := client_send _ _ _ _ _ a). set (a2 := on_mesh _ a1). set (a3 := with_rm _ a2).
  assert (steady a a3) as H3.
  { eapply steady_trans; [|apply steady_rm, remove_ref]. eapply steady_trans; [|apply steady_on_mesh]. done. }
  case_bool_decide; [|by left]. destruct (filter _ _); [right|by left].
  set (a4 := with_client _ _). set (a5 := stopRotation (destroyAssembler a4)).
  assert (rm_activeRoomRef (a_rm (unsubscribe_all a5)) = rm_activeRoomRef (a_rm a)) as E.
  { transitivity (rm_activeRoomRef (a_rm a3)); [|by destruct H3 as [H3 _]; injection H3]. unfold unsubscribe_all. by destruct (a_handlers a5). }
  unfold face. cbn. by rewrite E.
Qed.

Lemma tasks_leave room a : a_tasks (leaveRoom randomUUID room a) = a_tasks a.
Proof.
  unfold leaveRoom. case_bool_decide; [|done]. destruct (filter _ _); [|done].
  unfold unsubscribe_all. by destruct (a_handlers _).
Qed.

Lemma tasks_exec l a a' :
  app_exec randomUUID twice_error env a l = Some a' → a_tasks (before l a) `prefix_of` a_tasks a'.
Proof.
  intros E. destruct (touches l) eqn:Et; [|by apply (steady_exec _ _ _ Et) in E as [_ E]].
  destruct l; try discriminate Et; cbn [app_exec] in E; injection E as <-; cbn [before]; try done.
  - by rewrite tasks_leave.
  - unfold in_view. destruct (map_get _ _) as [[|c s]|]; [done| |done]. by destruct (_, _).2.
Qed.

(** A call stays suspended until it is taken up. *)
Lemma task_stays l a a' j t :
  app_exec randomUUID twice_error env a l = Some a' → l ≠ AResume j → a_tasks a !! j = Some t → a_tasks a' !! j = Some t.
Proof.
  intros E%tasks_exec Hl Ht. eapply prefix_lookup_Some; [|exact E]. destruct l; try exact Ht.
  cbn. rewrite list_lookup_insert_ne; [done|]. intros ->. by apply Hl.
Qed.
End SteadySteps.
