(* ===== verification/AppUpload.v ===== *)
(** * A file is sent as it was chosen, whatever happens meanwhile

    An upload of AppState.v is suspended at every [await] of [sendMedia]: the
    user types, rooms are joined and left, keys rotate in between. It still
    gives the client the messages MediaSend.v's [sendMedia] gives, and comes to
    an end. *)

From S2P Require Import Prelude JsLib Base64 Text Json Crypto Uri Timers KeyRotator Mime MediaSend MediaAssembler.
From S2P Require Import Client Rooms Typing WebRTC MeshHook CallManager AppState App AppFacts AppPage.

Local Open Scope Z_scope.

Section Upload.
Context `{WebCrypto} (randomUUID : nat → jsstr) (twice_error : jsstr) (env : option Z).

Abbreviation app_exec := (app_exec randomUUID twice_error env).
Abbreviation app_run := (app_run randomUUID twice_error env).

Definition resumes (j : nat) (l : app_label) : bool := match l with AResume i => Nat.eqb i j | _ => false end.

(** The steps of a run that go on with the call suspended at [j], each with
    the states around it, and where the call is suspended in the end. A step
    that suspends the call again leaves it at the end of the tasks. *)
Fixpoint turns (a : app) (j : nat) (ls : list app_label) : list (app * app) * option nat :=
  match ls with
  | [] => ([], Some j)
  | l :: ls =>
      match app_exec a l with
      | None => ([], Some j)
      | Some a' =>
          if resumes j l then
            if Nat.ltb (length (a_tasks a)) (length (a_tasks a'))
            then let '(ts, w) := turns a' (length (a_tasks a)) ls in ((a, a') :: ts, w)
            else ([(a, a')], None)
          else turns a' j ls
      end
  end.

(** What a step gives the client: one message, or nothing but ids drawn. *)
Definition gives (x : app * app) (s : option sent) : Prop :=
  ∃ n, a_client x.2 =
    draw_uuids n (match s with
                  | Some s => (Client.send randomUUID (sent_type s) (sent_room s) (Some (JStr (sent_payload s))) None (a_client x.1)).2
                  | None => a_client x.1
                  end).

(** The message the user gets in the end, and the progress taken away. *)
Definition tells (u : upload) (r : result unit) (x : app * app) : Prop :=
  pg_upload (a_page x.2) = None ∧
  ∃ id, a_rm x.2 = appendMessageToRoom (up_room u)
    (match r with
     | Ok _ => file_message (up_url u) (up_mimeType u) (file_name (up_file u))
                 (if up_canvas u then None else Some (file_size (up_file u))) true id
     | Throw e => media_text true (lit (if up_canvas u then "[canvas share failed: " else "[upload failed: ") ++ e ++ lit "]") id
     end) (a_rm x.1).

(** The rest of [sendMedia]'s loop. *)
Definition rest_of (u : upload) (id : jsstr) (seq : Z) : list sent * list (Z * Z) * result unit :=
  send_loop (up_room u) (up_payload u id) (up_total u) seq (Z.to_nat (up_total u - seq)).

(** An upload goes on as [rest] says: the messages of its turns are the first
    of [rest]'s, all of them and the end told when it is over; it is over after
    [n] turns at most, and can go on till then. *)
Definition goes_as (u : upload) (rest : list sent * list (Z * Z) * result unit) (n : nat)
    (a : app) (j : nat) (ls : list app_label) (b : app) : Prop :=
  let '(ts, w) := turns a j ls in
  (length ts ≤ n)%nat ∧
  ∃ given, Forall2 gives ts given ∧
    match w with
    | None => omap Datatypes.id given = rest.1.1 ∧ ∃ x, last ts = Some x ∧ tells u rest.2 x
    | Some j => omap Datatypes.id given `prefix_of` rest.1.1 ∧ ∃ d, is_Some (app_run b [AWait d; AResume j])
    end.

Lemma rest_of_step u id seq :
  seq < up_total u →
  rest_of u id seq =
    match up_payload u id seq with
    | Throw e => ([], [], Throw e)
    | Ok p => (MediaSend.Sent (lit "media") (up_room u) p :: (rest_of u id (seq + 1)).1.1,
               (seq + 1, up_total u) :: (rest_of u id (seq + 1)).1.2, (rest_of u id (seq + 1)).2)
    end.
Proof.
  intros Hs. unfold rest_of. replace (Z.to_nat (up_total u - seq)) with (S (Z.to_nat (up_total u - (seq + 1)))) by lia. cbn [send_loop].
  destruct (up_payload u id seq); [|done]. by destruct (send_loop _ _ _ (seq + 1) _) as [[sends progress] r].
Qed.

Lemma rest_of_end u id : rest_of u id (up_total u) = ([], [], Ok tt).
Proof. unfold rest_of. by rewrite Z.sub_diag. Qed.

(** The upload [u] is at chunk [seq]. *)
Definition at_chunk (u : upload) (id : jsstr) (seq : Z) (t : app_task) : Prop :=
  t = TChunk u id seq ∨ ∃ until, t = TPause u id seq until.

Lemma draw_none c : draw_uuids 0 c = c.
Proof. by destruct c. Qed.

Lemma gives_none a a' : a_client a' = a_client a → gives (a, a') None.
Proof. intros E. exists 0%nat. cbn. by rewrite draw_none. Qed.

Lemma tasks_add a a0 t : a_tasks a0 = a_tasks a → a_tasks (add_task t a0) !! length (a_tasks a) = Some (Some t).
Proof. intros E. unfold add_task. cbn. rewrite E. by apply list_lookup_middle. Qed.

Lemma exec_wait a d : 0 ≤ d → app_exec a (AWait d) = Some (wait d a).
Proof. intros Hd. cbn [App.app_exec]. by rewrite (proj2 (Z.ltb_ge _ _) Hd). Qed.

Lemma wait_now d a : cl_now (a_client (wait d a)) = cl_now (a_client a) + d.
Proof. done. Qed.

Lemma run_two a l1 a1 l2 a2 : app_exec a l1 = Some a1 → app_exec a1 l2 = Some a2 → app_run a [l1; l2] = Some a2.
Proof. intros E1 E2. cbn [App.app_run]. rewrite E1. cbn [mbind option_bind]. rewrite E2. done. Qed.

Lemma exec_resume a j t : a_tasks a !! j = Some (Some t) →
  app_exec a (AResume j) = resume_task randomUUID env j a.
Proof. done. Qed.

(** An upload can be resumed when its pause is over. *)
Lemma resume_chunk a j t u id seq :
  a_tasks a !! j = Some (Some t) → at_chunk u id seq t →
  (∀ until, t = TPause u id seq until → until ≤ cl_now (a_client a)) → is_Some (resume_task randomUUID env j a).
Proof.
  intros Hj Ht Hn. unfold resume_task. rewrite Hj. destruct Ht as [->|[until ->]]; [by eexists|].
  unfold upload_pause. change (a_client (set_app_tasks _ a)) with (a_client a).
  rewrite (proj2 (Z.ltb_ge _ _)) by (by apply Hn). by eexists.
Qed.

(** The upload can go on, after a while. *)
Lemma can_resume a j t u id seq :
  a_tasks a !! j = Some (Some t) → at_chunk u id seq t → ∃ d, is_Some (app_run a [AWait d; AResume j]).
Proof.
  intros Hj Ht. set (d := match t with TPause _ _ _ until => Z.max 0 (until - cl_now (a_client a)) | _ => 0 end). exists d.
  assert (0 ≤ d) as Hd by (unfold d; destruct t; lia).
  assert (a_tasks (wait d a) !! j = Some (Some t)) as Hj' by exact Hj.
  destruct (resume_chunk (wait d a) j t u id seq Hj' Ht) as [a2 E2].
  { intros tm ->. rewrite wait_now. unfold d. lia. }
  exists a2. by apply (run_two _ _ (wait d a)); [apply exec_wait|].
Qed.

(** One turn: the first message of the rest, and the upload is suspended again. *)
Lemma goes_on u rest rest' n m s a a1 j ls b :
  (S m ≤ n)%nat → gives (a, a1) s → (length (a_tasks a) < length (a_tasks a1))%nat → app_exec a (AResume j) = Some a1 →
  rest.1.1 = option_list s ++ rest'.1.1 → rest.2 = rest'.2 →
  goes_as u rest' m a1 (length (a_tasks a)) ls b → goes_as u rest n a j (AResume j :: ls) b.
Proof.
  intros Hn Hg Hl E Hs Hr Hgo. unfold goes_as in *. cbn [turns]. rewrite E. cbn [resumes]. rewrite Nat.eqb_refl.
  rewrite (proj2 (Nat.ltb_lt _ _)) by done. destruct (turns a1 (length (a_tasks a)) ls) as [ts w].
  destruct Hgo as (Hm & given & Hf & Hw). split; [cbn; lia|]. exists (s :: given). split; [by constructor|]. rewrite Hs, Hr.
  destruct w as [j'|].
  - destruct Hw as [Hp Hd]. split; [|done]. destruct s; [by apply prefix_cons|done].
  - destruct Hw as [Hp (x & Hx & Ht)]. split; [cbn; rewrite Hp; by destruct s|]. exists x. split; [|done].
    by destruct ts as [|y ts].
Qed.

(** The last turn. *)
Lemma goes_over u rest n s a a1 j ls b :
  (1 ≤ n)%nat → gives (a, a1) s → length (a_tasks a1) = length (a_tasks a) → app_exec a (AResume j) = Some a1 →
  rest.1.1 = option_list s → tells u rest.2 (a, a1) → goes_as u rest n a j (AResume j :: ls) b.
Proof.
  intros Hn Hg Hl E Hs Ht. unfold goes_as. cbn [turns]. rewrite E. cbn [resumes]. rewrite Nat.eqb_refl, Hl, Nat.ltb_irrefl.
  split; [cbn; lia|]. exists [s]. split; [by repeat constructor|]. split; [rewrite Hs; by destruct s|]. by exists (a, a1).
Qed.

(** The other steps leave the upload alone. *)
Lemma goes_past u rest n a l a1 j ls b :
  app_exec a l = Some a1 → resumes j l = false → goes_as u rest n a1 j ls b → goes_as u rest n a j (l :: ls) b.
Proof. intros E Hl Hgo. unfold goes_as in *. cbn [turns]. by rewrite E, Hl. Qed.

Lemma resumes_self j l : resumes j l = true → l = AResume j.
Proof. destruct l; try done. cbn. by intros ->%Nat.eqb_eq. Qed.

Lemma resumes_other j l : resumes j l = false → l ≠ AResume j.
Proof. intros Hl ->. cbn in Hl. by rewrite Nat.eqb_refl in Hl. Qed.

(** The upload [u] takes a turn at chunk [seq]. *)
Lemma chunk_turn u id seq n a j ls b :
  0 ≤ seq < up_total u → (2 * Z.to_nat (up_total u - seq) - 1 ≤ n)%nat →
  let a0 := before (AResume j) a in
  let a1 := upload_chunk randomUUID u id seq a0 in
  (j < length (a_tasks a))%nat → app_exec a (AResume j) = Some a1 →
  (seq + 1 < up_total u → ∀ tm, a_tasks a1 !! length (a_tasks a) = Some (Some (TPause u id (seq + 1) tm)) →
     goes_as u (rest_of u id (seq + 1)) (2 * Z.to_nat (up_total u - (seq + 1))) a1 (length (a_tasks a)) ls b) →
  goes_as u (rest_of u id seq) n a j (AResume j :: ls) b.
Proof.
  intros Hs Hn a0 a1 Hj E IH. assert (length (a_tasks a0) = length (a_tasks a)) as Hl0 by apply length_insert.
  pose proof (rest_of_step u id seq ltac:(lia)) as Hrest. unfold upload_chunk in a1.
  destruct (up_payload u id seq) as [p|e] eqn:Ep.
  - destruct (seq <? up_total u - 1) eqn:El.
    + apply Z.ltb_lt in El. apply (goes_on u _ (rest_of u id (seq + 1)) n (2 * Z.to_nat (up_total u - (seq + 1)))
        (Some (MediaSend.Sent (lit "media") (up_room u) p)) a a1).
      * lia.
      * exists 0%nat. cbn. by rewrite draw_none.
      * unfold a1. cbn. rewrite length_app, length_insert. cbn. lia.
      * exact E.
      * by rewrite Hrest.
      * by rewrite Hrest.
      * eapply IH; [lia|]. unfold a1, add_task. cbn. rewrite <- Hl0. by apply list_lookup_middle.
    + apply Z.ltb_ge in El. assert (seq + 1 = up_total u) as Et by lia. rewrite Et, rest_of_end in Hrest.
      apply (goes_over u _ n (Some (MediaSend.Sent (lit "media") (up_room u) p)) a a1); try done; [lia|by exists 1%nat|by rewrite Hrest|].
      rewrite Hrest. split; [done|]. by eexists.
  - apply (goes_over u _ n None a a1); try done; [lia|by exists 1%nat|by rewrite Hrest|].
    rewrite Hrest. split; [done|]. by eexists.
Qed.

Lemma upload_goes u id ls a j seq t b :
  0 ≤ seq < up_total u → a_tasks a !! j = Some (Some t) → at_chunk u id seq t → app_run a ls = Some b →
  goes_as u (rest_of u id seq) (2 * Z.to_nat (up_total u - seq) - match t with TPause _ _ _ _ => 0 | _ => 1 end) a j ls b.
Proof.
  revert a j seq t. induction ls as [|l ls IH]; intros a j seq t Hs Hj Ht Hr.
  { injection Hr as <-. split; [cbn; lia|]. exists []. split; [constructor|]. split; [apply prefix_nil|by eapply can_resume]. }
  cbn [App.app_run] in Hr. apply bind_Some in Hr as (a1 & E & Hr). destruct (resumes j l) eqn:El.
  2:{ eapply goes_past; [exact E|exact El|]. eapply (IH a1 j seq t); [done| |done|done].
      eapply task_stays; [exact E|by apply resumes_other|exact Hj]. }
  apply resumes_self in El as ->. apply lookup_lt_Some in Hj as Hlt. assert (E' := E). rewrite (exec_resume a j t Hj) in E'.
  unfold resume_task in E'. rewrite Hj in E'. destruct Ht as [->|[tm ->]].
  - injection E' as <-. apply chunk_turn; try done. intros Hs' tm Ht. rewrite <- (Nat.sub_0_r (2 * _)).
    apply (IH _ _ (seq + 1) (TPause u id (seq + 1) tm)); [lia|exact Ht|by right; eexists|exact Hr].
  - unfold upload_pause in E'. destruct (_ <? _); [done|]. injection E' as <-.
    refine (goes_on u _ (rest_of u id seq) _ (2 * Z.to_nat (up_total u - seq) - 1) None a _ j ls b _ _ _ E eq_refl eq_refl _);
      [lia|by apply gives_none| |].
    + unfold add_task. cbn. rewrite length_app, length_insert. cbn. lia.
    + apply (IH _ _ seq (TChunk u id seq)); [done| |by left|done]. cbn. rewrite <- (length_insert _ j None). by apply list_lookup_middle.
Qed.

Lemma read_goes u ls a j b :
  a_tasks a !! j = Some (Some (TRead u)) → app_run a ls = Some b →
  ∃ id, goes_as u (rest_of u id 0) (S (2 * Z.to_nat (up_total u))) a j ls b.
Proof.
  revert a. induction ls as [|l ls IH]; intros a Hj Hr.
  { injection Hr as <-. exists []. split; [cbn; lia|]. exists []. split; [constructor|]. split; [apply prefix_nil|]. exists 0.
    assert (a_tasks (wait 0 a) !! j = Some (Some (TRead u))) as Hj' by exact Hj.
    exists (upload_read randomUUID u (before (AResume j) (wait 0 a))). apply (run_two _ _ (wait 0 a)); [by apply exec_wait|].
    rewrite (exec_resume _ _ _ Hj'). unfold resume_task. by rewrite Hj'. }
  cbn [App.app_run] in Hr. apply bind_Some in Hr as (a1 & E & Hr). destruct (resumes j l) eqn:El.
  2:{ destruct (IH a1) as [id Hgo]; [|done|exists id; by eapply goes_past].
      eapply task_stays; [exact E|by apply resumes_other|exact Hj]. }
  apply resumes_self in El as ->. assert (E' := E). rewrite (exec_resume a j _ Hj) in E'.
  unfold resume_task in E'. rewrite Hj in E'. injection E' as <-. set (a0 := set_app_tasks _ a) in *.
  exists (next_uuid randomUUID a0). unfold upload_read in *. destruct (up_total u >? 0) eqn:Et.
  - apply Z.gtb_lt in Et. set (id := next_uuid randomUUID a0) in *.
    refine (goes_on u _ (rest_of u id 0) _ (2 * Z.to_nat (up_total u - 0) - 1) None a _ j ls b _ _ _ E eq_refl eq_refl _);
      [lia|by exists 1%nat| |].
    + unfold add_task. cbn. rewrite length_app, length_insert. cbn. lia.
    + apply (upload_goes u id ls _ _ 0 (TChunk u id 0)); [lia| |by left|done]. cbn. rewrite <- (length_insert _ j None). by apply list_lookup_middle.
  - assert (up_total u = 0) as E0.
    { unfold up_total in *. destruct (chunk_count_bounds CHUNK_SIZE (Z.of_nat (length (file_bytes (up_file u))))) as [K _]; [done|lia|lia]. }
    assert (rest_of u (next_uuid randomUUID a0) 0 = ([], [], Ok tt)) as Hrest by (rewrite <- E0 at 1; apply rest_of_end).
    rewrite Hrest. refine (goes_over u _ _ None a _ j ls b _ _ _ E _ _); [lia|by exists 2%nat|apply length_insert|done|].
    split; [done|by eexists].
Qed.

(** C8: a file that is sent goes out as [sendMedia] sends it, under the key and
    to the room of the moment it was chosen, whatever the user, the network and
    the timers do between its chunks: the client is given those messages and no
    others, in order, until the upload ends with the message that shows the file
    or tells why it failed. It ends after a bounded number of turns, and until
    then it can always go on. *)
Theorem upload_refines u a ls b :
  file_size (up_file u) ≤ MAX_FILE_SIZE → app_run (start_upload randomUUID u a) ls = Some b →
  ∃ id, let '(sends, progress, r) := sendMedia (up_key u) (up_room u) (up_file u) id (up_ivs u) in
    goes_as u (sends, progress, _ ← r; Ok tt) (S (2 * Z.to_nat (up_total u))) (start_upload randomUUID u a) (length (a_tasks a)) ls b.
Proof.
  intros Hs Hr. assert (file_size (up_file u) >? MAX_FILE_SIZE = false) as E by (rewrite Z.gtb_ltb; by apply Z.ltb_ge).
  destruct (read_goes u ls (start_upload randomUUID u a) (length (a_tasks a)) b) as [id Hgo].
  - unfold start_upload. rewrite E. by apply tasks_add.
  - done.
  - exists id. unfold sendMedia. rewrite E. unfold rest_of in Hgo. rewrite Z.sub_0_r in Hgo. unfold up_payload in Hgo.
    fold (up_mimeType u). fold (up_total u). destruct (send_loop _ _ _ _ _) as [[sends progress] r]. by destruct r as [[]|].
Qed.
End Upload.

Module UploadExamples.
Import Toy AppExamples.

Definition small : upload := Upload false room (Some k1) small_file (lit "blob:1") (λ _, toy_iv).

(** While the file is read Alice's rotator makes a new key, and she writes. *)
Definition meanwhile : list app_label := [AInput (lit "wait for it")] ++ rotating ++ [AResume 3; AInput (lit "still"); AResume 4].

Lemma upload_refines_witness :
  ∃ b id, app_run uuid [] None (start_upload uuid small (joined (lit "alice") [])) meanwhile = Some b ∧
    rm_activeKey (a_rm b) = Some (Key k2) ∧ length (wire_of "media" b) = 1%nat ∧
    let '(sends, progress, r) := sendMedia (Some k1) room small_file id (λ _, toy_iv) in
    length sends = 1%nat ∧
    goes_as uuid [] None small (sends, progress, _ ← r; Ok tt) 3 (start_upload uuid small (joined (lit "alice") [])) 3 meanwhile b.
Proof.
  assert (((λ b, (rm_activeKey (a_rm b), length (wire_of "media" b))) <$>
           app_run uuid [] None (start_upload uuid small (joined (lit "alice") [])) meanwhile) = Some (Some (Key k2), 1%nat)) as Hv by vm_refl.
  destruct (app_run uuid [] None (start_upload uuid small (joined (lit "alice") [])) meanwhile) as [b|] eqn:Eb; [|discriminate Hv].
  apply (Some_inj _ _), pair_equal_spec in Hv as [V1 V2].
  assert (file_size (up_file small) ≤ MAX_FILE_SIZE) as Hs by (vm_compute; discriminate).
  destruct (upload_refines uuid [] None small (joined (lit "alice") []) meanwhile b Hs Eb) as [id Hgo].
  exists b, id. split; [reflexivity|]. split; [exact V1|]. split; [exact V2|].
  assert (length (sendMedia (Some k1) room small_file id (λ _, toy_iv)).1.1 = 1%nat) as Hl by vm_refl.
  change (up_key small) with (Some k1) in Hgo. change (up_room small) with room in Hgo. change (up_file small) with small_file in Hgo.
  change (up_ivs small) with (λ _ : Z, toy_iv) in Hgo.
  destruct (sendMedia (Some k1) room small_file id (λ _, toy_iv)) as [[sends progress] r]. split; [exact Hl|].
  assert (length (a_tasks (joined (lit "alice") [])) = 3%nat) as El by vm_refl. rewrite El in Hgo.
  assert (S (2 * Z.to_nat (up_total small)) = 3%nat) as Et by vm_refl. rewrite Et in Hgo. exact Hgo.
Defined.
End UploadExamples.
