(* ===== verification/AppUi.v ===== *)
(** * App.jsx: the page the user sees

    What [App] renders from its state, what each call of the page does, and
    the effects that follow a render: the listeners of the scroll observer,
    the countdown, the QR code and the microphone prompt. [u_seen] is the
    application as the last render read it; the page and its handlers close
    over that. A render that throws, or an effect that does, takes the
    application down ([u_crashed]). What a step needs of the platform (random
    numbers, a chosen file) comes with it. *)

From S2P Require Import Prelude JsLib Json Crypto Timers Mime MediaSend Client Rooms Typing WebRTC MeshHook CallManager.
From S2P Require Import View Dom JoinView ChatView AppState App AppFacts AppSafety.

Local Open Scope Z_scope.

Definition MIC_PROMPT_MS : Z := 500.

(** ** The calls of the page *)

Inductive action :=
  | SetJoinRoom (v : jsstr)
  | SetNickname (v : jsstr)
  | SetPassphrase (v : jsstr)
  | SetTtl (n : Z)
  | ShowField (b : bool)
  | Join
  | RandomizeName
  | AddRoom
  | CloseModal
  | SwitchRoom (r : jsstr)
  | LeaveRoom (r : jsstr)
  | StartCall (t : string)
  | EndCall
  | ToggleMute
  | ToggleVideo
  | SelectLink
  | CopyShareLink
  | ToggleQR
  | PickFile
  | FileSelect
  | InputChange (v : jsstr)
  | SendMessage
  | ToggleCanvas
  | ClearCanvas
  | CanvasShare.

(** The effect that asks for the microphone when the chat first opens. *)
Inductive mic := MicUnasked | MicAt (t : Z) | MicAsked.

(** A call of [QRCode.toDataURL], and the [cancelled] of its effect. *)
Record qr_call := QrCall { q_room : jsstr; q_cancelled : bool }.

Section AppUi.
Context `{WebCrypto} (randomUUID : nat → jsstr) (twice_error : jsstr) (env : option Z).
Context (message_time : ui_message → jsstr).

(** What the platform gives to a step. *)
Record draws := Draws {
  d_base : jsstr;                (** [location.origin] and [pathname] *)
  d_salt : bytes;
  d_key : CryptoKey;
  d_iv : bytes;
  d_random : Z * Z * Z;
  d_file : option file;
  d_url : jsstr;                 (** its object URL *)
  d_blob : option bytes;         (** the canvas as a file and as a data URL *)
  d_dataURL : jsstr;
  d_ivs : Z → bytes
}.

Record ui := Ui {
  u_app : app;
  u_seen : app;
  u_crashed : bool;
  u_showField : bool;                   (** of the [PassphraseToggle] on the page *)
  u_canvas : canvas_view;
  u_countdown : option countdown;
  u_elements : list (jsstr * nat);      (** the elements of the messages, by key *)
  u_observed : list nat;                (** [observedElsRef] *)
  u_next : nat;
  u_qr : list qr_call;
  u_qrDeps : option (jsstr * jsstr);
  u_mic : mic
}.

Definition page (u : ui) : page := a_page (u_seen u).

Definition set_app (a : app) (u : ui) : ui :=
  Ui a (u_seen u) (u_crashed u) (u_showField u) (u_canvas u) (u_countdown u) (u_elements u) (u_observed u) (u_next u)
     (u_qr u) (u_qrDeps u) (u_mic u).
Definition set_showField (b : bool) (u : ui) : ui :=
  Ui (u_app u) (u_seen u) (u_crashed u) b (u_canvas u) (u_countdown u) (u_elements u) (u_observed u) (u_next u)
     (u_qr u) (u_qrDeps u) (u_mic u).
Definition set_canvas (c : canvas_view) (u : ui) : ui :=
  Ui (u_app u) (u_seen u) (u_crashed u) (u_showField u) c (u_countdown u) (u_elements u) (u_observed u) (u_next u)
     (u_qr u) (u_qrDeps u) (u_mic u).
Definition set_countdown (c : option countdown) (u : ui) : ui :=
  Ui (u_app u) (u_seen u) (u_crashed u) (u_showField u) (u_canvas u) c (u_elements u) (u_observed u) (u_next u)
     (u_qr u) (u_qrDeps u) (u_mic u).
Definition set_elements (els : list (jsstr * nat)) (observed : list nat) (next : nat) (u : ui) : ui :=
  Ui (u_app u) (u_seen u) (u_crashed u) (u_showField u) (u_canvas u) (u_countdown u) els observed next
     (u_qr u) (u_qrDeps u) (u_mic u).
Definition set_qr (q : list qr_call) (deps : option (jsstr * jsstr)) (u : ui) : ui :=
  Ui (u_app u) (u_seen u) (u_crashed u) (u_showField u) (u_canvas u) (u_countdown u) (u_elements u) (u_observed u)
     (u_next u) q deps (u_mic u).
Definition set_mic (m : mic) (u : ui) : ui :=
  Ui (u_app u) (u_seen u) (u_crashed u) (u_showField u) (u_canvas u) (u_countdown u) (u_elements u) (u_observed u)
     (u_next u) (u_qr u) (u_qrDeps u) m.

(** An error in a render or an effect unmounts the whole tree. *)
Definition crash (u : ui) : ui :=
  Ui (unmount (u_app u)) (u_seen u) true (u_showField u) (u_canvas u) None [] [] (u_next u)
     (map (λ q, QrCall (q_room q) true) (u_qr u)) (u_qrDeps u) (u_mic u).

(** ** The render *)

Definition join_props_of (modal : bool) (u : ui) : join_props action :=
  let p := page u in
  JoinProps (pg_joinRoom p) SetJoinRoom (a_nickname (u_seen u)) SetNickname (pg_passphrase p) SetPassphrase
            (pg_ttl p) SetTtl Join (pg_status p) modal (if modal then Some CloseModal else None)
            (if modal then None else Some RandomizeName) (u_showField u) ShowField.

Definition shown_room (u : ui) : jsstr := rm_activeRoom (a_rm (u_seen u)).
Definition room_shown (u : ui) : room_state := getRoomState (shown_room u) (a_rm (u_seen u)).

Definition chat_props_of (u : ui) : chat_props action :=
  let a := u_seen u in
  let s := room_shown u in
  let c := cm_seen (a_call a) in
  ChatProps (shown_room u) (map_keys (rm_rooms (a_rm a))) (shown_room u) SwitchRoom AddRoom LeaveRoom (pg_status (page u))
            (rs_peerCount s) (rs_peerNicknames s) (cd ← u_countdown u; cd_timeRemaining cd) (rs_isP2P s) (rs_messages s)
            message_time (rs_input s) InputChange SendMessage (LeaveRoom (shown_room u)) (rs_shareLink s) (rs_copied s)
            CopyShareLink (rs_showQR s) (rs_qrDataURL s) ToggleQR (pg_upload (page u))
            ((λ d, (d.1.2, d.2)) <$> pg_download (page u)) (typingText (a_typing a)) (rs_messageReceipts s)
            SelectLink PickFile FileSelect CanvasShare ((λ x, (x.1, rs_unreadCount x.2)) <$> rm_rooms (a_rm a))
            (if pg_showJoinModal (page u) then Some (join_props_of true u) else None) CloseModal
            (cs_active c) (cs_type c) (map_keys (cs_remote c)) StartCall EndCall ToggleMute ToggleVideo (cs_muted c)
            (cs_videoOff c) (cv_visible (u_canvas u)) (λ _, ToggleCanvas) ClearCanvas.

Definition render_page (u : ui) : result (node action) :=
  if u_crashed u then Ok (TextNode [])
  else if pg_chat (page u) then ChatView (chat_props_of u) else Ok (JoinView (join_props_of false u)).

(** ** What a call does *)

Definition app_step (l : app_label) (u : ui) : option ui :=
  a ← app_exec randomUUID twice_error env (u_app u) l; Some (set_app a u).

Definition perform (d : draws) (act : action) (u : ui) : option ui :=
  let p := a_page (u_app u) in
  match act with
  | SetJoinRoom v => app_step (AForm v (pg_passphrase p) (pg_ttl p)) u
  | SetPassphrase v => app_step (AForm (pg_joinRoom p) v (pg_ttl p)) u
  | SetTtl n => app_step (AForm (pg_joinRoom p) (pg_passphrase p) n) u
  | SetNickname v => app_step (ANickname v) u
  | ShowField b => Some (set_showField b u)
  | Join =>
      app_step (AJoin (d_base d) (d_salt d) (d_key d) (pg_joinRoom (page u)) (pg_passphrase (page u)) (pg_ttl (page u))) u
  | RandomizeName =>
      let '(r1, r2, r3) := d_random d in
      app_step (AForm (generateRoomName r1 r2 r3) (pg_passphrase p) (pg_ttl p)) u
  | AddRoom => u ← app_step (AForm [] (pg_passphrase p) (pg_ttl p)) u; app_step (AModal true) u
  | CloseModal => app_step (AModal false) u
  | SwitchRoom r => app_step (ASwitch r) u
  | LeaveRoom r => app_step (ALeave (str_or r (shown_room u))) u
  | StartCall t => app_step (AStartCall (JStr (lit t))) u
  | EndCall => app_step AEndCall u
  | ToggleMute => app_step AMute u
  | ToggleVideo => app_step AVideo u
  | CopyShareLink => app_step ACopy u
  | ToggleQR => app_step AToggleQR u
  | SelectLink | PickFile => Some u
  | FileSelect =>
      match d_file d with Some f => app_step (AFile (d_url d) f (d_ivs d)) u | None => Some u end
  | InputChange v => app_step (AInput v) u
  | SendMessage => app_step (ASend (d_iv d)) u
  | ToggleCanvas => Some (set_canvas (canvas_do (u_canvas u) Toggle) u)
  | ClearCanvas => Some (set_canvas (canvas_do (u_canvas u) Clear) u)
  | CanvasShare =>
      if cv_visible (u_canvas u) then app_step (ACanvas (d_dataURL d) (d_blob d) (d_ivs d)) u else Some u
  end.

Fixpoint perform_all (d : draws) (acts : list action) (u : ui) : option ui :=
  match acts with [] => Some u | act :: acts => u ← perform d act u; perform_all d acts u end.

(** ** After a render *)

Definition commit_app (a : app) : app := set_call_manager (commit_call (a_call a)) (with_rm commit a).

Definition see (a : app) (u : ui) : ui :=
  Ui a a (u_crashed u) (u_showField u) (u_canvas u) (u_countdown u) (u_elements u) (u_observed u) (u_next u)
     (u_qr u) (u_qrDeps u) (u_mic u).

(** The form on the page: the join view's, the modal's, or none. *)
Definition form_shown (p : AppState.page) : option bool :=
  if negb (pg_chat p) then Some false else if pg_showJoinModal p then Some true else None.

(** React keeps the element of a key that was there, and makes a new one for
    another. *)
Fixpoint mount_messages (msgs : list ui_message) (old : list (jsstr * nat)) (next : nat) : list (ui_message * nat) * nat :=
  match msgs with
  | [] => ([], next)
  | msg :: msgs =>
      let '(el, next) := match map_get old (um_id msg) with Some el => (el, next) | None => (next, S next) end in
      let '(els, next) := mount_messages msgs old next in
      ((msg, el) :: els, next)
  end.

(** The [ref] of a message, called with its element. *)
Definition ref_callback (u : ui) (x : ui_message * nat) : ui :=
  let '(msg, el) := x in
  if negb (um_own msg) && is_some (pg_observer (a_page (u_app u))) && negb (set_has (u_observed u) el) then
    set_elements (u_elements u) (u_observed u ++ [el]) (u_next u) (set_app (with_page (observe el (um_id msg)) (u_app u)) u)
  else u.

Definition message_refs (u : ui) : ui :=
  let '(els, next) := mount_messages (rs_messages (room_shown u)) (u_elements u) (u_next u) in
  fold_left ref_callback els (set_elements ((λ x, (um_id x.1, x.2)) <$> els) (u_observed u) next u).

(** The gateway gives the expiry as a number. *)
Definition expiry (s : room_state) : option Z := match rs_expiresAt s with Some (JNum e) => Some e | _ => None end.

Definition countdown_of (u : ui) : countdown :=
  render (expiry (room_shown u)) (default (new_countdown (cl_now (a_client (u_app u)))) (u_countdown u)).

Definition qr_effect (u : ui) : ui :=
  let deps := (rs_shareLink (room_shown u), shown_room u) in
  if bool_decide (u_qrDeps u = Some deps) then u
  else set_qr (map (λ q, QrCall (q_room q) true) (u_qr u) ++
               (if str_empty deps.1 then [] else [QrCall deps.2 false])) (Some deps) u.

Definition mic_effect (u : ui) : ui :=
  match u_mic u with
  | MicUnasked => if pg_chat (page u) then set_mic (MicAt (cl_now (a_client (u_app u)) + MIC_PROMPT_MS)) u else u
  | _ => u
  end.

(** The state a component has when it is not mounted. *)
Definition unmount_chat (u : ui) : ui :=
  set_canvas mount_canvas (set_countdown None (set_elements [] [] (u_next u) u)).

(** What the next render reads. *)
Definition rendered (u : ui) : ui :=
  let form := form_shown (page u) in
  let u := see (commit_app (u_app u)) u in
  let u := if bool_decide (form_shown (page u) = form) then u else set_showField false u in
  if pg_chat (page u) then u else unmount_chat u.

(** React renders [App], and runs the effects, the view's first. *)
Definition commit_ui (u : ui) : ui :=
  if u_crashed u then u
  else
    let u := rendered u in
    match render_page u with
    | Throw _ => crash u
    | Ok _ =>
        if pg_chat (page u) then
          let u := message_refs u in
          let cd := countdown_of u in
          if cd_crashed cd then crash u else mic_effect (qr_effect (set_countdown (Some cd) u))
        else mic_effect (qr_effect u)
    end.

(** ** Runs *)

Inductive ui_label :=
  (** The user: an event on the element of the tree's [c]th chain, the pointer
      over the canvas. *)
  | UEvent (d : draws) (c : nat) (e : user_event)
  | UPointer (p : pointer)
  (** React and the browser. *)
  | URender
  | UTick (id : nat)
  | UQR (i : nat) (url : jsstr)
  | UMic
  | UInView (el : nat) (intersecting : bool)
  | UWait (d : Z)
  (** Promises, timers and the network. *)
  | UApp (l : app_label).

Definition outside (l : app_label) : bool :=
  match l with
  | AResume _ | ARotator _ _ _ | AMedia _ _ | ACopied _ | ATyping _ | AStale _ | AProgress _
  | ASocket _ | AReceive _ _ _ | AMesh _ | AP2P _ _ _ | AIsP2P _ _ | AStream _ _ => true
  | _ => false
  end.

Definition elapse (d : Z) (u : ui) : ui :=
  set_countdown
    ((λ c, Countdown (cd_expiresAt c) (cd_timeRemaining c) (cd_timer c) (advance (cd_clock c) d) (cd_left c) (cd_crashed c))
       <$> u_countdown u) u.

Definition tick (id : nat) (u : ui) : option ui :=
  cd ← u_countdown u;
  cd' ← countdown_fires id cd;
  let u := set_countdown (Some cd') u in
  if Nat.ltb (length (cd_left cd)) (length (cd_left cd')) then app_step (ALeave (shown_room u)) u else Some u.

Definition ui_exec (u : ui) (l : ui_label) : option ui :=
  if u_crashed u then None
  else match l with
  | UEvent d c e =>
      match render_page u with
      | Ok tree => chain ← chains [] tree !! c; calls ← user_calls e chain; perform_all d calls u
      | Throw _ => None
      end
  | UPointer p =>
      match p with Toggle | Clear => None | _ => Some (set_canvas (canvas_do (u_canvas u) p) u) end
  | URender => Some (commit_ui u)
  | UTick id => tick id u
  | UQR i url =>
      q ← u_qr u !! i;
      if q_cancelled q then Some u
      else app_step (AQR (q_room q) url) (set_qr (<[i := QrCall (q_room q) true]> (u_qr u)) (u_qrDeps u) u)
  | UMic =>
      match u_mic u with
      | MicAt t => if t <=? cl_now (a_client (u_app u)) then Some (set_mic MicAsked u) else None
      | _ => None
      end
  | UInView el b =>
      if negb b || set_has (u_elements u).*2 el then app_step (AInView el b) u else None
  | UWait d => u ← app_step (AWait d) u; Some (elapse d u)
  | UApp l => if outside l then app_step l u else None
  end.

Fixpoint ui_run (u : ui) (ls : list ui_label) : option ui :=
  match ls with [] => Some u | l :: ls => u' ← ui_exec u l; ui_run u' ls end.

(** The page opens on a fragment; [nickname] and [fresh] are the names the
    generators propose. *)
Definition open_page (nickname fresh hash : jsstr) (now : Z) : result ui :=
  joinRoom ← initial_room hash fresh;
  m ← mount_hash hash (new_room_manager now);
  let a := with_rm (λ _, m) (with_page (set_form joinRoom [] 0) (new_app nickname now)) in
  Ok (Ui a a false false mount_canvas None [] [] 0 [] None MicUnasked).

(** ** The page can be shown *)

Section Shown.
Context (given : jsstr → Prop).

Definition draws_ok (d : draws) : Prop := given (d_url d) ∧ given (d_dataURL d).

Definition ui_label_ok (l : ui_label) : Prop :=
  match l with
  | UEvent d _ _ => draws_ok d
  | UQR _ url => url = [] ∨ given url
  | UApp l => label_ok given l
  | _ => True
  end.

Lemma safe_app_step l u u' : label_ok given l → safe given (u_app u) → app_step l u = Some u' → safe given (u_app u').
Proof. intros Hl Ha (a & E & [= <-])%bind_Some. by eapply safe_exec. Qed.

Lemma safe_perform d act u u' : draws_ok d → safe given (u_app u) → perform d act u = Some u' → safe given (u_app u').
Proof.
  intros [Hd1 Hd2] Ha E. destruct act; cbn [perform] in E;
    try (by injection E as <-); try (by eapply safe_app_step; [|exact Ha|exact E]).
  - destruct (d_random d) as [[r1 r2] r3]. by eapply safe_app_step; [|exact Ha|exact E].
  - apply bind_Some in E as (u1 & E1 & E2). eapply safe_app_step; [| |exact E2]; [done|].
    by eapply safe_app_step; [|exact Ha|exact E1].
  - destruct (d_file d); [|by injection E as <-]. by eapply safe_app_step; [|exact Ha|exact E].
  - destruct (cv_visible _); [|by injection E as <-]. by eapply safe_app_step; [|exact Ha|exact E].
Qed.

Lemma safe_perform_all d acts u u' :
  draws_ok d → safe given (u_app u) → perform_all d acts u = Some u' → safe given (u_app u').
Proof.
  intros Hd. revert u. induction acts as [|act acts IH]; intros u Ha; cbn [perform_all]; [by intros [= <-]|].
  intros (u1 & E1 & E2)%bind_Some. eapply IH; [|exact E2]. by eapply safe_perform.
Qed.

Lemma safe_refs els u : safe given (u_app u) → safe given (u_app (fold_left ref_callback els u)).
Proof.
  revert u. induction els as [|[msg el] els IH]; intros u Ha; [done|]. cbn. apply IH.
  destruct (negb _ && _ && _); [|done]. by apply (safe_frame given (u_app u)).
Qed.

Lemma crashed_effects u : u_crashed (mic_effect (qr_effect u)) = u_crashed u.
Proof.
  assert (∀ v, u_crashed (mic_effect v) = u_crashed v) as Hm.
  { intros v. unfold mic_effect. destruct (u_mic v); try done. by destruct (pg_chat _). }
  rewrite Hm. unfold qr_effect. by case_bool_decide.
Qed.

Lemma crashed_refs u : u_crashed (message_refs u) = u_crashed u.
Proof.
  unfold message_refs. destruct (mount_messages _ _ _) as [els next]. cbn zeta.
  assert (∀ v, u_crashed (fold_left ref_callback els v) = u_crashed v) as Hf; [|by rewrite Hf].
  induction els as [|[msg el] els IH]; intros v; [done|]. cbn. rewrite IH. by destruct (negb _ && _ && _).
Qed.

Lemma ui_run_snoc u ls l u' : ui_run u (ls ++ [l]) = Some u' → ∃ u1, ui_run u ls = Some u1 ∧ ui_exec u1 l = Some u'.
Proof.
  revert u. induction ls as [|l0 ls IH]; intros u; cbn [Datatypes.app ui_run].
  - intros (u1 & E & [= <-])%bind_Some. by exists u.
  - intros (u1 & E & (u2 & E1 & E2)%IH)%bind_Some. exists u2. split; [|done]. by rewrite E.
Qed.

Lemma app_rendered u : u_app (rendered u) = commit_app (u_app u) ∧ u_seen (rendered u) = commit_app (u_app u) ∧
  u_crashed (rendered u) = u_crashed u.
Proof. unfold rendered. case_bool_decide; cbn; by destruct (pg_chat _). Qed.

Lemma app_effects u : u_app (mic_effect (qr_effect u)) = u_app u.
Proof.
  assert (∀ u, u_app (mic_effect u) = u_app u) as Hm.
  { intros v. unfold mic_effect. destruct (u_mic v); try done. by destruct (pg_chat _). }
  rewrite Hm. unfold qr_effect. by case_bool_decide.
Qed.

Lemma safe_message_refs u : safe given (u_app u) → safe given (u_app (message_refs u)).
Proof.
  intros Ha. unfold message_refs. destruct (mount_messages _ _ _) as [els next]. by apply safe_refs.
Qed.

Lemma safe_commit_ui u :
  safe given (u_app u) → u_crashed (commit_ui u) = false → safe given (u_app (commit_ui u)).
Proof.
  intros Ha. unfold commit_ui. destruct (u_crashed u) eqn:Ec; [congruence|]. destruct (app_rendered u) as (E1 & _ & _).
  assert (safe given (u_app (rendered u))) as Hr by (rewrite E1; by apply safe_commit).
  destruct (render_page (rendered u)); [|done]. destruct (pg_chat _); [|by rewrite app_effects].
  destruct (cd_crashed _); [done|]. intros _. rewrite app_effects. by apply safe_message_refs.
Qed.

Lemma safe_ui_exec u l u' :
  ui_label_ok l → safe given (u_app u) → ui_exec u l = Some u' → u_crashed u' = true ∨ safe given (u_app u').
Proof.
  intros Hl Ha. unfold ui_exec. destruct (u_crashed u); [done|]. destruct l as [d c e|p| |id|i url| |el b|d|l]; cbn in Hl.
  - destruct (render_page u); [|done]. intros (chain & _ & (calls & _ & E)%bind_Some)%bind_Some. right.
    by eapply safe_perform_all.
  - destruct p; try done; intros [= <-]; by right.
  - intros [= <-]. destruct (u_crashed (commit_ui u)) eqn:E; [by left|right]. by apply safe_commit_ui.
  - unfold tick. intros (cd & _ & (cd' & _ & E)%bind_Some)%bind_Some. right.
    destruct (Nat.ltb _ _); [|by injection E as <-]. by refine (safe_app_step _ _ _ _ _ E).
  - intros (q & _ & E)%bind_Some. right. destruct (q_cancelled q); [by injection E as <-|].
    by refine (safe_app_step _ _ _ _ _ E).
  - destruct (u_mic u); try done. destruct (_ <=? _); [|done]. intros [= <-]. by right.
  - destruct (_ || _); [|done]. intros E. right. by eapply safe_app_step; [|exact Ha|exact E].
  - intros (u1 & E & [= <-])%bind_Some. right. eapply safe_app_step in E; [|done|done]. done.
  - destruct (outside l); [|done]. intros E. right. by eapply safe_app_step; [|exact Ha|exact E].
Qed.

Lemma safe_ui_run u ls u' :
  Forall ui_label_ok ls → u_crashed u' = false → safe given (u_app u) → ui_run u ls = Some u' → safe given (u_app u').
Proof.
  intros Hls Hc. revert u. induction Hls as [|l ls Hl _ IH]; intros u Ha; cbn [ui_run]; [by intros [= <-]|].
  intros (u1 & E1 & E2)%bind_Some. destruct (safe_ui_exec u l u1 Hl Ha E1) as [Hcr|Hs]; [|by eapply IH].
  destruct ls as [|l' ls]; cbn [ui_run] in E2; [congruence|]. unfold ui_exec in E2. by rewrite Hcr in E2.
Qed.

Lemma peer_title_ok v : names_ok v → ∃ title, peer_title v = Ok title.
Proof.
  intros (fs & -> & Hfs). unfold peer_title. cbn [spread].
  destruct (mapM_total js_String (filter (λ v, truthy (Some v) = true) fs.*2)) as [names ->]; [|by eexists].
  apply Forall_forall. intros x [_ ([k v] & -> & Hin)%list_elem_of_fmap]%list_elem_of_filter.
  rewrite Forall_forall in Hfs. destruct (Hfs _ Hin) as [s Hs]. cbn in *. subst v. by eexists.
Qed.

(** In a state that is safe, the next render does not throw. *)
Lemma render_safe u :
  safe given (u_app u) → u_crashed u = false →
  ∃ tree, render_page (rendered u) = Ok tree ∧ ∀ x, x ∈ addresses tree → given x.
Proof.
  intros Ha Hc. destruct (app_rendered u) as (_ & Es & Ecr).
  unfold render_page. rewrite Ecr, Hc. destruct (pg_chat (page (rendered u))); [|eexists; split; [done|]].
  2: { rewrite join_addresses. by intros x ?%not_elem_of_nil. }
  assert (room_ok given (room_shown (rendered u))) as (K1 & K2 & K3 & K4).
  { unfold room_shown. rewrite Es. apply getRoomState_ok, safe_commit, Ha. }
  destruct (chat_view_total (chat_props_of (rendered u))) as [tree Ht].
  - cbn. by destruct K1 as [n ->].
  - cbn. by apply peer_title_ok.
  - cbn. eapply Forall_impl; [exact K3|]. intros msg [Hs _]. exact Hs.
  - exists tree. split; [done|]. intros x Hx. destruct (chat_addresses _ _ _ Ht Hx) as [[E Hne]|(msg & m & Hin & Hm & ->)].
    + cbn in E. rewrite E in Hne |- *. by destruct K4.
    + cbn in Hin. rewrite Forall_forall in K3. by apply (K3 _ Hin).
Qed.

Lemma safe_open nickname fresh hash now u0 : open_page nickname fresh hash now = Ok u0 → safe given (u_app u0) ∧ u_crashed u0 = false.
Proof.
  intros Ho. unfold open_page in Ho. apply bind_Ok in Ho as (joinRoom & _ & (m & Hm & [= <-])%bind_Ok). split; [|done]. cbn.
  assert (rm_rooms m = [] ∧ rm_roomsRef m = []) as [E1 E2].
  { unfold mount_hash in Hm. destruct (split_hash hash) as [[[|c r] [|k ks]]|]; try (by injection Hm as <-).
    by apply bind_Ok in Hm as (room & _ & [= <-]). }
  split; cbn; rewrite ?E1, ?E2; try constructor. by exists [].
Qed.

(** Nothing but a render takes the page down. *)
Lemma crash_is_render u l u' : ui_exec u l = Some u' → u_crashed u' = true → l = URender.
Proof.
  assert (∀ l0 v v', app_step l0 v = Some v' → u_crashed v' = u_crashed v) as Hs.
  { intros l0 v v' (a & _ & [= <-])%bind_Some. done. }
  assert (∀ d act v v', perform d act v = Some v' → u_crashed v' = u_crashed v) as Hp.
  { intros d act v v' E. destruct act; cbn [perform] in E; try (by injection E as <-); try (by eapply Hs).
    all: try (apply bind_Some in E as (v1 & E1 & E2); apply Hs in E1, E2; congruence).
    - destruct (d_random d) as [[r1 r2] r3]. by eapply Hs.
    - destruct (d_file d); [by eapply Hs|by injection E as <-].
    - destruct (cv_visible _); [by eapply Hs|by injection E as <-]. }
  assert (∀ d acts v v', perform_all d acts v = Some v' → u_crashed v' = u_crashed v) as Hpa.
  { intros d acts. induction acts as [|act acts IH]; intros v v'; cbn [perform_all]; [by intros [= <-]|].
    intros (v1 & E1 & E2)%bind_Some. apply IH in E2. apply Hp in E1. congruence. }
  intros E Hc. unfold ui_exec in E. destruct (u_crashed u) eqn:Hu; [done|].
  assert (u_crashed u' = u_crashed u → False) as Hno by congruence.
  destruct l as [d c e|p| |id|i url| |el b|d|l]; try done; exfalso; apply Hno.
  - destruct (render_page u); [|done]. apply bind_Some in E as (chain & _ & (calls & _ & E)%bind_Some). by eapply Hpa.
  - destruct p; try done; by injection E as <-.
  - unfold tick in E. apply bind_Some in E as (cd & _ & (cd' & _ & E)%bind_Some).
    destruct (Nat.ltb _ _); [by apply Hs in E|by injection E as <-].
  - apply bind_Some in E as (q & _ & E). destruct (q_cancelled q); [by injection E as <-|by apply Hs in E].
  - destruct (u_mic u); try done. destruct (_ <=? _); [|done]. by injection E as <-.
  - destruct (_ || _); [|done]. by eapply Hs.
  - apply bind_Some in E as (u1 & E & [= <-]). by apply Hs in E.
  - destruct (outside l); [|done]. by eapply Hs.
Qed.

End Shown.
End AppUi.

(** ** A page *)

Module UiExamples.
Import Toy AppExamples.

Definition times (m : ui_message) : jsstr := lit "12:00".
Definition picked : draws :=
  Draws base (salt 1) k1 toy_iv (0, 0, 0) None (lit "blob:1") None (lit "data:1") (λ _, toy_iv).

Abbreviation ui_run := (ui_run uuid [] None times).
Abbreviation ui := (@ui toy).

(** Alice opens the page, clicks on the button of the join form, and is in. *)
Definition joins_room : list ui_label :=
  [UEvent picked 15 Click; UApp (AResume 0); UApp (AResume 1); UApp (ASocket (COpen 0)); UApp (AResume 2); URender].

Definition crashed (ls : list ui_label) : option bool :=
  match open_page (lit "alice") room [] 0 with Ok u => u_crashed <$> ui_run u ls | Throw _ => None end.

(** A peer's message over a data channel, with an id of its choice. *)
Definition peer_says (id : json) : list ui_label :=
  [UApp (AP2P room (JSON_stringify (JObj [(lit "type", JStr (lit "chat")); (lit "id", id)])) (lit "blob:2"));
   UApp (AResume 3); URender].

(** Anybody with a data channel, with the room's key or without, can take the
    page down: the id of a message is shown as the sender's name when no
    nickname goes with it, and React throws for an object. *)
Theorem peer_takes_page_down :
  crashed (joins_room ++ peer_says (JStr (lit "mallory"))) = Some false ∧
  crashed (joins_room ++ peer_says (JStr (lit "__proto__"))) = Some true ∧
  crashed (joins_room ++ peer_says (JArr [JObj []])) = Some true.
Proof. split_and!; vm_refl. Qed.

(** And a call goes on recording: nothing stops its tracks when the page goes. *)
Example microphone_outlives_page :
  (match open_page (lit "alice") room [] 0 with
   | Ok u => (λ u, (u_crashed u, tk_live <$> cm_tracks (a_call (u_app u)))) <$>
               ui_run u (joins_room ++ [UEvent picked 9 Click; UApp (AMedia 0 Granted); URender] ++ peer_says (JStr (lit "__proto__")))
   | Throw _ => None
   end) = Some (true, [true]).
Proof. vm_refl. Qed.

Definition some_files (x : jsstr) : Prop := x ∈ [lit "blob:1"; lit "blob:2"; lit "data:1"].

(** She types, sends, and hears from a peer. *)
Definition talks : list ui_label :=
  joins_room ++
  [UEvent picked 24 (Input (lit "hi")); URender; UEvent picked 25 Click; UApp (AResume 3); URender;
   UApp (AP2P room (JSON_stringify (JObj [(lit "type", JStr (lit "chat")); (lit "id", JStr (lit "mallory"))])) (lit "blob:2"));
   UApp (AResume 4)].

End UiExamples.
