(* ===== verification/UiFacts.v ===== *)
(** * What holds of the page in every run

    An invariant of AppUi.v, over the form, the elements on the page and those
    that are watched; and that an element that was seen reports its message
    once. *)

From S2P Require Import Prelude JsLib Json Crypto Timers Mime MediaSend Client Rooms Typing WebRTC MeshHook CallManager.
From S2P Require Import View Dom JoinView ChatView AppState App AppFacts AppPage AppUi.

Local Open Scope Z_scope.

Section UiFacts.
Context `{WebCrypto} (randomUUID : nat → jsstr) (twice_error : jsstr) (env : option Z) (message_time : ui_message → jsstr).

Abbreviation app_exec := (app_exec randomUUID twice_error env).
Abbreviation app_step := (app_step randomUUID twice_error env).
Abbreviation perform := (perform randomUUID twice_error env).
Abbreviation ui_exec := (ui_exec randomUUID twice_error env message_time).
Abbreviation ui_run := (ui_run randomUUID twice_error env message_time).

(** ** Steps between two renders *)

(** The form within its limits. *)
Definition form_ok (a : app) : Prop :=
  (length (a_nickname a) ≤ MAX_NICKNAME_LEN)%nat ∧ pg_ttl (a_page a) ∈ ttl_options.*1.

Definition form_label (l : app_label) : Prop :=
  match l with
  | ANickname name => (length name ≤ MAX_NICKNAME_LEN)%nat
  | AForm _ _ ttl => ttl ∈ ttl_options.*1
  | _ => True
  end.

(** The room of the handlers stays, no element is watched that was not, and the
    form stays within its limits. *)
Definition moves (a a' : app) : Prop :=
  activeRoom a' = activeRoom a ∧ watched (a_page a') ⊆ watched (a_page a) ∧ (form_ok a → form_ok a').

Lemma moves_refl a : moves a a.
Proof. done. Qed.

Lemma moves_trans a1 a2 a3 : moves a1 a2 → moves a2 a3 → moves a1 a3.
Proof. intros (E1 & E2 & E3) (F1 & F2 & F3). split_and!; [congruence|set_solver|auto]. Qed.

Lemma moves_face a a' : face a' = face a → moves a a'.
Proof.
  unfold face. intros E. injection E as E1 E2 E3 E4. unfold moves, form_ok, activeRoom. by rewrite E1, E2, E3, E4.
Qed.

Lemma moves_leave room a : moves a (leaveRoom randomUUID room a).
Proof.
  destruct (face_leave randomUUID room a) as [[Hs _]|E]; [by apply moves_face|].
  unfold face in E. injection E as E1 E2 E3 E4. unfold moves, form_ok, activeRoom. rewrite E1, E2, E3, E4.
  split_and!; [done|set_solver|intros _]. split; [cbn; lia|decided].
Qed.

Lemma moves_in_view entry a : moves a (in_view randomUUID entry a).
Proof.
  unfold in_view. destruct (map_get _ _) as [[|c s]|]; [apply moves_refl| |apply moves_refl].
  destruct entry.2; [|apply moves_refl]. split_and!; [done| |done]. unfold unobserve, watched. cbn.
  destruct (pg_observer (a_page a)) as [w|]; [|set_solver]. cbn. intros x [_ Hx]%list_elem_of_filter. exact Hx.
Qed.

Lemma moves_exec l a a' :
  match l with ACommit | AObserve _ _ => False | _ => True end → form_label l → app_exec a l = Some a' → moves a a'.
Proof.
  intros Hl Hf E. destruct (touches l) eqn:Et; [|by eapply moves_face, face_exec].
  destruct l; try discriminate Et; try done; cbn [App.app_exec form_label] in *; injection E as <-.
  - apply moves_leave.
  - split_and!; [done|done|]. intros [_ Ht]. by split.
  - split_and!; [done|done|]. intros [Hn _]. by split.
  - apply moves_in_view.
Qed.

(** What is not of the application in the page's state. *)
Definition rest (u : ui) : app * list (jsstr * nat) * list nat * nat := (u_seen u, u_elements u, u_observed u, u_next u).

Definition ui_moves (u u' : ui) : Prop := rest u' = rest u ∧ moves (u_app u) (u_app u').

Lemma ui_moves_trans u1 u2 u3 : ui_moves u1 u2 → ui_moves u2 u3 → ui_moves u1 u3.
Proof. intros [E1 M1] [E2 M2]. split; [congruence|by eapply moves_trans]. Qed.

Lemma ui_moves_app_step l u u' :
  match l with ACommit | AObserve _ _ => False | _ => True end → form_label l → app_step l u = Some u' → ui_moves u u'.
Proof. intros Hl Hf (a & E & [= <-])%bind_Some. split; [done|]. by eapply moves_exec. Qed.

(** The calls a user's event on the page can make. *)
Definition action_ok (act : action) : Prop :=
  match act with
  | SetNickname v => (length v ≤ MAX_NICKNAME_LEN)%nat
  | SetTtl n => n ∈ ttl_options.*1
  | _ => True
  end.

Lemma form_calls_ok modal u l : form_calls (join_props_of modal u) l → Forall action_ok l.
Proof.
  intros Hl. destruct Hl as [|v Hv|act E|v Hv| |v E|E|n Hn| |act Em E]; repeat apply Forall_cons_2; try apply Forall_nil_2;
    try done; destruct modal; try discriminate E; by injection E as <-.
Qed.

Lemma chat_calls_ok u l : chat_calls (chat_props_of message_time u) l → Forall action_ok l.
Proof.
  intros Hl. destruct Hl; repeat apply Forall_cons_2; try apply Forall_nil_2; try done.
  cbn in H0. destruct (pg_showJoinModal (page u)); [|discriminate H0]. injection H0 as <-. by eapply form_calls_ok.
Qed.

Lemma tree_calls_ok u tree chain e l :
  render_page message_time u = Ok tree → chain ∈ chains [] tree → user_calls e chain = Some l → Forall action_ok l.
Proof.
  unfold render_page. destruct (u_crashed u).
  - intros [= <-] Hc. by apply not_elem_of_nil in Hc.
  - destruct (pg_chat (page u)).
    + intros Ht Hc Hl. apply (chat_calls_ok u). by eapply chat_events.
    + intros [= <-] Hc Hl. apply (form_calls_ok false u). revert chain e l Hc Hl. by apply join_view_events.
Qed.

Lemma ui_moves_perform d act u u' : form_ok (u_app u) → action_ok act → perform d act u = Some u' → ui_moves u u'.
Proof.
  intros [Hn Ht] Ha E. destruct act; cbn [AppUi.perform action_ok] in *;
    try (by injection E as <-); try (by eapply ui_moves_app_step; [| |exact E]).
  - destruct (d_random d) as [[r1 r2] r3]. by eapply ui_moves_app_step; [| |exact E].
  - destruct (d_file d); [|by injection E as <-]. by eapply ui_moves_app_step; [| |exact E].
  - destruct (cv_visible _); [|by injection E as <-]. by eapply ui_moves_app_step; [| |exact E].
Qed.

Lemma ui_moves_perform_all d acts u u' :
  form_ok (u_app u) → Forall action_ok acts → perform_all randomUUID twice_error env d acts u = Some u' → ui_moves u u'.
Proof.
  intros Hf Ha. revert u Hf. induction Ha as [|act acts Hact _ IH]; intros u Hf; cbn [perform_all]; [by intros [= <-]|].
  intros (u1 & E1 & E2)%bind_Some. pose proof (ui_moves_perform d act u u1 Hf Hact E1) as M.
  eapply ui_moves_trans; [exact M|]. apply IH; [by apply M|done].
Qed.

(** A step that is not a render. *)
Lemma ui_moves_exec u l u' : form_ok (u_app u) → ui_exec u l = Some u' → l = URender ∨ ui_moves u u'.
Proof.
  intros Hf. unfold AppUi.ui_exec. destruct (u_crashed u); [done|]. destruct l as [d c e|p| |id|i url| |el b|d|l].
  - destruct (render_page message_time u) as [tree|] eqn:Et; [|done].
    intros (chain & Hc & (calls & Hl & E)%bind_Some)%bind_Some. right. apply list_elem_of_lookup_2 in Hc.
    eapply ui_moves_perform_all; [done| |exact E]. by eapply tree_calls_ok.
  - destruct p; try done; intros [= <-]; by right.
  - by left.
  - unfold tick. intros (cd & _ & (cd' & _ & E)%bind_Some)%bind_Some. right.
    destruct (Nat.ltb _ _); [|by injection E as <-]. eapply ui_moves_trans; [|by eapply ui_moves_app_step; [| |exact E]]. done.
  - intros (q & _ & E)%bind_Some. right. destruct (q_cancelled q); [by injection E as <-|].
    eapply ui_moves_trans; [|by eapply ui_moves_app_step; [| |exact E]]. done.
  - destruct (u_mic u); try done. destruct (_ <=? _); [|done]. intros [= <-]. by right.
  - destruct (_ || _); [|done]. intros E. right. by eapply ui_moves_app_step; [| |exact E].
  - intros (u1 & E & [= <-])%bind_Some. right. eapply ui_moves_trans; [by eapply ui_moves_app_step; [| |exact E]|]. done.
  - destruct (outside l) eqn:Eo; [|done]. intros E. right. by eapply ui_moves_app_step; [| |exact E]; destruct l.
Qed.

(** ** A render *)

Definition on_page (u : ui) : list nat := (u_elements u).*2.

(** An element that was there, and is not watched any more. *)
Definition spent (el : nat) (u : ui) : Prop :=
  (el < u_next u)%nat ∧ el ∉ (watched (a_page (u_app u))).*1 ∧ (el ∈ on_page u → el ∈ u_observed u).

Record ui_inv (u : ui) : Prop := {
  i_form : form_ok (u_app u);
  i_seen : pg_ttl (page u) ∈ ttl_options.*1;
  i_room : activeRoom (u_app u) = shown_room u;
  i_elements el : el ∈ on_page u → (el < u_next u)%nat;
  i_watched el : el ∈ (watched (a_page (u_app u))).*1 → (el < u_next u)%nat ∧ (el ∈ on_page u → el ∈ u_observed u)
}.

Lemma watched_moves a a' el : moves a a' → el ∈ (watched (a_page a')).*1 → el ∈ (watched (a_page a)).*1.
Proof. intros (_ & Hw & _) (x & -> & Hx)%list_elem_of_fmap. apply list_elem_of_fmap. exists x. auto. Qed.

Lemma inv_moves u u' : ui_moves u u' → ui_inv u → ui_inv u'.
Proof.
  intros [E M] [H1 H2 H3 H4 H5]. unfold rest in E. injection E as Es Ee Eo En. pose proof M as (Ma & Mw & Mf).
  split; unfold on_page, page, shown_room in *; rewrite ?Es, ?Ee, ?Eo, ?En; auto; [congruence|].
  intros el Hel. apply H5. by eapply watched_moves.
Qed.

Lemma spent_moves el u u' : ui_moves u u' → spent el u → spent el u'.
Proof.
  intros [E M] (H1 & H2 & H3). unfold rest in E. injection E as Es Ee Eo En. unfold spent, on_page in *. rewrite Ee, Eo, En.
  split_and!; [done| |done]. intros Hel. by apply H2, (watched_moves _ _ _ M).
Qed.

Lemma mount_range msgs old next els next' :
  mount_messages msgs old next = (els, next') →
  (next ≤ next')%nat ∧ ∀ el, el ∈ els.*2 → el ∈ old.*2 ∨ (next ≤ el < next')%nat.
Proof.
  revert next els. induction msgs as [|msg msgs IH]; intros next els; cbn.
  - intros [= <- <-]. split; [done|]. by intros el ?%not_elem_of_nil.
  - destruct (map_get old (um_id msg)) as [el0|] eqn:E.
    + destruct (mount_messages msgs old next) as [els1 n1] eqn:Em. intros [= <- <-].
      destruct (IH next els1 Em) as [H1 H2]. split; [done|]. intros el [->|Hel]%elem_of_cons; [|auto].
      left. apply map_get_Some_elem in E. apply list_elem_of_fmap. by exists (um_id msg, el0).
    + destruct (mount_messages msgs old (S next)) as [els1 n1] eqn:Em. intros [= <- <-].
      destruct (IH (S next) els1 Em) as [H1 H2]. split; [lia|]. intros el [->|Hel]%elem_of_cons; [right; cbn; lia|].
      destruct (H2 el Hel) as [Ho|Hr]; [by left|right; lia].
Qed.

(** One [ref] callback. *)
Lemma watched_observe el id p : (watched (observe el id p)).*1 ⊆ el :: (watched p).*1.
Proof.
  unfold observe, watched. destruct (pg_observer p) as [w|] eqn:Eo; [|rewrite Eo; set_solver]. cbn.
  intros x (y & -> & Hy)%list_elem_of_fmap. apply elem_of_app in Hy as [Hy|Hy]; [|set_solver].
  apply list_elem_of_filter in Hy as [_ Hy]. apply elem_of_cons. right. apply list_elem_of_fmap. by exists y.
Qed.

Lemma ref_spent el u x : x.2 ∈ on_page u → spent el u → spent el (ref_callback u x).
Proof.
  intros Hx (H1 & H2 & H3). destruct x as [msg e]. cbn in Hx. unfold ref_callback.
  destruct (negb (um_own msg) && _ && negb (set_has (u_observed u) e)) eqn:Eb; [|done].
  apply andb_true_iff in Eb as [_ He]. apply negb_true_iff in He.
  assert (e ∉ u_observed u) as Hno by (intros Hin; apply set_has_true in Hin; congruence).
  split_and!; [done| |].
  - intros Hin. cbn in Hin. apply watched_observe in Hin as [->|Hin]%elem_of_cons; [by apply Hno, H3|done].
  - cbn. intros Hin. apply elem_of_app. left. by apply H3.
Qed.

(** What a [ref] callback keeps of the invariant. *)
Record refs_inv (u : ui) : Prop := {
  r_elements el : el ∈ on_page u → (el < u_next u)%nat;
  r_watched el : el ∈ (watched (a_page (u_app u))).*1 → (el < u_next u)%nat ∧ (el ∈ on_page u → el ∈ u_observed u)
}.

Lemma ref_inv u x : x.2 ∈ on_page u → refs_inv u → refs_inv (ref_callback u x).
Proof.
  intros Hx [H1 H2]. destruct x as [msg e]. cbn in Hx. unfold ref_callback. destruct (_ && _); [|done]. split; [exact H1|].
  intros el Hin. cbn in Hin |- *. apply watched_observe in Hin as [->|Hin]%elem_of_cons.
  - split; [by apply H1|]. intros _. apply elem_of_app. right. by apply list_elem_of_singleton.
  - destruct (H2 el Hin) as [H3 H4]. split; [done|]. intros Hp. apply elem_of_app. left. by apply H4.
Qed.

(** The callbacks of a render touch neither the form nor the room. *)
Lemma refs_face u x :
  let u' := ref_callback u x in
  u_seen u' = u_seen u ∧ u_elements u' = u_elements u ∧ u_next u' = u_next u ∧ u_crashed u' = u_crashed u ∧
  activeRoom (u_app u') = activeRoom (u_app u) ∧ (form_ok (u_app u) → form_ok (u_app u')).
Proof.
  destruct x as [msg e]. unfold ref_callback. destruct (_ && _); [|done]. cbn. split_and!; try done.
  intros [Hn Ht]. split; [done|]. cbn. unfold observe. by destruct (pg_observer _).
Qed.

Lemma refs_fold (P : ui → Prop) els u :
  (∀ v x, u_elements v = u_elements u → x.2 ∈ on_page v → P v → P (ref_callback v x)) →
  (∀ x, x ∈ els → x.2 ∈ on_page u) → P u → P (fold_left ref_callback els u).
Proof.
  intros Hstep Hels Hu.
  enough (P (fold_left ref_callback els u) ∧ u_elements (fold_left ref_callback els u) = u_elements u) as H0 by apply H0.
  set (E := u_elements u) in *. assert (∀ v, P v → u_elements v = E → P (fold_left ref_callback els v) ∧
    u_elements (fold_left ref_callback els v) = E) as Hf; [|by apply Hf].
  clear Hu. induction els as [|x els IH]; intros v Hv Ev; [done|]. cbn. apply IH.
  - intros y Hy. apply Hels. by right.
  - apply Hstep; [done| |done]. unfold on_page. rewrite Ev. apply Hels. by left.
  - rewrite <- Ev. apply refs_face.
Qed.

Lemma spent_refs el u : spent el u → spent el (message_refs u).
Proof.
  intros (H1 & H2 & H3). unfold message_refs. destruct (mount_messages _ _ _) as [els next] eqn:Em.
  destruct (mount_range _ _ _ _ _ Em) as [Hn Hels].
  assert ((((λ x : ui_message * nat, (um_id x.1, x.2)) <$> els) : list (jsstr * nat)).*2 = els.*2) as Ef by (by rewrite <- list_fmap_compose).
  apply refs_fold.
  - intros v x _ Hx Hs. by apply ref_spent.
  - intros x Hx. unfold on_page. cbn. rewrite Ef. apply list_elem_of_fmap. by exists x.
  - split_and!; cbn; [lia|done|]. unfold on_page. cbn. rewrite Ef. intros Hel. destruct (Hels el Hel) as [Ho|Hr]; [by apply H3|lia].
Qed.

Lemma inv_refs u : refs_inv u → refs_inv (message_refs u).
Proof.
  intros [H1 H2]. unfold message_refs. destruct (mount_messages _ _ _) as [els next] eqn:Em.
  destruct (mount_range _ _ _ _ _ Em) as [Hn Hels].
  assert ((((λ x : ui_message * nat, (um_id x.1, x.2)) <$> els) : list (jsstr * nat)).*2 = els.*2) as Ef by (by rewrite <- list_fmap_compose).
  apply refs_fold.
  - intros v x _ Hx Hs. by apply ref_inv.
  - intros x Hx. unfold on_page. cbn. rewrite Ef. apply list_elem_of_fmap. by exists x.
  - split; unfold on_page; cbn; rewrite ?Ef.
    + intros el Hel. destruct (Hels el Hel) as [Ho|Hr]; [apply H1 in Ho; lia|lia].
    + intros el Hel. destruct (H2 el Hel) as [H3 H4]. split; [lia|]. intros Hp.
      destruct (Hels el Hp) as [Ho|Hr]; [by apply H4|lia].
Qed.

Lemma effects_rest c u :
  let u' := mic_effect (qr_effect (set_countdown c u)) in rest u' = rest u ∧ u_app u' = u_app u ∧ u_crashed u' = u_crashed u.
Proof.
  cbn zeta. set (u1 := qr_effect _). assert (rest u1 = rest u ∧ u_app u1 = u_app u ∧ u_crashed u1 = u_crashed u) as H1.
  { unfold u1, qr_effect. by case_bool_decide. }
  unfold mic_effect. destruct (u_mic u1); [|done..]. by destruct (pg_chat _).
Qed.

Lemma commit_cases u :
  u_crashed u = false → u_crashed (commit_ui message_time u) = true ∨
  ∃ v, (v = rendered u ∨ v = message_refs (rendered u)) ∧
    rest (commit_ui message_time u) = rest v ∧ u_app (commit_ui message_time u) = u_app v.
Proof.
  intros Hc. unfold commit_ui. rewrite Hc. destruct (render_page message_time (rendered u)); [|by left].
  destruct (pg_chat (page (rendered u))).
  - destruct (cd_crashed _); [by left|right]. exists (message_refs (rendered u)). split; [by right|].
    destruct (effects_rest (Some (countdown_of (message_refs (rendered u)))) (message_refs (rendered u))) as (-> & -> & _). done.
  - right. exists (rendered u). split; [by left|].
    destruct (effects_rest (u_countdown (rendered u)) (rendered u)) as (E1 & E2 & _).
    assert (set_countdown (u_countdown (rendered u)) (rendered u) = rendered u) as E by (by destruct (rendered u)).
    rewrite E in E1, E2. by rewrite E1, E2.
Qed.

Lemma rendered_facts u :
  u_app (rendered u) = commit_app (u_app u) ∧ u_seen (rendered u) = commit_app (u_app u) ∧ u_next (rendered u) = u_next u ∧
  ((u_elements (rendered u) = u_elements u ∧ u_observed (rendered u) = u_observed u) ∨
   (u_elements (rendered u) = [] ∧ u_observed (rendered u) = [])).
Proof. unfold rendered. case_bool_decide; cbn; destruct (pg_chat _); cbn; auto 10. Qed.

Lemma message_refs_face u :
  u_seen (message_refs u) = u_seen u ∧ activeRoom (u_app (message_refs u)) = activeRoom (u_app u) ∧
  (form_ok (u_app u) → form_ok (u_app (message_refs u))).
Proof.
  unfold message_refs. destruct (mount_messages _ _ _) as [els next]. set (u1 := set_elements _ _ _ u).
  change (u_seen u) with (u_seen u1). change (u_app u) with (u_app u1). clearbody u1.
  revert u1. induction els as [|x els IH]; intros v; [done|]. cbn.
  destruct (IH (ref_callback v x)) as (E1 & E2 & E3), (refs_face v x) as (F1 & _ & _ & _ & F2 & F3).
  split_and!; [congruence|congruence|auto].
Qed.

Lemma inv_commit u : u_crashed u = false → ui_inv u → u_crashed (commit_ui message_time u) = true ∨ ui_inv (commit_ui message_time u).
Proof.
  intros Hc [H1 H2 H3 H4 H5]. destruct (commit_cases u Hc) as [Hcr|(v & Hv & Er & Ea)]; [by left|right].
  destruct (rendered_facts u) as (Fa & Fs & Fn & Fe).
  assert (refs_inv (rendered u)) as Hr.
  { split; unfold on_page; rewrite ?Fn, ?Fa.
    - destruct Fe as [[-> _]|[-> _]]; [exact H4|by intros el ?%not_elem_of_nil].
    - destruct Fe as [[-> ->]|[-> ->]]; [exact H5|]. intros el Hel. split; [by apply (H5 el)|]. by intros ?%not_elem_of_nil. }
  assert (form_ok (u_app (rendered u)) ∧ pg_ttl (page (rendered u)) ∈ ttl_options.*1 ∧ activeRoom (u_app (rendered u)) = shown_room (rendered u))
    as (K1 & K2 & K3) by (unfold page, shown_room; rewrite Fa, Fs; split_and!; [exact H1|apply H1|done]).
  assert (refs_inv v ∧ form_ok (u_app v) ∧ pg_ttl (page v) ∈ ttl_options.*1 ∧ activeRoom (u_app v) = shown_room v) as ([L1 L2] & L3 & L4 & L5).
  { destruct Hv as [->| ->]; [done|]. destruct (message_refs_face (rendered u)) as (E1 & E2 & E3). unfold page, shown_room in *.
    rewrite E1, E2. split_and!; [by apply inv_refs|by apply E3|done|done]. }
  unfold rest in Er. injection Er as E1 E2 E3 E4.
  split; unfold on_page, page, shown_room in *; rewrite ?Ea, ?E1, ?E2, ?E3, ?E4; done.
Qed.

Lemma spent_commit el u : u_crashed u = false → spent el u → u_crashed (commit_ui message_time u) = true ∨ spent el (commit_ui message_time u).
Proof.
  intros Hc Hs. destruct (commit_cases u Hc) as [Hcr|(v & Hv & Er & Ea)]; [by left|right].
  destruct (rendered_facts u) as (Fa & Fs & Fn & Fe). destruct Hs as (H1 & H2 & H3).
  assert (spent el (rendered u)) as Hr.
  { unfold spent, on_page. rewrite Fn, Fa. split_and!; [done|done|]. destruct Fe as [[-> ->]|[-> ->]]; [done|]. by intros ?%not_elem_of_nil. }
  assert (spent el v) as Hsv by (destruct Hv as [->| ->]; [done|by apply spent_refs]).
  unfold rest in Er. injection Er as E1 E2 E3 E4. unfold spent, on_page in *. by rewrite Ea, E2, E3, E4.
Qed.

(** ** Runs *)

Lemma run_keeps (P : ui → Prop) u ls u' :
  (∀ v l v', u_crashed v = false → P v → ui_exec v l = Some v' → u_crashed v' = true ∨ P v') →
  P u → u_crashed u' = false → ui_run u ls = Some u' → P u'.
Proof.
  intros Hstep. revert u. induction ls as [|l ls IH]; intros u Hu Hc; cbn [AppUi.ui_run]; [by intros [= <-]|].
  intros (u1 & E1 & E2)%bind_Some. destruct (Hstep u l u1) as [Hcr|H1]; [|done|exact E1| |by eapply IH].
  - unfold AppUi.ui_exec in E1. by destruct (u_crashed u).
  - destruct ls as [|l' ls]; cbn [AppUi.ui_run] in E2; [congruence|]. unfold AppUi.ui_exec in E2 at 1. by rewrite Hcr in E2.
Qed.

Lemma inv_step v l v' : u_crashed v = false → ui_inv v → ui_exec v l = Some v' → u_crashed v' = true ∨ ui_inv v'.
Proof.
  intros Hc Hi E. destruct (ui_moves_exec v l v' (i_form _ Hi) E) as [->|M]; [|right; by eapply inv_moves].
  unfold AppUi.ui_exec in E. rewrite Hc in E. injection E as <-. by apply inv_commit.
Qed.

Lemma spent_step el v l v' :
  u_crashed v = false → ui_inv v ∧ spent el v → ui_exec v l = Some v' → u_crashed v' = true ∨ (ui_inv v' ∧ spent el v').
Proof.
  intros Hc [Hi Hs] E. destruct (inv_step v l v' Hc Hi E) as [Hcr|Hi']; [by left|].
  destruct (ui_moves_exec v l v' (i_form _ Hi) E) as [->|M]; [|right; split; [done|by eapply spent_moves]].
  unfold AppUi.ui_exec in E. rewrite Hc in E. injection E as <-. destruct (spent_commit el v Hc Hs); [by left|by right].
Qed.

Lemma inv_open nickname fresh hash now u0 :
  open_page nickname fresh hash now = Ok u0 → (length nickname ≤ MAX_NICKNAME_LEN)%nat → ui_inv u0.
Proof.
  intros Ho Hn. unfold open_page in Ho. apply bind_Ok in Ho as (joinRoom & _ & (m & Hm & [= <-])%bind_Ok).
  assert (rm_activeRoom m = [] ∧ rm_activeRoomRef m = []) as [E1 E2].
  { unfold mount_hash in Hm. destruct (split_hash hash) as [[[|c r] [|k ks]]|]; try (by injection Hm as <-).
    by apply bind_Ok in Hm as (room & _ & [= <-]). }
  split; try (by intros el ?%not_elem_of_nil).
  - split; [done|decided].
  - decided.
  - unfold activeRoom, shown_room. cbn. congruence.
Qed.

(** C13: the element that shows a message reports it as read once: when it has
    come into view and sent its receipt it never sends another, whatever is
    rendered, comes in, and is read in between, and however often it comes into
    view again. (Showing another room takes the element off the page; the
    message gets another one when its room is shown again.) *)
Theorem read_once nickname fresh hash now u0 ls1 u1 el u2 ls2 u3 u4 :
  open_page nickname fresh hash now = Ok u0 → (length nickname ≤ MAX_NICKNAME_LEN)%nat →
  ui_run u0 ls1 = Some u1 → u_crashed u1 = false →
  ui_exec u1 (UInView el true) = Some u2 → u_app u2 ≠ u_app u1 →
  ui_run u2 ls2 = Some u3 → u_crashed u3 = false →
  ui_exec u3 (UInView el true) = Some u4 → u_app u4 = u_app u3.
Proof.
  intros Ho Hn Hr1 Hc1 E Hne Hr2 Hc3 E4. pose proof (inv_open _ _ _ _ _ Ho Hn) as H0.
  pose proof (run_keeps ui_inv u0 ls1 u1 inv_step H0 Hc1 Hr1) as H1.
  assert (u_crashed u2 = false) as Hc2.
  { unfold AppUi.ui_exec in E. rewrite Hc1 in E. destruct (_ || _); [|done]. by apply bind_Some in E as (a & _ & [= <-]). }
  assert (ui_inv u2) as H2 by (destruct (inv_step u1 _ u2 Hc1 H1 E); [congruence|done]).
  assert (spent el u2) as Hs.
  { unfold AppUi.ui_exec in E. rewrite Hc1 in E. destruct (negb true || _) eqn:Ep; [|done]. apply set_has_true in Ep.
    injection E as <-. cbn in Hne. unfold in_view in *. cbn [fst snd] in *.
    destruct (map_get (watched (a_page (u_app u1))) el) as [[|c s]|] eqn:Ew; try done.
    apply map_get_Some_elem in Ew. assert (el ∈ (watched (a_page (u_app u1))).*1) as Hw by (apply list_elem_of_fmap; by exists (el, c :: s)).
    destruct (i_watched _ H1 el Hw) as [K1 K2]. split_and!; [done| |done]. cbn. unfold unobserve, watched. cbn.
    destruct (pg_observer (a_page (u_app u1))) as [w|]; [|apply not_elem_of_nil]. cbn.
    intros (x & Hx & [Hf _]%list_elem_of_filter)%list_elem_of_fmap. by apply Hf. }
  destruct (run_keeps (λ u, ui_inv u ∧ spent el u) u2 ls2 u3 (spent_step el) (conj H2 Hs) Hc3 Hr2) as [_ (_ & K & _)].
  unfold AppUi.ui_exec in E4. rewrite Hc3 in E4. destruct (_ || _); [|done]. injection E4 as <-. cbn. unfold in_view. cbn [fst].
  by rewrite (proj2 (map_get_None _ _)).
Qed.
End UiFacts.

Module UiRuns.
Import Toy AppExamples UiExamples.

(** Alice joins, a peer says something, she sees it, and another message comes. *)
Definition hears : list ui_label :=
  joins_room ++ [UApp (AP2P room (JSON_stringify (JObj [(lit "type", JStr (lit "chat")); (lit "id", JStr (lit "mallory"))])) (lit "blob:2"));
                 UApp (AResume 3); URender].
Definition goes_on : list ui_label :=
  [UApp (AP2P room (JSON_stringify (JObj [(lit "type", JStr (lit "chat")); (lit "id", JStr (lit "mallory"))])) (lit "blob:2"));
   UApp (AResume 4); URender].

(** How many receipts she sent. *)
Definition receipts (u : ui) : nat := length (wire_of "receipt" (u_app u)).

Abbreviation opened := (open_page (lit "alice") room [] 0).
Abbreviation uexec := (ui_exec uuid [] None times).

Lemma read_once_witness :
  ∃ u1 u2 u3 u4 : ui,
    (match opened with Ok u0 => ui_run u0 hears | Throw _ => None end) = Some u1 ∧
    uexec u1 (UInView 0 true) = Some u2 ∧ receipts u1 = 0%nat ∧ receipts u2 = 1%nat ∧
    ui_run u2 goes_on = Some u3 ∧ uexec u3 (UInView 0 true) = Some u4 ∧ u_app u4 = u_app u3.
Proof.
  assert ((match opened with Ok u0 => u1 ← ui_run u0 hears; u2 ← uexec u1 (UInView 0 true); u3 ← ui_run u2 goes_on;
             u4 ← uexec u3 (UInView 0 true); Some (u_crashed u1, receipts u1, receipts u2, u_crashed u3)
           | Throw _ => None end) = Some (false, 0%nat, 1%nat, false)) as Hv by vm_refl.
  destruct opened as [u0|] eqn:Eo; [|discriminate Hv].
  apply bind_Some in Hv as (u1 & E1 & Hv). apply bind_Some in Hv as (u2 & E2 & Hv).
  apply bind_Some in Hv as (u3 & E3 & Hv). apply bind_Some in Hv as (u4 & E4 & Hv).
  apply (Some_inj _ _) in Hv. apply pair_equal_spec in Hv as [Hv V4].
  apply pair_equal_spec in Hv as [Hv V3]. apply pair_equal_spec in Hv as [V1 V2].
  exists u1, u2, u3, u4. split; [exact E1|]. split; [exact E2|]. split; [exact V2|]. split; [exact V3|].
  split; [exact E3|]. split; [exact E4|].
  apply (read_once uuid [] None times (lit "alice") room [] 0 u0 hears u1 0 u2 goes_on u3 u4 Eo);
    [|exact E1|exact V1|exact E2| |exact E3|exact V4|exact E4].
  - decided.
  - intros Ee. unfold receipts in V2, V3. rewrite Ee, V2 in V3. discriminate V3.
Defined.

(** She adds a room, and comes back: the message has a new element, and is
    reported a second time. *)
Definition and_back : list ui_label :=
  [UEvent picked 4 Click; URender; UEvent picked 38 (Input (lit "r2")); URender; UEvent picked 47 Click;
   UApp (AResume 4); UApp (AResume 5); URender; UEvent picked 2 Click; URender].

Example shown_again_reported_again :
  (match opened with
   | Ok u0 => u1 ← ui_run u0 hears; u2 ← uexec u1 (UInView 0 true); u3 ← ui_run u2 and_back; u4 ← uexec u3 (UInView 1 true);
       Some ((u_elements u2).*1, (u_elements u4).*1, receipts u2, receipts u4)
   | Throw _ => None
   end) = Some ([lit "u2"], [lit "u2"], 1%nat, 2%nat).
Proof. vm_refl. Qed.
End UiRuns.
