(* ===== verification/GoLib.v ===== *)
(** * What the gateway uses of Go's standard library

    A Go string holds UTF-8; it is represented by the JavaScript string of the
    same text, so that nothing needs to be converted where the two programs
    meet. [runes] are its code points. JSON is printed as [json.Marshal] does,
    which escapes more than [JSON.stringify], and read into structs as
    [json.Unmarshal] does: field names in any case, [null] leaves a field as
    it is, a value of another type is an error. Of a key written twice in one
    object the last value is seen. *)

From S2P Require Import Prelude JsLib Base64 Text Json.

Local Open Scope Z_scope.

Definition runes (s : jsstr) : list Z := usv s.

(** What becomes of a string on its way through UTF-8: lone surrogates are
    replaced. *)
Definition utf8_text (s : jsstr) : jsstr := utf16s (usv s).

Lemma utf8_text_ok s : text_ok s → utf8_text s = s.
Proof. intros [Hu Hw]. by apply utf16_usv. Qed.

(** [unicode.IsSpace] and [strings.TrimSpace]. *)
Definition go_space (r : Z) : bool :=
  ((9 <=? r) && (r <=? 13)) || (r =? 32) || (r =? 0x85) || (r =? 0xA0) || (r =? 0x1680) ||
  ((0x2000 <=? r) && (r <=? 0x200A)) || (r =? 0x2028) || (r =? 0x2029) || (r =? 0x202F) || (r =? 0x205F) || (r =? 0x3000).

Fixpoint trim_left (s : jsstr) : jsstr :=
  match s with c :: s' => if go_space c then trim_left s' else s | [] => [] end.
Definition TrimSpace (s : jsstr) : jsstr := reverse (trim_left (reverse (trim_left s))).

(** [fmt.Sprintf(percent x)] of bytes. *)
Definition hex (b : bytes) : jsstr := b ≫= λ x, [hex_digit (x / 16); hex_digit (x mod 16)].

Definition is_int64 (n : Z) : bool := (- 2 ^ 63 <=? n) && (n <? 2 ^ 63).

(** ** [json.Marshal] *)

Definition go_char (c : Z) : jsstr :=
  if c =? 34 then [92; 34] else if c =? 92 then [92; 92]
  else if c =? 8 then [92; 98] else if c =? 12 then [92; 102] else if c =? 10 then [92; 110]
  else if c =? 13 then [92; 114] else if c =? 9 then [92; 116]
  else if (c <? 32) || (c =? 60) || (c =? 62) || (c =? 38) || (c =? 0x2028) || (c =? 0x2029) then esc_u c else [c].

Definition go_body (s : jsstr) : jsstr := s ≫= go_char.

Definition Marshal : json → jsstr := print_with go_body.

(** A field with [omitempty]: left out when it is empty. *)
Definition omitempty (s : jsstr) : option json := match s with [] => None | _ => Some (JStr s) end.
Definition omitzero (n : Z) : option json := if n =? 0 then None else Some (JNum n).

Lemma parse_string_go_char c s :
  is_unit c → parse_string (go_char c ++ s) = '(t, r) ← parse_string s; Some (c :: t, r).
Proof.
  intros Hc. unfold go_char.
  repeat match goal with
  | |- context [if c =? ?k then _ else _] => destruct (Z.eqb_spec c k) as [->|]; [reflexivity|]
  end.
  destruct (_ || _) eqn:E; [by apply parse_string_esc_u|].
  repeat apply orb_false_iff in E as [E _]. apply parse_string_plain; lia.
Qed.

Lemma parse_string_go s r : Forall is_unit s → parse_string (go_body s ++ 34 :: r) = Some (s, r).
Proof.
  induction 1 as [|c s Hc _ IH]; [done|]. change (go_body (c :: s)) with (go_char c ++ go_body s).
  rewrite <- app_assoc, parse_string_go_char by done. by rewrite IH.
Qed.

(** The browser reads what the gateway prints. *)
Lemma JSON_parse_Marshal v : json_wf v = true → JSON_parse (Marshal v) = Ok v.
Proof. apply parse_print, parse_string_go. Qed.

(** ** [json.Unmarshal] *)

(** [foldName]: the two other characters that fold to a letter are the long s
    and the Kelvin sign. *)
Definition fold_char (c : Z) : Z :=
  if (97 <=? c) && (c <=? 122) then c - 32 else if c =? 0x17F then 83 else if c =? 0x212A then 75 else c.

Definition names_field (key : jsstr) (field : string) : bool :=
  bool_decide (fold_char <$> key = fold_char <$> lit field).
Arguments names_field _ _%_string_scope.

(** A value for a field of a type, given the field's value so far: [None] is
    an [UnmarshalTypeError]. *)
Definition as_string (v : json) (old : jsstr) : option jsstr :=
  match v with JStr s => Some (utf8_text s) | JNull => Some old | _ => None end.
Definition as_int64 (v : json) (old : Z) : option Z :=
  match v with JNum n => if is_int64 n then Some n else None | JNull => Some old | _ => None end.

(** The members go into the struct one by one; an error does not stop that. *)
Definition decode_members {A} (member : jsstr → json → A → option A) (ms : list (jsstr * json)) (zero : A) : A * bool :=
  fold_left (λ acc m, match member m.1 m.2 acc.1 with Some x => (x, acc.2) | None => (acc.1, false) end) ms (zero, true).

(** The struct afterwards, and whether there was no error. *)
Definition Unmarshal {A} (member : jsstr → json → A → option A) (zero : A) (text : jsstr) : A * bool :=
  match JSON_parse text with
  | Ok (JObj ms) => decode_members member ms zero
  | Ok JNull => (zero, true)
  | _ => (zero, false)
  end.

(** ** [base64.StdEncoding] *)

Definition b64_newline (c : Z) : bool := (c =? 10) || (c =? 13).

Fixpoint decode_quanta (s : jsstr) : option bytes :=
  match s with
  | [] => Some []
  | a :: b :: c :: d :: r =>
      if d =? 61 then
        match r with
        | [] => unsextets <$> mapM b64_val (if c =? 61 then [a; b] else [a; b; c])
        | _ => None
        end
      else vs ← mapM b64_val [a; b; c; d]; l ← decode_quanta r; Some (unsextets vs ++ l)
  | _ => None
  end.

Definition DecodeString (s : jsstr) : option bytes := decode_quanta (List.filter (λ c, negb (b64_newline c)) s).
Definition EncodeToString (b : bytes) : jsstr := b64_encode b.

Lemma b64_char_plain v : is_sextet v → (b64_char v =? 61) = false ∧ b64_newline (b64_char v) = false.
Proof.
  intros Hv. assert (b64_val (b64_char v) = Some v) as E by by apply b64_val_char. unfold b64_newline.
  assert (∀ c, b64_val c = None → (b64_char v =? c) = false) as Hne.
  { intros c Hc. apply Z.eqb_neq. intros E'. congruence. }
  split; [by apply Hne|]. by rewrite !Hne.
Qed.

Lemma decode_quanta_encode l : Forall is_byte l → decode_quanta (b64_encode l) = Some l.
Proof.
  assert (∀ k, Forall is_byte k → unsextets <$> mapM b64_val (b64_char <$> sextets k) = Some k) as Hk.
  { intros k Hk. rewrite b64_val_sextets by done. cbn. by rewrite unsextets_sextets. }
  induction l as [|a|a b|a b c l IH] using list_ind3; intros Hl; [done| | |].
  - specialize (Hk [a] Hl). exact Hk.
  - specialize (Hk [a; b] Hl). pose proof (sextets_range [a; b] Hl) as Hr. cbn [sextets] in Hr.
    repeat (apply Forall_cons in Hr as [?Hs Hr]). destruct (b64_char_plain _ Hs1) as [E _].
    cbn [b64_encode sextets b64_pad fmap list_fmap app decode_quanta] in *. rewrite E. exact Hk.
  - assert (Forall is_byte l ∧ Forall is_byte [a; b; c]) as [Hl' H3] by (decompose_Forall_hyps; split; [done|by do 3 (constructor; [done|])]).
    specialize (IH Hl'). specialize (Hk [a; b; c] H3). pose proof (sextets_range [a; b; c] H3) as Hr. cbn [sextets] in Hr, Hk.
    repeat (apply Forall_cons in Hr as [?Hs Hr]). destruct (b64_char_plain _ Hs2) as [E _].
    change (b64_encode (a :: b :: c :: l)) with
      ((b64_char <$> [a / 4; a mod 4 * 16 + b / 16; b mod 16 * 4 + c / 64; c mod 64]) ++ b64_encode l).
    cbn [fmap list_fmap app decode_quanta] in *. rewrite E.
    apply fmap_Some in Hk as (vs & E1 & E2). rewrite E1. cbn [mbind option_bind]. rewrite IH. cbn [mbind option_bind].
    by rewrite <- E2.
Qed.

Lemma DecodeString_EncodeToString l : Forall is_byte l → DecodeString (EncodeToString l) = Some l.
Proof.
  intros Hl. unfold DecodeString, EncodeToString. rewrite filter_true_id; [by apply decode_quanta_encode|].
  unfold b64_encode. apply Forall_app_2.
  - apply Forall_fmap. eapply Forall_impl; [by apply sextets_range|]. intros v Hv.
    cbn. by destruct (b64_char_plain v Hv) as [_ ->].
  - destruct (b64_pad_cases l) as [->|[->| ->]]; by repeat constructor.
Qed.
