(* ===== verification/Storage.v ===== *)
(** * pkgs/go/storage/storage.go: the gateway's rooms

    [Store] is a map of rooms behind one mutex; every method is one critical
    section, so each is a function of the store (and of the time, in
    nanoseconds). The order in which Go goes over a map is not fixed: the lists
    below are in one such order. Strings are those of GoLib.v. *)

From S2P Require Import Prelude JsLib.

Local Open Scope Z_scope.

Definition second : Z := 1000000000.

Record room := Room {
  r_Name : jsstr;
  r_Peers : gmap jsstr jsstr;       (** peerID to nickname *)
  r_LastActivity : Z;
  r_TTLSeconds : Z;
  r_CreatedAt : Z;
  r_Salt : bytes
}.

Abbreviation store := (gmap jsstr room).

Definition NewStore : store := ∅.

Definition with_peers (now : Z) (f : gmap jsstr jsstr → gmap jsstr jsstr) (r : room) : room :=
  Room (r_Name r) (f (r_Peers r)) now (r_TTLSeconds r) (r_CreatedAt r) (r_Salt r).

Definition make_room (now : Z) (name : jsstr) (ttlSeconds : Z) (salt : bytes) : room :=
  Room name ∅ now (if ttlSeconds >? 0 then ttlSeconds else 0) now salt.

(** Joining keeps the nickname of a peer that is in already. The count, and
    whether the room is new, come with the store. *)
Definition JoinWithTTL (now : Z) (name peerID : jsstr) (ttlSeconds : Z) (salt : bytes) (s : store) : nat * bool * store :=
  let isNew := negb (bool_decide (is_Some (s !! name))) in
  let r := default (make_room now name ttlSeconds salt) (s !! name) in
  let r := with_peers now (λ ps, match ps !! peerID with Some _ => ps | None => <[peerID := []]> ps end) r in
  (size (r_Peers r), isNew, <[name := r]> s).

Definition Join (now : Z) (name peerID : jsstr) (s : store) : nat * store :=
  let '(count, _, s) := JoinWithTTL now name peerID 0 [] s in (count, s).

Definition RoomSalt (name : jsstr) (s : store) : option bytes :=
  match s !! name with
  | Some r => match r_Salt r with [] => None | salt => Some salt end
  | None => None
  end.

(** A room that is empty is deleted at once. *)
Definition Leave (now : Z) (name peerID : jsstr) (s : store) : nat * store :=
  match s !! name with
  | None => (0%nat, s)
  | Some r =>
      let r := with_peers now (delete peerID) r in
      (size (r_Peers r), if decide (size (r_Peers r) = 0%nat) then delete name s else <[name := r]> s)
  end.

Definition Count (name : jsstr) (s : store) : nat :=
  match s !! name with Some r => size (r_Peers r) | None => 0%nat end.

Definition Peers (name : jsstr) (s : store) : list jsstr :=
  match s !! name with Some r => (map_to_list (r_Peers r)).*1 | None => [] end.

Definition SetNickname (name peerID nickname : jsstr) (s : store) : store :=
  match s !! name with
  | Some r =>
      match r_Peers r !! peerID with
      | Some _ => <[name := Room (r_Name r) (<[peerID := nickname]> (r_Peers r)) (r_LastActivity r) (r_TTLSeconds r)
                                 (r_CreatedAt r) (r_Salt r)]> s
      | None => s
      end
  | None => s
  end.

Definition PeersWithNicknames (name : jsstr) (s : store) : gmap jsstr jsstr :=
  match s !! name with Some r => r_Peers r | None => ∅ end.

Definition Rooms (s : store) : list jsstr := (map_to_list s).*1.

Definition RoomsWithCounts (s : store) : list (jsstr * nat) :=
  (λ x : jsstr * room, (x.1, size (r_Peers x.2))) <$> map_to_list s.

Definition StaleRooms (now maxIdle : Z) (s : store) : list jsstr :=
  (filter (λ x : jsstr * room, r_LastActivity x.2 < now - maxIdle) (map_to_list s)).*1.

Definition RoomCount (s : store) : nat := size s.

Definition RoomInfo (name : jsstr) (s : store) : nat * Z * bool :=
  match s !! name with Some r => (size (r_Peers r), r_LastActivity r, true) | None => (0%nat, 0, false) end.

Definition SetRoomTTL (name : jsstr) (ttlSeconds : Z) (s : store) : store :=
  alter (λ r, Room (r_Name r) (r_Peers r) (r_LastActivity r) ttlSeconds (r_CreatedAt r) (r_Salt r)) name s.

Definition RoomTTL (name : jsstr) (s : store) : Z * Z * bool :=
  match s !! name with Some r => (r_TTLSeconds r, r_CreatedAt r, true) | None => (0, 0, false) end.

Definition expired (now : Z) (r : room) : bool :=
  (r_TTLSeconds r >? 0) && (r_CreatedAt r + r_TTLSeconds r * second <? now).

Definition ExpiredRooms (now : Z) (s : store) : list jsstr :=
  (filter (λ x : jsstr * room, expired now x.2 = true) (map_to_list s)).*1.

(** ** What holds of the rooms *)

Definition member (s : store) (name peerID : jsstr) : Prop := ∃ r, s !! name = Some r ∧ is_Some (r_Peers r !! peerID).

Lemma elem_of_Peers s name peerID : peerID ∈ Peers name s ↔ member s name peerID.
Proof.
  unfold Peers, member. destruct (s !! name) as [r|]; [|split; [by intros ?%not_elem_of_nil|by intros (? & ? & _)]].
  rewrite list_elem_of_fmap. split.
  - intros ([k n] & -> & H%elem_of_map_to_list). by exists r; split; [|exists n].
  - intros (r' & [= <-] & n & Hn). exists (peerID, n). split; [done|by apply elem_of_map_to_list].
Qed.

Global Instance member_dec s name peerID : Decision (member s name peerID).
Proof. destruct (decide (peerID ∈ Peers name s)) as [Hm|Hm]; rewrite elem_of_Peers in Hm; [by left|by right]. Defined.

Lemma NoDup_Peers s name : NoDup (Peers name s).
Proof. unfold Peers. destruct (s !! name); [apply NoDup_fst_map_to_list|constructor]. Qed.

Definition room_ok (r : room) : Prop := r_Peers r ≠ ∅.

(** No room is empty. *)
Definition store_ok (s : store) : Prop := map_Forall (λ _, room_ok) s.

Lemma JoinWithTTL_ok now name peerID ttl salt s : store_ok s → store_ok (JoinWithTTL now name peerID ttl salt s).2.
Proof.
  intros Hs. unfold JoinWithTTL, store_ok. cbn [snd]. apply map_Forall_insert_2; [|done]. unfold room_ok, with_peers. cbn.
  destruct (_ !! peerID) eqn:E; [by intros E'; rewrite E' in E|apply insert_non_empty].
Qed.

Lemma Leave_ok now name peerID s : store_ok s → store_ok (Leave now name peerID s).2.
Proof.
  intros Hs. unfold Leave, store_ok. destruct (s !! name) as [r|]; [|done]. cbn [snd].
  case_decide as E; [by apply map_Forall_delete|]. apply map_Forall_insert_2; [|done].
  unfold room_ok. by rewrite map_size_empty_iff in E.
Qed.

Lemma SetNickname_ok name peerID nick s : store_ok s → store_ok (SetNickname name peerID nick s).
Proof.
  intros Hs. unfold SetNickname. destruct (s !! name) as [r|]; [|done]. destruct (r_Peers r !! peerID); [|done].
  apply map_Forall_insert_2; [|done]. apply insert_non_empty.
Qed.

Lemma member_Join now name peerID ttl salt s n p :
  member (JoinWithTTL now name peerID ttl salt s).2 n p ↔ (n = name ∧ p = peerID) ∨ member s n p.
Proof.
  unfold JoinWithTTL, member. cbn [snd]. destruct (decide (n = name)) as [->|Hn].
  - rewrite lookup_insert_eq. destruct (s !! name) as [r|] eqn:Er; cbn [default option_map from_option id].
    + split.
      * intros (r' & [= <-] & Hp). cbn in Hp. destruct (r_Peers r !! peerID) eqn:E; [right; by exists r|].
        apply lookup_insert_is_Some in Hp as [->|[_ Hp]]; [by left|right; by exists r].
      * intros [[_ ->]|(r' & [= <-] & Hp)]; (eexists; split; [done|]); cbn; destruct (r_Peers r !! peerID) eqn:E; try done.
        -- apply lookup_insert_is_Some. by left.
        -- apply lookup_insert_is_Some'. by right.
    + split.
      * intros (r' & [= <-] & Hp). cbn in Hp. rewrite lookup_empty in Hp. apply lookup_insert_is_Some' in Hp as [->|Hp]; [by left|].
        rewrite lookup_empty in Hp. by destruct Hp.
      * intros [[_ ->]|(r' & ? & _)]; [|done]. eexists; split; [done|]. cbn. rewrite lookup_empty. apply lookup_insert_is_Some'. by left.
  - rewrite lookup_insert_ne by done. split; [intros H; by right|]. intros [[? _]|H]; [done|exact H].
Qed.

Lemma member_Leave now name peerID s n p :
  member (Leave now name peerID s).2 n p ↔ member s n p ∧ ¬ (n = name ∧ p = peerID).
Proof.
  unfold Leave, member. destruct (s !! name) as [r|] eqn:Er; cbn [snd].
  2: { split; [intros (r' & Hr & Hp)|by intros [? _]]. split; [by exists r'|]. intros [-> ->]. congruence. }
  destruct (decide (n = name)) as [->|Hn].
  - case_decide as E.
    + rewrite lookup_delete_eq. apply map_size_empty_inv in E. split; [by intros (? & ? & _)|].
      intros [(r' & Hr & Hp) Hne]. rewrite Er in Hr. injection Hr as <-.
      assert (p ≠ peerID) by (intros ->; by apply Hne).
      rewrite <- (lookup_delete_ne (r_Peers r) peerID p) in Hp by done. cbn in E. rewrite E in Hp. by destruct Hp.
    + rewrite lookup_insert_eq. split.
      * intros (r' & [= <-] & Hp). cbn in Hp. apply lookup_delete_is_Some in Hp as [Hp1 Hp2]. split; [by exists r|]. intros [_ ->]. done.
      * intros [(r' & Hr & Hp) Hne]. rewrite Er in Hr. injection Hr as <-. eexists. split; [done|].
        apply lookup_delete_is_Some. split; [|done]. intros ->. by apply Hne.
  - case_decide; rewrite ?lookup_delete_ne, ?lookup_insert_ne by done;
      (split; [intros H'; split; [exact H'|by intros [? _]]|by intros [H' _]]).
Qed.

Lemma member_SetNickname name peerID nick s n p : member (SetNickname name peerID nick s) n p ↔ member s n p.
Proof.
  unfold SetNickname. destruct (s !! name) as [r|] eqn:Er; [|done]. destruct (r_Peers r !! peerID) eqn:Ep; [|done].
  unfold member. destruct (decide (n = name)) as [->|Hn]; [|by rewrite lookup_insert_ne].
  rewrite lookup_insert_eq, Er. split.
  - intros (r' & [= <-] & Hp). exists r. split; [done|]. cbn in Hp. apply lookup_insert_is_Some' in Hp as [->|Hp]; [by rewrite Ep|done].
  - intros (r' & [= <-] & Hp). eexists. split; [done|]. cbn. apply lookup_insert_is_Some'. by right.
Qed.

#[export] Hint Resolve JoinWithTTL_ok Leave_ok SetNickname_ok : trapchat.
