(* ===== verification/Gateway.v ===== *)
(** * services/gateway/cmd/gateway/main.go: the gateway

    The gateway serves each connection in a goroutine of its own, and others
    watch over rooms and relays. What they share is behind mutexes, so a
    goroutine is a [prog]: critical sections one after the other, each of which
    gives what is left to do; a section that cannot go on yet (a receive) is
    [None], and [Panic] is a panic. A run is any interleaving of the sections
    of all goroutines, of the write pumps and of the network.

    Each connection has its peer, made once under an id never used again; the
    map [conns] is the set of ids it holds. Time is in nanoseconds. HMAC, the
    Unicode classes of [regexp] and the random ids are parameters. [s_heard] is
    history: the code does not keep it. Strings are those of GoLib.v. *)

From stdpp Require Import sorting.
From S2P Require Import Prelude JsLib Base64 Text Json GoLib Storage.

Local Open Scope Z_scope.

Definition peerSendBufSize : nat := 64.
Definition maxRooms : nat := Z.to_nat 10000.
Definition maxRoomNameLen : nat := 64.
Definition readLimit : nat := Nat.pow 2 20.

(** ** pkgs/go/protocol/protocol.go *)

(** [protocol.MaxRooms]. *)
Definition MaxRooms : nat := 5.

Record envelope := Envelope {
  e_ID : jsstr;
  e_MsgID : jsstr;
  e_Type : jsstr;
  e_Room : jsstr;
  e_Payload : jsstr;
  e_Timestamp : Z;
  e_Sig : jsstr;
  e_To : jsstr
}.

Definition no_envelope : envelope := Envelope [] [] [] [] [] 0 [] [].

Definition envelope_json (e : envelope) : json :=
  obj [(lit "id", Some (JStr (e_ID e))); (lit "msgId", omitempty (e_MsgID e)); (lit "type", Some (JStr (e_Type e)));
       (lit "room", Some (JStr (e_Room e))); (lit "payload", omitempty (e_Payload e));
       (lit "timestamp", Some (JNum (e_Timestamp e))); (lit "sig", omitempty (e_Sig e)); (lit "to", omitempty (e_To e))].

Definition marshal (e : envelope) : jsstr := Marshal (envelope_json e).

Definition envelope_member (key : jsstr) (v : json) (e : envelope) : option envelope :=
  let '(Envelope id mid ty room payload t sig to) := e in
  if names_field key "id" then (λ x, Envelope x mid ty room payload t sig to) <$> as_string v id
  else if names_field key "msgId" then (λ x, Envelope id x ty room payload t sig to) <$> as_string v mid
  else if names_field key "type" then (λ x, Envelope id mid x room payload t sig to) <$> as_string v ty
  else if names_field key "room" then (λ x, Envelope id mid ty x payload t sig to) <$> as_string v room
  else if names_field key "payload" then (λ x, Envelope id mid ty room x t sig to) <$> as_string v payload
  else if names_field key "timestamp" then (λ x, Envelope id mid ty room payload x sig to) <$> as_int64 v t
  else if names_field key "sig" then (λ x, Envelope id mid ty room payload t x to) <$> as_string v sig
  else if names_field key "to" then (λ x, Envelope id mid ty room payload t sig x) <$> as_string v to
  else Some e.

Definition read_envelope (msg : jsstr) : envelope * bool := Unmarshal envelope_member no_envelope msg.

(** The handlers put the sender's id and the time on what they relay. *)
Definition stamp (peerID : jsstr) (t : Z) (e : envelope) : envelope :=
  Envelope peerID (e_MsgID e) (e_Type e) (e_Room e) (e_Payload e) t (e_Sig e) (e_To e).

Record join_payload := JoinPayload { jp_Nickname : jsstr; jp_TTLSeconds : Z; jp_Salt : jsstr }.

Definition join_member (key : jsstr) (v : json) (p : join_payload) : option join_payload :=
  let '(JoinPayload nick ttl salt) := p in
  if names_field key "nickname" then (λ x, JoinPayload x ttl salt) <$> as_string v nick
  else if names_field key "ttlSeconds" then (λ x, JoinPayload nick x salt) <$> as_int64 v ttl
  else if names_field key "salt" then (λ x, JoinPayload nick ttl x) <$> as_string v salt
  else Some p.

(** [json.Marshal] sorts the keys of a map, by their bytes. *)
Fixpoint lex_le (a b : list Z) : bool :=
  match a, b with
  | [], _ => true
  | _ :: _, [] => false
  | x :: a, y :: b => (x <? y) || ((x =? y) && lex_le a b)
  end.

Definition key_le (x y : jsstr * jsstr) : Prop := lex_le (runes x.1) (runes y.1) = true.
Global Instance key_le_dec x y : Decision (key_le x y).
Proof. unfold key_le. apply _. Defined.

Definition map_json (m : gmap jsstr jsstr) : json :=
  JObj ((λ x : jsstr * jsstr, (x.1, JStr x.2)) <$> merge_sort key_le (map_to_list m)).

Definition presence_json (room : jsstr) (peers : gmap jsstr jsstr) (ttl created : Z) (salt : option bytes) : json :=
  obj [(lit "room", Some (JStr room)); (lit "count", Some (JNum (Z.of_nat (size peers))));
       (lit "peers", if decide (peers = ∅) then None else Some (map_json peers));
       (lit "ttlSeconds", if ttl >? 0 then omitzero ttl else None);
       (lit "expiresAt", if ttl >? 0 then omitzero ((created + ttl * second) / 1000000) else None);
       (lit "salt", salt ≫= λ b, omitempty (EncodeToString b))].

(** ** The rate limiters *)

Record bucket := Bucket { b_tokens : Z; b_lastFill : Z }.

Record limiter := Limiter {
  l_rate : Z;
  l_interval : Z;
  l_burst : Z;
  l_buckets : gmap jsstr bucket
}.

Definition newRateLimiter (rate interval burst : Z) : limiter := Limiter rate interval burst ∅.

Definition set_buckets (f : gmap jsstr bucket → gmap jsstr bucket) (rl : limiter) : limiter :=
  Limiter (l_rate rl) (l_interval rl) (l_burst rl) (f (l_buckets rl)).

(** Tokens come in by whole intervals; what is left of one stays. *)
Definition refill (rl : limiter) (now : Z) (b : bucket) : bucket :=
  let intervals := Z.quot (now - b_lastFill b) (l_interval rl) in
  if intervals * l_rate rl >? 0 then
    Bucket (Z.min (b_tokens b + intervals * l_rate rl) (l_burst rl)) (b_lastFill b + intervals * l_interval rl)
  else b.

Definition allow (now : Z) (peerID : jsstr) (rl : limiter) : bool * limiter :=
  let b := refill rl now (default (Bucket (l_burst rl) now) (l_buckets rl !! peerID)) in
  if b_tokens b <=? 0 then (false, set_buckets <[peerID := b]> rl)
  else (true, set_buckets <[peerID := Bucket (b_tokens b - 1) (b_lastFill b)]> rl).

Definition remove (peerID : jsstr) (rl : limiter) : limiter := set_buckets (delete peerID) rl.

(** A turn of [pruneLoop]. *)
Definition prune (now : Z) (rl : limiter) : limiter :=
  let staleThreshold := Z.max (l_interval rl * l_burst rl) (60 * second) in
  set_buckets (filter (λ x : jsstr * bucket, now - b_lastFill x.2 <= staleThreshold)) rl.

(** ** The state the goroutines share *)

(** A connection: [p_queue] is [sendCh], [p_writing] what the pump has taken
    from it, [p_pumping] that the pump has not returned, [p_open] that nobody
    closed the socket. *)
Record peer := Peer {
  p_queue : list jsstr;
  p_closed : bool;
  p_writing : option jsstr;
  p_pumping : bool;
  p_open : bool;
  p_dropped : Z;
  p_written : list jsstr
}.

Definition newPeer : peer := Peer [] false None true true 0 [].

Record relay := Relay { ri_open : bool; ri_sent : list jsstr }.

Record server := Server {
  s_store : store;
  s_conns : gset jsstr;
  s_peerRooms : gmap jsstr (gset jsstr);
  s_peers : gmap jsstr peer;
  s_rl : limiter;
  s_typingRL : limiter;
  s_signalRL : limiter;
  s_relays : list relay;
  s_now : Z;
  s_heard : list (jsstr * jsstr)      (** every message, with the connection it came in on, none for a relay *)
}.

Definition NewServer (relays : nat) (now : Z) : server :=
  Server NewStore ∅ ∅ ∅ (newRateLimiter 10 second 20) (newRateLimiter 1 (2 * second) 3) (newRateLimiter 50 second 100)
         (replicate relays (Relay false [])) now [].

Definition on_store (f : store → store) (s : server) : server :=
  Server (f (s_store s)) (s_conns s) (s_peerRooms s) (s_peers s) (s_rl s) (s_typingRL s) (s_signalRL s) (s_relays s)
         (s_now s) (s_heard s).
Definition on_conns (f : gset jsstr → gset jsstr) (g : gmap jsstr (gset jsstr) → gmap jsstr (gset jsstr)) (s : server) : server :=
  Server (s_store s) (f (s_conns s)) (g (s_peerRooms s)) (s_peers s) (s_rl s) (s_typingRL s) (s_signalRL s) (s_relays s)
         (s_now s) (s_heard s).
Definition on_peers (f : gmap jsstr peer → gmap jsstr peer) (s : server) : server :=
  Server (s_store s) (s_conns s) (s_peerRooms s) (f (s_peers s)) (s_rl s) (s_typingRL s) (s_signalRL s) (s_relays s)
         (s_now s) (s_heard s).
Definition on_limiters (rl typing signal : limiter → limiter) (s : server) : server :=
  Server (s_store s) (s_conns s) (s_peerRooms s) (s_peers s) (rl (s_rl s)) (typing (s_typingRL s)) (signal (s_signalRL s))
         (s_relays s) (s_now s) (s_heard s).
Definition on_relays (f : list relay → list relay) (s : server) : server :=
  Server (s_store s) (s_conns s) (s_peerRooms s) (s_peers s) (s_rl s) (s_typingRL s) (s_signalRL s) (f (s_relays s))
         (s_now s) (s_heard s).
Definition pass_time (d : Z) (s : server) : server :=
  Server (s_store s) (s_conns s) (s_peerRooms s) (s_peers s) (s_rl s) (s_typingRL s) (s_signalRL s) (s_relays s)
         (s_now s + d) (s_heard s).
Definition hear (peerID msg : jsstr) (s : server) : server :=
  Server (s_store s) (s_conns s) (s_peerRooms s) (s_peers s) (s_rl s) (s_typingRL s) (s_signalRL s) (s_relays s)
         (s_now s) (s_heard s ++ [(peerID, msg)]).

(** [time.Now().UnixMilli()]. *)
Definition millis (s : server) : Z := s_now s / 1000000.

(** The channel takes a message when it has room for it. *)
Definition push (data : jsstr) (p : peer) : peer :=
  if Nat.ltb (length (p_queue p)) peerSendBufSize
  then Peer (p_queue p ++ [data]) (p_closed p) (p_writing p) (p_pumping p) (p_open p) (p_dropped p) (p_written p)
  else Peer (p_queue p) (p_closed p) (p_writing p) (p_pumping p) (p_open p) (p_dropped p + 1) (p_written p).

Definition close_queue (p : peer) : peer :=
  Peer (p_queue p) true (p_writing p) (p_pumping p) (p_open p) (p_dropped p) (p_written p).
Definition close_conn (p : peer) : peer :=
  Peer (p_queue p) (p_closed p) (p_writing p) (p_pumping p) false (p_dropped p) (p_written p).

Definition rooms_of (peerID : jsstr) (s : server) : gset jsstr := default ∅ (s_peerRooms s !! peerID).

Definition in_room (peerID room : jsstr) (s : server) : bool := bool_decide (room ∈ rooms_of peerID s).

(** ** Goroutines *)

Inductive prog :=
  | Done
  | Panic
  | Do (section : server → option (server * prog)).

Definition act (f : server → server) (k : prog) : prog := Do (λ s, Some (f s, k)).
Definition look {A} (f : server → A) (k : A → prog) : prog := Do (λ s, Some (s, k (f s))).

Definition enqueue (peerID data : jsstr) (k : prog) : prog :=
  Do (λ s, p ← s_peers s !! peerID;
           Some (if p_closed p then (s, Panic) else (on_peers <[peerID := push data p]> s, k))).

(** [close(p.sendCh); <-p.done]. *)
Definition closeSend (peerID : jsstr) (k : prog) : prog :=
  Do (λ s, p ← s_peers s !! peerID;
           Some (if p_closed p then (s, Panic)
                 else (on_peers <[peerID := close_queue p]> s,
                       Do (λ s, p ← s_peers s !! peerID; if p_pumping p then None else Some (s, k))))).

Definition close_socket (peerID : jsstr) (k : prog) : prog := act (on_peers (alter close_conn peerID)) k.

Section Gateway.
(** [hmac.New(sha256.New, key)] and [Sum], what [p{L}] and [p{N}] match, and
    the server's key. *)
Context (hmac_sha256 : bytes → bytes → bytes) (letter_or_number : Z → bool) (serverKey : bytes).

(** ** Signatures: pkgs/go/crypto/crypto.go *)

Definition PutUint32 (n : Z) : bytes := [(n / 2 ^ 24) mod 256; (n / 2 ^ 16) mod 256; (n / 2 ^ 8) mod 256; n mod 256].

(** What is written to the MAC: each field after its length, which is cut to
    32 bits. *)
Definition mac_input (fields : list jsstr) : bytes :=
  fields ≫= λ f, let b := TextEncoder_encode f in PutUint32 (Z.of_nat (length b) mod 2 ^ 32) ++ b.

Definition SignHMAC (key : bytes) (fields : list jsstr) : bytes := hmac_sha256 key (mac_input fields).

Definition signed_fields (e : envelope) : list jsstr :=
  [e_ID e; e_Type e; e_Room e; e_Payload e; dec_int (e_Timestamp e)].

Definition signEnvelope (e : envelope) : envelope :=
  Envelope (e_ID e) (e_MsgID e) (e_Type e) (e_Room e) (e_Payload e) (e_Timestamp e)
           (hex (SignHMAC serverKey (signed_fields e))) (e_To e).

(** ** Sending *)

Definition error_envelope (msg : jsstr) (t : Z) : envelope := Envelope [] [] (lit "error") [] msg t [] [].

Definition sendError (peerID msg : jsstr) (k : prog) : prog :=
  look millis (λ t, enqueue peerID (marshal (error_envelope msg t)) k).

Definition enqueue_all (targets : list jsstr) (data : jsstr) (k : prog) : prog :=
  foldr (λ id k, enqueue id data k) k targets.

Definition broadcast (room : jsstr) (e : envelope) (exclude : jsstr) (k : prog) : prog :=
  look (λ s, Peers room (s_store s)) (λ peers,
  look (λ s, filter (λ id, id ≠ exclude ∧ id ∈ s_conns s) peers) (λ targets,
  enqueue_all targets (marshal (signEnvelope e)) k)).

Definition sendRoomList (peerID : jsstr) (k : prog) : prog :=
  look (λ s, elements (rooms_of peerID s)) (λ rooms,
  look millis (λ t,
  enqueue peerID (marshal (Envelope [] [] (lit "room_list") [] (Marshal (JArr (JStr <$> rooms))) t [] [])) k)).

Definition presence_envelope (room : jsstr) (peers : gmap jsstr jsstr) (ttl created : Z) (salt : option bytes) (t : Z) : envelope :=
  Envelope [] [] (lit "presence") room (Marshal (presence_json room peers ttl created salt)) t [] [].

Definition broadcastPresence (room : jsstr) (k : prog) : prog :=
  look (λ s, PeersWithNicknames room (s_store s)) (λ peers,
  look (λ s, RoomTTL room (s_store s)) (λ '(ttl, created, _),
  look (λ s, RoomSalt room (s_store s)) (λ salt,
  look millis (λ t,
  broadcast room (presence_envelope room peers ttl created salt t) [] k)))).

(** FNV-1a, on 32 bits. *)
Definition fnv1a (b : bytes) : Z := fold_left (λ h x, (Z.lxor h x * 16777619) mod 2 ^ 32) b 2166136261.

Definition relayForRoom (room : jsstr) (s : server) : option nat :=
  match s_relays s with
  | [] => None
  | _ => Some (Z.to_nat (fnv1a (TextEncoder_encode room) mod Z.of_nat (length (s_relays s))))
  end.

Definition write_relay (data : jsstr) (r : relay) : relay :=
  if ri_open r then Relay true (ri_sent r ++ [data]) else r.

(** Without relays the connection of the single relay is never set. *)
Definition forward (e : envelope) (s : server) : server :=
  match relayForRoom (e_Room e) s with
  | Some i => on_relays (alter (write_relay (marshal e)) i) s
  | None => s
  end.

Definition forwardToRelay (e : envelope) (k : prog) : prog := act (forward e) k.

(** The notice of a peer that joined or left. *)
Definition tell_relay (type room peerID : jsstr) (k : prog) : prog :=
  look millis (λ t, forwardToRelay (Envelope peerID [] type room [] t [] []) k).

(** ** Messages *)

Definition name_rune (r : Z) : bool :=
  if r <? 128 then
    ((48 <=? r) && (r <=? 57)) || ((65 <=? r) && (r <=? 90)) || ((97 <=? r) && (r <=? 122)) ||
    (r =? 32) || (r =? 95) || (r =? 45) || (r =? 46)
  else letter_or_number r.

(** The reason a name is refused, if it is. *)
Definition validateRoomName (name : jsstr) : jsstr :=
  if str_empty name then lit "room name is required"
  else if Nat.ltb maxRoomNameLen (length (runes name)) then lit "room name exceeds 64 characters"
  else if negb (forallb name_rune (runes name)) then lit "room name contains invalid characters"
  else [].

Definition sanitizeNickname (nick : jsstr) : jsstr :=
  TrimSpace (utf16s (take 32 (List.filter (λ r, negb ((r <? 32) || (r =? 127))) (runes nick)))).

Definition allowed_ttls : list Z := [900; 3600; 14400; 86400].

Definition ttl_for_join (ttl : Z) : Z := if (ttl >? 0) && bool_decide (ttl ∈ allowed_ttls) then ttl else 0.

(** The salt of a join, or the error it is answered with. *)
Definition join_salt (salt : jsstr) : result bytes :=
  match salt with
  | [] => Ok []
  | _ => match DecodeString salt with
         | None => Throw (lit "invalid salt encoding")
         | Some b => if decide (length b = 32%nat) then Ok b else Throw (lit "salt must be exactly 32 bytes")
         end
  end.

Definition read_join (payload : jsstr) : join_payload :=
  match payload with [] => JoinPayload [] 0 [] | _ => (Unmarshal join_member (JoinPayload [] 0 []) payload).1 end.

Definition enter_room (peerID room : jsstr) (s : server) : server :=
  on_conns id <[peerID := {[room]} ∪ rooms_of peerID s]> s.

Definition exit_room (peerID room : jsstr) (s : server) : server :=
  match s_peerRooms s !! peerID with
  | Some rooms =>
      let rooms := rooms ∖ {[room]} in
      on_conns id (if decide (rooms = ∅) then delete peerID else <[peerID := rooms]>) s
  | None => s
  end.

(** After the limits are checked. *)
Definition enter (peerID : jsstr) (e : envelope) : prog :=
  let room := e_Room e in
  let jp := read_join (e_Payload e) in
  act (enter_room peerID room)
  match join_salt (jp_Salt jp) with
  | Throw reason => sendError peerID reason Done
  | Ok salt =>
      act (λ s, on_store (λ st, (JoinWithTTL (s_now s) room peerID (ttl_for_join (jp_TTLSeconds jp)) salt st).2) s) (
      let nick := sanitizeNickname (jp_Nickname jp) in
      let rest := broadcastPresence room (sendRoomList peerID (tell_relay (lit "join") room peerID Done)) in
      if str_empty nick then rest else act (on_store (SetNickname room peerID nick)) rest)
  end.

Definition room_limit_text : jsstr := lit "room limit reached " ++ [8212] ++ lit " try again later".
Definition max_rooms_text : jsstr := lit "max 5 rooms " ++ [8212] ++ lit " leave one first".
Definition rate_text : jsstr := lit "rate limit exceeded " ++ [8212] ++ lit " slow down".

(** The limit of the connection, and the one of the server before it. *)
Definition check_rooms (peerID : jsstr) (e : envelope) : prog :=
  look (λ s, (in_room peerID (e_Room e) s, size (rooms_of peerID s))) (λ '(alreadyIn, roomCount),
  if negb alreadyIn && Nat.leb MaxRooms roomCount then sendError peerID max_rooms_text Done else enter peerID e).

Definition handle_join (peerID : jsstr) (e : envelope) : prog :=
  look (λ s, Count (e_Room e) (s_store s)) (λ n,
  match n with
  | O => look (λ s, RoomCount (s_store s)) (λ count,
         if Nat.leb maxRooms count then sendError peerID room_limit_text Done else check_rooms peerID e)
  | _ => check_rooms peerID e
  end).

Definition leave_store (room peerID : jsstr) (k : prog) : prog :=
  act (λ s, on_store (λ st, (Leave (s_now s) room peerID st).2) s) k.

Definition handle_leave (peerID room : jsstr) : prog :=
  leave_store room peerID (act (exit_room peerID room)
  (broadcastPresence room (sendRoomList peerID (tell_relay (lit "leave") room peerID Done)))).

(** [rl.allow(peerID)] of one of the limiters. *)
Definition allow_rl (peerID : jsstr) (k : bool → prog) : prog :=
  Do (λ s, let r := allow (s_now s) peerID (s_rl s) in Some (on_limiters (λ _, r.2) id id s, k r.1)).
Definition allow_typing (peerID : jsstr) (k : bool → prog) : prog :=
  Do (λ s, let r := allow (s_now s) peerID (s_typingRL s) in Some (on_limiters id (λ _, r.2) id s, k r.1)).
Definition allow_signal (peerID : jsstr) (k : bool → prog) : prog :=
  Do (λ s, let r := allow (s_now s) peerID (s_signalRL s) in Some (on_limiters id id (λ _, r.2) s, k r.1)).

(** Only who is in the room goes on. *)
Definition if_in_room (peerID room what : jsstr) (k : prog) : prog :=
  look (in_room peerID room) (λ b, if b then k else sendError peerID (lit "must join a room before sending " ++ what) Done).

Definition relay_to_room (peerID : jsstr) (e : envelope) (k : envelope → prog) : prog :=
  look millis (λ t, let e := stamp peerID t e in broadcast (e_Room e) e peerID (k e)).

Definition handle_chat (peerID : jsstr) (e : envelope) (what : jsstr) : prog :=
  allow_rl peerID (λ ok, if ok then
    if_in_room peerID (e_Room e) what (relay_to_room peerID e (λ e, forwardToRelay e Done))
  else sendError peerID rate_text Done).

Definition handle_typing (peerID : jsstr) (e : envelope) : prog :=
  if_in_room peerID (e_Room e) (lit "typing")
    (allow_typing peerID (λ ok, if ok then relay_to_room peerID e (λ _, Done) else Done)).

Definition handle_receipt (peerID : jsstr) (e : envelope) : prog :=
  if_in_room peerID (e_Room e) (lit "receipts") (relay_to_room peerID e (λ _, Done)).

(** To one peer, which must be here and in the room. *)
Definition send_to (e : envelope) : prog :=
  look (λ s, bool_decide (e_To e ∈ s_conns s) && in_room (e_To e) (e_Room e) s) (λ here,
  if here then enqueue (e_To e) (marshal e) Done else forwardToRelay e Done).

Definition is_signal (e : envelope) : bool := bool_decide (e_Type e = lit "signal").

Definition pass_signal (peerID : jsstr) (e : envelope) : prog :=
  if is_signal e && str_empty (e_To e) then sendError peerID (lit "signal requires target peer") Done
  else if str_empty (e_To e) then relay_to_room peerID e (λ e, forwardToRelay e Done)
  else look millis (λ t, send_to (stamp peerID t e)).

Definition handle_signal (peerID : jsstr) (e : envelope) : prog :=
  if_in_room peerID (e_Room e) (lit "signals")
    (if is_signal e then allow_signal peerID (λ ok, if ok then pass_signal peerID e else Done) else pass_signal peerID e).

Definition room_types : list jsstr :=
  lit <$> ["join"; "leave"; "chat"; "media"; "typing"; "receipt"; "key_rotation"; "signal"; "call_offer"; "call_answer";
           "call_end"]%string.

Definition handle_envelope (peerID : jsstr) (e : envelope) : prog :=
  let has t := bool_decide (e_Type e = lit t) in
  let reason := if includes room_types (e_Type e) then validateRoomName (e_Room e) else [] in
  if negb (str_empty reason) then sendError peerID reason Done
  else if has "join"%string then handle_join peerID e
  else if has "leave"%string then handle_leave peerID (e_Room e)
  else if has "chat"%string || has "media"%string then handle_chat peerID e (lit "messages")
  else if has "typing"%string then handle_typing peerID e
  else if has "receipt"%string then handle_receipt peerID e
  else if has "key_rotation"%string then handle_chat peerID e (lit "key rotation")
  else if has "signal"%string || has "call_offer"%string || has "call_answer"%string || has "call_end"%string
       then handle_signal peerID e
  else if has "presence"%string then Done
  else sendError peerID (lit "unknown message type: " ++ e_Type e) Done.

Definition handle_message (peerID msg : jsstr) : prog :=
  let '(e, ok) := read_envelope msg in
  if ok : bool then handle_envelope peerID e else sendError peerID (lit "invalid message format") Done.

(** ** The life of a connection *)

Definition connected (peerID : jsstr) : prog :=
  act (on_conns ({[peerID]} ∪.) id)
  (look millis (λ t, enqueue peerID (marshal (Envelope peerID [] (lit "welcome") [] [] t [] [])) Done)).

(** The deferred calls. *)
Definition disconnected (peerID : jsstr) : prog :=
  act (on_limiters (remove peerID) id id) (act (on_limiters id (remove peerID) id) (act (on_limiters id id (remove peerID))
  (Do (λ s, Some (on_conns (.∖ {[peerID]}) (delete peerID) s,
    foldr (λ room k, leave_store room peerID (broadcastPresence room (tell_relay (lit "leave") room peerID k)))
          (closeSend peerID (close_socket peerID Done)) (elements (rooms_of peerID s))))))).

(** ** Rooms that end *)

Definition disconnect_peer (room peerID : jsstr) (k : prog) : prog :=
  Do (λ s,
    let '(shouldClose, s) :=
      match s_peerRooms s !! peerID with
      | Some rooms =>
          if bool_decide (peerID ∈ s_conns s) then
            let rooms := rooms ∖ {[room]} in
            if decide (rooms = ∅) then (true, on_conns (.∖ {[peerID]}) (delete peerID) s)
            else (false, on_conns id <[peerID := rooms]> s)
          else (false, s)
      | None => (false, s)
      end in
    Some (s, leave_store room peerID (if shouldClose : bool then closeSend peerID (close_socket peerID k) else k))).

Definition disconnectAllPeers (room : jsstr) (k : prog) : prog :=
  look (λ s, Peers room (s_store s)) (λ peers, foldr (disconnect_peer room) k peers).

Definition expired_payload : jsstr := lit "{" ++ quote (lit "text") ++ lit ":" ++
  quote (lit "room expired " ++ [8212] ++ lit " TTL reached") ++ lit "," ++ quote (lit "encrypted") ++ lit ":false}".

Definition expire_room (room : jsstr) (k : prog) : prog :=
  look millis (λ t,
  broadcast room (Envelope (lit "__system__") [] (lit "chat") room expired_payload t [] []) []
  (disconnectAllPeers room (leave_store room (lit "__ttl_cleanup__") k))).

(** A turn of [ttlExpiryLoop]. *)
Definition ttl_tick : prog := look (λ s, ExpiredRooms (s_now s) (s_store s)) (λ rooms, foldr expire_room Done rooms).

(** [handleRoomSub]: the two actions that change something. *)
Definition cleanup_room (room : jsstr) : prog := disconnectAllPeers room (leave_store room (lit "__cleanup__") Done).

Definition worker_broadcast (room type payload : jsstr) : prog :=
  if includes [lit "error"; lit "presence"] type then
    look millis (λ t, broadcast room (Envelope (lit "__worker__") [] type room payload t [] []) [] Done)
  else Done.

(** A message of a relay. *)
Definition relayed (msg : jsstr) : prog :=
  let '(e, ok) := read_envelope msg in if ok : bool then broadcast (e_Room e) e (e_ID e) Done else Done.

(** ** Runs *)

Inductive conn_state := Reading | Handling (p : prog) | Closing (p : prog).

(** A task is a goroutine that serves no connection: [true] for an HTTP
    request, whose panics [net/http] recovers; a panic of another one ends the
    process. *)
Record gateway := Gateway {
  g_srv : server;
  g_conns : gmap jsstr conn_state;
  g_tasks : list (bool * prog);
  g_crashed : bool
}.

Definition new_gateway (relays : nat) (now : Z) : gateway := Gateway (NewServer relays now) ∅ [] false.

Inductive gw_label :=
  (** The network. *)
  | GConnect (peerID : jsstr)
  | GMessage (peerID msg : jsstr)
  | GReadError (peerID : jsstr)
  | GCleanup (room : jsstr)
  | GBroadcast (room type payload : jsstr)
  | GRelayed (msg : jsstr)
  | GRelayOpen (i : nat) (b : bool)
  (** The scheduler. *)
  | GStep (peerID : jsstr)
  | GTask (i : nat)
  (** The write pumps. *)
  | GTake (peerID : jsstr)
  | GWritten (peerID : jsstr)
  | GWriteError (peerID : jsstr)
  | GPumpEnd (peerID : jsstr)
  (** Tickers, and time. *)
  | GTTL
  | GPrune
  | GWait (d : Z).

(** A handler that ends goes back to reading; one that panics runs the
    deferred calls. *)
Definition handling (peerID : jsstr) (p : prog) : conn_state :=
  match p with Done => Reading | Panic => Closing (disconnected peerID) | Do _ => Handling p end.

Definition step_conn (peerID : jsstr) (c : conn_state) (s : server) : option (conn_state * server) :=
  match c with
  | Handling (Do f) => '(s, p) ← f s; Some (handling peerID p, s)
  | Closing (Do f) => '(s, p) ← f s; Some (Closing p, s)
  | _ => None
  end.

Definition with_peer (peerID : jsstr) (f : peer → option peer) (g : gateway) : option gateway :=
  p ← s_peers (g_srv g) !! peerID; p ← f p;
  Some (Gateway (on_peers <[peerID := p]> (g_srv g)) (g_conns g) (g_tasks g) (g_crashed g)).

Definition set_conn (peerID : jsstr) (c : conn_state) (s : server) (g : gateway) : gateway :=
  Gateway s (<[peerID := c]> (g_conns g)) (g_tasks g) (g_crashed g).
Definition on_server (f : server → server) (g : gateway) : gateway :=
  Gateway (f (g_srv g)) (g_conns g) (g_tasks g) (g_crashed g).
Definition spawn (http : bool) (p : prog) (g : gateway) : gateway :=
  Gateway (g_srv g) (g_conns g) (g_tasks g ++ [(http, p)]) (g_crashed g).

Definition take_message (p : peer) : option peer :=
  match p_queue p, p_writing p with
  | m :: q, None => if p_pumping p then Some (Peer q (p_closed p) (Some m) true (p_open p) (p_dropped p) (p_written p)) else None
  | _, _ => None
  end.
Definition written (p : peer) : option peer :=
  match p_writing p with
  | Some m => if p_open p then Some (Peer (p_queue p) (p_closed p) None (p_pumping p) true (p_dropped p) (p_written p ++ [m]))
              else None
  | None => None
  end.
Definition write_error (p : peer) : option peer :=
  match p_writing p with
  | Some _ => Some (Peer (p_queue p) (p_closed p) None false (p_open p) (p_dropped p) (p_written p))
  | None => None
  end.
Definition pump_end (p : peer) : option peer :=
  match p_queue p, p_writing p with
  | [], None => if p_closed p && p_pumping p
                then Some (Peer [] true None false (p_open p) (p_dropped p) (p_written p)) else None
  | _, _ => None
  end.

Definition gw_exec (g : gateway) (l : gw_label) : option gateway :=
  if g_crashed g then None
  else match l with
  | GConnect peerID =>
      if decide (peerID = [] ∨ is_Some (s_peers (g_srv g) !! peerID)) then None
      else Some (set_conn peerID (Handling (connected peerID)) (on_peers <[peerID := newPeer]> (g_srv g)) g)
  | GMessage peerID msg =>
      match g_conns g !! peerID, s_peers (g_srv g) !! peerID with
      | Some Reading, Some p =>
          if p_open p then
            if Nat.leb (length (TextEncoder_encode msg)) readLimit
            then Some (set_conn peerID (handling peerID (handle_message peerID msg)) (hear peerID msg (g_srv g)) g)
            else Some (set_conn peerID (Closing (disconnected peerID)) (g_srv g) g)
          else None
      | _, _ => None
      end
  | GReadError peerID =>
      match g_conns g !! peerID with
      | Some Reading => Some (set_conn peerID (Closing (disconnected peerID)) (g_srv g) g)
      | _ => None
      end
  | GCleanup room => Some (spawn true (cleanup_room room) g)
  | GBroadcast room type payload => Some (spawn true (worker_broadcast room type payload) g)
  | GRelayed msg =>
      if decide (s_relays (g_srv g) = []) then None else Some (spawn false (relayed msg) (on_server (hear [] msg) g))
  | GRelayOpen i b => Some (on_server (on_relays (alter (λ r, Relay b (ri_sent r)) i)) g)
  | GStep peerID =>
      c ← g_conns g !! peerID; '(c, s) ← step_conn peerID c (g_srv g); Some (set_conn peerID c s g)
  | GTask i =>
      match g_tasks g !! i with
      | Some (http, Do f) =>
          '(s, p) ← f (g_srv g);
          Some (Gateway s (g_conns g) (<[i := (http, p)]> (g_tasks g))
                        (match p with Panic => negb http | _ => false end))
      | _ => None
      end
  | GTake peerID => with_peer peerID take_message g
  | GWritten peerID => with_peer peerID written g
  | GWriteError peerID => with_peer peerID write_error g
  | GPumpEnd peerID => with_peer peerID pump_end g
  | GTTL => Some (spawn false ttl_tick g)
  | GPrune => Some (on_server (λ s, let f := prune (s_now s) in on_limiters f f f s) g)
  | GWait d => if d <? 0 then None else Some (on_server (pass_time d) g)
  end.

Fixpoint gw_run (g : gateway) (ls : list gw_label) : option gateway :=
  match ls with
  | [] => Some g
  | l :: ls => g' ← gw_exec g l; gw_run g' ls
  end.
End Gateway.
