(* ===== verification/GatewayFacts.v ===== *)
(** * What the gateway guarantees, whatever its goroutines do in between

    A logic of rely and guarantee for the goroutines of Gateway.v: [safe] says
    that every section of a goroutine keeps the invariant, that it only does to
    the rest what the others rely on, and that what it knows itself stays true
    while the others run. The invariant of all runs follows: queues and rooms
    are bounded, and whatever is written to a member was sent by who it says,
    to a room both asked to join. *)

From stdpp Require Import sorting.
From S2P Require Import Prelude JsLib Base64 Text Json GoLib Storage Gateway.

Local Open Scope Z_scope.

Create HintDb gateway.

(** ** What goroutines do to each other *)

(** A goroutine: of a connection, or a task. *)
Abbreviation thread := (option jsstr).

(** Nothing is heard less, and no connection is put into a room. *)
Definition quiet (s s' : server) : Prop := s_heard s ⊆ s_heard s' ∧ ∀ q, rooms_of q s' ⊆ rooms_of q s.

(** What a goroutine may do, and what it may expect of the others: only the
    goroutine of a connection puts it into a room. *)
Definition guarantee (t : thread) (s s' : server) : Prop :=
  s_heard s ⊆ s_heard s' ∧ ∀ q, t ≠ Some q → rooms_of q s' ⊆ rooms_of q s.
Definition rely (t : thread) (s s' : server) : Prop :=
  s_heard s ⊆ s_heard s' ∧ ∀ q, t = Some q → rooms_of q s' ⊆ rooms_of q s.

Lemma quiet_rely t s s' : quiet s s' → rely t s s'.
Proof. intros [H1 H2]. split; auto. Qed.

Lemma quiet_guarantee t s s' : quiet s s' → guarantee t s s'.
Proof. intros [H1 H2]. split; auto. Qed.

Lemma guarantee_rely t t' s s' : t ≠ t' ∨ t = None → guarantee t s s' → rely t' s s'.
Proof. intros Ht [H1 H2]. split; [done|]. intros q ->. apply H2. destruct Ht as [Ht| ->]; [|done]. intros ->. by apply Ht. Qed.

(** What a goroutine knows must survive the others. *)
Class Stable (t : thread) (P : server → Prop) : Prop := stable : ∀ s s', rely t s s' → P s → P s'.

Global Instance stable_pure t (P : Prop) : Stable t (λ _, P).
Proof. by intros s s' _. Qed.
Global Instance stable_and t P Q `{!Stable t P} `{!Stable t Q} : Stable t (λ s, P s ∧ Q s).
Proof. intros s s' Hr [HP HQ]. split; by eapply stable. Qed.
Global Instance stable_impl t (P : Prop) Q `{!Stable t Q} : Stable t (λ s, P → Q s).
Proof. intros s s' Hr HQ HP. by eapply stable, HQ. Qed.
Global Instance stable_heard t x : Stable t (λ s, x ∈ s_heard s).
Proof. intros s s' [Hh _] Hx. by apply Hh. Qed.
Global Instance stable_Forall {A} t (P : server → A → Prop) l `{!∀ x, Stable t (λ s, P s x)} :
  Stable t (λ s, Forall (P s) l).
Proof. intros s s' Hr HP. eapply Forall_impl; [exact HP|]. intros x Hx. by eapply (stable (P := λ s, P s x)). Qed.
Global Instance stable_exists {A} t (P : server → A → Prop) `{!∀ x, Stable t (λ s, P s x)} : Stable t (λ s, ∃ x, P s x).
Proof. intros s s' Hr [x HP]. exists x. by eapply (stable (P := λ s, P s x)). Qed.
Lemma stable_rooms (p : jsstr) (P : gset jsstr → Prop) :
  (∀ X Y, P X → Y ⊆ X → P Y) → Stable (Some p) (λ s, P (rooms_of p s)).
Proof. intros Hdown s s' [_ Hr] HP. eauto. Qed.

(** The parts of the invariant a step does not touch. *)
Ltac keep := constructor; try assumption; try done.

(** ** The logic *)

Section Logic.
Variable I : server → Prop.

Inductive safe (t : thread) : (server → Prop) → prog → Prop :=
  | safe_done P : safe t P Done
  | safe_panic P : safe t P Panic
  | safe_do P f :
      Stable t P →
      (∀ s s' p, I s → P s → f s = Some (s', p) → I s' ∧ guarantee t s s' ∧ ∃ Q : server → Prop, Q s' ∧ safe t Q p) →
      safe t P (Do f).

(** It goes on being safe after steps of others. *)
Definition safe_at (t : thread) (s : server) (p : prog) : Prop := ∃ P : server → Prop, P s ∧ safe t P p.

Lemma safe_at_rely t s s' p : rely t s s' → safe_at t s p → safe_at t s' p.
Proof.
  intros Hr (P & HP & Hs). destruct Hs as [P|P|P f Hst Hf].
  - exists (λ _, True). split; [done|constructor].
  - exists (λ _, True). split; [done|constructor].
  - exists P. split; [by eapply Hst|by constructor].
Qed.

Lemma safe_at_step t s s' f p :
  I s → safe_at t s (Do f) → f s = Some (s', p) → I s' ∧ guarantee t s s' ∧ safe_at t s' p.
Proof. intros HI (P & HP & Hs) Hf. inversion Hs as [| |? ? _ H]; subst. exact (H _ _ _ HI HP Hf). Qed.

Lemma safe_weaken t P Q p `{!Stable t P} : (∀ s, P s → Q s) → safe t Q p → safe t P p.
Proof. intros HPQ Hs. destruct Hs as [| |Q f HQ Hf]; constructor; [done|]. intros s s' p HI HP. eapply Hf; eauto. Qed.

Lemma safe_look {A} t P (g : server → A) (k : A → prog) (Q : A → server → Prop) `{!Stable t P} :
  (∀ s, I s → P s → Q (g s) s) → (∀ a, safe t (Q a) (k a)) → safe t P (look g k).
Proof.
  intros HQ Hk. constructor; [done|]. intros s s' p HI HP [= <- <-]. split; [done|].
  split; [by split|]. exists (Q (g s)). auto.
Qed.

(** Looking at something of no account. *)
Lemma safe_peek {A} t P (g : server → A) (k : A → prog) `{!Stable t P} : (∀ a, safe t P (k a)) → safe t P (look g k).
Proof. intros Hk. eapply (safe_look _ _ _ _ (λ _, P)); eauto. Qed.

Lemma safe_act t P (f : server → server) k `{!Stable t P} :
  (∀ s, I s → P s → I (f s) ∧ quiet s (f s)) → safe t P k → safe t P (act f k).
Proof.
  intros Hf Hk. constructor; [done|]. intros s s' p HI HP [= <- <-]. destruct (Hf s HI HP) as [HI' Hq].
  split; [done|]. split; [by apply quiet_guarantee|]. exists P. split; [|done]. by eapply stable, HP; apply quiet_rely.
Qed.

Lemma safe_foldr {A} t P (f : A → prog → prog) l k `{!Stable t P} :
  (∀ x p, x ∈ l → safe t P p → safe t P (f x p)) → safe t P k → safe t P (foldr f k l).
Proof.
  intros Hf Hk. induction l as [|x l IH]; [done|]. apply Hf; [by left|]. apply IH. intros y p Hy. apply Hf. by right.
Qed.
End Logic.

(** ** The invariant *)

Section Invariant.
Context (hmac_sha256 : bytes → bytes → bytes) (letter_or_number : Z → bool) (serverKey : bytes).

Abbreviation signEnvelope := (signEnvelope hmac_sha256 serverKey).

(** What was heard so far decides the rest. *)
Abbreviation heard := (list (jsstr * jsstr)).

(** The connection asked to be let into the room. *)
Definition joined (h : heard) (peerID room : jsstr) : Prop :=
  ∃ msg, (peerID, msg) ∈ h ∧ ∃ e, read_envelope msg = (e, true) ∧ e_Type e = lit "join" ∧ e_Room e = room.

(** The envelope is what the connection named in it sent. *)
Definition sent_by (h : heard) (e : envelope) : Prop :=
  ∃ msg, (e_ID e, msg) ∈ h ∧ ∃ e0, read_envelope msg = (e0, true) ∧
    e_MsgID e = e_MsgID e0 ∧ e_Type e = e_Type e0 ∧ e_Room e = e_Room e0 ∧ e_Payload e = e_Payload e0 ∧ e_To e = e_To e0.

Definition server_types : list jsstr := lit <$> ["welcome"; "error"; "room_list"; "presence"]%string.

(** Where an envelope that is sent to a member comes from. *)
Inductive origin (h : heard) (q : jsstr) (e : envelope) : Prop :=
  | from_server : e_Type e ∈ server_types → (e_Room e = [] ∨ joined h q (e_Room e)) → origin h q e
  | from_expiry : e_ID e = lit "__system__" → e_Payload e = expired_payload → joined h q (e_Room e) → origin h q e
  | from_member : sent_by h e → joined h (e_ID e) (e_Room e) → joined h q (e_Room e) → e_ID e ≠ q ∨ e_To e = q → origin h q e
  | from_relay msg e0 : ([], msg) ∈ h → read_envelope msg = (e0, true) → e = signEnvelope e0 →
      joined h q (e_Room e) → e_ID e ≠ q → origin h q e.

Definition delivered (h : heard) (q text : jsstr) : Prop := ∃ e, text = marshal e ∧ origin h q e.

(** Everything that is on its way to a peer, or was written to it. *)
Definition texts_of (p : peer) : list jsstr := p_written p ++ option_list (p_writing p) ++ p_queue p.

Definition peer_ok (h : heard) (q : jsstr) (p : peer) : Prop :=
  (length (p_queue p) ≤ peerSendBufSize)%nat ∧ Forall (delivered h q) (texts_of p).

Lemma joined_mono h h' p room : h ⊆ h' → joined h p room → joined h' p room.
Proof. intros Hh (msg & Hin & He). exists msg. auto. Qed.

Global Instance stable_joined t p room : Stable t (λ s, joined (s_heard s) p room).
Proof. intros s s' [Hh _]. by apply joined_mono. Qed.

Lemma delivered_mono h h' q text : h ⊆ h' → delivered h q text → delivered h' q text.
Proof.
  intros Hh (e & -> & Ho). exists e. split; [done|].
  destruct Ho as [H1 [H2|H2]|H1 H2 H3|(msg & Hm & He) H2 H3 H4|msg e0 H1 H2 H3 H4 H5];
    eauto using from_server, from_expiry, from_relay, joined_mono.
  apply from_member; eauto using joined_mono. exists msg. auto.
Qed.

Lemma peer_ok_mono h h' q p : h ⊆ h' → peer_ok h q p → peer_ok h' q p.
Proof. intros Hh [H1 H2]. split; [done|]. eapply Forall_impl; [exact H2|]. intros text. by apply delivered_mono. Qed.

Definition good_room (r : room) : Prop :=
  room_ok r ∧ (r_Salt r = [] ∨ length (r_Salt r) = 32%nat) ∧ (r_TTLSeconds r = 0 ∨ r_TTLSeconds r ∈ allowed_ttls).

Definition limiter_ok (rl : limiter) : Prop :=
  0 < l_rate rl ∧ 0 < l_interval rl ∧ 0 < l_burst rl ∧ map_Forall (λ _ b, 0 ≤ b_tokens b ≤ l_burst rl) (l_buckets rl).

Record gateway_ok (s : server) : Prop := GatewayOk {
  ok_peers : map_Forall (peer_ok (s_heard s)) (s_peers s);
  ok_rooms : map_Forall (λ _ r, good_room r) (s_store s);
  ok_members : ∀ room p, member (s_store s) room p → joined (s_heard s) p room;
  ok_sizes : ∀ p, (size (rooms_of p s) ≤ MaxRooms)%nat;
  ok_joined : ∀ p room, room ∈ rooms_of p s → joined (s_heard s) p room;
  ok_rl : limiter_ok (s_rl s);
  ok_typing : limiter_ok (s_typingRL s);
  ok_signal : limiter_ok (s_signalRL s)
}.

(** ** The sections keep it *)

Abbreviation safe := (safe gateway_ok).

Lemma keep_store f s :
  gateway_ok s → map_Forall (λ _ r, good_room r) (f (s_store s)) →
  (∀ room p, member (f (s_store s)) room p → joined (s_heard s) p room) → gateway_ok (on_store f s) ∧ quiet s (on_store f s).
Proof. intros [] H1 H2. split; [keep|by split]. Qed.

Lemma keep_peer q p p' s :
  gateway_ok s → s_peers s !! q = Some p → peer_ok (s_heard s) q p' →
  gateway_ok (on_peers <[q := p']> s) ∧ quiet s (on_peers <[q := p']> s).
Proof. intros [H1] Hq Hp. split; [|by split]. keep. by apply map_Forall_insert_2. Qed.

Lemma keep_limiters f1 f2 f3 s :
  gateway_ok s → limiter_ok (f1 (s_rl s)) → limiter_ok (f2 (s_typingRL s)) → limiter_ok (f3 (s_signalRL s)) →
  gateway_ok (on_limiters f1 f2 f3 s) ∧ quiet s (on_limiters f1 f2 f3 s).
Proof. intros [] H1 H2 H3. split; [keep|by split]. Qed.

Lemma keep_conns f g s :
  gateway_ok s → (∀ p, rooms_of p (on_conns f g s) ⊆ rooms_of p s) → gateway_ok (on_conns f g s) ∧ quiet s (on_conns f g s).
Proof.
  intros [] Hs. split; [|by split]. keep.
  - intros p. etrans; [apply subseteq_size, Hs|done].
  - intros p room Hr. by apply ok_joined0, Hs.
Qed.

Lemma keep_relays f s : gateway_ok s → gateway_ok (on_relays f s) ∧ quiet s (on_relays f s).
Proof. intros []. split; [keep|by split]. Qed.

Lemma push_ok s q p data : peer_ok (s_heard s) q p → delivered (s_heard s) q data → peer_ok (s_heard s) q (push data p).
Proof.
  unfold push. intros [H1 H2] Hd. destruct (Nat.ltb_spec (length (p_queue p)) peerSendBufSize); [|done].
  split; [cbn; rewrite length_app; cbn; lia|]. unfold texts_of in *. cbn. rewrite !Forall_app in *. naive_solver.
Qed.

Lemma safe_enqueue t P q data k `{!Stable t P} :
  (∀ s, gateway_ok s → P s → delivered (s_heard s) q data) → safe t P k → safe t P (enqueue q data k).
Proof.
  intros Hd Hk. constructor; [done|]. intros s s' pr HI HP (p & Hp & E)%bind_Some. destruct (p_closed p); injection E as <- <-.
  - split; [done|]. split; [by split|]. exists P. split; [done|constructor].
  - destruct (keep_peer q p (push data p) s) as [HI' Hq]; [done|done|by apply push_ok; [apply (ok_peers s HI)|auto]|].
    split; [done|]. split; [by apply quiet_guarantee|]. exists P. split; [|done]. by eapply stable, HP; apply quiet_rely.
Qed.

Lemma safe_sendError t P q msg k `{!Stable t P} : safe t P k → safe t P (sendError q msg k).
Proof.
  intros Hk. apply safe_peek; [done|]. intros now. apply safe_enqueue; [done| |done].
  intros s _ _. eexists. split; [done|]. apply from_server; [|by left]. cbn. decided.
Qed.

Lemma safe_enqueue_all t P targets data k `{!Stable t P} :
  (∀ s q, gateway_ok s → P s → q ∈ targets → delivered (s_heard s) q data) → safe t P k → safe t P (enqueue_all targets data k).
Proof.
  intros Hd Hk. apply safe_foldr; [done| |done]. intros q p Hq Hp. apply safe_enqueue; [done| |done]. eauto.
Qed.

(** A broadcast is safe when the envelope may go to whoever joined the room. *)
Lemma safe_broadcast t P room e exclude k `{!Stable t P} :
  (∀ s q, gateway_ok s → P s → joined (s_heard s) q room → q ≠ exclude → origin (s_heard s) q (signEnvelope e)) → safe t P k →
  safe t P (broadcast hmac_sha256 serverKey room e exclude k).
Proof.
  intros Ho Hk. apply safe_look with (Q := λ peers s, P s ∧ Forall (λ q, joined (s_heard s) q room) peers); [done| |].
  { intros s HI HP. split; [done|]. apply Forall_forall. intros q Hq%elem_of_Peers. by apply (ok_members s HI). }
  intros peers. apply safe_look with (Q := λ targets s, P s ∧ Forall (λ q, joined (s_heard s) q room ∧ q ≠ exclude) targets); [apply _| |].
  { intros s HI [HP HF]. split; [done|]. apply Forall_forall. intros q [[Hq _] Hin]%list_elem_of_filter.
    rewrite Forall_forall in HF. auto. }
  intros targets. apply safe_enqueue_all; [apply _| |by eapply safe_weaken; [apply _| |exact Hk]; intros s []].
  intros s q HI [HP HF] Hq. rewrite Forall_forall in HF. destruct (HF q Hq) as [Hj Hne]. eexists. split; [done|]. auto.
Qed.

Lemma safe_broadcastPresence t P room k `{!Stable t P} :
  safe t P k → safe t P (broadcastPresence hmac_sha256 serverKey room k).
Proof.
  intros Hk. apply safe_peek; [done|intros peers]. apply safe_peek; [done|intros [[ttl created] ex]].
  do 2 (apply safe_peek; [done|intros ?]). apply safe_broadcast; [done| |done].
  intros s q _ _ Hj _. apply from_server; [cbn; decided|by right].
Qed.

Lemma safe_sendRoomList t P q k `{!Stable t P} : safe t P k → safe t P (sendRoomList q k).
Proof.
  intros Hk. repeat (apply safe_peek; [done|intros ?]). apply safe_enqueue; [done| |done].
  intros s _ _. eexists. split; [done|]. apply from_server; [cbn; decided|by left].
Qed.

Lemma safe_forward t P e k `{!Stable t P} : safe t P k → safe t P (forwardToRelay e k).
Proof.
  intros Hk. apply safe_act; [done| |done]. intros s HI _. unfold forward.
  destruct (relayForRoom _ s); [by apply keep_relays|done].
Qed.

Lemma safe_tell_relay t P type room q k `{!Stable t P} : safe t P k → safe t P (tell_relay type room q k).
Proof. intros Hk. apply safe_peek; [done|]. intros now. by apply safe_forward. Qed.

(** *** The limiters *)

Lemma limiter_ok_set rl f :
  limiter_ok rl → map_Forall (λ _ b, 0 ≤ b_tokens b ≤ l_burst rl) (f (l_buckets rl)) → limiter_ok (set_buckets f rl).
Proof. intros (H1 & H2 & H3 & _) Hf. by split_and!. Qed.

Lemma refill_tokens rl now b :
  0 < l_burst rl → 0 ≤ b_tokens b ≤ l_burst rl → 0 ≤ b_tokens (refill rl now b) ≤ l_burst rl.
Proof. intros Hb Ht. unfold refill. destruct (_ >? 0) eqn:E; cbn; lia. Qed.

Lemma allow_ok now peerID rl : limiter_ok rl → limiter_ok (allow now peerID rl).2.
Proof.
  intros Hok. pose proof Hok as (H1 & H2 & H3 & H4). unfold allow.
  set (b := refill rl now _). assert (0 ≤ b_tokens b ≤ l_burst rl) as Hb.
  { apply refill_tokens; [done|]. destruct (l_buckets rl !! peerID) as [b0|] eqn:E; cbn; [by apply (H4 peerID)|lia]. }
  destruct (b_tokens b <=? 0) eqn:E; cbn; (apply limiter_ok_set; [done|apply map_Forall_insert_2; [cbn; lia|done]]).
Qed.

Lemma remove_ok peerID rl : limiter_ok rl → limiter_ok (remove peerID rl).
Proof. intros Hok. apply limiter_ok_set; [done|]. apply map_Forall_delete, Hok. Qed.

Lemma prune_ok now rl : limiter_ok rl → limiter_ok (prune now rl).
Proof. intros Hok. apply limiter_ok_set; [done|]. intros p b [Hb _]%map_lookup_filter_Some. by apply Hok in Hb. Qed.

Lemma safe_limiter t P (g : server → bool * (server → server)) (k : bool → prog) `{!Stable t P} :
  (∀ s, gateway_ok s → gateway_ok ((g s).2 s) ∧ quiet s ((g s).2 s)) → (∀ b, safe t P (k b)) →
  safe t P (Do (λ s, Some ((g s).2 s, k (g s).1))).
Proof.
  intros Hg Hk. constructor; [done|]. intros s s' p HI HP [= <- <-]. destruct (Hg s HI) as [HI' Hq].
  split; [done|]. split; [by apply quiet_guarantee|]. exists P. split; [|done]. by eapply stable, HP; apply quiet_rely.
Qed.

Lemma safe_allow_rl t P peerID k `{!Stable t P} : (∀ b, safe t P (k b)) → safe t P (allow_rl peerID k).
Proof.
  apply (safe_limiter t P (λ s, let r := allow (s_now s) peerID (s_rl s) in (r.1, on_limiters (λ _, r.2) id id))); [done|].
  intros s HI. apply keep_limiters; [done|apply allow_ok|..]; apply HI.
Qed.

Lemma safe_allow_typing t P peerID k `{!Stable t P} : (∀ b, safe t P (k b)) → safe t P (allow_typing peerID k).
Proof.
  apply (safe_limiter t P (λ s, let r := allow (s_now s) peerID (s_typingRL s) in (r.1, on_limiters id (λ _, r.2) id))); [done|].
  intros s HI. apply keep_limiters; [done|apply HI|apply allow_ok, HI|apply HI].
Qed.

Lemma safe_allow_signal t P peerID k `{!Stable t P} : (∀ b, safe t P (k b)) → safe t P (allow_signal peerID k).
Proof.
  apply (safe_limiter t P (λ s, let r := allow (s_now s) peerID (s_signalRL s) in (r.1, on_limiters id id (λ _, r.2)))); [done|].
  intros s HI. apply keep_limiters; [done|apply HI..|apply allow_ok, HI].
Qed.

(** *** Messages to a room *)

(** What the goroutine of a connection knows of the message it handles. *)
Definition knows (peerID msg : jsstr) (s : server) : Prop := (peerID, msg) ∈ s_heard s.
Definition knows_member (peerID msg room : jsstr) (s : server) : Prop :=
  knows peerID msg s ∧ joined (s_heard s) peerID room.

Global Instance stable_knows t peerID msg : Stable t (knows peerID msg).
Proof. unfold knows. apply _. Qed.
Global Instance stable_knows_member t peerID msg room : Stable t (knows_member peerID msg room).
Proof. unfold knows_member, knows. apply _. Qed.

Section Handlers.
Context (peerID msg : jsstr) (e : envelope) (Hread : read_envelope msg = (e, true)).

Abbreviation t := (Some peerID).

Lemma stamp_sent now s : knows peerID msg s → sent_by (s_heard s) (stamp peerID now e).
Proof. intros Hk. exists msg. split; [done|]. by exists e. Qed.

Lemma safe_if_in_room what k :
  safe t (knows_member peerID msg (e_Room e)) k → safe t (knows peerID msg) (if_in_room peerID (e_Room e) what k).
Proof.
  intros Hk. apply safe_look with (Q := λ b s, knows peerID msg s ∧ (b = true → joined (s_heard s) peerID (e_Room e))); [apply _| |].
  - intros s HI HP. split; [done|]. intros Hb%bool_decide_eq_true. by apply (ok_joined s HI).
  - intros []; [|apply safe_sendError; [apply _|constructor]].
    eapply safe_weaken; [apply _| |exact Hk]. intros s [H1 H2]. split; auto.
Qed.

Lemma safe_relay_to_room k :
  (∀ e, safe t (knows_member peerID msg (e_Room e)) (k e)) →
  safe t (knows_member peerID msg (e_Room e)) (relay_to_room hmac_sha256 serverKey peerID e k).
Proof.
  intros Hk. apply safe_peek; [apply _|intros now]. apply safe_broadcast; [apply _| |apply (Hk (stamp peerID now e))].
  intros s q HI [HP Hj] Hq Hne. apply from_member; try done; [|by left]. apply (stamp_sent now s HP).
Qed.

Lemma safe_forward_done P e' `{!Stable t P} : safe t P (forwardToRelay e' Done).
Proof. apply safe_forward; [done|constructor]. Qed.

Lemma safe_handle_chat what : safe t (knows peerID msg) (handle_chat hmac_sha256 serverKey peerID e what).
Proof.
  apply safe_allow_rl; [apply _|]. intros []; [|apply safe_sendError; [apply _|constructor]].
  apply safe_if_in_room, safe_relay_to_room. intros e'. apply safe_forward_done, _.
Qed.

Lemma safe_handle_typing : safe t (knows peerID msg) (handle_typing hmac_sha256 serverKey peerID e).
Proof.
  apply safe_if_in_room, safe_allow_typing; [apply _|]. intros []; [|constructor].
  apply safe_relay_to_room. constructor.
Qed.

Lemma safe_handle_receipt : safe t (knows peerID msg) (handle_receipt hmac_sha256 serverKey peerID e).
Proof. apply safe_if_in_room, safe_relay_to_room. constructor. Qed.

Lemma safe_send_to now : safe t (knows_member peerID msg (e_Room e)) (send_to (stamp peerID now e)).
Proof.
  apply safe_look with (Q := λ here s, knows_member peerID msg (e_Room e) s ∧ (here = true → joined (s_heard s) (e_To e) (e_Room e))).
  - apply _.
  - intros s HI HP. split; [done|]. intros [_ Hb%bool_decide_eq_true]%andb_true_iff. by apply (ok_joined s HI).
  - intros here.
    destruct here; [|apply safe_forward_done, _]. apply safe_enqueue; [apply _| |constructor].
    intros s HI [[HP Hj] Hto]. eexists. split; [done|]. apply from_member; auto. by apply stamp_sent.
Qed.

Lemma safe_handle_signal : safe t (knows peerID msg) (handle_signal hmac_sha256 serverKey peerID e).
Proof.
  assert (safe t (knows_member peerID msg (e_Room e)) (pass_signal hmac_sha256 serverKey peerID e)) as Hgo.
  { unfold pass_signal. destruct (_ && _); [apply safe_sendError; [apply _|constructor]|]. destruct (str_empty _).
    - apply safe_relay_to_room. intros e'. apply safe_forward_done, _.
    - apply safe_peek; [apply _|]. apply safe_send_to. }
  apply safe_if_in_room. destruct (is_signal e); [|done].
  apply safe_allow_signal; [apply _|]. intros []; [done|constructor].
Qed.
End Handlers.

(** *** Rooms *)

Lemma good_rooms_insert (st : store) name r :
  map_Forall (λ _ r, good_room r) st → good_room r → map_Forall (λ _ r, good_room r) (<[name := r]> st).
Proof. intros. by apply map_Forall_insert_2. Qed.

Lemma good_rooms_join now name q ttl salt st :
  map_Forall (λ _ r, good_room r) st → salt = [] ∨ length salt = 32%nat →
  map_Forall (λ _ r, good_room r) (JoinWithTTL now name q (ttl_for_join ttl) salt st).2.
Proof.
  intros Hst Hs. assert (store_ok (JoinWithTTL now name q (ttl_for_join ttl) salt st).2) as Hok
    by (apply JoinWithTTL_ok; intros n r Hr; by apply (Hst n r)).
  unfold JoinWithTTL in *. cbn [snd] in *. apply good_rooms_insert; [done|].
  split; [eapply (Hok name); apply lookup_insert_eq|]. destruct (st !! name) as [r|] eqn:Er; cbn; [by destruct (Hst name r Er)|].
  split; [done|]. unfold ttl_for_join. destruct (ttl >? 0) eqn:E; cbn; [|by left].
  case_bool_decide; [|by left]. rewrite E. by right.
Qed.

Lemma good_rooms_leave now name q st :
  map_Forall (λ _ r, good_room r) st → map_Forall (λ _ r, good_room r) (Leave now name q st).2.
Proof.
  intros Hst. assert (store_ok (Leave now name q st).2) as Hok by (apply Leave_ok; intros n r Hr; by apply (Hst n r)).
  unfold Leave in *. destruct (st !! name) as [r|] eqn:Er; [|done]. cbn [snd] in *. case_decide as Hd; [by apply map_Forall_delete|].
  apply good_rooms_insert; [done|]. split; [eapply (Hok name); apply lookup_insert_eq|by destruct (Hst name r Er)].
Qed.

Lemma good_rooms_nick name q nick st :
  map_Forall (λ _ r, good_room r) st → map_Forall (λ _ r, good_room r) (SetNickname name q nick st).
Proof.
  intros Hst. assert (store_ok (SetNickname name q nick st)) as Hok by (apply SetNickname_ok; intros n r Hr; by apply (Hst n r)).
  unfold SetNickname in *. destruct (st !! name) as [r|] eqn:Er; [|done]. destruct (r_Peers r !! q); [|done].
  apply good_rooms_insert; [done|]. split; [eapply (Hok name); apply lookup_insert_eq|by destruct (Hst name r Er)].
Qed.

Lemma safe_leave_store t P room q k `{!Stable t P} : safe t P k → safe t P (leave_store room q k).
Proof.
  intros Hk. apply safe_act; [done| |done]. intros s HI _. apply keep_store; [done|apply good_rooms_leave, HI|].
  intros n p [Hm _]%member_Leave. by apply (ok_members s HI).
Qed.

Lemma rooms_of_insert p q X s f : rooms_of p (on_conns f <[q := X]> s) = if decide (p = q) then X else rooms_of p s.
Proof. unfold rooms_of. cbn. case_decide as E; [subst; by rewrite lookup_insert_eq|by rewrite lookup_insert_ne]. Qed.

Lemma rooms_of_delete p q s f : rooms_of p (on_conns f (delete q) s) = if decide (p = q) then ∅ else rooms_of p s.
Proof. unfold rooms_of. cbn. case_decide as E; [subst; by rewrite lookup_delete_eq|by rewrite lookup_delete_ne]. Qed.

Lemma rooms_of_lookup q X s : s_peerRooms s !! q = Some X → rooms_of q s = X.
Proof. unfold rooms_of. by intros ->. Qed.

Lemma keep_exit_room q room s : gateway_ok s → gateway_ok (exit_room q room s) ∧ quiet s (exit_room q room s).
Proof.
  intros HI. unfold exit_room. destruct (s_peerRooms s !! q) as [X|] eqn:E; [|done]. apply rooms_of_lookup in E.
  apply keep_conns; [done|]. intros p. destruct (decide (X ∖ {[room]} = ∅)).
  - rewrite rooms_of_delete. case_decide; set_solver.
  - rewrite rooms_of_insert. case_decide; set_solver.
Qed.

(** ** Joining and leaving *)

Section Rooms.
Context (peerID msg : jsstr) (e : envelope) (Hread : read_envelope msg = (e, true)).

Abbreviation t := (Some peerID).

(** There is place for the room. *)
Definition has_place (s : server) : Prop := (size ({[e_Room e]} ∪ rooms_of peerID s) ≤ MaxRooms)%nat.

Global Instance stable_has_place : Stable t has_place.
Proof.
  apply (stable_rooms peerID (λ X, (size ({[e_Room e]} ∪ X) ≤ MaxRooms)%nat)).
  intros X Y HX HY. etrans; [|exact HX]. apply subseteq_size. set_solver.
Qed.

Lemma enter_room_ok s :
  gateway_ok s → joined (s_heard s) peerID (e_Room e) → has_place s →
  gateway_ok (enter_room peerID (e_Room e) s) ∧ guarantee t s (enter_room peerID (e_Room e) s).
Proof.
  intros HI Hj Hp. unfold enter_room. split.
  - destruct HI. keep; intros p; rewrite rooms_of_insert; case_decide as E; subst; auto.
    intros room [->%elem_of_singleton|Hr]%elem_of_union; auto.
  - split; [done|]. intros q Hq. rewrite rooms_of_insert. by rewrite decide_False by congruence.
Qed.

Lemma safe_after_join room : safe t (knows peerID msg)
  (broadcastPresence hmac_sha256 serverKey room (sendRoomList peerID (tell_relay (lit "join") room peerID Done))).
Proof. apply safe_broadcastPresence; [apply _|]. apply safe_sendRoomList; [apply _|]. apply safe_tell_relay; [apply _|constructor]. Qed.

Lemma safe_enter :
  e_Type e = lit "join" → safe t (λ s, knows peerID msg s ∧ has_place s) (enter hmac_sha256 serverKey peerID e).
Proof.
  intros Ht. assert (∀ s, knows peerID msg s → joined (s_heard s) peerID (e_Room e)) as Hj
    by (intros s Hk; exists msg; split; [done|by exists e]).
  unfold enter. set (rest := match join_salt _ with Ok _ => _ | Throw _ => _ end).
  assert (safe t (knows peerID msg) rest) as Hrest.
  { unfold rest. destruct (join_salt _) as [salt|reason] eqn:Es; [|apply safe_sendError; [apply _|constructor]].
    assert (salt = [] ∨ length salt = 32%nat) as Hsalt.
    { unfold join_salt in Es. destruct (jp_Salt _); [left; congruence|]. destruct (DecodeString _); [|done].
      case_decide; [|done]. right; congruence. }
    apply safe_act; [apply _| |].
    - intros s HI Hk. apply keep_store; [done|by apply good_rooms_join; [apply HI|]|].
      intros n p [[-> ->]|Hm]%member_Join; [by apply Hj|by apply (ok_members s HI)].
    - cbv zeta. destruct (str_empty _); [apply safe_after_join|]. apply safe_act; [apply _| |apply safe_after_join].
      intros s HI Hk. apply keep_store; [done|apply good_rooms_nick, HI|].
      intros n p Hm%member_SetNickname. by apply (ok_members s HI). }
  constructor; [apply _|]. intros s s' p HI [Hk Hp] [= <- <-]. destruct (enter_room_ok s) as [H1 H2]; auto.
  split; [done|]. split; [done|]. by exists (knows peerID msg).
Qed.

Lemma safe_handle_join :
  e_Type e = lit "join" → safe t (knows peerID msg) (handle_join hmac_sha256 serverKey peerID e).
Proof.
  intros Ht. assert (safe t (knows peerID msg) (check_rooms hmac_sha256 serverKey peerID e)) as Hl.
  { apply safe_look with (Q := λ x s, knows peerID msg s ∧ (negb x.1 && Nat.leb MaxRooms x.2 = false → has_place s)); [apply _| |].
    - intros s HI Hk. split; [done|]. cbn [fst snd]. intros [Hin%negb_false_iff|Hlt%Nat.leb_gt]%andb_false_iff.
      + apply bool_decide_eq_true in Hin. unfold has_place. replace ({[e_Room e]} ∪ rooms_of peerID s) with (rooms_of peerID s) by set_solver.
        apply (ok_sizes s HI).
      + unfold has_place. pose proof (size_union_alt {[e_Room e]} (rooms_of peerID s)) as Hu. rewrite size_singleton in Hu.
        pose proof (subseteq_size (rooms_of peerID s ∖ {[e_Room e]}) (rooms_of peerID s) ltac:(set_solver)). lia.
    - intros [alreadyIn n]. cbn [fst snd]. destruct (negb alreadyIn && _) eqn:E; [apply safe_sendError; [apply _|constructor]|].
      eapply safe_weaken; [apply _| |by apply safe_enter]. intros s [Hk Hp]. auto. }
  apply safe_peek; [apply _|]. intros [|n]; [|done]. apply safe_peek; [apply _|]. intros c.
  destruct (Nat.leb _ _); [apply safe_sendError; [apply _|constructor]|done].
Qed.

Lemma safe_handle_leave : safe t (knows peerID msg) (handle_leave hmac_sha256 serverKey peerID (e_Room e)).
Proof.
  apply safe_leave_store; [apply _|]. apply safe_act; [apply _|intros s HI _; by apply keep_exit_room|].
  apply safe_broadcastPresence; [apply _|]. apply safe_sendRoomList; [apply _|]. apply safe_tell_relay; [apply _|constructor].
Qed.

Lemma safe_handle_envelope : safe t (knows peerID msg) (handle_envelope hmac_sha256 letter_or_number serverKey peerID e).
Proof.
  unfold handle_envelope.
  repeat first
    [ apply safe_sendError; [apply _|constructor]
    | match goal with |- context [if ?b then _ else _] => destruct b eqn:?E end ];
    eauto using safe_handle_leave, safe_handle_chat, safe_handle_typing, safe_handle_receipt, safe_handle_signal, safe_done.
  apply safe_handle_join. by eapply bool_decide_eq_true.
Qed.
End Rooms.

Lemma safe_handle_message peerID msg :
  safe (Some peerID) (knows peerID msg) (handle_message hmac_sha256 letter_or_number serverKey peerID msg).
Proof.
  unfold handle_message. destruct (read_envelope msg) as [e []] eqn:E; [by apply safe_handle_envelope|].
  apply safe_sendError; [apply _|constructor].
Qed.

(** ** The end of connections and rooms *)

Lemma keep_peers f s :
  gateway_ok s → (∀ q p, s_peers s !! q = Some p → ∀ p', f (s_peers s) !! q = Some p' → peer_ok (s_heard s) q p → peer_ok (s_heard s) q p') →
  dom (f (s_peers s)) ⊆ dom (s_peers s) → gateway_ok (on_peers f s) ∧ quiet s (on_peers f s).
Proof.
  intros [] Hf Hd. split; [|by split]. keep. intros q p' Hp'.
  assert (is_Some (s_peers s !! q)) as [p Hp] by (apply elem_of_dom, Hd, elem_of_dom; by exists p').
  eapply Hf; eauto.
Qed.

Lemma safe_closeSend t P q k `{!Stable t P} : safe t P k → safe t P (closeSend q k).
Proof.
  intros Hk. constructor; [done|]. intros s s' pr HI HP (p & Hp & E)%bind_Some. destruct (p_closed p); injection E as <- <-.
  - split; [done|]. split; [by split|]. exists P. split; [done|constructor].
  - destruct (keep_peer q p (close_queue p) s) as [HI' Hq]; [done|done|exact (ok_peers s HI q p Hp)|].
    split; [done|]. split; [by apply quiet_guarantee|]. exists P. split; [by eapply stable, HP; apply quiet_rely|].
    constructor; [done|]. intros s2 s2' pr2 HI2 HP2 (p2 & Hp2 & E2)%bind_Some. destruct (p_pumping p2); [done|].
    injection E2 as <- <-. split; [done|]. split; [by split|]. by exists P.
Qed.

Lemma safe_close_socket t P q k `{!Stable t P} : safe t P k → safe t P (close_socket q k).
Proof.
  intros Hk. apply safe_act; [done| |done]. intros s HI _. apply keep_peers; [done| |by rewrite dom_alter].
  intros q' p Hp p' Hp' Hok. destruct (decide (q' = q)) as [->|Hne].
  - rewrite lookup_alter_eq, Hp in Hp'. by injection Hp' as <-.
  - rewrite lookup_alter_ne, Hp in Hp' by done. by injection Hp' as <-.
Qed.

Abbreviation nothing := (λ _ : server, True).

Lemma keep_delete q f s :
  gateway_ok s → gateway_ok (on_conns f (delete q) s) ∧ quiet s (on_conns f (delete q) s).
Proof. intros HI. apply keep_conns; [done|]. intros p. rewrite rooms_of_delete. case_decide; set_solver. Qed.

Lemma safe_disconnected q : safe (Some q) nothing (disconnected hmac_sha256 serverKey q).
Proof.
  do 3 (apply safe_act; [apply _|intros s HI _; apply keep_limiters; first [done|apply HI|apply remove_ok, HI]|]).
  constructor; [apply _|]. intros s s' p HI _ [= <- <-]. destruct (keep_delete q (.∖ {[q]}) s HI) as [H1 H2].
  split; [done|]. split; [by apply quiet_guarantee|]. exists nothing. split; [done|]. apply safe_foldr; [apply _| |].
  - intros room p _ Hp. apply safe_leave_store; [apply _|]. apply safe_broadcastPresence; [apply _|]. by apply safe_tell_relay; [apply _|].
  - apply safe_closeSend; [apply _|]. apply safe_close_socket; [apply _|constructor].
Qed.

Lemma safe_connected q : safe (Some q) nothing (connected q).
Proof.
  apply safe_act; [apply _|intros s HI _; by apply keep_conns|]. apply safe_peek; [apply _|intros now].
  apply safe_enqueue; [apply _| |constructor]. intros s _ _. eexists. split; [done|]. apply from_server; [cbn; decided|by left].
Qed.

Lemma safe_disconnect_peer t room q k : safe t nothing k → safe t nothing (disconnect_peer room q k).
Proof.
  intros Hk. constructor; [apply _|]. intros s s' p HI _. set (m := match s_peerRooms s !! q with Some _ => _ | None => _ end).
  assert (gateway_ok m.2 ∧ quiet s m.2) as [H1 H2].
  { unfold m. destruct (s_peerRooms s !! q) as [X|] eqn:E; [|done]. apply rooms_of_lookup in E.
    case_bool_decide; [|done]. destruct (decide _); cbn [snd]; [by apply keep_delete|]. apply keep_conns; [done|].
    intros p'. rewrite rooms_of_insert. case_decide; set_solver. }
  destruct m as [shouldClose s2]. intros [= <- <-]. split; [done|]. split; [by apply quiet_guarantee|]. exists nothing.
  split; [done|]. apply safe_leave_store; [apply _|]. destruct shouldClose; [|done].
  apply safe_closeSend; [apply _|]. by apply safe_close_socket; [apply _|].
Qed.

Lemma safe_disconnectAllPeers t room k : safe t nothing k → safe t nothing (disconnectAllPeers room k).
Proof.
  intros Hk. apply safe_peek; [apply _|]. intros peers. apply safe_foldr; [apply _| |done].
  intros q p _ Hp. by apply safe_disconnect_peer.
Qed.

Lemma safe_ttl_tick t : safe t nothing (ttl_tick hmac_sha256 serverKey).
Proof.
  apply safe_peek; [apply _|]. intros rooms. apply safe_foldr; [apply _| |constructor]. intros room p _ Hp.
  apply safe_peek; [apply _|]. intros now. apply safe_broadcast; [apply _| |].
  - intros s q _ _ Hj _. by apply from_expiry.
  - apply safe_disconnectAllPeers. by apply safe_leave_store; [apply _|].
Qed.

Lemma safe_cleanup_room t room : safe t nothing (cleanup_room room).
Proof. apply safe_disconnectAllPeers. apply safe_leave_store; [apply _|constructor]. Qed.

Lemma safe_worker_broadcast t room type payload : safe t nothing (worker_broadcast hmac_sha256 serverKey room type payload).
Proof.
  unfold worker_broadcast. destruct (includes _ type) eqn:E; [|constructor]. apply includes_spec in E.
  apply safe_peek; [apply _|]. intros now. apply safe_broadcast; [apply _| |constructor].
  intros s q _ _ Hj _. apply from_server; [|by right]. unfold server_types. cbn [Gateway.signEnvelope e_Type]. cbn. set_solver.
Qed.

Lemma safe_relayed t msg : safe t (λ s, ([], msg) ∈ s_heard s) (relayed hmac_sha256 serverKey msg).
Proof.
  unfold relayed. destruct (read_envelope msg) as [e []] eqn:E; [|constructor]. apply safe_broadcast; [apply _| |constructor].
  intros s q _ Hh Hj Hne. eapply from_relay; eauto.
Qed.

(** ** All runs *)

Definition conn_safe (s : server) (q : jsstr) (c : conn_state) : Prop :=
  match c with Reading => True | Handling p | Closing p => safe_at gateway_ok (Some q) s p end.

Definition all_safe (g : gateway) : Prop :=
  gateway_ok (g_srv g) ∧ map_Forall (conn_safe (g_srv g)) (g_conns g) ∧
  Forall (λ x, safe_at gateway_ok None (g_srv g) x.2) (g_tasks g).

Lemma conn_safe_rely (s s' : server) (q : jsstr) c : rely (Some q) s s' → conn_safe s q c → conn_safe s' q c.
Proof. intros Hr. destruct c; [done|..]; apply safe_at_rely, Hr. Qed.

(** A step of another thread leaves a connection or a task safe. *)
Lemma others_conns (t : thread) (s s' : server) (cs : gmap jsstr conn_state) :
  guarantee t s s' → (∀ q, is_Some (cs !! q) → t ≠ Some q ∨ t = None) → map_Forall (conn_safe s) cs → map_Forall (conn_safe s') cs.
Proof. intros Hg Ht Hc q c Hq. eapply conn_safe_rely; [|by apply Hc]. eapply guarantee_rely; [|done]. apply Ht. by exists c. Qed.

Lemma others_tasks (t : thread) (s s' : server) (ts : list (bool * prog)) :
  guarantee t s s' → Forall (λ x, safe_at gateway_ok None s x.2) ts → Forall (λ x, safe_at gateway_ok None s' x.2) ts.
Proof.
  intros [H1 H2] Hts. eapply Forall_impl; [exact Hts|]. intros x. apply safe_at_rely. split; [done|]. by intros q [=].
Qed.

(** The goroutine of a connection moves on, the others stay. *)
Lemma all_safe_conn g q c s' :
  all_safe g → gateway_ok s' → guarantee (Some q) (g_srv g) s' → conn_safe s' q c → all_safe (set_conn q c s' g).
Proof.
  intros (HI & Hc & Ht) HI' Hg Hq. split; [done|]. split; [|by eapply others_tasks]. intros q' c'. cbn [set_conn g_conns g_srv].
  rewrite lookup_insert_Some. intros [[-> ->]|[Hne Hq']]; [done|]. eapply conn_safe_rely; [|by apply Hc].
  eapply guarantee_rely; [|done]. left. congruence.
Qed.

(** A step that is quiet leaves everything safe. *)
Lemma all_safe_server g s' :
  all_safe g → gateway_ok s' → quiet (g_srv g) s' → all_safe (Gateway s' (g_conns g) (g_tasks g) (g_crashed g)).
Proof.
  intros (HI & Hc & Ht) HI' Hq. apply (quiet_guarantee None) in Hq. split; [done|]. split; [|by eapply others_tasks].
  eapply (others_conns None); eauto.
Qed.

Lemma all_safe_spawn g http p : all_safe g → safe_at gateway_ok None (g_srv g) p → all_safe (spawn http p g).
Proof. intros (HI & Hc & Ht) Hp. split; [done|]. split; [done|]. by apply Forall_snoc. Qed.

Lemma all_safe_with_peer q f g g' :
  (∀ h p p', f p = Some p' → peer_ok h q p → peer_ok h q p') → all_safe g → with_peer q f g = Some g' → all_safe g'.
Proof.
  intros Hf Hg (p & Hp & (p' & Hp' & [= <-])%bind_Some)%bind_Some. destruct (keep_peer q p p' (g_srv g)) as [H1 H2]; [apply Hg|done| |].
  - eapply Hf; [done|]. by apply (ok_peers _ (proj1 Hg)).
  - by apply all_safe_server.
Qed.

Lemma peer_ok_texts h q p p' :
  (length (p_queue p') ≤ length (p_queue p))%nat → texts_of p' ⊆ texts_of p → peer_ok h q p → peer_ok h q p'.
Proof. unfold peer_ok. rewrite !Forall_forall. intros Hl Ht [H1 H2]. split; [lia|]. intros x Hx. by apply H2, Ht. Qed.

Lemma conn_safe_handling s q p : gateway_ok s → safe_at gateway_ok (Some q) s p →
  conn_safe s q (handling hmac_sha256 serverKey q p).
Proof. intros HI Hp. destruct p; [done| |done]. exists nothing. split; [done|apply safe_disconnected]. Qed.

Lemma hears_more q msg s : s_heard s ⊆ s_heard (hear q msg s).
Proof. intros x Hx. apply elem_of_app. by left. Qed.

Lemma all_safe_hear g q msg : all_safe g → all_safe (on_server (hear q msg) g).
Proof.
  intros Hg. pose proof Hg as ([] & _). pose proof (hears_more q msg (g_srv g)) as Hh.
  apply all_safe_server; [done| |by split]. keep.
  - intros p pr Hp. by eapply peer_ok_mono, ok_peers0.
  - intros room p Hm. by eapply joined_mono, ok_members0.
  - intros p room Hr. by eapply joined_mono, ok_joined0.
Qed.

Abbreviation gw_exec := (gw_exec hmac_sha256 letter_or_number serverKey).
Abbreviation gw_run := (gw_run hmac_sha256 letter_or_number serverKey).

Lemma all_safe_exec g l g' : all_safe g → gw_exec g l = Some g' → all_safe g'.
Proof.
  intros Hg. pose proof Hg as (HI & Hc & Ht). unfold Gateway.gw_exec. destruct (g_crashed g); [done|].
  assert (∀ q s', gateway_ok s' → guarantee (Some q) (g_srv g) s' → all_safe (set_conn q (Closing (disconnected hmac_sha256 serverKey q)) s' g)) as Hclose.
  { intros q s' H1 H2. apply all_safe_conn; [done..|]. exists nothing. split; [done|apply safe_disconnected]. }
  destruct l as [q|q msg|q|room|room type payload|msg|i b|q|i|q|q|q|q| | |d].
  - case_decide as Hq; [done|]. intros [= <-]. apply all_safe_conn; [done| | |].
    + destruct HI. keep. apply map_Forall_insert_2; [|done]. split; [cbn; lia|constructor].
    + by split.
    + exists nothing. split; [done|apply safe_connected].
  - destruct (g_conns g !! q) as [[]|]; try done. destruct (s_peers (g_srv g) !! q) as [p|]; [|done].
    destruct (p_open p); [|done]. destruct (Nat.leb _ _); intros [= <-]; [|by apply Hclose].
    destruct (all_safe_hear g q msg Hg) as (HI' & _). apply all_safe_conn; [done|done|split; [apply hears_more|done]|].
    apply conn_safe_handling; [done|]. exists (knows q msg). split; [|apply safe_handle_message].
    apply elem_of_app. right. by apply list_elem_of_singleton.
  - destruct (g_conns g !! q) as [[]|]; try done. intros [= <-]. by apply Hclose.
  - intros [= <-]. apply all_safe_spawn; [done|]. exists nothing. split; [done|apply safe_cleanup_room].
  - intros [= <-]. apply all_safe_spawn; [done|]. exists nothing. split; [done|apply safe_worker_broadcast].
  - case_decide; [done|]. intros [= <-]. apply all_safe_spawn; [by apply all_safe_hear|].
    eexists. split; [|apply safe_relayed]. apply elem_of_app. right. by apply list_elem_of_singleton.
  - intros [= <-]. destruct (keep_relays (alter (λ r, Relay b (ri_sent r)) i) (g_srv g) HI). by apply all_safe_server.
  - intros (c & Hq & ([c' s'] & E & [= <-])%bind_Some)%bind_Some. specialize (Hc q c Hq).
    destruct c as [|[| |f]|[| |f]]; try done; cbn in E; apply bind_Some in E as ([s2 p] & Hf & [= <- <-]);
      destruct (safe_at_step _ _ _ _ _ _ HI Hc Hf) as (H1 & H2 & H3); apply all_safe_conn; try done.
    by apply conn_safe_handling.
  - destruct (g_tasks g !! i) as [[http [| |f]]|] eqn:Ei; try done. intros ([s' p] & Hf & [= <-])%bind_Some.
    destruct (safe_at_step _ None _ _ _ _ HI (proj1 (Forall_lookup _ _) Ht _ _ Ei) Hf) as (H1 & H2 & H3).
    split; [done|]. split; [eapply (others_conns None); eauto|]. apply Forall_insert; [by eapply others_tasks|done].
  - apply all_safe_with_peer; [|done]. intros h p p' E. unfold take_message in E.
    destruct (p_queue p) as [|m ms] eqn:Eq, (p_writing p) eqn:Ew; try done. destruct (p_pumping p); [|done]. injection E as <-.
    apply peer_ok_texts; unfold texts_of; cbn; rewrite Eq, ?Ew; cbn; [lia|set_solver].
  - apply all_safe_with_peer; [|done]. intros h p p' E. unfold written in E. destruct (p_writing p) eqn:Ew; [|done].
    destruct (p_open p); [|done]. injection E as <-. apply peer_ok_texts; unfold texts_of; cbn; rewrite ?Ew; cbn; [lia|set_solver].
  - apply all_safe_with_peer; [|done]. intros h p p' E. unfold write_error in E. destruct (p_writing p) eqn:Ew; [|done].
    injection E as <-. apply peer_ok_texts; unfold texts_of; cbn; [lia|set_solver].
  - apply all_safe_with_peer; [|done]. intros h p p' E. unfold pump_end in E. destruct (p_queue p), (p_writing p); try done.
    destruct (_ && _); [|done]. injection E as <-. apply peer_ok_texts; unfold texts_of; cbn; [lia|set_solver].
  - intros [= <-]. apply all_safe_spawn; [done|]. exists nothing. split; [done|apply safe_ttl_tick].
  - intros [= <-]. destruct (keep_limiters (prune (s_now (g_srv g))) (prune (s_now (g_srv g))) (prune (s_now (g_srv g))) (g_srv g) HI)
      as [H1 H2]; [apply prune_ok, HI..|]. by apply all_safe_server.
  - destruct (d <? 0); [done|]. intros [= <-]. destruct HI. apply all_safe_server; [done|keep|by split].
Qed.

Lemma all_safe_new relays now : all_safe (new_gateway relays now).
Proof.
  split; [|by split]. assert (∀ r i b, 0 < r → 0 < i → 0 < b → limiter_ok (newRateLimiter r i b)) as Hl by (intros; by split_and!).
  constructor; try (apply Hl; unfold second; lia); try done.
  - intros room p (r & Hr & _). cbn in Hr. unfold NewStore in Hr. by rewrite lookup_empty in Hr.
  - intros p. change (rooms_of p _) with (∅ : gset jsstr). rewrite size_empty. unfold MaxRooms. lia.
Qed.

Lemma all_safe_run g ls g' : all_safe g → gw_run g ls = Some g' → all_safe g'.
Proof.
  revert g. induction ls as [|l ls IH]; intros g Hg; [by intros [= <-]|].
  intros (g1 & H1 & H2)%bind_Some. eapply IH, H2. by eapply all_safe_exec.
Qed.
End Invariant.

Section Properties.
Context (hmac_sha256 : bytes → bytes → bytes) (letter_or_number : Z → bool) (serverKey : bytes).

(** C6: whatever the goroutines of the gateway do in between each other: at most
    64 messages wait for a peer, a connection is in at most five rooms, no room
    is empty, every salt has 32 bytes and every time to live is one of the four
    on offer, and no limiter gives more than its burst. *)
Theorem gateway_invariant relays now ls g :
  gw_run hmac_sha256 letter_or_number serverKey (new_gateway relays now) ls = Some g →
  let s := g_srv g in
  map_Forall (λ _ p, length (p_queue p) ≤ peerSendBufSize)%nat (s_peers s) ∧
  (∀ peerID, size (rooms_of peerID s) ≤ MaxRooms)%nat ∧
  map_Forall (λ _ r, good_room r) (s_store s) ∧
  limiter_ok (s_rl s) ∧ limiter_ok (s_typingRL s) ∧ limiter_ok (s_signalRL s).
Proof.
  intros Hrun. destruct (all_safe_run _ _ _ _ _ _ (all_safe_new hmac_sha256 serverKey relays now) Hrun) as [[] _].
  cbv zeta. split_and!; try done. intros q p Hp. by apply (ok_peers0 q).
Qed.

(** C5: whatever the goroutines of the gateway do in between each other: a text
    that is written to a connection is an envelope of the server, or one that
    the connection it names sent, with its type, room, payload and message id,
    to a room both had asked to join, or one of a relay. Nobody can speak for
    another, and nobody hears a room it did not ask for. *)
Theorem gateway_authentic relays now ls g q p text :
  gw_run hmac_sha256 letter_or_number serverKey (new_gateway relays now) ls = Some g →
  s_peers (g_srv g) !! q = Some p → text ∈ p_written p →
  ∃ e, text = marshal e ∧ origin hmac_sha256 serverKey (s_heard (g_srv g)) q e.
Proof.
  intros Hrun Hp Ht. destruct (all_safe_run _ _ _ _ _ _ (all_safe_new hmac_sha256 serverKey relays now) Hrun) as [[] _].
  destruct (ok_peers0 q p Hp) as [_ HF]. rewrite Forall_forall in HF. apply HF. unfold texts_of. set_solver.
Qed.
End Properties.
