(* ===== verification/GatewayRuns.v ===== *)
(** * What the gateway does with a message, and how much of it

    A goroutine that is not interrupted runs as [run] says; the specifications
    of the handlers are equations of it. Then the limiters: the most they let
    through, and what they refuse of a file sent at the client's own pace; and
    that the signature covers its fields one by one. *)

From S2P Require Import Prelude JsLib Base64 Text Json GoLib Storage Gateway GatewayFacts MediaSend.

Local Open Scope Z_scope.

(** ** Running alone *)

(** Whether the goroutine ends without a panic, and the state it leaves;
    [None] when it waits. *)
Fixpoint run (p : prog) (s : server) : option (bool * server) :=
  match p with
  | Done => Some (true, s)
  | Panic => Some (false, s)
  | Do f => match f s with Some (s', p') => run p' s' | None => None end
  end.

Lemma prog_ind' (P : prog → Prop) :
  P Done → P Panic → (∀ f, (∀ s s' p, f s = Some (s', p) → P p) → P (Do f)) → ∀ p, P p.
Proof.
  intros H1 H2 H3. fix IH 1. intros [| |f]; [exact H1|exact H2|]. apply H3. intros s s' p.
  destruct (f s) as [[s1 p1]|]; [|discriminate]. intros [= <- <-]. apply IH.
Qed.

(** [ps] with [data] put into the queue of [q]. *)
Definition deliver (data : jsstr) (ps : gmap jsstr peer) (q : jsstr) : gmap jsstr peer :=
  match ps !! q with Some p => <[q := push data p]> ps | None => ps end.

Definition send_all (targets : list jsstr) (data : jsstr) (s : server) : server :=
  on_peers (λ ps, foldl (deliver data) ps targets) s.

(** Who a broadcast goes to. *)
Definition audience (room exclude : jsstr) (s : server) : list jsstr :=
  filter (λ id, id ≠ exclude ∧ id ∈ s_conns s) (Peers room (s_store s)).

(** No queue of a connection in the map is closed. *)
Definition takes (ps : gmap jsstr peer) (q : jsstr) : Prop := ∃ p, ps !! q = Some p ∧ p_closed p = false.
Definition all_open (s : server) : Prop := ∀ q, q ∈ s_conns s → takes (s_peers s) q.

Lemma push_closed data p : p_closed (push data p) = p_closed p.
Proof. unfold push. by destruct (Nat.ltb _ _). Qed.

Lemma deliver_takes data ps q q' : takes ps q' → takes (deliver data ps q) q'.
Proof.
  intros (p & Hp & Hc). unfold deliver. destruct (ps !! q) as [p0|] eqn:E; [|by exists p].
  unfold takes. destruct (decide (q' = q)) as [->|Hne].
  - rewrite lookup_insert_eq. exists (push data p0). split; [done|]. rewrite push_closed. congruence.
  - rewrite lookup_insert_ne by done. by exists p.
Qed.

Lemma send_all_takes targets data s q : takes (s_peers s) q → takes (s_peers (send_all targets data s)) q.
Proof.
  cbn. generalize (s_peers s). induction targets as [|q' l IH]; intros ps Hq; [done|]. cbn. by apply IH, deliver_takes.
Qed.

Lemma all_open_send_all targets data s : all_open s → all_open (send_all targets data s).
Proof. intros Ho q Hq. by apply send_all_takes, Ho. Qed.

Lemma run_enqueue q data k s p :
  s_peers s !! q = Some p → p_closed p = false → run (enqueue q data k) s = run k (send_all [q] data s).
Proof.
  intros Hp Hc. unfold enqueue, send_all. cbn [run foldl]. unfold deliver. rewrite Hp. cbn [mbind option_bind]. rewrite Hc.
  unfold on_peers. by rewrite Hp.
Qed.

Lemma run_enqueue_all targets data k s :
  (∀ q, q ∈ targets → takes (s_peers s) q) → run (enqueue_all targets data k) s = run k (send_all targets data s).
Proof.
  revert s. induction targets as [|q l IH]; intros s Ht.
  - unfold send_all, on_peers. cbn. by destruct s.
  - destruct (Ht q ltac:(by left)) as (p & Hp & Hc). cbn [enqueue_all foldr].
    rewrite (run_enqueue q data _ s p) by done. fold (enqueue_all l data k). rewrite IH; [done|].
    intros q' Hq'. apply send_all_takes, Ht. by right.
Qed.

Lemma deliver_lookup data ps q q' :
  deliver data ps q !! q' = if decide (q' = q) then push data <$> ps !! q' else ps !! q'.
Proof.
  unfold deliver. destruct (ps !! q) as [p|] eqn:E; case_decide as Hd; subst; rewrite ?lookup_insert_eq, ?E; try done.
  by rewrite lookup_insert_ne.
Qed.

Lemma send_all_lookup targets data s q :
  NoDup targets →
  s_peers (send_all targets data s) !! q = if decide (q ∈ targets) then push data <$> s_peers s !! q else s_peers s !! q.
Proof.
  cbn. generalize (s_peers s). induction targets as [|q' l IH]; intros ps Hn; [done|].
  apply NoDup_cons in Hn as [Hq' Hn]. cbn [foldl]. rewrite IH, deliver_lookup by done.
  destruct (decide (q = q')) as [->|Hne].
  - rewrite decide_False by done. rewrite decide_True; [done|by left].
  - destruct (decide (q ∈ l)); [rewrite decide_True|rewrite decide_False]; set_solver.
Qed.

Lemma NoDup_audience room exclude s : NoDup (audience room exclude s).
Proof. apply NoDup_filter, NoDup_Peers. Qed.

Lemma elem_of_audience room exclude s q :
  q ∈ audience room exclude s ↔ q ≠ exclude ∧ q ∈ s_conns s ∧ member (s_store s) room q.
Proof. unfold audience. rewrite list_elem_of_filter, elem_of_Peers. naive_solver. Qed.

Section Runs.
Context (hmac_sha256 : bytes → bytes → bytes) (letter_or_number : Z → bool) (serverKey : bytes).

Abbreviation signEnvelope := (signEnvelope hmac_sha256 serverKey).
Abbreviation handle_message := (handle_message hmac_sha256 letter_or_number serverKey).
Abbreviation gw_run := (gw_run hmac_sha256 letter_or_number serverKey).

(** The scheduler can let a goroutine run to its end. *)
Lemma run_steps q p s s' g :
  g_crashed g = false → g_conns g !! q = Some (handling hmac_sha256 serverKey q p) → g_srv g = s → run p s = Some (true, s') →
  ∃ n, gw_run g (replicate n (GStep q)) = Some (set_conn q Reading s' g).
Proof.
  revert s g. induction p as [| |f IH] using prog_ind'; intros s g Hcr Hq Hs Hrun; [|done|].
  - injection Hrun as <-. exists 0%nat. subst. destruct g; cbn in *. unfold set_conn. cbn. by rewrite insert_id.
  - cbn in Hrun. destruct (f s) as [[s1 p1]|] eqn:Ef; [|done].
    destruct (IH s s1 p1 Ef s1 (set_conn q (handling hmac_sha256 serverKey q p1) s1 g)) as (n & Hn);
      [done|apply lookup_insert_eq|done|done|].
    exists (S n). cbn [replicate Gateway.gw_run]. unfold gw_exec. rewrite Hcr, Hq. cbn. rewrite Hs, Ef. cbn.
    rewrite Hn. unfold set_conn. cbn. by rewrite insert_insert_eq.
Qed.

Lemma run_look {A} (g : server → A) k s : run (look g k) s = run (k (g s)) s.
Proof. done. Qed.

Lemma run_act f k s : run (act f k) s = run k (f s).
Proof. done. Qed.

(** ** Sending *)

Lemma run_broadcast room e exclude k s :
  all_open s →
  run (broadcast hmac_sha256 serverKey room e exclude k) s = run k (send_all (audience room exclude s) (marshal (signEnvelope e)) s).
Proof.
  intros Ho. unfold broadcast. rewrite !run_look. apply run_enqueue_all. intros q Hq. apply Ho. by apply (elem_of_audience room exclude s) in Hq as (_ & ? & _).
Qed.

Lemma run_sendError q msg k s :
  takes (s_peers s) q → run (sendError q msg k) s = run k (send_all [q] (marshal (error_envelope msg (millis s))) s).
Proof. intros (p & Hp & Hc). unfold sendError. rewrite run_look. exact (run_enqueue q _ k s p Hp Hc). Qed.

(** The announcement of a room. *)
Definition announcement (room : jsstr) (s : server) : jsstr :=
  let '(ttl, created, _) := RoomTTL room (s_store s) in
  marshal (signEnvelope (presence_envelope room (PeersWithNicknames room (s_store s)) ttl created (RoomSalt room (s_store s)) (millis s))).

Lemma run_broadcastPresence room k s :
  all_open s →
  run (broadcastPresence hmac_sha256 serverKey room k) s = run k (send_all (audience room [] s) (announcement room s) s).
Proof.
  intros Ho. unfold broadcastPresence, announcement. rewrite run_look, run_look.
  destruct (RoomTTL room (s_store s)) as [[ttl created] ex]. rewrite !run_look. by apply run_broadcast.
Qed.

Definition room_list (q : jsstr) (s : server) : jsstr :=
  marshal (Envelope [] [] (lit "room_list") [] (Marshal (JArr (JStr <$> elements (rooms_of q s)))) (millis s) [] []).

Lemma run_sendRoomList q k s :
  takes (s_peers s) q → run (sendRoomList q k) s = run k (send_all [q] (room_list q s) s).
Proof. intros (p & Hp & Hc). unfold sendRoomList. rewrite !run_look. exact (run_enqueue q _ k s p Hp Hc). Qed.

(** ** Messages to a room *)

Definition spend (q : jsstr) (s : server) : server := on_limiters (λ _, (allow (s_now s) q (s_rl s)).2) id id s.

Lemma handle_envelope_in_room q e :
  includes room_types (e_Type e) = true → validateRoomName letter_or_number (e_Room e) = [] →
  handle_envelope hmac_sha256 letter_or_number serverKey q e =
  (if bool_decide (e_Type e = lit "join") then handle_join hmac_sha256 serverKey q e
   else if bool_decide (e_Type e = lit "leave") then handle_leave hmac_sha256 serverKey q (e_Room e)
   else if bool_decide (e_Type e = lit "chat") || bool_decide (e_Type e = lit "media") then handle_chat hmac_sha256 serverKey q e (lit "messages")
   else if bool_decide (e_Type e = lit "typing") then handle_typing hmac_sha256 serverKey q e
   else if bool_decide (e_Type e = lit "receipt") then handle_receipt hmac_sha256 serverKey q e
   else if bool_decide (e_Type e = lit "key_rotation") then handle_chat hmac_sha256 serverKey q e (lit "key rotation")
   else handle_signal hmac_sha256 serverKey q e).
Proof.
  intros Hi Hv. unfold handle_envelope. rewrite Hi, Hv. cbn [str_empty negb].
  apply includes_spec in Hi. unfold room_types in Hi. cbn [fmap list_fmap] in Hi.
  repeat (apply elem_of_cons in Hi as [->|Hi]; [reflexivity|]). by apply not_elem_of_nil in Hi.
Qed.

Lemma run_handle_chat q e what s :
  all_open s → q ∈ s_conns s → in_room q (e_Room e) s = true →
  let e' := stamp q (millis s) e in
  run (handle_chat hmac_sha256 serverKey q e what) s =
  Some (true, if (allow (s_now s) q (s_rl s)).1
              then forward e' (send_all (audience (e_Room e) q s) (marshal (signEnvelope e')) (spend q s))
              else send_all [q] (marshal (error_envelope rate_text (millis s))) (spend q s)).
Proof.
  intros Ho Hq Hin. cbv zeta. unfold handle_chat, allow_rl. cbn [run].
  change (on_limiters _ id id s) with (spend q s). destruct (allow (s_now s) q (s_rl s)).1.
  - unfold if_in_room. rewrite run_look. change (in_room q (e_Room e) (spend q s)) with (in_room q (e_Room e) s). rewrite Hin.
    unfold relay_to_room. rewrite run_look. change (e_Room (stamp q (millis (spend q s)) e)) with (e_Room e).
    by rewrite run_broadcast.
  - rewrite run_sendError; [done|by apply Ho].
Qed.

(** ** Joining *)

(** The state when a peer has joined, and what it and the room are told. *)
Definition entered (q room nick : jsstr) (ttl : Z) (salt : bytes) (s : server) : server :=
  let s := enter_room q room s in
  on_store (λ st, let st := (JoinWithTTL (s_now s) room q (ttl_for_join ttl) salt st).2 in
                  if str_empty nick then st else SetNickname room q nick st) s.

Definition welcomed (q room : jsstr) (s : server) : server :=
  let s := send_all (audience room [] s) (announcement room s) s in
  let s := send_all [q] (room_list q s) s in
  forward (Envelope q [] (lit "join") room [] (millis s) [] []) s.

Lemma run_handle_join q e salt s :
  all_open s → q ∈ s_conns s → (Count (e_Room e) (s_store s) = 0 → RoomCount (s_store s) < maxRooms)%nat →
  in_room q (e_Room e) s = true ∨ (size (rooms_of q s) < MaxRooms)%nat →
  let jp := read_join (e_Payload e) in
  join_salt (jp_Salt jp) = Ok salt →
  run (handle_join hmac_sha256 serverKey q e) s =
  Some (true, welcomed q (e_Room e) (entered q (e_Room e) (sanitizeNickname (jp_Nickname jp)) (jp_TTLSeconds jp) salt s)).
Proof.
  intros Ho Hq Hc Hr jp Hs. assert (run (check_rooms hmac_sha256 serverKey q e) s =
    Some (true, welcomed q (e_Room e) (entered q (e_Room e) (sanitizeNickname (jp_Nickname jp)) (jp_TTLSeconds jp) salt s))) as E.
  { unfold check_rooms. rewrite run_look.
    replace (negb (in_room q (e_Room e) s) && Nat.leb MaxRooms (size (rooms_of q s))) with false.
    2: { destruct Hr as [->|Hr]; [done|]. apply Nat.leb_gt in Hr. by rewrite Hr, andb_false_r. }
    unfold enter. fold jp. rewrite run_act, Hs, run_act. cbv zeta.
    set (s1 := on_store _ (enter_room q (e_Room e) s)). 
    assert (∀ s2, s_conns s2 = s_conns s → s_peers s2 = s_peers s →
      run (broadcastPresence hmac_sha256 serverKey (e_Room e) (sendRoomList q (tell_relay (lit "join") (e_Room e) q Done))) s2 =
      Some (true, welcomed q (e_Room e) s2)) as Hrest.
    { intros s2 E1 E2. assert (all_open s2) as Ho2 by (intros q'; rewrite E1, E2; apply Ho).
      rewrite run_broadcastPresence by done. rewrite run_sendRoomList; [done|]. apply send_all_takes, Ho2. by rewrite E1. }
    unfold entered. cbv zeta. destruct (str_empty (sanitizeNickname (jp_Nickname jp))); [by apply Hrest|].
    rewrite run_act. by apply Hrest. }
  unfold handle_join. rewrite run_look. destruct (Count (e_Room e) (s_store s)); [|done]. rewrite run_look.
  replace (Nat.leb maxRooms (RoomCount (s_store s))) with false by (symmetry; by apply Nat.leb_gt, Hc). exact E.
Qed.

(** What else a member's message changes: nothing. *)
Definition same_rooms (s s' : server) : Prop :=
  s_store s' = s_store s ∧ s_conns s' = s_conns s ∧ s_peerRooms s' = s_peerRooms s.

Lemma forward_frame e s : s_peers (forward e s) = s_peers s ∧ same_rooms s (forward e s).
Proof. unfold forward. by destruct (relayForRoom (e_Room e) s). Qed.
End Runs.

(** ** The limiters *)

(** How many calls of [q] are allowed. *)
Fixpoint admitted (q : jsstr) (calls : list (Z * jsstr)) (rl : limiter) : Z :=
  match calls with
  | [] => 0
  | (t, p) :: calls =>
      let r := allow t p rl in
      (if bool_decide (p = q) then Z.b2z r.1 else 0) + admitted q calls r.2
  end.

(** The calls come in order, none before [from] and none after [upto]. *)
Fixpoint in_order (from upto : Z) (calls : list (Z * jsstr)) : Prop :=
  match calls with [] => from ≤ upto | c :: calls => from ≤ c.1 ∧ in_order c.1 upto calls end.

Lemma in_order_le from upto calls : in_order from upto calls → from ≤ upto.
Proof. revert from. induction calls as [|c calls IH]; intros from; [done|]. intros [H1 H2%IH]. lia. Qed.

Lemma allow_params t p rl :
  l_rate (allow t p rl).2 = l_rate rl ∧ l_interval (allow t p rl).2 = l_interval rl ∧ l_burst (allow t p rl).2 = l_burst rl.
Proof. unfold allow. by destruct (b_tokens _ <=? 0). Qed.

(** The bucket a call leaves. *)
Definition spent (rl : limiter) (t : Z) (b : bucket) : bucket :=
  let b := refill rl t b in if b_tokens b <=? 0 then b else Bucket (b_tokens b - 1) (b_lastFill b).

Definition bucket_of (t : Z) (q : jsstr) (rl : limiter) : bucket := default (Bucket (l_burst rl) t) (l_buckets rl !! q).

Lemma allow_bucket t p rl q :
  l_buckets (allow t p rl).2 !! q = if decide (q = p) then Some (spent rl t (bucket_of t p rl)) else l_buckets rl !! q.
Proof.
  unfold allow, spent. fold (bucket_of t p rl). destruct (b_tokens _ <=? 0); cbn; case_decide as E; subst;
    rewrite ?lookup_insert_eq, ?lookup_insert_ne by done; done.
Qed.

Lemma allow_true t q rl : (allow t q rl).1 = negb (b_tokens (refill rl t (bucket_of t q rl)) <=? 0).
Proof. unfold allow. fold (bucket_of t q rl). by destruct (b_tokens _ <=? 0). Qed.

(** What a refill brings: whole intervals. *)
Lemma refill_spec rl t b :
  0 < l_rate rl → 0 < l_interval rl → b_lastFill b ≤ t →
  let n := (t - b_lastFill b) / l_interval rl in
  b_lastFill (refill rl t b) = b_lastFill b + n * l_interval rl ∧
  b_tokens (refill rl t b) = (if n =? 0 then b_tokens b else Z.min (b_tokens b + n * l_rate rl) (l_burst rl)).
Proof.
  intros Hr Hi Ht. cbv zeta. unfold refill. rewrite Z.quot_div_nonneg by lia.
  set (n := (t - b_lastFill b) / l_interval rl). assert (0 ≤ n) by (apply Z.div_pos; lia).
  clearbody n. destruct (Z.eqb_spec n 0) as [->|Hn]; [rewrite Z.mul_0_l; cbn; split; [lia|done]|].
  assert (0 < n * l_rate rl) by (apply Z.mul_pos_pos; lia).
  destruct (Z.gtb_spec (n * l_rate rl) 0); [done|lia].
Qed.

Lemma spent_tokens rl t b : b_tokens (spent rl t b) = b_tokens (refill rl t b) - (if b_tokens (refill rl t b) <=? 0 then 0 else 1).
Proof. unfold spent. destruct (_ <=? 0); cbn; lia. Qed.

Lemma spent_lastFill rl t b : b_lastFill (spent rl t b) = b_lastFill (refill rl t b).
Proof. unfold spent. by destruct (_ <=? 0). Qed.

(** Where there is a bucket, what comes is what it holds and what comes in. *)
Lemma admitted_bucket q calls rl b from upto :
  0 < l_rate rl → 0 < l_interval rl → 0 < l_burst rl → l_buckets rl !! q = Some b → 0 ≤ b_tokens b → b_lastFill b ≤ from → in_order from upto calls →
  admitted q calls rl ≤ b_tokens b + l_rate rl * ((upto - b_lastFill b) / l_interval rl).
Proof.
  revert rl b from. induction calls as [|[t p] calls IH]; intros rl b from Hr Hi Hbu Hb Hk Hf.
  - cbn. intros H. assert (0 ≤ (upto - b_lastFill b) / l_interval rl) by (apply Z.div_pos; lia). nia.
  - cbn [in_order admitted fst]. intros [Hft Ho]. destruct (allow_params t p rl) as (E1 & E2 & E3).
    pose proof (in_order_le _ _ _ Ho) as Hup. case_bool_decide as Hp; [subst p|].
    + assert (bucket_of t q rl = b) as Eb by (unfold bucket_of; by rewrite Hb).
      destruct (refill_spec rl t b) as [R1 R2]; [done|done|lia|].
      set (n := (t - b_lastFill b) / l_interval rl) in *. assert (0 ≤ n) by (apply Z.div_pos; lia).
      assert (n * l_interval rl ≤ t - b_lastFill b) as Hn by (unfold n; rewrite Z.mul_comm; apply Z.mul_div_le; lia).
      assert (b_tokens (refill rl t b) ≤ b_tokens b + n * l_rate rl) as Hle by (rewrite R2; destruct (Z.eqb_spec n 0); lia).
      assert (0 ≤ n * l_rate rl) by (apply Z.mul_nonneg_nonneg; lia).
      assert (0 ≤ b_tokens (refill rl t b)) as Hge by (rewrite R2; destruct (Z.eqb_spec n 0); lia).
      assert (0 ≤ b_tokens (spent rl t b)) as Hpos by (rewrite spent_tokens; destruct (Z.leb_spec (b_tokens (refill rl t b)) 0); lia).
      specialize (IH (allow t q rl).2 (spent rl t b) t). rewrite E1, E2, E3, allow_bucket, decide_True, Eb in IH by done.
      rewrite spent_lastFill, R1 in IH. specialize (IH Hr Hi Hbu eq_refl Hpos ltac:(lia) Ho).
      replace (upto - (b_lastFill b + n * l_interval rl)) with (upto - b_lastFill b + (- n) * l_interval rl) in IH by lia.
      rewrite Z.div_add in IH by lia. rewrite allow_true, Eb. rewrite spent_tokens in IH. 
      destruct (b_tokens (refill rl t b) <=? 0); cbn [negb Z.b2z]; nia.
    + cbn. specialize (IH (allow t p rl).2 b t). rewrite E1, E2, E3, allow_bucket, decide_False in IH by done.
      apply IH; (done || lia).
Qed.

(** C33: in any period a member gets at most a burst through, and what comes in
    during the intervals the period touches, however its messages and those of
    others come. *)
Theorem limiter_bound q calls rl t0 T :
  0 < l_rate rl → 0 < l_interval rl → 0 < l_burst rl → 0 ≤ T →
  (∀ b, l_buckets rl !! q = Some b → 0 ≤ b_tokens b ≤ l_burst rl ∧ b_lastFill b ≤ t0) → in_order t0 (t0 + T) calls →
  admitted q calls rl ≤ l_burst rl + l_rate rl * ((T + l_interval rl - 1) / l_interval rl).
Proof.
  intros Hr Hi Hbu HT Hb. assert (0 ≤ (T + l_interval rl - 1) / l_interval rl) as Hq by (apply Z.div_pos; lia).
  enough (∀ from, t0 ≤ from → in_order from (t0 + T) calls →
    admitted q calls rl ≤ l_burst rl + l_rate rl * ((T + l_interval rl - 1) / l_interval rl)) as H by (intros Ho; by eapply H).
  revert rl Hr Hi Hbu Hb Hq. induction calls as [|[t p] calls IH]; intros rl Hr Hi Hbu Hb Hq from Hf; [cbn; nia|].
  cbn [in_order admitted fst]. intros [Hft Ho]. destruct (allow_params t p rl) as (E1 & E2 & E3).
  pose proof (in_order_le _ _ _ Ho) as Hup. case_bool_decide as Hp; [subst p|].
  - set (b := bucket_of t q rl).
    assert (0 ≤ b_tokens b ≤ l_burst rl ∧ b_lastFill b ≤ t) as [Hbt Hbl].
    { unfold b, bucket_of. destruct (l_buckets rl !! q) as [b0|] eqn:E0; cbn; [destruct (Hb b0 eq_refl); lia|lia]. }
    destruct (refill_spec rl t b) as [R1 R2]; [done|done|lia|]. set (n := (t - b_lastFill b) / l_interval rl) in *.
    pose proof (Z.div_mod (t - b_lastFill b) (l_interval rl) ltac:(lia)) as Hdm.
    pose proof (Z.mod_pos_bound (t - b_lastFill b) (l_interval rl) Hi) as Hmod. fold n in Hdm.
    assert (0 ≤ n) by (apply Z.div_pos; lia).
    assert (0 ≤ b_tokens (refill rl t b) ≤ l_burst rl) as Hrt by (rewrite R2; destruct (Z.eqb_spec n 0); nia).
    pose proof (admitted_bucket q calls (allow t q rl).2 (spent rl t b) t (t0 + T)) as HA.
    rewrite E1, E2, E3, allow_bucket, decide_True in HA by done. fold b in HA. rewrite spent_lastFill, R1 in HA.
    specialize (HA Hr Hi Hbu eq_refl). rewrite spent_tokens in HA.
    specialize (HA ltac:(destruct (Z.leb_spec (b_tokens (refill rl t b)) 0); lia) ltac:(lia) Ho).
    assert ((t0 + T - (b_lastFill b + n * l_interval rl)) / l_interval rl ≤ (T + l_interval rl - 1) / l_interval rl) as Hd
      by (apply Z.div_le_mono; lia).
    rewrite allow_true. fold b. destruct (b_tokens (refill rl t b) <=? 0); cbn [negb Z.b2z]; nia.
  - specialize (IH (allow t p rl).2). rewrite E1, E2, E3 in IH. apply (IH Hr Hi Hbu) with (from := t); [|done|lia|done].
    intros b0. rewrite allow_bucket, decide_False by done. apply Hb.
Qed.

(** *** Files at the client's pace *)

(** The limiter after [n] messages, sent [SEND_THROTTLE_MS] apart. *)
Definition pause : Z := SEND_THROTTLE_MS * 1000000.

Fixpoint paced (q : jsstr) (t0 : Z) (n : nat) (rl : limiter) : limiter :=
  match n with O => rl | S n => (allow (t0 + Z.of_nat n * pause) q (paced q t0 n rl)).2 end.

Lemma paced_params q t0 n rl :
  l_rate (paced q t0 n rl) = l_rate rl ∧ l_interval (paced q t0 n rl) = l_interval rl ∧ l_burst (paced q t0 n rl) = l_burst rl.
Proof.
  induction n as [|n IH]; [done|]. cbn [paced]. destruct IH as (E1 & E2 & E3).
  destruct (allow_params (t0 + Z.of_nat n * pause) q (paced q t0 n rl)) as (F1 & F2 & F3). split_and!; congruence.
Qed.

(** The bucket before message [n], when the first has come. *)
Definition paced_bucket (t0 n : Z) : bucket :=
  if n <=? 20 then Bucket (20 - n) t0
  else Bucket (Z.max 0 (9 - (n - 1) mod 20)) (t0 + (n - 1) / 20 * second).

(** What a turn of the limiter makes of it: ten tokens come in every second,
    that is with every twentieth message. *)
Lemma paced_step rl t0 n :
  l_rate rl = 10 → l_interval rl = second → l_burst rl = 20 → 1 ≤ n →
  refill rl (t0 + n * pause) (paced_bucket t0 n) =
    (if n <? 20 then Bucket (20 - n) t0 else Bucket (Z.max 0 (10 - n mod 20)) (t0 + n / 20 * second)).
Proof.
  intros Hr Hi Hb Hn. unfold paced_bucket, refill, pause, second, SEND_THROTTLE_MS in *. rewrite Hr, Hi, Hb.
  destruct (Z.leb_spec n 20); cbn [b_lastFill b_tokens].
  - rewrite Z.quot_div_nonneg by lia. replace (t0 + n * (50 * 1000000) - t0) with (n * 50000000) by lia.
    destruct (Z.ltb_spec n 20).
    + rewrite Z.div_small by lia. reflexivity.
    + assert (n = 20) as -> by lia. reflexivity.
  - destruct (Z.ltb_spec n 20); [lia|].
    replace (t0 + n * (50 * 1000000) - (t0 + (n - 1) / 20 * 1000000000))
      with ((n - (n - 1) / 20 * 20) * 50000000) by lia.
    pose proof (Z.div_mod (n - 1) 20 ltac:(lia)) as Hd. pose proof (Z.mod_pos_bound (n - 1) 20 ltac:(lia)) as Hm.
    set (k := (n - 1) / 20) in *. set (i := (n - 1) mod 20) in *. rewrite Z.quot_div_nonneg by lia.
    replace (n - k * 20) with (i + 1) by lia. destruct (Z.eq_dec i 19) as [->|Hi19].
    + replace (n mod 20) with 0 by (apply (Z.mod_unique_pos n 20 (k + 1) 0); lia).
      replace (n / 20) with (k + 1) by (apply (Z.div_unique_pos n 20 (k + 1) 0); lia).
      change ((19 + 1) * 50000000 / 1000000000) with 1. change (1 * 10 >? 0) with true. cbv iota. f_equal; lia.
    + replace (n mod 20) with (i + 1) by (apply (Z.mod_unique_pos n 20 k (i + 1)); lia).
      replace (n / 20) with k by (apply (Z.div_unique_pos n 20 k (i + 1)); lia).
      rewrite Z.div_small by lia. change (0 * 10 >? 0) with false. cbv iota. f_equal. lia.
Qed.

Lemma paced_bucket_spec q t0 n rl :
  l_rate rl = 10 → l_interval rl = second → l_burst rl = 20 → l_buckets rl !! q = None → (0 < n)%nat →
  l_buckets (paced q t0 n rl) !! q = Some (paced_bucket t0 (Z.of_nat n)).
Proof.
  intros Hr Hi Hb Hq. induction n as [|n IH]; [lia|]. intros _. cbn [paced]. rewrite allow_bucket, decide_True by done. f_equal.
  destruct (paced_params q t0 n rl) as (E1 & E2 & E3). destruct (decide (n = 0%nat)) as [->|Hn].
  - cbn [paced]. unfold bucket_of. rewrite Hq. cbn [default option_map from_option id].
    change (Z.of_nat 0 * pause) with 0. rewrite Z.add_0_r. unfold spent, refill. cbn [b_lastFill b_tokens].
    rewrite Z.sub_diag, Hi, Z.quot_0_l by (unfold second; lia). change (0 * l_rate rl >? 0) with false. cbv iota. by rewrite Hb.
  - unfold bucket_of. rewrite IH by lia. cbn [default option_map from_option id]. unfold spent.
    rewrite paced_step by (congruence || lia). set (m := Z.of_nat n). replace (Z.of_nat (S n)) with (m + 1) by lia.
    unfold paced_bucket. replace (m + 1 - 1) with m by lia.
    destruct (Z.ltb_spec m 20); cbn [b_tokens b_lastFill].
    + replace (m + 1 <=? 20) with true by lia. replace (20 - m <=? 0) with false by lia. f_equal. lia.
    + replace (m + 1 <=? 20) with false by lia. pose proof (Z.mod_pos_bound m 20 ltac:(lia)).
      destruct (Z.leb_spec (Z.max 0 (10 - m mod 20)) 0); f_equal; lia.
Qed.

(** C34: the chunks of a file that go out at the client's own pace are more than
    the gateway lets through: of every twenty after the first, ten are refused.
    A file of more than thirty chunks, and the client takes fifty, does not
    arrive whole. *)
Theorem throttle_exceeds_limit relays now q t0 n :
  let rl := s_rl (NewServer relays now) in
  (allow (t0 + Z.of_nat n * pause) q (paced q t0 n rl)).1 = (Z.of_nat n <? 20) || (Z.of_nat n mod 20 <? 10).
Proof.
  cbv zeta. set (rl := s_rl _). destruct (paced_params q t0 n rl) as (E1 & E2 & E3). rewrite allow_true. unfold bucket_of.
  destruct (decide (n = 0%nat)) as [->|Hn].
  - cbn [paced]. change (l_buckets rl !! q) with (@None bucket). cbn [default option_map from_option id].
    unfold refill. cbn [b_lastFill]. by rewrite Z.sub_diag, Z.quot_0_l.
  - rewrite paced_bucket_spec by (done || lia). cbn [default option_map from_option id].
    rewrite paced_step by (done || lia). set (m := Z.of_nat n). destruct (Z.ltb_spec m 20); cbn [b_tokens orb].
    + by replace (20 - m <=? 0) with false by lia.
    + destruct (Z.ltb_spec (m mod 20) 10); lia.
Qed.

(** ** Signatures *)

Lemma PutUint32_inj n m : 0 ≤ n < 2 ^ 32 → 0 ≤ m < 2 ^ 32 → PutUint32 n = PutUint32 m → n = m.
Proof.
  intros Hn Hm [= E1 E2 E3 E4].
  assert (∀ x, 0 ≤ x < 2 ^ 32 → x = (x / 2 ^ 24) mod 256 * 2 ^ 24 + (x / 2 ^ 16) mod 256 * 2 ^ 16 + (x / 2 ^ 8) mod 256 * 2 ^ 8 + x mod 256) as H.
  { intros x Hx. change (2 ^ 24) with (256 * 256 * 256). change (2 ^ 16) with (256 * 256). change (2 ^ 8) with 256.
    change (2 ^ 32) with (256 * 256 * 256 * 256) in Hx. rewrite <- !Z.div_div by lia. zdivs. }
  rewrite (H n Hn), (H m Hm). congruence.
Qed.

Lemma encode_inj f g : text_ok f → text_ok g → TextEncoder_encode f = TextEncoder_encode g → f = g.
Proof.
  intros [Hf1 Hf2] [Hg1 Hg2] E. unfold TextEncoder_encode in E.
  apply (f_equal (utf8_decode u_init)) in E. rewrite !utf8_roundtrip in E by by apply usv_scalar.
  apply (f_equal utf16s) in E. by rewrite !utf16_usv in E.
Qed.

(** A field that can be signed: a text of less than 4 GB. *)
Definition signable (f : jsstr) : Prop := text_ok f ∧ Z.of_nat (length (TextEncoder_encode f)) < 2 ^ 32.

Global Instance signable_dec f : Decision (signable f).
Proof. unfold signable, text_ok. apply _. Defined.

Lemma mac_input_inj fs gs : Forall signable fs → Forall signable gs → mac_input fs = mac_input gs → fs = gs.
Proof.
  intros Hf. revert gs. induction Hf as [|f fs [Hf1 Hf2] Hf IH]; intros gs Hg E.
  - by destruct gs.
  - destruct Hg as [|g gs [Hg1 Hg2] Hg]; [done|]. unfold mac_input in E. cbn [mbind list_bind] in E. rewrite <- !app_assoc in E.
    set (n := Z.of_nat _) in E. set (m := Z.of_nat (length (TextEncoder_encode g))) in E.
    assert (PutUint32 (n mod 2 ^ 32) = PutUint32 (m mod 2 ^ 32)) as En
      by (apply (f_equal (take 4)) in E; exact E).
    rewrite En in E. apply app_inv_head in E. rewrite !Z.mod_small in En by (unfold n, m; lia).
    apply PutUint32_inj in En; [|unfold n, m; lia..]. apply app_inj_1 in E as [E1 E2]; [|unfold n, m in En; lia].
    f_equal; [by apply encode_inj|by apply IH].
Qed.

Lemma dec_int_inj n m : dec_int n = dec_int m → n = m.
Proof.
  intros E. pose proof (parse_value_num 0 n [] I) as Hn. rewrite E, (parse_value_num 0 m [] I) in Hn. by injection Hn.
Qed.

Section Properties.
Context (hmac_sha256 : bytes → bytes → bytes) (letter_or_number : Z → bool) (serverKey : bytes).

(** C20: a chat or media message of a member goes into the queue of every other
    member of its room, once, under the member's id and with its payload and
    message id, where there is place for it; nobody else gets anything and no
    room changes. When the member is too fast, it gets an error, and nobody
    gets the message. *)
Theorem chat_relayed q msg e s :
  read_envelope msg = (e, true) → e_Type e = lit "chat" ∨ e_Type e = lit "media" →
  validateRoomName letter_or_number (e_Room e) = [] → in_room q (e_Room e) s = true → q ∈ s_conns s → all_open s →
  let e' := stamp q (millis s) e in
  let text := if (allow (s_now s) q (s_rl s)).1 then marshal (signEnvelope hmac_sha256 serverKey e')
              else marshal (error_envelope rate_text (millis s)) in
  ∃ s', run (handle_message hmac_sha256 letter_or_number serverKey q msg) s = Some (true, s') ∧ same_rooms s s' ∧
    ∀ q' p, s_peers s !! q' = Some p →
      s_peers s' !! q' =
      Some (if (allow (s_now s) q (s_rl s)).1
            then if decide (q' ∈ audience (e_Room e) q s) then push text p else p
            else if decide (q' = q) then push text p else p).
Proof.
  intros Hr Ht Hv Hin Hq Ho. cbv zeta. unfold handle_message. rewrite Hr.
  assert (includes room_types (e_Type e) = true) as Hi by (destruct Ht as [-> | ->]; reflexivity).
  rewrite handle_envelope_in_room by done. eexists. split.
  - transitivity (run (handle_chat hmac_sha256 serverKey q e (lit "messages")) s); [by destruct Ht as [-> | ->]|].
    by apply run_handle_chat.
  - destruct (allow (s_now s) q (s_rl s)).1.
    + split; [by destruct (forward_frame (stamp q (millis s) e) (send_all (audience (e_Room e) q s)
        (marshal (signEnvelope hmac_sha256 serverKey (stamp q (millis s) e))) (spend q s))) as [_ ?]|].
      intros q' p Hp. rewrite (proj1 (forward_frame _ _)), send_all_lookup by apply NoDup_audience.
      change (s_peers (spend q s)) with (s_peers s). rewrite Hp.
      by case_decide.
    + split; [done|]. intros q' p Hp. rewrite send_all_lookup by apply NoDup_singleton.
      change (s_peers (spend q s)) with (s_peers s). rewrite Hp.
      destruct (decide (q' = q)) as [->|Hne]; [rewrite decide_True by set_solver|rewrite decide_False by set_solver]; done.
Qed.

(** C35: no two envelopes that differ in the sender, the type, the room, the payload
    or the time are signed by the same bytes: the fields cannot be moved into
    each other. The message id and the addressee are not signed. *)
Theorem signature_covers e1 e2 :
  Forall signable (signed_fields e1) → Forall signable (signed_fields e2) →
  mac_input (signed_fields e1) = mac_input (signed_fields e2) ↔
  e_ID e1 = e_ID e2 ∧ e_Type e1 = e_Type e2 ∧ e_Room e1 = e_Room e2 ∧ e_Payload e1 = e_Payload e2 ∧
  e_Timestamp e1 = e_Timestamp e2.
Proof.
  intros H1 H2. split.
  - intros E. apply mac_input_inj in E; [|done..]. injection E as E1 E2 E3 E4 E5. by apply dec_int_inj in E5.
  - unfold signed_fields. by intros (-> & -> & -> & -> & ->).
Qed.
End Properties.

(** ** Examples *)

Module GatewayExamples.

(** A MAC that is no MAC, and a Unicode of which everything is a letter. *)
Definition toy_mac (key b : bytes) : bytes := [Z.of_nat (length b) mod 256].
Definition every (_ : Z) : bool := true.
Definition server_key : bytes := [1; 2; 3].

Abbreviation exec := (gw_exec toy_mac every server_key).
Abbreviation gw := (gw_run toy_mac every server_key).

Definition g0 : gateway := new_gateway 1 1000000000000.
Definition a : jsstr := lit "aaaa".
Definition b : jsstr := lit "bbbb".
Definition room : jsstr := lit "swift-wolf-7".

(** Steps of a connection until it waits. *)
Definition steps (q : jsstr) : list gw_label := replicate 40 (GStep q).

(** As many of the labels as are possible, and what they lead to. *)
Fixpoint possible (g : gateway) (ls : list gw_label) : list gw_label * gateway :=
  match ls with
  | [] => ([], g)
  | l :: ls => match exec g l with
               | Some g' => let r := possible g' ls in (l :: r.1, r.2)
               | None => possible g ls
               end
  end.

Lemma possible_run g ls : gw g (possible g ls).1 = Some (possible g ls).2.
Proof.
  revert g. induction ls as [|l ls IH]; intros g; [done|]. cbn [possible]. destruct (exec g l) as [g'|] eqn:E; [|apply IH].
  cbn [fst snd gw_run]. rewrite E. apply IH.
Qed.

Definition says (type payload : string) : jsstr :=
  JSON_stringify (JObj [(lit "type", JStr (lit type)); (lit "msgId", JStr (lit "m1")); (lit "room", JStr room);
                        (lit "payload", JStr (lit payload)); (lit "timestamp", JNum 5)]).
Arguments says (_ _)%_string_scope.

Definition enters (q : jsstr) : list gw_label := (GConnect q :: steps q) ++ GMessage q (says "join" "{}") :: steps q.

(** Two members, and a message of the first. *)
Definition chatting : list gw_label := enters a ++ enters b ++ GMessage a (says "chat" "hi") :: steps a.
(** All that waits for a connection is written to it. *)
Definition writes (q : jsstr) : list gw_label := mjoin (replicate 8 [GTake q; GWritten q]).

Definition chatted : gateway := (possible g0 (chatting ++ writes b)).2.
Definition to_b : peer := default newPeer (s_peers (g_srv chatted) !! b).
Definition hi : jsstr := List.last (p_written to_b) [].

Example b_got_it :
  e_ID (read_envelope hi).1 = a ∧ e_Payload (read_envelope hi).1 = lit "hi" ∧ length (p_written to_b) = 4%nat.
Proof. split; [|split]; vm_refl. Qed.

Lemma gateway_invariant_witness :
  ∃ g, gw g0 (possible g0 (chatting ++ writes b)).1 = Some g ∧ (size (rooms_of a (g_srv g)) ≤ MaxRooms)%nat.
Proof.
  exists chatted. split; [apply possible_run|].
  destruct (gateway_invariant toy_mac every server_key 1 1000000000000 (possible g0 (chatting ++ writes b)).1 chatted) as (_ & H & _).
  - apply possible_run.
  - apply H.
Defined.

Lemma peer_check s q : is_some (s_peers s !! q) = true → s_peers s !! q = Some (default newPeer (s_peers s !! q)).
Proof. by destruct (s_peers s !! q). Qed.

Lemma gateway_authentic_witness : ∃ e, hi = marshal e ∧ origin toy_mac server_key (s_heard (g_srv chatted)) b e.
Proof.
  apply (gateway_authentic toy_mac every server_key 1 1000000000000 (possible g0 (chatting ++ writes b)).1 chatted b to_b hi).
  - apply possible_run.
  - apply peer_check. vm_refl.
  - apply (bool_decide_unpack _). vm_compute. exact I.
Defined.

(** The members, as the message comes in. *)
Definition s2 : server := g_srv (possible g0 (enters a ++ enters b)).2.

Lemma all_open_check s :
  forallb (λ q, bool_decide (p_closed <$> s_peers s !! q = Some false)) (elements (s_conns s)) = true → all_open s.
Proof.
  intros H q Hq. rewrite forallb_forall in H. specialize (H q ltac:(by apply list_elem_of_In, elem_of_elements)).
  apply bool_decide_eq_true in H. unfold takes. destruct (s_peers s !! q) as [p|]; [|done]. exists p. split; [done|]. by injection H.
Qed.

Lemma all_open_s2 : all_open s2.
Proof. apply all_open_check. vm_refl. Qed.

Lemma chat_relayed_witness :
  ∃ s', run (handle_message toy_mac every server_key a (says "chat" "hi")) s2 = Some (true, s') ∧ same_rooms s2 s'.
Proof.
  destruct (chat_relayed toy_mac every server_key a (says "chat" "hi") (read_envelope (says "chat" "hi")).1 s2) as (s' & H1 & H2 & _).
  - vm_refl.
  - left. vm_refl.
  - vm_refl.
  - vm_refl.
  - apply (bool_decide_unpack _). vm_compute. exact I.
  - apply all_open_s2.
  - exists s'. split; [exact H1|exact H2].
Defined.

Lemma limiter_bound_witness :
  admitted a (replicate 100 (1000000000000, a)) (s_rl s2) ≤ l_burst (s_rl s2) + l_rate (s_rl s2) * ((0 + second - 1) / second).
Proof.
  apply (limiter_bound a (replicate 100 (1000000000000, a)) (s_rl s2) 1000000000000 0).
  - reflexivity.
  - reflexivity.
  - reflexivity.
  - lia.
  - intros b0 E. vm_compute in E. discriminate E.
  - vm_compute. repeat split; discriminate.
Defined.

(** The room and the payload run into each other only without the lengths. *)
Definition parted (room payload : string) : envelope := Envelope a [] (lit "chat") (lit room) (lit payload) 5 [] [].
Arguments parted (_ _)%_string_scope.

Lemma signature_covers_witness : mac_input (signed_fields (parted "ab" "c")) ≠ mac_input (signed_fields (parted "a" "bc")).
Proof.
  intros E. apply (signature_covers (parted "ab" "c") (parted "a" "bc")) in E as (_ & _ & E & _); [discriminate E|decided|decided].
Defined.

(** *** What goes wrong *)

(** When a room is cleaned up, the queue of a member that is in no other room
    is closed, and closed once more when its connection ends: the goroutine
    ends in a panic, which [net/http] catches. *)
Example queue_closed_twice :
  g_conns (possible g0 (enters a ++ GCleanup room :: replicate 20 (GTask 0) ++ writes a ++
                        GPumpEnd a :: replicate 20 (GTask 0) ++ GReadError a :: steps a)).2 !! a = Some (Closing Panic).
Proof. vm_refl. Qed.

(** A room's time is up; between the list of its members and the notice to
    them one of them goes. The notice is put into a closed channel, in a
    goroutine nobody watches over: the gateway ends. *)
Definition join_for (ttl : Z) : jsstr :=
  JSON_stringify (JObj [(lit "type", JStr (lit "join")); (lit "room", JStr room);
    (lit "payload", JStr (JSON_stringify (JObj [(lit "ttlSeconds", JNum ttl)])))]).

Example gateway_crashes :
  g_crashed (possible g0 ((GConnect a :: steps a) ++ GMessage a (join_for 900) :: steps a ++
    [GWait (901 * second); GTTL; GTask 0; GTask 0; GTask 0; GTask 0; GReadError a] ++ steps a ++ [GTask 0])).2 = true.
Proof. vm_refl. Qed.

(** A join with a salt that is refused leaves the connection in the room for
    the checks, though it is no member: it can speak unseen. *)
Definition bad_join : jsstr :=
  JSON_stringify (JObj [(lit "type", JStr (lit "join")); (lit "room", JStr room);
    (lit "payload", JStr (JSON_stringify (JObj [(lit "salt", JStr (lit "AAAA"))])))]).

Definition unseen : gateway :=
  (possible g0 (enters b ++ (GConnect a :: steps a) ++ GMessage a bad_join :: steps a ++ GMessage a (says "chat" "boo") :: steps a ++ writes b)).2.

Example speaks_unseen :
  Peers room (s_store (g_srv unseen)) = [b] ∧
  (λ p, e_ID (read_envelope (List.last (p_written p) [])).1) <$> s_peers (g_srv unseen) !! b = Some a.
Proof. split; vm_refl. Qed.

(** A member joins again while its room is cleaned up: it stays in the room
    when its connection is gone. *)
Example ghost_member :
  let g := (possible g0 (enters a ++ (GMessage a (says "join" "{}") :: replicate 3 (GStep a)) ++
    GCleanup room :: replicate 9 (GTask 0) ++ steps a ++ writes a ++ GPumpEnd a :: replicate 9 (GTask 0) ++ steps a)).2 in
  Peers room (s_store (g_srv g)) = [a] ∧ s_conns (g_srv g) = ∅ ∧ g_conns g !! a = Some (Closing Panic).
Proof. cbv zeta. split; [|split]; vm_refl. Qed.
End GatewayExamples.
