(* ===== verification/GatewayHttp.v ===== *)
(** * The gateway's HTTP interface, and the worker's cleanup through it

    [checkAuth], [handleRooms] and [handleRoomSub] of
    services/gateway/cmd/gateway/main.go: what a request is answered, and which
    of them do something. Then the [room:cleanup] job of worker.js against a
    gateway that answers this way. [hr_Path] is [r.URL.Path], which net/http
    has decoded; the text of a time is a parameter. *)

From S2P Require Import Prelude JsLib Base64 Text Json Uri Mime Queue Worker.
From S2P Require Import GoLib Storage Gateway GatewayFacts GatewayRuns.

Local Open Scope Z_scope.

(** ** Requests *)

Record http_request := HttpRequest {
  hr_Method : jsstr;
  hr_Path : jsstr;
  hr_Authorization : jsstr;
  hr_token : jsstr;            (** of the query *)
  hr_Body : jsstr
}.

(** A reply, an error, or the program the handler runs before it replies. *)
Inductive handled :=
  | Reply (body : json)
  | Failed (status : Z)
  | Acts (p : Gateway.prog).

(** [strings.TrimPrefix]. *)
Definition TrimPrefix (prefix s : jsstr) : jsstr :=
  if bool_decide (take (length prefix) s = prefix) then drop (length prefix) s else s.

Definition checkAuth (authToken : jsstr) (r : http_request) : bool :=
  if str_empty authToken then true
  else
    let token := TrimPrefix (lit "Bearer ") (hr_Authorization r) in
    let token := if str_empty token || bool_decide (token = hr_Authorization r) then hr_token r else token in
    bool_decide (token = authToken).

(** [url.PathUnescape], on the bytes. *)
Fixpoint unescape (b : bytes) : option bytes :=
  match b with
  | [] => Some []
  | c :: r =>
      if c =? 37 then
        match r with
        | h :: l :: r => x ← hex_val h; y ← hex_val l; cons (16 * x + y) <$> unescape r
        | _ => None
        end
      else cons c <$> unescape r
  end.

Definition PathUnescape (s : jsstr) : option jsstr := (λ b, utf16s (utf8_decode u_init b)) <$> unescape (TextEncoder_encode s).

(** [strings.SplitN(path, slash, 2)], when there are two parts. *)
Fixpoint cut_slash (s : jsstr) : option (jsstr * jsstr) :=
  match s with
  | [] => None
  | c :: s => if c =? 47 then Some ([], s) else '(a, b) ← cut_slash s; Some (c :: a, b)
  end.

(** The room and the action of a path, or the status it is answered with. *)
Definition sub_path (path : jsstr) : jsstr * jsstr + Z :=
  match cut_slash (TrimPrefix (lit "/api/rooms/") path) with
  | None | Some ([], _) => inr 404
  | Some (name, action) => match PathUnescape name with Some room => inl (room, action) | None => inr 400 end
  end.

(** ** Handlers *)

Section Http.
Context (hmac_sha256 : bytes → bytes → bytes) (serverKey : bytes) (authToken : jsstr) (RFC3339Nano : Z → jsstr).

(** The answers are Go maps: their keys come sorted. *)
Definition rooms_json (s : store) : json :=
  JObj [(lit "count", JNum (Z.of_nat (length (RoomsWithCounts s))));
        (lit "rooms", JArr ((λ x : jsstr * nat, JObj [(lit "count", JNum (Z.of_nat x.2)); (lit "name", JStr x.1)]) <$> RoomsWithCounts s))].

Definition info_json (room : jsstr) (s : store) : json :=
  let '(peers, last, exists_) := RoomInfo room s in
  JObj [(lit "exists", JBool exists_);
        (lit "lastActivity", JStr (if exists_ : bool then RFC3339Nano last else lit "0001-01-01T00:00:00Z"));
        (lit "peers", JNum (Z.of_nat peers))].

Definition ttl_json (room : jsstr) (s : store) : json :=
  let '(ttl, created, exists_) := RoomTTL room s in
  JObj [(lit "exists", JBool exists_);
        (lit "expiresAt", JNum (if exists_ && (ttl >? 0) then (created + ttl * second) / 1000000 else 0));
        (lit "ttlSeconds", JNum ttl)].

Definition handleRooms (r : http_request) (s : store) : handled :=
  if negb (bool_decide (hr_Method r = lit "GET")) then Failed 405
  else if negb (checkAuth authToken r) then Failed 401
  else Reply (rooms_json s).

(** The body of a broadcast. The code's decoder reads one JSON value and leaves
    what follows it alone; here the body is that value and no more. *)
Definition broadcast_member (key : jsstr) (v : json) (b : jsstr * jsstr) : option (jsstr * jsstr) :=
  let '(type, payload) := b in
  if names_field key "type" then (λ x, (x, payload)) <$> as_string v type
  else if names_field key "payload" then (λ x, (type, x)) <$> as_string v payload
  else Some b.

Definition handle_action (r : http_request) (room action : jsstr) (s : store) : handled :=
  let has a := bool_decide (action = lit a) in
  let get v := if bool_decide (hr_Method r = lit "GET") then v else Failed 405 in
  let post v := if bool_decide (hr_Method r = lit "POST") then v else Failed 405 in
  if has "info"%string then get (Reply (info_json room s))
  else if has "cleanup"%string then post (Acts (cleanup_room room))
  else if has "ttl"%string then get (Reply (ttl_json room s))
  else if has "broadcast"%string then
    post match Unmarshal broadcast_member ([], []) (hr_Body r) with
         | (_, false) => Failed 400
         | ((type, payload), true) =>
             if Nat.ltb readLimit (length (TextEncoder_encode (hr_Body r))) then Failed 400
             else if includes [lit "error"; lit "presence"] type then Acts (worker_broadcast hmac_sha256 serverKey room type payload)
             else Failed 400
         end
  else Failed 404.

Definition handleRoomSub (r : http_request) (s : store) : handled :=
  if negb (checkAuth authToken r) then Failed 401
  else match sub_path (hr_Path r) with
       | inr status => Failed status
       | inl (room, action) => handle_action r room action s
       end.
End Http.

(** ** Paths *)

Lemma TrimPrefix_app prefix s : TrimPrefix prefix (prefix ++ s) = s.
Proof. unfold TrimPrefix. rewrite take_app_length, bool_decide_eq_true_2 by done. apply drop_app_length. Qed.

Lemma cut_slash_app name action :
  cut_slash (name ++ 47 :: action) =
  match cut_slash name with None => Some (name, action) | Some (a, b) => Some (a, b ++ 47 :: action) end.
Proof.
  induction name as [|c name IH]; [done|]. cbn [app cut_slash]. destruct (c =? 47); [done|]. rewrite IH.
  by destruct (cut_slash name) as [[a b]|].
Qed.

Lemma cut_slash_None s : 47 ∉ s → cut_slash s = None.
Proof.
  induction s as [|c s IH]; [done|]. intros [Hc Hs]%not_elem_of_cons. cbn. rewrite IH by done.
  by replace (c =? 47) with false by lia.
Qed.

(** The address of a room's action can be taken apart. *)
Lemma room_url_inj gw enc enc' action action' :
  47 ∉ action → 47 ∉ action' → room_url gw enc action = room_url gw enc' action' → enc = enc' ∧ action = action'.
Proof.
  intros Ha Ha' E. unfold room_url in E. apply app_inv_head, app_inv_head in E.
  apply (f_equal (λ s, cut_slash (reverse s))) in E. rewrite !reverse_app in E. change (reverse (lit "/")) with [47] in E.
  rewrite <- !app_assoc in E. cbn [app] in E. rewrite !cut_slash_app, !cut_slash_None in E by (by rewrite elem_of_reverse).
  injection E as E1 E2. by apply (inj reverse) in E1, E2.
Qed.

(** The path of a room's action, as net/http has decoded it. *)
Definition room_path (name action : jsstr) : jsstr := lit "/api/rooms/" ++ name ++ lit "/" ++ action.

(** The part before the action decides which room is meant, whatever the action. *)
Lemma sub_path_action name action room a' :
  47 ∉ action → 47 ∉ a' → sub_path (room_path name action) = inl (room, a') →
  a' = action ∧ ∀ action', sub_path (room_path name action') = inl (room, action').
Proof.
  intros Ha Ha'. unfold room_path, sub_path. rewrite TrimPrefix_app. change (lit "/" ++ action) with (47 :: action). rewrite cut_slash_app.
  destruct (cut_slash name) as [[[|c n] b]|] eqn:E.
  - done.
  - destruct (PathUnescape _); [|done]. intros [= _ <-]. exfalso. apply Ha', elem_of_app. right. by left.
  - destruct name as [|c n]; [done|]. destruct (PathUnescape (c :: n)) as [r|] eqn:Er; [|done]. intros [= <- <-]. split; [done|].
    intros action'. rewrite TrimPrefix_app. change (lit "/" ++ action') with (47 :: action'). by rewrite cut_slash_app, E, Er.
Qed.

(** ** The worker's requests *)

Section Cleanup.
Context {platform : Platform} (env_hosts : option jsstr).
Context (hmac_sha256 : bytes → bytes → bytes) (serverKey : bytes) (authToken : jsstr) (RFC3339Nano : Z → jsstr).

Abbreviation handleRooms := (handleRooms authToken).
Abbreviation handleRoomSub := (handleRoomSub hmac_sha256 serverKey authToken RFC3339Nano).

(** The answer that the worker's [fetch] sees. *)
Definition answered_by (h : handled) (res : response) : Prop :=
  match h with
  | Reply v => rs_ok res = true ∧ rs_json res = Ok v
  | Failed status => rs_ok res = false ∧ rs_status res = status
  | Acts _ => rs_ok res = true
  end.

(** What arrives of a GET: the worker sends neither a token nor a header. *)
Definition arrives (path : jsstr) : http_request := HttpRequest (lit "GET") path [] [] [].

(** Every answer to the questions about a room is the gateway's, to the path as
    it was before it was encoded, in the state [st i] the gateway is in at the
    [i]th event; requests may fail at any time. *)
Definition from_gateway (gw : jsstr) (st : nat → store) (t : list event) : Prop :=
  ∀ i action enc res, action ∈ [lit "info"; lit "ttl"] → t !! i = Some (EFetch (http_get (room_url gw enc action)) (Ok res)) →
    ∃ name, encodeURIComponent name = Ok enc ∧ answered_by (handleRoomSub (arrives (room_path name action)) (st i)) res.

Lemma sub_reply name action s res :
  action ∈ [lit "info"; lit "ttl"] → answered_by (handleRoomSub (arrives (room_path name action)) s) res → rs_ok res = true →
  ∃ room, rs_json res = Ok (if decide (action = lit "info") then info_json RFC3339Nano room s else ttl_json room s) ∧
    ∀ action', sub_path (room_path name action') = inl (room, action').
Proof.
  intros Ha Hans Hok. unfold GatewayHttp.handleRoomSub in Hans.
  destruct (checkAuth authToken _); cbn [negb] in Hans; [|by destruct Hans; congruence].
  change (hr_Path (arrives (room_path name action))) with (room_path name action) in Hans.
  destruct (sub_path (room_path name action)) as [[room a']|st] eqn:E; [|by destruct Hans; congruence].
  assert (47 ∉ a' → a' = action ∧ ∀ action', sub_path (room_path name action') = inl (room, action')) as Hp.
  { intros Ha'. eapply sub_path_action; [|done|exact E]. revert Ha. clear. intros [-> |[-> |?%not_elem_of_nil]%elem_of_cons]%elem_of_cons; [decided|decided|done]. }
  exists room. unfold handle_action in Hans. change (hr_Method (arrives _)) with (lit "GET") in Hans.
  repeat case_bool_decide; try (by destruct Hans; congruence); try done; subst a'.
  - destruct Hp as [<- Hp]; [decided|]. by destruct Hans as [_ ->].
  - destruct Hp as [<- Hp]; [decided|]. by destruct Hans as [_ ->].
Qed.

(** What an answer that makes a room stale says of it: no room is empty, so
    the room the gateway was asked for is none. *)
Lemma idle_means_gone room s now : store_ok s → idle_stale (info_json RFC3339Nano room s) now = true → s !! room = None.
Proof.
  intros Hs. unfold info_json, RoomInfo. destruct (s !! room) as [r|] eqn:E; [|done]. unfold idle_stale.
  change (json_get _ (lit "peers")) with (Some (JNum (Z.of_nat (base.size (r_Peers r))))).
  change (json_get _ (lit "lastActivity")) with (Some (JStr (RFC3339Nano (r_LastActivity r)))).
  destruct (Date_parse _); [|done]. intros [Hp _]%andb_true_iff. apply Z.eqb_eq in Hp.
  destruct (Hs room r E). apply map_size_empty_inv. lia.
Qed.

Lemma ttl_means_over room s now :
  ttl_expired (ttl_json room s) now = true →
  ∃ r, s !! room = Some r ∧ 0 < r_TTLSeconds r ∧ (r_CreatedAt r + r_TTLSeconds r * second) / 1000000 < now.
Proof.
  unfold ttl_json, RoomTTL. destruct (s !! room) as [r|] eqn:E; [|done]. intros Ht. exists r. split; [done|].
  unfold ttl_expired in Ht. set (e := if true && _ then _ else 0) in Ht.
  change (json_get _ (lit "ttlSeconds")) with (Some (JNum (r_TTLSeconds r))) in Ht.
  change (json_get _ (lit "expiresAt")) with (Some (JNum e)) in Ht. cbn in Ht.
  apply andb_true_iff in Ht as [[H1 H2]%andb_true_iff H3]. apply Z.gtb_lt in H1, H2, H3.
  unfold e in H3. replace (r_TTLSeconds r >? 0) with true in H3 by (symmetry; by apply Z.gtb_lt). done.
Qed.

(** Why a room is cleaned up: among the events [t] is the gateway's answer about
    this room, from a state in which there was no such room, or in which there
    was and its time was up before a time the worker read. *)
Definition may_clean (gw enc : jsstr) (st : nat → store) (t : list event) (room : jsstr) : Prop :=
  (∃ i res, t !! i = Some (EFetch (http_get (room_url gw enc (lit "info"))) (Ok res)) ∧ st i !! room = None) ∨
  (∃ i res r now, t !! i = Some (EFetch (http_get (room_url gw enc (lit "ttl"))) (Ok res)) ∧ st i !! room = Some r ∧
     ENow now ∈ t ∧ 0 < r_TTLSeconds r ∧ (r_CreatedAt r + r_TTLSeconds r * second) / 1000000 < now).

Lemma evidence_at_gateway gw st t enc :
  from_gateway gw st t → (∀ i, store_ok (st i)) → evidence gw enc t →
  ∃ name room, encodeURIComponent name = Ok enc ∧
    sub_path (room_path name (lit "cleanup")) = inl (room, lit "cleanup") ∧ may_clean gw enc st t room.
Proof.
  intros Hg Hok [(res & info & now & Hin & Hr & Hj & Hn & Hs)|(res & ttl & now & Hin & Hr & Hj & Hn & Ht)];
    apply list_elem_of_lookup in Hin as (i & Hi).
  - destruct (Hg i (lit "info") enc res) as (name & Henc & Hans); [by left|done|].
    destruct (sub_reply name (lit "info") (st i) res) as (room & E & Hp); [by left|done|done|].
    rewrite decide_True in E by done. rewrite Hj in E. injection E as ->. exists name, room. split_and!; [done|apply Hp|].
    left. exists i, res. split; [done|]. eapply idle_means_gone; [by apply Hok|exact Hs].
  - destruct (Hg i (lit "ttl") enc res) as (name & Henc & Hans); [by right; left|done|].
    destruct (sub_reply name (lit "ttl") (st i) res) as (room & E & Hp); [by right; left|done|done|].
    rewrite decide_False in E by done. rewrite Hj in E. injection E as ->. exists name, room. split_and!; [done|apply Hp|].
    right. destruct (ttl_means_over _ _ _ Ht) as (r & H1 & H2 & H3). by exists i, res, r, now.
Qed.
End Cleanup.

Section Properties.
Context {platform : Platform} (env_hosts : option jsstr).
Context (hmac_sha256 : bytes → bytes → bytes) (letter_or_number : Z → bool) (serverKey : bytes) (authToken : jsstr) (RFC3339Nano : Z → jsstr).

(** The rooms of one run of the gateway, at the times of the worker's events. *)
Definition gateway_history (st : nat → store) : Prop :=
  ∃ relays now gs, gs 0%nat = new_gateway relays now ∧ (∀ i, st i = s_store (g_srv (gs i))) ∧
    ∀ i, ∃ ls, gw_run hmac_sha256 letter_or_number serverKey (gs i) ls = Some (gs (S i)).

Lemma history_ok st i : gateway_history st → store_ok (st i).
Proof.
  intros (relays & now & gs & H0 & Hst & Hrun). rewrite Hst.
  assert (all_safe hmac_sha256 serverKey (gs i)) as [HI _].
  { induction i as [|i IH]; [rewrite H0; apply all_safe_new|]. destruct (Hrun i) as [ls Hls]. by eapply all_safe_run. }
  intros name r Hr. by destruct (ok_rooms _ _ _ HI name r Hr).
Qed.

(** C37: the worker and one run of the gateway together. When a [room:cleanup]
    job asks for the cleanup of a room, then before that the gateway answered it
    about this very room, and in the state it answered from there was no such
    room, or there was and its time to live was over by a time the worker read.
    The gateway keeps no empty room, so the worker's rule for rooms that are
    empty and idle never concerns one that exists. *)
Theorem cleanup_only_expired gw data t r st p rq a q :
  room_cleanup env_hosts data t r → to_string (json_get data (lit "gatewayURL")) = Ok gw →
  gateway_history st → from_gateway hmac_sha256 serverKey authToken RFC3339Nano gw st t →
  t = p ++ EFetch rq a :: q → rq_method rq = lit "POST" →
  ∃ name enc room, encodeURIComponent name = Ok enc ∧ rq = Request (lit "POST") (room_url gw enc (lit "cleanup")) None ∧
    sub_path (room_path name (lit "cleanup")) = inl (room, lit "cleanup") ∧ may_clean gw enc st p room.
Proof.
  intros Hr Hgw Hst Hg -> Hpost. pose proof (room_cleanup_posts _ _ _ _ Hr) as Hj.
  destruct (Hj p (EFetch rq a) q eq_refl) as (gw' & name' & a' & Egw & [= -> _] & Hev); [by apply bool_decide_eq_true|].
  rewrite Hgw in Egw. injection Egw as <-.
  destruct (evidence_at_gateway hmac_sha256 serverKey authToken RFC3339Nano gw st p name') as (name & room & H1 & H2 & H3);
    [|intros i; by apply history_ok|done|by exists name, name', room].
  intros i action enc res Ha Hi. apply (Hg i action enc res Ha). by apply lookup_app_l_Some.
Qed.
End Properties.

Section Unauthorized.
Context {platform : Platform} (env_hosts : option jsstr) (authToken : jsstr).

(** The gateway's token is one the worker does not send: where one is set,
    the job fails and cleans nothing. *)
Theorem cleanup_unauthorized gw data t r :
  authToken ≠ [] → room_cleanup env_hosts data t r → to_string (json_get data (lit "gatewayURL")) = Ok gw →
  (∀ res, EFetch (http_get (rooms_url gw)) (Ok res) ∈ t →
     ∃ s, answered_by (handleRooms authToken (arrives (lit "/api/rooms")) s) res) →
  (∃ e, r = Throw e) ∧ ∀ e, e ∈ t → is_post e = false.
Proof.
  intros Hauth Hr Hgw Hans. assert (∀ res, EFetch (http_get (rooms_url gw)) (Ok res) ∈ t → rs_ok res = false) as Hno.
  { intros res Hin. destruct (Hans res Hin) as (s & Hs). unfold GatewayHttp.handleRooms in Hs.
    assert (checkAuth authToken (arrives (lit "/api/rooms")) = false) as Ec.
    { unfold checkAuth. destruct authToken as [|c tok]; [done|]. by apply bool_decide_eq_false_2. }
    rewrite Ec in Hs. by destruct Hs. }
  destruct Hr as [e Ev|u gw' t e Ev Egw Hr|u gw' t0 rooms t1 cleaned Ev Egw Hr Hb].
  - split; [by eexists|]. by intros e' ?%not_elem_of_nil.
  - split; [by eexists|]. apply fetch_rooms_trace in Hr as (a & ->). by intros e' ->%list_elem_of_singleton.
  - exfalso. rewrite Hgw in Egw. injection Egw as <-. unfold fetch_rooms in Hr.
    apply runs_andThen in Hr as [(e & _ & [=])|(t2 & t3 & res & -> & H1 & H2)]. apply runs_fetch_inv in H1 as ->.
    rewrite (Hno res) in H2 by set_solver. by apply runs_Done in H2 as [_ [=]].
Qed.
End Unauthorized.

(** ** Examples *)

Module HttpExamples.
Import GatewayExamples WorkerExamples.

Definition date (_ : Z) : jsstr := lit "1970-01-01T00:16:40Z".

(** One comes into a room with a quarter of an hour to live. *)
Definition aged : gateway := (possible g0 ((GConnect a :: steps a) ++ GMessage a (join_for 900) :: steps a)).2.
Definition old_room : store := s_store (g_srv aged).
Definition enc : jsstr := lit "swift-wolf-7".
Definition old_info : json :=
  JObj [(lit "exists", JBool true); (lit "lastActivity", JStr (lit "1970-01-01T00:16:40Z")); (lit "peers", JNum 1)].
Definition old_ttl : json := JObj [(lit "exists", JBool true); (lit "expiresAt", JNum 1900000); (lit "ttlSeconds", JNum 900)].
Definition listed : json := JObj [(lit "count", JNum 1); (lit "rooms", JArr [JObj [(lit "count", JNum 1); (lit "name", JStr enc)]])].

Definition old_events : list event :=
  [EFetch (http_get (room_url gw enc (lit "info"))) (ok_json old_info);
   EFetch (http_get (room_url gw enc (lit "ttl"))) (ok_json old_ttl);
   ENow 1900001;
   EFetch (Request (lit "POST") (room_url gw enc (lit "cleanup")) None) (ok_json JNull)].
Definition old_run : list event := [EFetch (http_get (rooms_url gw)) (ok_json listed)] ++ old_events.

(** The gateway while the worker is at it: at first, and from its first answer on. *)
Definition gateways (i : nat) : gateway := match i with O => g0 | S _ => aged end.
Definition stores (i : nat) : store := s_store (g_srv (gateways i)).

Lemma old_history : gateway_history toy_mac every server_key stores.
Proof.
  exists 1%nat, 1000000000000, gateways. split; [done|]. split; [done|]. intros [|i].
  - eexists. apply (possible_run g0).
  - by exists [].
Qed.

Lemma old_cleanup : room_cleanup None cleanup_data old_run (Ok (JObj [(lit "checked", JNum 1); (lit "cleaned", JNum 1)])).
Proof.
  apply (cleanup_done None cleanup_data (Url (lit "http:") (lit "localhost") (lit "8080") (lit "localhost:8080"))
           gw _ [JObj [(lit "count", JNum 1); (lit "name", JStr enc)]] old_events 1).
  - vm_compute; reflexivity.
  - reflexivity.
  - apply runs_fetch, runs_done.
  - rewrite <- (app_nil_r old_events). eapply (batches_cons gw _ 0 old_events [Ok true]); [done| |apply batches_nil].
    apply (batch_intro gw _ [old_events]); [|apply interleaving_one].
    constructor; [|constructor]. repeat (apply runs_fetch || apply runs_now || apply runs_done).
Qed.

Lemma old_info_right : info_json date enc old_room = old_info.
Proof. vm_refl. Qed.
Lemma old_ttl_right : ttl_json enc old_room = old_ttl.
Proof. vm_refl. Qed.

Lemma old_reply action v : action ∈ [lit "info"; lit "ttl"] →
  v = (if decide (action = lit "info") then old_info else old_ttl) →
  answered_by (handleRoomSub toy_mac server_key [] date (arrives (room_path enc action)) old_room) (Response true 200 (Ok v)).
Proof.
  rewrite <- old_info_right, <- old_ttl_right.
  intros [-> |[-> |?%not_elem_of_nil]%elem_of_cons]%elem_of_cons ->; [by split|by split|done].
Qed.

Lemma old_answers : from_gateway toy_mac server_key [] date gw stores old_run.
Proof.
  intros i action enc' res Ha Hi.
  assert (47 ∉ action) as Hs by (revert Ha; clear; intros [-> |[-> |?%not_elem_of_nil]%elem_of_cons]%elem_of_cons; [decided|decided|done]).
  assert (∀ u u' x y, EFetch (http_get u) x = EFetch (http_get u') y → u = u' ∧ x = y) as Hf by (by intros * [=]).
  exists enc. destruct i as [|[|[|[|[|i]]]]]; [| | |discriminate Hi|discriminate Hi|discriminate Hi];
    apply (Some_inj _ _) in Hi; apply Hf in Hi as [Hi [= <-]].
  - exfalso. apply (f_equal length) in Hi. unfold room_url in Hi. rewrite !length_app in Hi.
    change (length (lit "/")) with 1%nat in Hi. lia.
  - destruct (room_url_inj gw enc enc' (lit "info") action ltac:(decided) Hs Hi) as [<- <-].
    split; [vm_refl|]. by apply old_reply.
  - destruct (room_url_inj gw enc enc' (lit "ttl") action ltac:(decided) Hs Hi) as [<- <-].
    split; [vm_refl|]. by apply old_reply.
Qed.

Lemma cleanup_only_expired_witness :
  ∃ name enc room, encodeURIComponent name = Ok enc ∧
    sub_path (room_path name (lit "cleanup")) = inl (room, lit "cleanup") ∧ may_clean gw enc stores (take 4 old_run) room.
Proof.
  destruct (cleanup_only_expired None toy_mac every server_key [] date gw cleanup_data old_run _ stores (take 4 old_run)
    (Request (lit "POST") (room_url gw enc (lit "cleanup")) None) (ok_json JNull) [] old_cleanup)
    as (name & enc' & room & H1 & H2 & H3 & H4).
  - reflexivity.
  - exact old_history.
  - exact old_answers.
  - reflexivity.
  - reflexivity.
  - exists name, enc', room. split; [exact H1|]. split; [exact H3|exact H4].
Defined.

(** A token is set. *)
Definition refused : list event := [EFetch (http_get (rooms_url gw)) (Ok (Response false 401 (Throw (lit "no JSON"))))].

Lemma cleanup_unauthorized_witness : ∀ e, e ∈ refused → is_post e = false.
Proof.
  destruct (cleanup_unauthorized None (lit "secret") gw cleanup_data refused (Throw (lit "failed to fetch rooms: 401"))) as [_ H].
  - discriminate.
  - apply (cleanup_no_rooms None cleanup_data (Url (lit "http:") (lit "localhost") (lit "8080") (lit "localhost:8080")) gw).
    + vm_compute; reflexivity.
    + reflexivity.
    + apply runs_fetch, runs_done.
  - reflexivity.
  - intros res Hin. exists ∅. apply list_elem_of_singleton in Hin. injection Hin as ->. split; reflexivity.
  - exact H.
Defined.

(** The answer about a room that has just gone makes it stale, at any time of
    day; the cleanup that follows meets whoever has come since. *)
Example gone_is_stale : idle_stale (info_json date (lit "r1") ∅) 1800001 = true.
Proof. vm_refl. Qed.
End HttpExamples.
