(* ===== verification/Conversation.v ===== *)
(** * Two applications and the gateway

    The programs together: what the application of a member puts on its socket
    is read and relayed by the gateway, and what that puts into the queue of
    another member is read and shown by the application there. The texts on
    the way are the ones the programs print. *)

From S2P Require Import Prelude JsLib Base64 Text Json Crypto Uri Timers Client Rooms Typing WebRTC MeshHook CallManager.
From S2P Require Import AppState App AppFacts AppKeys.
From S2P Require Import GoLib Storage Gateway GatewayFacts GatewayRuns.

Local Open Scope Z_scope.

(** ** What one prints the other reads *)

(** The gateway's reading of the fields of an envelope. *)
Lemma member_id v id mid ty room p t sig to :
  envelope_member (lit "id") v (Envelope id mid ty room p t sig to) = (λ x, Envelope x mid ty room p t sig to) <$> as_string v id.
Proof. reflexivity. Qed.
Lemma member_msgId v id mid ty room p t sig to :
  envelope_member (lit "msgId") v (Envelope id mid ty room p t sig to) = (λ x, Envelope id x ty room p t sig to) <$> as_string v mid.
Proof. reflexivity. Qed.
Lemma member_type v id mid ty room p t sig to :
  envelope_member (lit "type") v (Envelope id mid ty room p t sig to) = (λ x, Envelope id mid x room p t sig to) <$> as_string v ty.
Proof. reflexivity. Qed.
Lemma member_room v id mid ty room p t sig to :
  envelope_member (lit "room") v (Envelope id mid ty room p t sig to) = (λ x, Envelope id mid ty x p t sig to) <$> as_string v room.
Proof. reflexivity. Qed.
Lemma member_payload v id mid ty room p t sig to :
  envelope_member (lit "payload") v (Envelope id mid ty room p t sig to) = (λ x, Envelope id mid ty room x t sig to) <$> as_string v p.
Proof. reflexivity. Qed.
Lemma member_timestamp v id mid ty room p t sig to :
  envelope_member (lit "timestamp") v (Envelope id mid ty room p t sig to) = (λ x, Envelope id mid ty room p x sig to) <$> as_int64 v t.
Proof. reflexivity. Qed.

Lemma text_ok_units s : text_ok s → Forall is_unit s.
Proof. by intros []. Qed.

(** A client's message, read by the gateway. *)
Lemma read_message id mid type room payload t :
  text_ok id → text_ok mid → text_ok type → text_ok room → text_ok payload → is_int64 t = true →
  read_envelope (message id mid type room (Some (JStr payload)) t) = (Envelope id mid type room payload t [] [], true).
Proof.
  intros H1 H2 H3 H4 H5 Ht. unfold read_envelope, Unmarshal.
  destruct (parse_message id mid type room (Some (JStr payload)) t) as [E _];
    [by apply text_ok_units..|intros v [= <-]; apply bool_decide_eq_true, H5|].
  rewrite E. clear E. cbn [AppFacts.envelope obj omap list_omap fmap option_fmap option_map fst snd].
  unfold decode_members. cbn [fold_left fst snd]. unfold no_envelope.
  rewrite member_id. cbn [as_string fmap option_fmap option_map fst snd]. rewrite utf8_text_ok by done.
  rewrite member_msgId. cbn [as_string fmap option_fmap option_map fst snd]. rewrite utf8_text_ok by done.
  rewrite member_type. cbn [as_string fmap option_fmap option_map fst snd]. rewrite utf8_text_ok by done.
  rewrite member_room. cbn [as_string fmap option_fmap option_map fst snd]. rewrite utf8_text_ok by done.
  rewrite member_payload. cbn [as_string fmap option_fmap option_map fst snd]. rewrite utf8_text_ok by done.
  rewrite member_timestamp. cbn [as_int64]. by rewrite Ht.
Qed.

Definition envelope_units (e : envelope) : Prop :=
  Forall (Forall is_unit) [e_ID e; e_MsgID e; e_Type e; e_Room e; e_Payload e; e_Sig e; e_To e].

(** The fields of an envelope, as the browser finds them. *)
Definition envelope_fields (e : envelope) : list (jsstr * option json) :=
  [(lit "id", Some (JStr (e_ID e))); (lit "msgId", omitempty (e_MsgID e)); (lit "type", Some (JStr (e_Type e)));
   (lit "room", Some (JStr (e_Room e))); (lit "payload", omitempty (e_Payload e));
   (lit "timestamp", Some (JNum (e_Timestamp e))); (lit "sig", omitempty (e_Sig e)); (lit "to", omitempty (e_To e))].

(** A gateway's envelope, read by the browser. *)
Lemma parse_envelope e :
  envelope_units e →
  JSON_parse (marshal e) = Ok (Gateway.envelope_json e) ∧
  ∀ k, json_get (Gateway.envelope_json e) k = map_get (envelope_fields e) k ≫= Datatypes.id.
Proof.
  intros Hu. unfold envelope_units in Hu. repeat (apply Forall_cons in Hu as [?H Hu]).
  assert (NoDup [lit "id"; lit "msgId"; lit "type"; lit "room"; lit "payload"; lit "timestamp"; lit "sig"; lit "to"]) as Hn by decided.
  assert (∀ s v, Forall is_unit s → omitempty s = Some v → json_wf v = true) as Ho.
  { intros [|c s] v Hs; [done|]. intros [= <-]. by apply bool_decide_eq_true. }
  split; [|intros k; by apply json_get_obj]. apply JSON_parse_Marshal, obj_wf; [done|].
  repeat apply Forall_cons_2; try apply Forall_nil_2; (split; [decided|]); cbn [snd]; intros v;
    try (intros [= <-]; cbn [json_wf]; rewrite ?bool_decide_eq_true; done); by apply Ho.
Qed.

Lemma hex_units b : Forall is_byte b → Forall is_unit (hex b).
Proof.
  induction 1 as [|x b Hx _ IH]; [constructor|]. unfold is_byte in Hx.
  repeat apply Forall_cons_2; [| |exact IH]; unfold is_unit, hex_digit; destruct (_ <? 10); zdivs.
Qed.

Lemma b64_ascii l : Forall is_byte l → text_ok (b64_encode l).
Proof.
  intros Hl. apply text_ok_ascii, Forall_app_2.
  - apply Forall_fmap. eapply Forall_impl; [by apply sextets_range|]. intros v Hv. unfold is_sextet in Hv.
    cbn. unfold is_ascii, b64_char. repeat case_match; lia.
  - destruct (b64_pad_cases l) as [->|[->| ->]]; decided.
Qed.

Lemma encrypt_text_ok `{!WebCrypto} `{!WebCryptoLaws} k iv s c :
  iv_ok iv → Forall is_unit s → encrypt (Some k) iv s = Ok c → text_ok c.
Proof.
  intros Hiv Hs E. rewrite encrypt_bytes, encryptBytes_format in E by (done || by apply TextEncoder_bytes).
  injection E as <-. apply b64_ascii, Forall_app. split; [apply Hiv|by apply aes_seal_bytes, TextEncoder_bytes].
Qed.

Section Conversation.
Context `{!WebCrypto} `{!WebCryptoLaws} (randomUUID : nat → jsstr) (twice_error : jsstr) (env : option Z).
Context (hmac_sha256 : bytes → bytes → bytes) (letter_or_number : Z → bool) (serverKey : bytes).
Context (Hmac : ∀ key b, Forall is_byte (hmac_sha256 key b)).

Abbreviation signEnvelope := (signEnvelope hmac_sha256 serverKey).
Abbreviation handles := (handle_message hmac_sha256 letter_or_number serverKey).

(** A text comes in on a socket that is open. *)
Lemma receive_dispatch s text url v (b : app) :
  socket_state (a_client b) s = Some OPEN → JSON_parse text = Ok v →
  app_exec randomUUID twice_error env b (AReceive s text url) =
  App.dispatch randomUUID url v (App.hear (onmessage text (a_client b)) b).
Proof. intros Hs Hv. cbn [app_exec cl_exec]. rewrite decide_True by done. cbn [mbind option_bind]. by rewrite Hv. Qed.

Lemma signed_units e : envelope_units e → envelope_units (signEnvelope e).
Proof.
  unfold envelope_units. intros Hu. repeat (apply Forall_cons in Hu as [?H Hu]).
  repeat apply Forall_cons_2; try apply Forall_nil_2; try done. apply hex_units, Hmac.
Qed.
End Conversation.

Section Properties.
Context `{!WebCrypto} `{!WebCryptoLaws} (randomUUID : nat → jsstr) (twice_error : jsstr) (env : option Z).
Context (hmac_sha256 : bytes → bytes → bytes) (letter_or_number : Z → bool) (serverKey : bytes).
Context (Hmac : ∀ key b, Forall is_byte (hmac_sha256 key b)).

End Properties.

(** ** An example *)

Module ConversationExamples.
Import Toy AppExamples.

(** Both are in the room, at the gateway too; Alice has typed a text. *)
Abbreviation gateway_now := GatewayExamples.s2.
Abbreviation alice := GatewayExamples.a.
Abbreviation bob := GatewayExamples.b.
Definition bob_peer : peer := default newPeer (s_peers gateway_now !! bob).

Lemma member_check room q (s : server) : bool_decide (q ∈ Peers room (s_store s)) = true → member (s_store s) room q.
Proof. intros H%bool_decide_eq_true_1. by apply elem_of_Peers. Qed.

Lemma uuid_texts n : uuid n ≠ [] ∧ text_ok (uuid n).
Proof.
  split; [done|]. apply text_ok_cons; [decided|].
  assert (dec_nat (Z.of_nat n) = dec_int (Z.of_nat n)) as ->
    by (unfold dec_int; destruct (Z.of_nat n <? 0) eqn:E; [apply Z.ltb_lt in E; lia|done]).
  apply text_ok_dec_int.
Qed.

Lemma toy_mac_bytes key b : Forall is_byte (GatewayExamples.toy_mac key b).
Proof. constructor; [|constructor]. unfold is_byte. apply Z.mod_pos_bound. lia. Qed.

End ConversationExamples.
