(* ===== verification/Meeting.v ===== *)
(** * Two members meet at the gateway

    Agreeing on a key by passphrase, with the gateway in between: each member
    asks to join with a salt of its own, the gateway keeps the one of whoever
    was first and tells it to all, and the applications take it over. *)

From stdpp Require Import sorting.
From S2P Require Import Prelude JsLib Base64 Text Json Crypto Uri Timers Client Rooms Typing WebRTC MeshHook CallManager.
From S2P Require Import AppState App AppFacts AppKeys.
From S2P Require Import GoLib Storage Gateway GatewayFacts GatewayRuns Conversation.

Local Open Scope Z_scope.

(** ** What a join puts on the wire *)

(** The part of the client that its listeners have no part in. *)
Definition net (c : client) : option nat * list socket * list (jsstr * option json) * Z :=
  (cl_ws c, cl_sockets c, cl_joined c, cl_now c).

Lemma net_eq c c' : net c = net c' →
  open_ws c = open_ws c' ∧ (∀ s, socket_state c s = socket_state c' s) ∧ cl_joined c = cl_joined c' ∧ cl_now c = cl_now c'.
Proof. intros [= E1 E2 E3 E4]. unfold open_ws, socket_state. by rewrite E1, E2, E3, E4. Qed.

Lemma net_unsubscribe_all es c : net (fold_left (λ c e, unsubscribe e.1 e.2 c) es c) = net c.
Proof. revert c. induction es as [|e es IH]; intros c; [done|]. cbn. rewrite IH. unfold unsubscribe. by destruct (map_get _ _). Qed.

Lemma net_on_all es c : net (fold_left (λ c e, on e.1 e.2 c) es c) = net c.
Proof. revert c. induction es as [|e es IH]; intros c; [done|]. cbn. by rewrite IH. Qed.

Section Wire.
Context `{!WebCrypto} `{!WebCryptoLaws} (randomUUID : nat → jsstr) (env : option Z).

Lemma net_setup (a : app) : net (a_client (setupGlobalHandlers env a)) = net (a_client a).
Proof.
  unfold setupGlobalHandlers. cbn [a_client set_handlers with_client]. rewrite net_on_all.
  change (a_client (initAssembler (startRotation env (activeRoom a) _ (unsubscribe_all a)))) with (a_client (unsubscribe_all a)).
  unfold unsubscribe_all. destruct (a_handlers a); [apply net_unsubscribe_all|done].
Qed.

(** A join that the client keeps goes out, when the socket is open. *)
Lemma join_sent room payload s c :
  let c' := (Client.send randomUUID (lit "join") room (Some payload) None c).2 in
  open_ws c' = Some s → map_has (cl_joined c') room = true →
  WsSend s (message (randomUUID (cl_uuids c)) (randomUUID (S (cl_uuids c))) (lit "join") room (Some payload) (cl_now c')) ∈ cl_log c'.
Proof.
  cbv zeta. unfold Client.send, track_room. rewrite bool_decide_true by done.
  destruct (negb (map_has (cl_joined c) room) && _) eqn:E; cbn [snd fst].
  - intros _ Hk. change (cl_joined (emit _ _ c)) with (cl_joined c) in Hk. by rewrite Hk in E.
  - set (c1 := draw_uuids 2 _). change (queues (lit "join")) with false. cbv iota.
    destruct (open_ws c1) as [s1|] eqn:E1; cbn [snd]; [|by rewrite E1].
    change (open_ws (log _ c1)) with (open_ws c1). rewrite E1. intros [= ->] _. apply elem_of_app. right. by apply list_elem_of_singleton.
Qed.

Lemma finish_join_sent room link first fields salt s (b : app) :
  map_get (rm_salts (a_rm b)) room = Some salt → Forall is_byte salt →
  let a' := finish_join randomUUID env room link first fields b in
  open_ws (a_client a') = Some s → map_has (cl_joined (a_client a')) room = true →
  ∃ n, WsSend s (message (randomUUID n) (randomUUID (S n)) (lit "join") room
                   (Some (JStr (JSON_stringify (JObj (fields ++ [(lit "salt", JStr (b64_encode salt))]))))) (cl_now (a_client a')))
         ∈ cl_log (a_client a').
Proof.
  intros Hsalt Hb. cbv zeta. unfold finish_join. set (b1 := if first && _ then _ else _). set (b2 := with_page _ b1).
  assert (rm_salts (a_rm b2) = rm_salts (a_rm b)) as E.
  { transitivity (rm_salts (a_rm b1)); [done|]. unfold b1. destruct (first && _); [|done].
    match goal with |- context [setupGlobalHandlers env ?x] => set (x0 := x) end.
    transitivity (rm_salts (a_rm (unsubscribe_all x0))); [done|].
    pose proof (refs_unsubscribe x0) as Hr. unfold refs_of in Hr. by injection Hr as _ -> _ _ _. }
  rewrite E, Hsalt, uint8ToBase64_bytes by done. cbn [mbind result_bind mret result_ret].
  replace (match fields ++ _ with [] => JNull | _ => _ end)
    with (JStr (JSON_stringify (JObj (fields ++ [(lit "salt", JStr (b64_encode salt))])))) by (by destruct fields).
  intros Hs Hj. eexists. by apply join_sent.
Qed.
End Wire.

(** ** What the gateway reads of it *)

Lemma utf16_units cp : is_scalar cp → Forall is_unit (utf16 cp).
Proof.
  unfold is_scalar, utf16. intros Hs. case_match; repeat apply Forall_cons_2; try apply Forall_nil_2; unfold is_unit; zdivs.
Qed.

Lemma utf16s_units cps : Forall is_scalar cps → Forall is_unit (utf16s cps).
Proof. unfold utf16s. induction 1 as [|cp cps Hcp _ IH]; [constructor|]. cbn. apply Forall_app_2; [by apply utf16_units|done]. Qed.

Lemma TrimSpace_units s : Forall is_unit s → Forall is_unit (TrimSpace s).
Proof.
  assert (∀ t, Forall is_unit t → Forall is_unit (trim_left t)) as Ht
    by (intros t; induction 1; cbn; [constructor|destruct (go_space _); auto]).
  intros Hs. unfold TrimSpace. by apply Forall_reverse, Ht, Forall_reverse, Ht.
Qed.

Lemma sanitized_units nick : Forall is_unit nick → Forall is_unit (sanitizeNickname nick).
Proof.
  intros Hn. apply TrimSpace_units, utf16s_units, Forall_take. apply Forall_forall. intros r Hr.
  apply list_elem_of_In, filter_In in Hr as [Hr _]. revert r Hr. apply List.Forall_forall. by apply usv_scalar_any.
Qed.

Lemma utf8_text_units s : Forall is_unit s → Forall is_unit (utf8_text s).
Proof. intros Hs. by apply utf16s_units, usv_scalar_any. Qed.

(** Text that was trimmed by the application. *)
Lemma trim_units s : Forall is_unit s → Forall is_unit (trim s).
Proof.
  assert (∀ t, Forall is_unit t → Forall is_unit (trim_start t)) as Ht
    by (intros t; induction 1; cbn; [constructor|destruct (js_space _); auto]).
  intros Hs. unfold trim. by apply List.Forall_rev, Ht, List.Forall_rev, Ht.
Qed.

(** The gateway finds the salt, and some nickname. *)
Lemma read_join_salt fields b :
  let jp := (decode_members join_member fields (JoinPayload [] 0 [])).1 in
  json_wf (JObj (fields ++ [(lit "salt", JStr b)])) = true → text_ok b →
  read_join (JSON_stringify (JObj (fields ++ [(lit "salt", JStr b)]))) = JoinPayload (jp_Nickname jp) (jp_TTLSeconds jp) b.
Proof.
  cbv zeta. intros Hwf Hb.
  assert (∀ p, p ≠ [] → read_join p = (Unmarshal join_member (JoinPayload [] 0 []) p).1) as -> by (by intros []).
  2: { intros E. apply JSON_parse_stringify in Hwf. rewrite E in Hwf. discriminate Hwf. }
  unfold Unmarshal. rewrite JSON_parse_stringify by done. unfold decode_members. rewrite fold_left_app.
  set (x := fold_left _ fields _). cbn [fold_left fst snd]. destruct x as [[nick ttl salt] ok]. cbn [fst snd].
  change (join_member (lit "salt") (JStr b) (JoinPayload nick ttl salt)) with (Some (JoinPayload nick ttl (utf8_text b))).
  cbn [fst snd jp_Nickname jp_TTLSeconds]. by rewrite utf8_text_ok.
Qed.

Section Joining.
Context `{!WebCrypto} `{!WebCryptoLaws}.

Lemma join_fields_ok ttl (a : app) b :
  Forall is_unit (a_nickname a) → text_ok b →
  json_wf (JObj (join_fields ttl a ++ [(lit "salt", JStr b)])) = true ∧
  Forall is_unit (jp_Nickname (decode_members join_member (join_fields ttl a) (JoinPayload [] 0 [])).1).
Proof.
  intros Hn%trim_units Hb%text_ok_units. unfold join_fields. split.
  - cbn [json_wf]. rewrite forallb_app. destruct (str_empty _), (ttl >? 0); cbn; by rewrite ?(bool_decide_eq_true_2 _ Hn), ?(bool_decide_eq_true_2 _ Hb).
  - assert (∀ n, join_member (lit "nickname") (JStr n) (JoinPayload [] 0 []) = Some (JoinPayload (utf8_text n) 0 [])) as En by done.
    assert (∀ n, join_member (lit "ttlSeconds") (JNum ttl) (JoinPayload n 0 []) = (λ x, JoinPayload n x []) <$> as_int64 (JNum ttl) 0)
      as Et by done.
    apply utf8_text_units in Hn.
    destruct (str_empty _), (ttl >? 0); unfold decode_members; cbn [Datatypes.app fold_left fst snd];
      rewrite ?En; cbn [fst snd]; rewrite ?Et; try destruct (as_int64 _ _); by try constructor.
Qed.
End Joining.

(** ** What the gateway keeps, and tells *)

(** The room has this salt, and its members are named by texts. *)
Definition salted (room : jsstr) (salt : bytes) (s : store) : Prop :=
  ∃ r, s !! room = Some r ∧ r_Salt r = salt ∧ map_Forall (λ id nick, Forall is_unit id ∧ Forall is_unit nick) (r_Peers r).

Section Entering.
Context (hmac_sha256 : bytes → bytes → bytes) (serverKey : bytes).

Abbreviation announcement := (announcement hmac_sha256 serverKey).
Abbreviation welcomed := (welcomed hmac_sha256 serverKey).

(** The first member brings the salt, the others do not change it. *)
Lemma entered_salted q room nick ttl salt salt0 s :
  Forall is_unit q → Forall is_unit nick →
  (s_store s !! room = None ∧ salt = salt0) ∨ salted room salt0 (s_store s) →
  salted room salt0 (s_store (entered q room nick ttl salt s)) ∧ member (s_store (entered q room nick ttl salt s)) room q.
Proof.
  intros Hq Hn Hr. split.
  2: { unfold entered. cbv zeta. cbn [s_store on_store]. destruct (str_empty nick); [|apply member_SetNickname]; apply member_Join; by left. }
  assert (salted room salt0 (JoinWithTTL (s_now (enter_room q room s)) room q (ttl_for_join ttl) salt (s_store s)).2) as Hj.
  { unfold JoinWithTTL. cbn [snd]. eexists. split; [apply lookup_insert_eq|].
    destruct Hr as [[-> ->]|(r & -> & Hs & Hp)]; cbn; (split; [done|]).
    - apply map_Forall_insert_2; [by split|apply map_Forall_empty].
    - destruct (r_Peers r !! q); [done|]. by apply map_Forall_insert_2. }
  unfold entered. cbv zeta. cbn [s_store on_store]. change (s_store (enter_room q room s)) with (s_store s).
  destruct (str_empty nick); [done|]. destruct Hj as (r & Hr' & Hs & Hp). unfold SetNickname. rewrite Hr'.
  destruct (r_Peers r !! q) as [old|] eqn:Eq; [|by exists r].
  eexists. split; [apply lookup_insert_eq|]. split; [done|]. by apply map_Forall_insert_2.
Qed.

Lemma entered_frame q room nick ttl salt s :
  let s' := entered q room nick ttl salt s in
  s_conns s' = s_conns s ∧ s_peers s' = s_peers s ∧ s_now s' = s_now s ∧
  ∀ q', rooms_of q' s' = if decide (q' = q) then {[room]} ∪ rooms_of q s else rooms_of q' s.
Proof.
  cbv zeta. split_and!; try done. intros q'. unfold rooms_of at 1. cbn. case_decide as E.
  - subst. by rewrite lookup_insert_eq.
  - by rewrite lookup_insert_ne.
Qed.

(** What becomes of the queues when somebody has joined. *)
Lemma welcomed_frame q room s :
  let s' := welcomed q room s in same_rooms s s' ∧ (all_open s → all_open s') ∧
  ∀ p, s_peers s' !! p =
    (let told := if decide (p ∈ audience room [] s) then push (announcement room s) <$> s_peers s !! p else s_peers s !! p in
     if decide (p = q) then push (room_list q s) <$> told else told).
Proof.
  cbv zeta. unfold GatewayRuns.welcomed. set (s1 := send_all _ _ s).
  change (room_list q s1) with (room_list q s). set (s2 := send_all [q] _ s1).
  match goal with |- context [forward ?e s2] => destruct (forward_frame e s2) as [Ep (E1 & E2 & E3)]; set (s3 := forward e s2) in * end.
  split; [|split].
  - unfold same_rooms. by rewrite E1, E2, E3.
  - intros Ho q' Hq'. rewrite Ep. rewrite E2 in Hq'. by apply send_all_takes, send_all_takes, Ho.
  - intros p. rewrite Ep. unfold s2. rewrite send_all_lookup by apply NoDup_singleton. unfold s1.
    rewrite send_all_lookup by apply NoDup_audience.
    destruct (decide (p = q)) as [->|Hne]; [rewrite decide_True by set_solver|rewrite decide_False by set_solver]; done.
Qed.

Context (Hmac : ∀ key b, Forall is_byte (hmac_sha256 key b)).

(** *** The announcement, read by the browser *)

(** The envelopes the gateway makes. *)
Lemma sent_units type room payload t :
  Forall is_unit type → Forall is_unit room → Forall is_unit payload →
  envelope_units (Envelope [] [] type room payload t [] []).
Proof. intros. repeat apply Forall_cons_2; try apply Forall_nil_2; done. Qed.

Lemma Marshal_units v : json_wf v = true → Forall is_unit (Marshal v).
Proof.
  assert (∀ s, Forall is_ascii s → Forall is_unit s) as Ha.
  { intros s Hs. eapply Forall_impl; [exact Hs|]. unfold is_ascii, is_unit. lia. }
  apply text_print; [exact Ha|by intros; apply Forall_app_2|].
  intros s Hs. unfold go_body. induction Hs as [|c s Hc _ IH]; [constructor|]. cbn [mbind list_bind]. apply Forall_app_2; [|exact IH].
  unfold go_char. repeat match goal with |- context [if c =? ?k then _ else _] => destruct (c =? k); [apply Ha; decided|] end.
  destruct (_ || _); [by apply text_ok_esc_u|by constructor].
Qed.

Lemma map_json_wf (m : gmap jsstr jsstr) :
  map_Forall (λ id nick, Forall is_unit id ∧ Forall is_unit nick) m → json_wf (map_json m) = true.
Proof.
  intros Hm. unfold map_json. pose proof (merge_sort_Permutation key_le (map_to_list m)) as Hp. cbn [json_wf].
  rewrite <- list_fmap_compose. apply andb_true_iff. split.
  - apply bool_decide_eq_true. change (NoDup ((merge_sort key_le (map_to_list m)).*1)). rewrite Hp. apply NoDup_fst_map_to_list.
  - apply forallb_forall. intros x Hx%list_elem_of_In. apply list_elem_of_fmap in Hx as ([id nick] & -> & Hx).
    rewrite Hp in Hx. apply elem_of_map_to_list in Hx. destruct (Hm _ _ Hx). cbn. by rewrite !bool_decide_eq_true_2.
Qed.

Lemma presence_wf room peers ttl created salt :
  Forall is_unit room → map_Forall (λ id nick, Forall is_unit id ∧ Forall is_unit nick) peers →
  (∀ b, salt = Some b → Forall is_byte b) → json_wf (presence_json room peers ttl created salt) = true.
Proof.
  intros Hr Hp Hs. apply obj_wf; [decided|]. repeat apply Forall_cons_2; try apply Forall_nil_2; (split; [decided|]); cbn [snd]; intros v.
  - intros [= <-]. by apply bool_decide_eq_true.
  - by intros [= <-].
  - case_decide; [done|]. intros [= <-]. by apply map_json_wf.
  - unfold omitzero. repeat case_match; by intros [= <-].
  - unfold omitzero. repeat case_match; by intros [= <-].
  - destruct salt as [b|]; [|done]. cbn. unfold omitempty, EncodeToString. destruct (b64_encode b) eqn:E; [done|]. intros [= <-].
    rewrite <- E. apply bool_decide_eq_true. by apply b64_ascii, Hs.
Qed.

(** The list of the rooms of somebody who is in one. *)
Lemma list_heard q room s :
  rooms_of q s = {[room]} → Forall is_unit room →
  ∃ data, JSON_parse (room_list q s) = Ok data ∧ (∃ fs, data = JObj fs) ∧ json_get data (lit "type") = Some (JStr (lit "room_list")).
Proof.
  intros Hr Hu. unfold room_list. rewrite Hr, elements_singleton. set (v := JArr _).
  assert (json_wf v = true) as Hwf by (cbn; by rewrite bool_decide_eq_true_2).
  destruct (parse_envelope (Envelope [] [] (lit "room_list") [] (Marshal v) (millis s) [] [])) as [E Hget];
    [apply sent_units; [decided|constructor|by apply Marshal_units]|].
  eexists. split; [exact E|]. split; [by eexists|]. by rewrite Hget.
Qed.

(** What a member hears of the room: its salt. *)
Lemma announcement_heard room salt s :
  salted room salt (s_store s) → Forall is_unit room → room ≠ [] → Forall is_byte salt → length salt = 32%nat →
  ∃ presence data, JSON_parse (announcement room s) = Ok data ∧ presence_of room salt presence data.
Proof.
  intros (r & Hr & Hs & Hp) Hu Hne Hb Hl.
  assert (RoomSalt room (s_store s) = Some salt) as Er by (unfold RoomSalt; rewrite Hr, Hs; by destruct salt).
  unfold GatewayRuns.announcement, RoomTTL, PeersWithNicknames. rewrite Er, Hr. unfold presence_envelope. set (v := presence_json _ _ _ _ _).
  assert (json_wf v = true) as Hwf by (apply presence_wf; [done|done|by intros ? [= <-]]).
  destruct (parse_envelope (signEnvelope hmac_sha256 serverKey (Envelope [] [] (lit "presence") room (Marshal v) (millis s) [] [])))
    as [E Hget]; [apply signed_units; [exact Hmac|by apply sent_units; [decided|..|apply Marshal_units]]|].
  set (e := signEnvelope _ _ _) in *.
  exists v, (Gateway.envelope_json e). split; [done|]. split_and!; [by eexists|by rewrite Hget| | |].
  - rewrite Hget. change (map_get (envelope_fields e) (lit "payload") ≫= Datatypes.id) with (omitempty (Marshal v)).
    pose proof (JSON_parse_Marshal v Hwf) as HE. unfold omitempty. destruct (Marshal v) as [|c m]; [discriminate HE|].
    unfold payload_value. by rewrite HE.
  - unfold v, presence_json. rewrite json_get_obj by decided. done.
  - assert (b64_encode salt ≠ []) as Hne64.
    { intros E64. pose proof (DecodeString_EncodeToString salt Hb) as HE. unfold EncodeToString in HE. rewrite E64 in HE.
      injection HE as <-. discriminate Hl. }
    exists (b64_encode salt). split_and!; [|done|by apply base64ToUint8_encode].
    unfold v, presence_json. rewrite json_get_obj by decided. cbn. unfold EncodeToString. by destruct (b64_encode salt).
Qed.
End Entering.

(** ** What the members make of it *)

Section Reading.
Context `{!WebCrypto} `{!WebCryptoLaws} (randomUUID : nat → jsstr) (twice_error : jsstr) (env : option Z).
Implicit Types (a : app).

Abbreviation hears := (hears randomUUID env).

(** A text comes in, and what its handler starts goes on. *)
Definition reads (sock : nat) (a : app) (text : jsstr) : option app :=
  a1 ← app_exec randomUUID twice_error env a (AReceive sock text []);
  if Nat.ltb (length (a_tasks a)) (length (a_tasks a1))
  then app_exec randomUUID twice_error env a1 (AResume (length (a_tasks a))) else Some a1.

Fixpoint reads_all (sock : nat) (a : app) (texts : list jsstr) : option app :=
  match texts with [] => Some a | text :: texts => a ← reads sock a text; reads_all sock a texts end.

Definition listens (sock : nat) (a : app) : Prop := a_handlers a ≠ None ∧ socket_state (a_client a) sock = Some OPEN.

Lemma listening_stays sock a a' : stays a a' → listens sock a → listens sock a'.
Proof. unfold listens, socket_state. by intros [-> ->]. Qed.

Lemma open_listening sock a : a_handlers a ≠ None → open_ws (a_client a) = Some sock → listens sock a.
Proof.
  intros Hh Ho. split; [done|]. unfold open_ws in Ho. apply bind_Some in Ho as (s & _ & (k & Hk & Hd)%bind_Some).
  case_decide; [|done]. injection Hd as <-. unfold socket_state. rewrite Hk. cbn. by f_equal.
Qed.

(** The client's own part of a message touches neither keys nor sockets. *)
Lemma hear_frame text a : let a' := App.hear (onmessage text (a_client a)) a in refs_of a' = refs_of a ∧ stays a a'.
Proof.
  cbv zeta. split; [done|]. split; [done|]. cbn. unfold onmessage.
  destruct (JSON_parse text) as [v|]; [|done]. destruct v; try done;
    destruct (_ && _); destruct (json_get _ (lit "type")) as [[| | |[|]| |]|]; done.
Qed.

Lemma reads_hears sock text data a :
  listens sock a → JSON_parse text = Ok data →
  reads sock a text = hears data (App.hear (onmessage text (a_client a)) a).
Proof.
  intros [_ Hs] Hp. unfold reads. rewrite (receive_dispatch randomUUID twice_error env sock text [] data a) by done.
  unfold AppKeys.hears. by destruct (App.dispatch _ _ _ _).
Qed.

Lemma reads_agreed sock text room salt presence data k a :
  listens sock a → JSON_parse text = Ok data → presence_of room salt presence data → room ≠ [] → agreed room salt k a →
  ∃ a', reads sock a text = Some a' ∧ agreed room salt k a' ∧ listens sock a'.
Proof.
  intros Hl Hp Hpr Hne Ha. rewrite (reads_hears sock text data a) by done.
  destruct (hear_frame text a) as [Er Hst]. set (b := App.hear _ a) in *.
  destruct (hears_agreed randomUUID env room salt presence data k b) as (a' & H1 & H2 & H3);
    [rewrite (proj1 Hst); apply Hl|done|done|exact Ha|].
  exists a'. split_and!; [done|done|]. eapply listening_stays; [exact H3|]. by eapply listening_stays.
Qed.

Lemma reads_key sock text room salt presence data pp k0 salt0 a :
  listens sock a → JSON_parse text = Ok data → presence_of room salt presence data → room ≠ [] → length salt = 32%nat → pp ≠ [] →
  material room a = (Some (Key k0), Some salt0, Some pp) → deriveRoomKey room pp (Some salt0) = Ok k0 → tidy room a →
  ∃ k a', deriveRoomKey room pp (Some salt) = Ok k ∧ reads sock a text = Some a' ∧ agreed room salt k a' ∧ listens sock a'.
Proof.
  intros Hl Hp Hpr Hne Hs Hpp Hm Hk Ht. rewrite (reads_hears sock text data a) by done.
  destruct (hear_frame text a) as [Er Hst]. set (b := App.hear _ a) in *.
  destruct (refs_eq _ _ Er room) as [Em Ht'].
  destruct (hears_key randomUUID env room salt presence data pp k0 salt0 b) as (k & a' & H1 & H2 & H3 & H4);
    [rewrite (proj1 Hst); apply Hl|done|done|done|done|by rewrite Em|done|by apply Ht'|].
  exists k, a'. split_and!; [done|done|done|]. eapply listening_stays; [exact H4|]. by eapply listening_stays.
Qed.

(** The list of its rooms is of no interest to a member. *)
Lemma reads_list sock text data room salt k a :
  listens sock a → JSON_parse text = Ok data → (∃ fs, data = JObj fs) → json_get data (lit "type") = Some (JStr (lit "room_list")) →
  agreed room salt k a → ∃ a', reads sock a text = Some a' ∧ agreed room salt k a' ∧ listens sock a'.
Proof.
  intros Hl Hp [fs ->] Ht Ha. rewrite (reads_hears sock text (JObj fs) a) by done.
  destruct (hear_frame text a) as [Er Hst]. set (b := App.hear _ a) in *. unfold AppKeys.hears, App.dispatch.
  destruct (a_handlers b) eqn:Eh; [|by rewrite (proj1 Hst) in Eh; destruct Hl].
  assert (∀ scope, App.on_message randomUUID scope [] (JObj fs) b = Some b) as -> by (intros scope; unfold App.on_message; by rewrite Ht).
  cbn [mbind option_bind]. rewrite Nat.ltb_irrefl. exists b. split_and!; [done|exact Ha|by eapply listening_stays].
Qed.
End Reading.

(** ** Joining through the gateway *)

Section Joins.
Context `{!WebCrypto} `{!WebCryptoLaws} (randomUUID : nat → jsstr) (env : option Z).
Context (hmac_sha256 : bytes → bytes → bytes) (letter_or_number : Z → bool) (serverKey : bytes).
Context (room pp : jsstr).

(** A member that knows the passphrase joined with a salt of its own, and was
    connected when it did. *)
Record comes (salt : bytes) (sock : nat) (a' : app) : Prop := Comes {
  came : ∃ base fresh name enc ttl a, joins randomUUID env base salt fresh name pp ttl a a' ∧ may_join name room a ∧ tidy room a ∧
    (∀ c s, map_get (rm_keys (a_rm a)) room ≠ Some (Fragment (c :: s))) ∧ Forall is_unit (a_nickname a) ∧ encodeURIComponent room = Ok enc;
  came_salt : Forall is_byte salt ∧ length salt = 32%nat;
  came_listening : a_handlers a' ≠ None ∧ open_ws (a_client a') = Some sock;
  came_kept : map_has (cl_joined (a_client a')) room = true;
  came_now : is_int64 (cl_now (a_client a')) = true
}.

(** What it sent, and what the gateway reads in it. *)
Lemma comes_sent salt sock a' :
  comes salt sock a' → trim pp ≠ [] → text_ok room → (∀ n, text_ok (randomUUID n)) →
  ∃ k msg e nick ttl,
    WsSend sock msg ∈ cl_log (a_client a') ∧ read_envelope msg = (e, true) ∧ e_Type e = lit "join" ∧ e_Room e = room ∧
    read_join (e_Payload e) = JoinPayload nick ttl (b64_encode salt) ∧ Forall is_unit nick ∧
    deriveRoomKey room pp (Some salt) = Ok k ∧ material room a' = (Some (Key k), Some salt, Some pp) ∧ tidy room a'.
Proof.
  intros [(base & fresh & name & enc & ttl & a & Hj & Hm & Ht & Hf & Hn & He) [Hb Hl] [Hh Hs] Hk Hnow] Hpp Hroom Hu.
  destruct (joins_material randomUUID env base salt fresh name room pp ttl enc a a') as (k & Ek & Mk & Tk); [done..|].
  destruct (joins_shape randomUUID env base salt fresh name room pp ttl enc a a') as (k' & link & first & b & _ & -> & Mb & _); [done..|].
  injection Mb as _ Sb _. destruct (finish_join_sent randomUUID env room link first (join_fields ttl a) salt sock b) as (n & Hw); [done..|].
  destruct (join_fields_ok ttl a (b64_encode salt)) as [Hwf Hnick]; [done|by apply b64_ascii|].
  eexists k, _, _, _, _. split; [exact Hw|]. split; [apply read_message; try done; [split; [decided|reflexivity]|by apply text_ok_stringify]|].
  split_and!; [done|done|by apply read_join_salt, b64_ascii|done|done|done|done].
Qed.

(** What its join does at the gateway. *)
Lemma gateway_joins q msg e nick ttl salt s :
  read_envelope msg = (e, true) → e_Type e = lit "join" → e_Room e = room → validateRoomName letter_or_number room = [] →
  read_join (e_Payload e) = JoinPayload nick ttl (b64_encode salt) → Forall is_byte salt → length salt = 32%nat →
  all_open s → q ∈ s_conns s → rooms_of q s = ∅ → (Count room (s_store s) = 0 → RoomCount (s_store s) < maxRooms)%nat →
  run (handle_message hmac_sha256 letter_or_number serverKey q msg) s =
  Some (true, welcomed hmac_sha256 serverKey q room (entered q room (sanitizeNickname nick) ttl salt s)).
Proof.
  intros Hr Ht He Hv Hj Hb Hl Ho Hq Hrooms Hc. unfold handle_message. rewrite Hr, handle_envelope_in_room by (by rewrite ?Ht, ?He).
  rewrite Ht. change (bool_decide (lit "join" = lit "join")) with true. cbv iota. rewrite (run_handle_join _ _ q e salt).
  - by rewrite Hj, He.
  - done.
  - done.
  - by rewrite He.
  - right. rewrite Hrooms, size_empty. unfold MaxRooms. lia.
  - rewrite Hj. cbn [jp_Salt]. pose proof (DecodeString_EncodeToString salt Hb) as E. unfold EncodeToString in E.
    unfold join_salt. destruct (b64_encode salt) as [|x xs] eqn:Ex; [injection E as <-; discriminate Hl|].
    by rewrite E, decide_True.
Qed.
End Joins.

Lemma push_queue data p : (length (p_queue p) < peerSendBufSize)%nat → p_queue (push data p) = p_queue p ++ [data].
Proof. intros Hl. unfold push. by destruct (Nat.ltb_spec (length (p_queue p)) peerSendBufSize); [|lia]. Qed.

Lemma entered_member q room nick ttl salt s n p :
  member (s_store (entered q room nick ttl salt s)) n p ↔ (n = room ∧ p = q) ∨ member (s_store s) n p.
Proof.
  unfold entered. cbv zeta. cbn [s_store on_store]. destruct (str_empty nick); rewrite ?member_SetNickname; apply member_Join.
Qed.

Section Told.
Context (hmac_sha256 : bytes → bytes → bytes) (serverKey : bytes).
Context (q room nick : jsstr) (ttl : Z) (salt : bytes) (s : server).

Abbreviation e := (entered q room nick ttl salt s).
Abbreviation s' := (welcomed hmac_sha256 serverKey q room e).
Abbreviation told := (announcement hmac_sha256 serverKey room e).

(** A join changes the room and who is in it, and nothing about others. *)
Lemma told_frame :
  s_store s' = s_store e ∧ s_conns s' = s_conns s ∧ (all_open s → all_open s') ∧
  rooms_of q e = {[room]} ∪ rooms_of q s ∧ ∀ p, p ≠ q → rooms_of p s' = rooms_of p s.
Proof.
  destruct (entered_frame q room nick ttl salt s) as (F1 & F2 & _ & F4).
  destruct (welcomed_frame hmac_sha256 serverKey q room e) as ((W1 & W2 & W3) & W4 & _). split_and!; [done|congruence| | |].
  - intros Ho. apply W4. intros p. rewrite F1, F2. apply Ho.
  - by rewrite F4, decide_True.
  - intros p Hp. transitivity (rooms_of p e); [unfold rooms_of; by rewrite W3|]. by rewrite F4, decide_False.
Qed.

(** Every member hears of it, the one that joined gets its rooms as well. *)
Lemma told_peer p x :
  p ∈ s_conns s → p ≠ [] → s_peers s !! p = Some x → (length (p_queue x) + (if decide (p = q) then 2 else 1) ≤ peerSendBufSize)%nat →
  ∃ x', s_peers s' !! p = Some x' ∧
    p_queue x' = p_queue x ++ (if decide (p = q) then [told; room_list q e] else if decide (member (s_store s) room p) then [told] else []).
Proof.
  intros Hc Hne Hx Hl. destruct (entered_frame q room nick ttl salt s) as (F1 & F2 & _ & _).
  destruct (welcomed_frame hmac_sha256 serverKey q room e) as (_ & _ & W5). rewrite W5, F2, Hx. cbv zeta.
  assert (p ∈ audience room [] e ↔ p = q ∨ member (s_store s) room p) as Haud
    by (rewrite elem_of_audience, F1, entered_member; naive_solver).
  assert (p_queue (push told x) = p_queue x ++ [told]) as E by (apply push_queue; destruct (decide (p = q)); lia).
  destruct (decide (p = q)) as [->|Hpq].
  - rewrite decide_True by (apply Haud; by left). eexists. split; [done|].
    rewrite push_queue by (rewrite E, length_app; cbn; lia). by rewrite E, <- app_assoc.
  - destruct (decide (member (s_store s) room p)) as [Hm|Hm].
    + rewrite decide_True by (apply Haud; by right). by eexists.
    + rewrite decide_False by (rewrite Haud; naive_solver). exists x. by rewrite app_nil_r.
Qed.
End Told.

(** Two joins of a room that is new, one after the other: the first member's
    salt is the room's, and is told to both. *)
Lemma two_joins hmac serverKey room pa pb nickA nickB ttlA ttlB saltA saltB qa qb s :
  let e1 := entered pa room (sanitizeNickname nickA) ttlA saltA s in
  let s1 := welcomed hmac serverKey pa room e1 in
  let e2 := entered pb room (sanitizeNickname nickB) ttlB saltB s1 in
  let s2 := welcomed hmac serverKey pb room e2 in
  let told := announcement hmac serverKey room in
  pa ∈ s_conns s → pb ∈ s_conns s → pa ≠ pb → pa ≠ [] → pb ≠ [] → Forall is_unit pa → Forall is_unit pb →
  Forall is_unit nickA → Forall is_unit nickB → s_store s !! room = None →
  s_peers s !! pa = Some qa → (length (p_queue qa) + 3 ≤ peerSendBufSize)%nat →
  s_peers s !! pb = Some qb → (length (p_queue qb) + 2 ≤ peerSendBufSize)%nat →
  salted room saltA (s_store e1) ∧ salted room saltA (s_store e2) ∧ Count room (s_store s1) ≠ 0%nat ∧
  ∃ qa' qb', s_peers s2 !! pa = Some qa' ∧ p_queue qa' = p_queue qa ++ [told e1; room_list pa e1; told e2] ∧
             s_peers s2 !! pb = Some qb' ∧ p_queue qb' = p_queue qb ++ [told e2; room_list pb e2].
Proof.
  cbv zeta. intros Hca Hcb Hab Hna Hnb Hua Hub HnA HnB Hr Hqa Hla Hqb Hlb. set (e1 := entered pa _ _ _ _ _).
  destruct (entered_salted pa room (sanitizeNickname nickA) ttlA saltA saltA s) as [T1 (r & Er & Hp)];
    [done|by apply sanitized_units|by left|]. fold e1 in T1, Er.
  destruct (told_frame hmac serverKey pa room (sanitizeNickname nickA) ttlA saltA s) as (W1 & W2 & _). fold e1 in W1, W2.
  set (s1 := welcomed hmac serverKey pa room e1) in *.
  destruct (entered_salted pb room (sanitizeNickname nickB) ttlB saltB saltA s1) as [T2 _];
    [done|by apply sanitized_units|right; by rewrite W1|].
  destruct (told_peer hmac serverKey pa room (sanitizeNickname nickA) ttlA saltA s pa qa) as (qa1 & A1 & A2);
    [done..|rewrite decide_True by done; lia|].
  destruct (told_peer hmac serverKey pa room (sanitizeNickname nickA) ttlA saltA s pb qb) as (qb1 & B1 & B2);
    [done..|rewrite decide_False by congruence; lia|].
  rewrite decide_True in A2 by done. rewrite decide_False, decide_False, app_nil_r in B2 by (congruence || (intros (? & E & _); congruence)).
  destruct (told_peer hmac serverKey pb room (sanitizeNickname nickB) ttlB saltB s1 pa qa1) as (qa2 & A3 & A4);
    [by rewrite W2|done|done|rewrite A2, length_app, decide_False by congruence; cbn; lia|].
  destruct (told_peer hmac serverKey pb room (sanitizeNickname nickB) ttlB saltB s1 pb qb1) as (qb2 & B3 & B4);
    [by rewrite W2|done|done|rewrite B2, decide_True by done; lia|].
  rewrite decide_False, decide_True in A4 by (congruence || (rewrite W1; by exists r)). rewrite decide_True in B4 by done.
  split_and!; [done|done| |].
  - rewrite W1. unfold Count. rewrite Er. intros E0%map_size_empty_iff. rewrite E0, lookup_empty in Hp. by destruct Hp.
  - exists qa2, qb2. split_and!; [exact A3|rewrite A4, A2, <- app_assoc; reflexivity|exact B3|by rewrite B4, B2].
Qed.

Section Properties.
Context `{!WebCrypto} `{!WebCryptoLaws} (randomUUID : nat → jsstr) (twice_error : jsstr) (env : option Z).
Context (hmac_sha256 : bytes → bytes → bytes) (letter_or_number : Z → bool) (serverKey : bytes).
Context (Hmac : ∀ key b, Forall is_byte (hmac_sha256 key b)).

Abbreviation handles := (handle_message hmac_sha256 letter_or_number serverKey).
Abbreviation reads_all := (reads_all randomUUID twice_error env).

(** C4: two members who know one passphrase meet in a room that nobody is in yet.
    Each joins with a salt of its own; the gateway keeps the salt of the first
    and tells it to both; when they have read what the gateway put into their
    queues, both hold the key derived from the passphrase and that salt, and
    what one encrypts the other decrypts. *)
Theorem passphrase_through_gateway room pp saltA saltB sockA sockB pa pb qa qb (a b : app) (s : server) :
  text_ok room → validateRoomName letter_or_number room = [] → trim pp ≠ [] → (∀ n, text_ok (randomUUID n)) →
  (* the members, each with its passphrase *)
  comes randomUUID env room pp saltA sockA a → comes randomUUID env room pp saltB sockB b →
  (* the gateway: both are connected, and in no room *)
  all_open s → pa ∈ s_conns s → pb ∈ s_conns s → pa ≠ pb → pa ≠ [] → pb ≠ [] → Forall is_unit pa → Forall is_unit pb →
  rooms_of pa s = ∅ → rooms_of pb s = ∅ → s_store s !! room = None → (RoomCount (s_store s) < maxRooms)%nat →
  s_peers s !! pa = Some qa → (length (p_queue qa) + 3 ≤ peerSendBufSize)%nat →
  s_peers s !! pb = Some qb → (length (p_queue qb) + 2 ≤ peerSendBufSize)%nat →
  ∃ msgA msgB s1 s2 qa' qb' toA toB k a2 b2,
    WsSend sockA msgA ∈ cl_log (a_client a) ∧ WsSend sockB msgB ∈ cl_log (a_client b) ∧
    run (handles pa msgA) s = Some (true, s1) ∧ run (handles pb msgB) s1 = Some (true, s2) ∧
    s_peers s2 !! pa = Some qa' ∧ p_queue qa' = p_queue qa ++ toA ∧ s_peers s2 !! pb = Some qb' ∧ p_queue qb' = p_queue qb ++ toB ∧
    deriveRoomKey room pp (Some saltA) = Ok k ∧ reads_all sockA a toA = Some a2 ∧ reads_all sockB b toB = Some b2 ∧
    map_get (rm_keys (a_rm a2)) room = Some (Key k) ∧ map_get (rm_keys (a_rm b2)) room = Some (Key k) ∧
    ∀ iv text, iv_ok iv → plain_text text →
      ∃ ct, encrypt (Some k) iv text = Ok ct ∧ chat_decrypt room (Some ct) b2 = Ok text.
Proof.
  intros Hroom Hval Hpp Huu Ha Hb Ho Hca Hcb Hab Hna Hnb Hua Hub Hra Hrb Hr Hcount Hqa Hla Hqb Hlb.
  assert (room ≠ []) as Hne by (intros ->; discriminate Hval). assert (pp ≠ []) as Hpp' by (intros ->; by apply Hpp).
  destruct (comes_sent randomUUID env room pp saltA sockA a) as (kA & msgA & eA & nickA & ttlA & A1 & A2 & A3 & A4 & A5 & A6 & A7 & A8 & A9); [done..|].
  destruct (comes_sent randomUUID env room pp saltB sockB b) as (kB & msgB & eB & nickB & ttlB & B1 & B2 & B3 & B4 & B5 & B6 & B7 & B8 & B9); [done..|].
  destruct (came_salt _ _ _ _ _ _ _ Ha) as [SA1 SA2], (came_salt _ _ _ _ _ _ _ Hb) as [SB1 SB2].
  destruct (two_joins hmac_sha256 serverKey room pa pb nickA nickB ttlA ttlB saltA saltB qa qb s)
    as (T1 & T2 & Hc1 & qa' & qb' & Q1 & Q2 & Q3 & Q4); [done..|].
  destruct (told_frame hmac_sha256 serverKey pa room (sanitizeNickname nickA) ttlA saltA s) as (W1 & W2 & W3 & W4 & W5).
  set (e1 := entered pa room (sanitizeNickname nickA) ttlA saltA s) in *. set (s1 := welcomed hmac_sha256 serverKey pa room e1) in *.
  destruct (told_frame hmac_sha256 serverKey pb room (sanitizeNickname nickB) ttlB saltB s1) as (_ & _ & _ & V4 & _).
  set (e2 := entered pb room (sanitizeNickname nickB) ttlB saltB s1) in *. set (s2 := welcomed hmac_sha256 serverKey pb room e2) in *.
  assert (rooms_of pb s1 = ∅) as Hrb1 by (by rewrite W5).
  pose proof (gateway_joins hmac_sha256 letter_or_number serverKey room pa msgA eA nickA ttlA saltA s
    A2 A3 A4 Hval A5 SA1 SA2 Ho Hca Hra (λ _, Hcount)) as R1.
  pose proof (gateway_joins hmac_sha256 letter_or_number serverKey room pb msgB eB nickB ttlB saltB s1
    B2 B3 B4 Hval B5 SB1 SB2 (W3 Ho) ltac:(by rewrite W2) Hrb1 ltac:(done)) as R2.
  (* the members read *)
  destruct (announcement_heard hmac_sha256 serverKey Hmac room saltA e1) as (v1 & d1 & P1 & H1); [done|by apply text_ok_units|done..|].
  destruct (announcement_heard hmac_sha256 serverKey Hmac room saltA e2) as (v2 & d2 & P2 & H2); [done|by apply text_ok_units|done..|].
  pose proof (came_listening _ _ _ _ _ _ _ Ha) as [LA1 LA2]. pose proof (came_listening _ _ _ _ _ _ _ Hb) as [LB1 LB2].
  destruct (reads_key randomUUID twice_error env sockA _ room saltA v1 d1 pp kA saltA a (open_listening _ _ LA1 LA2) P1 H1)
    as (k & a2 & K1 & RA1 & GA1 & LA3); [done..|].
  destruct (reads_key randomUUID twice_error env sockB _ room saltA v2 d2 pp kB saltB b (open_listening _ _ LB1 LB2) P2 H2)
    as (k' & b2 & K2 & RB1 & GB1 & LB3); [done..|].
  rewrite K1 in K2. injection K2 as <-.
  destruct (list_heard pa room e1) as (dl1 & PL1 & O1 & TL1); [by rewrite W4, Hra, union_empty_r_L|by apply text_ok_units|].
  destruct (list_heard pb room e2) as (dl2 & PL2 & O2 & TL2); [by rewrite V4, Hrb1, union_empty_r_L|by apply text_ok_units|].
  destruct (reads_list randomUUID twice_error env sockA _ dl1 room saltA k a2 LA3 PL1 O1 TL1 GA1) as (a3 & RA2 & GA2 & LA4).
  destruct (reads_agreed randomUUID twice_error env sockA _ room saltA v2 d2 k a3 LA4 P2 H2 Hne GA2) as (a4 & RA3 & GA3 & _).
  destruct (reads_list randomUUID twice_error env sockB _ dl2 room saltA k b2 LB3 PL2 O2 TL2 GB1) as (b3 & RB2 & GB2 & _).
  set (told := announcement hmac_sha256 serverKey room) in *.
  exists msgA, msgB, s1, s2, qa', qb', [told e1; room_list pa e1; told e2], [told e2; room_list pb e2], k, a4, b3.
  split_and!; [done..| | |apply GA3|apply GB2|].
  - cbn [Meeting.reads_all]. rewrite RA1. cbn [mbind option_bind]. rewrite RA2. cbn [mbind option_bind]. by rewrite RA3.
  - cbn [Meeting.reads_all]. rewrite RB1. cbn [mbind option_bind]. by rewrite RB2.
  - intros iv text Hiv Htext. destruct (decrypt_encrypt k iv text Hiv Htext) as (ct & Hct & Hd). exists ct. split; [done|].
    unfold chat_decrypt. by rewrite (proj1 GB2).
Qed.
End Properties.

(** ** An example *)

Module MeetingExamples.
Import Toy AppExamples KeysExamples.

Definition kept (a : app) : bool :=
  is_some (a_handlers a) && bool_decide (open_ws (a_client a) = Some 0%nat) && map_has (cl_joined (a_client a)) room &&
  is_int64 (cl_now (a_client a)).

(** Somebody pressed the button with a passphrase, the key was derived, and the
    socket opened. *)
Lemma going_on_comes name s :
  match going_on name s with Some a => kept a | None => false end = true → settled 0 (online name s) = Some true →
  is_some (resume_task uuid None 0 (pressed name s)) = true → Forall is_unit name → Forall is_byte (salt s) →
  ∃ a, going_on name s = Some a ∧ comes uuid None room (lit "pass") (salt s) 0 a.
Proof.
  destruct (going_on name s) as [a|] eqn:E; [|done]. intros Hk Hs Hp Hn Hb. exists a. split; [done|].
  unfold kept in Hk. repeat apply andb_true_iff in Hk as [Hk ?Hk]. apply bool_decide_eq_true in Hk2. split.
  - exists base, k1, room, room, 0, (new_app name 0). split_and!;
      [by apply goes_on_joins|apply may_join_new|apply tidy_new|intros c w Ew; discriminate Ew|exact Hn|vm_refl].
  - by split.
  - split; [|done]. intros Eh. by rewrite Eh in Hk.
  - done.
  - done.
Qed.

Lemma alice_comes : ∃ a, going_on (lit "alice") 1 = Some a ∧ comes uuid None room (lit "pass") (salt 1) 0 a.
Proof. apply going_on_comes; [vm_refl|vm_refl|vm_refl|decided|decided]. Qed.
Lemma bob_comes : ∃ b, going_on (lit "bob") 2 = Some b ∧ comes uuid None room (lit "pass") (salt 2) 0 b.
Proof. apply going_on_comes; [vm_refl|vm_refl|vm_refl|decided|decided]. Qed.

(** Both are connected to the gateway. *)
Abbreviation a := GatewayExamples.a.
Abbreviation b := GatewayExamples.b.
Definition lobby : server :=
  g_srv (GatewayExamples.possible GatewayExamples.g0 ((GConnect a :: GatewayExamples.steps a) ++ GConnect b :: GatewayExamples.steps b)).2.

Lemma passphrase_through_gateway_witness :
  ∃ a1 b1 toA toB k a2 b2, going_on (lit "alice") 1 = Some a1 ∧ going_on (lit "bob") 2 = Some b1 ∧
    reads_all uuid [] None 0 a1 toA = Some a2 ∧ reads_all uuid [] None 0 b1 toB = Some b2 ∧
    map_get (rm_keys (a_rm a2)) room = Some (Key k) ∧ map_get (rm_keys (a_rm b2)) room = Some (Key k).
Proof.
  destruct alice_comes as (a1 & Ea & HA), bob_comes as (b1 & Eb & HB).
  destruct (passphrase_through_gateway uuid [] None GatewayExamples.toy_mac GatewayExamples.every GatewayExamples.server_key
    ConversationExamples.toy_mac_bytes room (lit "pass") (salt 1) (salt 2) 0 0 a b (default newPeer (s_peers lobby !! a))
    (default newPeer (s_peers lobby !! b)) a1 b1 lobby)
    as (msgA & msgB & s1 & s2 & qa & qb & toA & toB & k & a2 & b2 & _ & _ & _ & _ & _ & _ & _ & _ & _ & H1 & H2 & H3 & H4 & _).
  - decided.
  - vm_refl.
  - discriminate.
  - apply ConversationExamples.uuid_texts.
  - exact HA.
  - exact HB.
  - apply GatewayExamples.all_open_check. vm_refl.
  - apply (bool_decide_unpack _). vm_compute. exact I.
  - apply (bool_decide_unpack _). vm_compute. exact I.
  - discriminate.
  - discriminate.
  - discriminate.
  - decided.
  - decided.
  - apply (bool_decide_unpack _). vm_compute. exact I.
  - apply (bool_decide_unpack _). vm_compute. exact I.
  - vm_refl.
  - apply Nat.ltb_lt. vm_refl.
  - apply GatewayExamples.peer_check. vm_refl.
  - apply Nat.leb_le. vm_refl.
  - apply GatewayExamples.peer_check. vm_refl.
  - apply Nat.leb_le. vm_refl.
  - exists a1, b1, toA, toB, k, a2, b2. split_and!; [exact Ea|exact Eb|exact H1|exact H2|exact H3|exact H4].
Defined.
End MeetingExamples.
